(* ===== verification/_CoqProject ===== *)
-Q . S2P
Prelude.v
Digits.v
Fields.v
Codec.v
CodecSort.v
CodecCorrect.v
CodecBounds.v
Net.v
Mux.v
Des.v
Aes.v
KeyStore.v
Mac.v
Calendar.v
Mask.v
Store.v
Journey.v
Prog.v
Idempotency.v
Advice.v
Purchase.v
Stage.v
Outcome.v
AdvTxn.v
AdvOutcome.v
Saf.v
Gateway.v
Script.v
Rotation.v
Supervisor.v
Feed.v
Lab.v
Api.v
Accept.v
Chaos.v
Scenario.v
Ws.v
PciScan.v
Float.v
Overview.v
Config.v
Seed.v
SeedRun.v
ChaosSuite.v
Views.v
Hooks.v
Process.v
Logger.v
Admin.v
Database.v
SeedCmd.v
FakeIssuer.v
Generate.v
Settle.v
Lifecycle.v
