(* ===== verification/Prelude.v ===== *)
(** * Mini Card Network: the acquirer gateway, modelled and verified

    The repository is a small card payment network.  Its core is the acquirer gateway, the Go program
    of [src/gateway-go]: it takes card transactions over HTTP, sends them to an issuer as ISO 8583
    messages (profile MCN-87A) over one TCP connection, records them in PostgreSQL, and makes sure
    that what it does not know the outcome of is reversed or repeated until the issuer has answered.
    This library models the gateway as functions, programs over an environment and step relations
    of Rocq, and proves what makes each part correct.  File names below are those of this
    directory, paths those under [src/gateway-go/internal] unless they say otherwise.

    ** How the parts fit

    A request ([purchase], [advtxn]) reserves its idempotency key, inserts a tran_log row, takes a
    STAN and an RRN, has the message MACed by the HSM and sends it through the mux of the current
    connection.  It then records what it learned: an answer with an authentic MAC, a refusal of the
    link before anything was sent, or nothing at all, in which case an advice is queued in the
    transaction that moves the row (saf/reversal.go).  The SAF worker sends queued advices until the
    issuer records them; the sweeper finds the rows a crash left behind.  The supervisor keeps the
    connection signed on, and key rotation replaces the working keys that MACs and PIN blocks use.

    ** Files

    Shared.
    - Prelude: results, lists, strings, and the tactics shared by the files below.
    - Digits: what [strconv], [fmt] and [encoding/hex] do with numerals, and their round trips.
    - Prog: requests as trees of calls to the database, the link, the clock and the hub.  A call of
      the database takes effect and answers, fails without effect, or takes effect while its answer
      is lost; the list of choices may end anywhere, which is the crash of the process.
    - Script: the same idea as a monad, for the sequential loops of rotation and supervision.

    The message.
    - Fields, Codec: iso8583/spec_gen.go, codec.go, errors.go, segments.go.
    - CodecSort, CodecCorrect, CodecBounds: insertion sort and bitmap; the two round trips and the
      one message they do not hold for; types and lengths of what is unpacked, the size of what is
      packed, and the agreement of [UnpackSegmented] with [Unpack].
    - Mask, Journey, Lab: obs/mask.go, [journey], [lab]: what may be shown of a message, with the
      theorems that no card number, PIN block or MAC is among it.

    The link.
    - Net: isonet/framer.go, backoff.go, latency.go.
    - Mux: isonet/mux.go as a step relation over the pending table, the one-slot channels and the
      connection; every interleaving of [Send]s, cancellations and the read loop.
    - Supervisor: isonet/supervisor.go, store/links.go and the start of cmd/gateway/main.go: connect,
      sign on, echo, sign off, and the resumption of STANs.

    Keys.
    - Des, Aes: what [crypto/des], [crypto/aes] and [crypto/cipher] compute, and store/crypto.go.
    - KeyStore: store/keystore.go over the table of migration 00004.
    - Mac: hsm/jce.go, hsm/module.go, purchase/mac.go.  The interface of the HSM is the class
      [Module_]; the services are written against it, [JCEModule] implements it.
    - Rotation: [rotation]: the four steps, recovery at start, initial provisioning, keys in use.

    Transactions.
    - Calendar: [bizdate] and purchase/rrn.go over the civil calendar of [time].
    - Store: store/tranlog.go, safqueue.go, terminal.go: the tables, and each repository method as a
      function of the database that changes it or fails and leaves it as it was.
    - Idempotency: purchase/idempotency.go, and the interleaving of any number of requests.
    - Advice: saf/advice.go, payload.go, reversal.go, lookup.go.
    - Purchase, AdvTxn: purchase/service.go and [advtxn], every handler as a [prog].
    - Stage, Outcome, AdvOutcome: the invariant of one request through its send, and its two uses.
    - Saf: saf/worker.go and sweeper.go.
    - Gateway: requests, deliveries and sweeps together over one database.
    - Lifecycle: the specification, a ledger of accounts that are opened and moved along the states the
      design allows, and its refinement by every interleaving of Gateway's jobs: [skeleton_of] is the
      abstraction of the database, [change] what one call may do to it, [permitted] what a request may
      call by what it has read.
    - Settle: the sweeper and the worker in an environment that works: [run_env] decides every event by
      a function of the event and the world.
    - Feed: the paged lists of store/tranlog.go and links.go with their cursors.
    The interface.
    - Api: [api]: validation, problems, the transaction, query, lab, network and key handlers, and
      the in-memory replay of their answers.
    - Accept: what every request the API lets through puts on the wire.
    - Views: the remaining handlers of [api] (keys with their ages, terminals, the queue, health, CORS).
    - Overview: store/overview.go and [TranLogRepository.Backdate]: what the dashboard counts.
    - Ws: ws/hub.go: subscriptions, broadcasts and what a client sees of them.

    The rest of the program.
    - Float: float64 as [SpecFloat] has it, with the conversions the code uses.
    - Config: [config], and what cmd/gateway/main.go does with the keys it loads.
    - Chaos: chaos/runner.go and verify.go: runs and their verdicts, and the run handlers of api/chaos.go.
    - Scenario: chaos/scenario.go and toxiproxy_client.go over the class [Toxiproxy], and the scenario handlers.
    - Seed: seed/plan.go over a class of random generators, [Rand] with its laws [RandLaws].
    - SeedRun: seed/runner.go and fixture.go as a [script] whose replies are the gateway's, the issuer's
      and the database's.
    - SeedCmd: cmd/seed/main.go around that run.
    - ChaosSuite: src/scripts/chaos, the client of the chaos API that the nightly build runs.
    - PciScan: src/scripts/pci-scan: the detectors, the lines of a file and the exit code.
    - FakeIssuer: chaos/fakeissuer/listener.go as a step relation.
    - Admin, Logger: chaos/issuer_admin_client.go and obs/logger.go.
    - Generate: iso8583/gen/main.go and purchase/gen/main.go, which write the Go tables.

    The process.
    - Database: store/db.go: the wait for the database and the migration, one call of Process.
    - Hooks: the functions of cmd/gateway/main.go that join two components, the handler of late
      responses above all.
    - Process: cmd/gateway/main.go: the start as a script of calls, the tasks that serve and the one
      that drains as a step relation, and the exit code.

    ** What the theorems show

    - Money.  However requests, deliveries and sweeps interleave, tran_log and saf_queue follow the
      ledger of [Lifecycle]: no transaction is reversed twice, a reversal is queued exactly with the
      move that owes it, amounts and cards never change, REVERSED is final.  What is sent under one
      idempotency key is one message and its repeats ([Gateway.key_sends_once]); wherever a request
      stops, a message that may have reached the issuer is settled by an authentic answer, owed by a
      queued advice, or in a row the sweeper takes ([Outcome], [AdvOutcome]; balance inquiries owe
      nothing, and the copy the chaos hook sends can be lost); the sweeper loses none,
      queueing is atomic, an advice is acknowledged only by the issuer, is repeated as the same message,
      and no outage of the link makes it a dead letter ([Saf], [Advice]); once things work again, one
      sweep and one delivery reverse what was left, one advice each ([Settle]).
    - Messages.  The codec's round trips in both directions, independence from Go's map order, types
      and bounds, frames; correlation, delivery and absence of leaks in the mux.
    - Keys.  One ACTIVE key per pair; the retail MAC is ISO 9797-1; MACs verify under the new key, or
      under the old one for the grace period; rotation ends and follows the issuer's answers.
    - Link.  The loop's echoes only after a sign-on, the echo limit, no RRN used again after a restart.
    - Records.  Business dates roll at the cut-over, RRNs, journeys in order with their money rows,
      pages that list nothing twice while no row is backdated, and nothing shown that should be masked.
    - The interface.  What validation lets through the codec packs; a stored answer is replayed without
      acting again; hub clients see broadcasts in order, and all of them while fewer than 16 wait; a chaos
      run reads the balances before and after its purchases and ends with the verdict they give; a card
      number in a scanned file fails the build.
    - Around the gateway.  A configuration that loads is within the bounds Load checks; throughput counts each
      transaction once; a seed plan keeps what it promises whatever is drawn ([Seed]), a seed command that exits with
      0 did all of it and always ends ([SeedCmd]); the chaos suite passes only clean runs ([ChaosSuite]);
      nothing is migrated before the database answers a ping ([Database]); the fake issuer holds its
      connections ([FakeIssuer]); generated tables do not depend on map order ([Generate]).
    - The process.  A start binds its ports last and leaves none behind when it fails; once told to
      stop, or once a task has failed, the gateway ends, not ready before its servers close, with 0
      only for a stop that was asked for ([Process]); a late answer changes no outcome ([Hooks]), no
      string of a log line holds a card number ([Logger]).
    - Defects the code has are theorems too: [Hooks.late_advice_answer_taken_for_purchase],
      [Mux.Serve_can_block_forever], [Rotation.activated_key_not_loaded], [Gateway.failed_completion_still_sent],
      [Outcome.demo_copy_lost], [Supervisor.manual_echo_before_sign_on], [Feed.backdated_twice],
      [Chaos.drain_waits_for_dead_letters], [Scenario.restart_keeps_fake_issuer],
      [ChaosSuite.suite_is_refused], [Config.configured_zak_in_use], [Overview.backdated_days_count_today],
      [PciScan.simulator_cards_go_unseen], [Api.transition_acts_again], [Ws.gone_client_is_kept] and
      the second half of [CodecCorrect.Pack_Unpack].

    ** Bounds and fuel

    Every recursion that is not structural has a measure that is enough, and the theorems include
    that it is.  Padding loops run as often as the width lacks digits; the masking of a text has its
    length as fuel; a walk over pages stops at the first short page, and its rows are finitely
    many.  Loops that wait for the world (supervision, the SAF worker, rotation) consume the choices of the
    environment: [rounds] is one more than the choices left, a rotation with [n] keys needs 19 + 3n
    of them, STAN resumption two per number skipped and one more.  Go's [int] and [int64] are [Z]: the
    values that could leave 64 bits (amounts, ids, sequence numbers) are bounded by the field table or by
    the column that keeps them.  Counters the code wraps (STAN at 999999, latency ring) wrap
    here, and words of a cipher keep their width.

    ** Parameters

    What is not under [src] is an argument: SHA-256 of an idempotent request, the JSON text of stored
    responses and advices (with the hypothesis that reading it gives back what was written), random
    nonces, keys and jitter, the times of [now()] and of the clock, the order in which a map is iterated,
    the zones of the time zone database, [percentile_cont] and [make_interval], hosts in brackets of a
    URL.  Theorems that need more than their type say so in a hypothesis, and their witnesses
    instantiate it.  The group of tasks is over the class [ErrGroup], the documented contract of [errgroup]:
    the first error is kept and ends the context, and [Wait] returns it once all tasks have returned.

    ** What is not modelled

    Metrics and tracing, which no decision depends on; the statements of the migrations as programs
    (their constraints are in Store and KeyStore); the interfaces and constructors that only pass
    components to each other.  The manual triggers of the supervisor run where its loop stands still, not
    between the statements of one of its turns.  [Reserve] is one step: that its key is released between
    its two statements, and the plain ErrIdempotencyInProgress this gives, is left out.
    The issuer ([issuer-jpos]), settlement and the web console are other programs in other
    languages; the issuer appears as whatever bytes come back. *)

From stdpp Require Export base tactics list gmap strings sorting fin_maps.
From Stdlib Require Export ZArith Lia Ascii.

#[export] Set Default Goal Selector "!".

(** ** Results: a value or a typed error *)

Inductive result (E A : Type) : Type :=
  | Ok (a : A)
  | Err (e : E).
Arguments Ok {E A} a.
Arguments Err {E A} e.

#[export] Instance result_ret {E} : MRet (result E) := λ A a, Ok a.
#[export] Instance result_bind {E} : MBind (result E) := λ A B f m,
  match m with Ok a => f a | Err e => Err e end.
#[export] Instance result_fmap {E} : FMap (result E) := λ A B f m,
  match m with Ok a => Ok (f a) | Err e => Err e end.

#[export] Instance result_eq_dec {E A} `{EqDecision E, EqDecision A} :
  EqDecision (result E A).
Proof. solve_decision. Defined.

Definition is_ok {E A} (r : result E A) : bool :=
  match r with Ok _ => true | Err _ => false end.

(** The value of a Go pair [(v, err)] whose error is checked right away. *)
Definition check {E} (o : option E) : result E unit :=
  match o with Some e => Err e | None => Ok tt end.

Lemma result_bind_Ok {E A B} (m : result E A) (f : A → result E B) b :
  m ≫= f = Ok b ↔ ∃ a, m = Ok a ∧ f a = Ok b.
Proof.
  destruct m as [a|e]; cbn; split; [eauto|by intros (a' & [= <-] & ?)|discriminate|].
  by intros (a' & [=] & _).
Qed.

Lemma result_bind_Err {E A B} (m : result E A) (f : A → result E B) e :
  m ≫= f = Err e ↔ m = Err e ∨ ∃ a, m = Ok a ∧ f a = Err e.
Proof.
  destruct m as [a|e']; cbn; split; [eauto|by intros [[=]|(a' & [= <-] & ?)]|intros [= ->]; by left|].
  by intros [[= ->]|(a' & [=] & _)].
Qed.

Lemma check_Ok {E} (o : option E) u : check o = Ok u ↔ o = None.
Proof. by destruct o, u. Qed.

(** Inverts every successful bind of the context. *)
Ltac invert_ok :=
  repeat match goal with
  | H : mbind _ _ = Ok _ |- _ =>
      let a := fresh "v" in let H1 := fresh "Hm" in
      apply result_bind_Ok in H as (a & H1 & H)
  | H : check _ = Ok _ |- _ => apply check_Ok in H
  | H : Ok _ = Ok _ |- _ => injection H as H; subst
  | H : Err _ = Ok _ |- _ => discriminate H
  | H : mret _ = Ok _ |- _ => unfold mret, result_ret in H
  end.

(** Reduces binds of known results and nothing else. *)
Ltac bind_step := cbn [mbind result_bind].

(** Splits a boolean test of the goal or of a hypothesis, keeping its equation. *)
Ltac case_if :=
  match goal with
  | |- context [if ?b then _ else _] => let H := fresh "Hb" in destruct b eqn:H
  | H0 : context [if ?b then _ else _] |- _ => let H := fresh "Hb" in destruct b eqn:H
  end.

Tactic Notation "case_if" "in" hyp(H) :=
  match type of H with
  | context [if ?b then _ else _] => let Hb := fresh "Hb" in destruct b eqn:Hb
  end.

(** Follows an equation [_ = Some _] through the matches of its left-hand side. *)
Ltac step_cases H :=
  repeat match type of H with
  | None = Some _ => discriminate H
  | Some _ = Some _ => injection H as H; subst
  | context [match ?x with _ => _ end] => let E := fresh "E" in destruct x eqn:E
  end.

(** ** Fixed-width machine integers *)

(** Go's [int64] (and [int] on the 64-bit targets the gateway is built for):
    two's complement wrap-around. *)
Definition wrap64 (z : Z) : Z := (z + 2 ^ 63) mod 2 ^ 64 - 2 ^ 63.

Definition in_int64 (z : Z) : Prop := (- 2 ^ 63 ≤ z < 2 ^ 63)%Z.

Lemma wrap64_id z : in_int64 z → wrap64 z = z.
Proof. unfold in_int64, wrap64. intros. rewrite Z.mod_small; lia. Qed.

Lemma wrap64_range z : in_int64 (wrap64 z).
Proof.
  unfold in_int64, wrap64.
  pose proof (Z.mod_pos_bound (z + 2 ^ 63) (2 ^ 64)). lia.
Qed.

(** ** Generic list lemmas *)

Lemma list_sum_le_sublist (A : Type) (f : A → nat) (l k : list A) :
  l ⊆+ k → sum_list_with f l ≤ sum_list_with f k.
Proof. induction 1; simpl; lia. Qed.

Lemma last_cons_snoc {A} (x : A) (l : list A) : ∃ l' y, x :: l = l' ++ [y].
Proof. destruct (exists_last (l := x :: l)) as (l' & y & ->); [done|eauto]. Qed.
