(* ===== verification/Digits.v ===== *)
(** * Digits: fixed-width positional numerals on byte strings

    Go's [strconv] and [fmt] print and parse non-negative integers in base 10 and
    16; the codec pads them with zeros to a fixed width.  This file models those
    library calls and relates them to one reference notion, [fixed], the numeral
    of exactly [w] digits, with its two round trips. *)

From S2P Require Import Prelude.
Local Open Scope Z_scope.

(** ** Strings as byte sequences *)

Fixpoint str_forall (p : ascii → bool) (s : string) : bool :=
  match s with
  | EmptyString => true
  | String c s' => p c && str_forall p s'
  end.

Fixpoint str_map (f : ascii → ascii) (s : string) : string :=
  match s with
  | EmptyString => EmptyString
  | String c s' => String (f c) (str_map f s')
  end.

Fixpoint str_take (n : nat) (s : string) : string :=
  match n, s with
  | S n', String c s' => String c (str_take n' s')
  | _, _ => EmptyString
  end.

Fixpoint str_drop (n : nat) (s : string) : string :=
  match n, s with
  | S n', String _ s' => str_drop n' s'
  | _, _ => s
  end.

(** Go's slice expression [s[i:j]] for [i <= j <= len s]. *)
Definition str_slice (i j : nat) (s : string) : string := str_take (j - i) (str_drop i s).

Abbreviation slen := String.length.

Section strings.
Local Open Scope nat_scope.

Lemma slen_app a b : slen (a +:+ b) = slen a + slen b.
Proof. induction a as [|c a IH]; cbn; [done|by rewrite <-IH]. Qed.

Lemma app_assoc_str (a b c : string) : (a +:+ b) +:+ c = a +:+ (b +:+ c).
Proof. induction a as [|x a IH]; [done|]. apply (f_equal (String x)), IH. Qed.

Lemma app_nil_str (a : string) : a +:+ "" = a.
Proof. induction a as [|x a IH]; [done|]. apply (f_equal (String x)), IH. Qed.

Lemma str_forall_app p a b : str_forall p (a +:+ b) = str_forall p a && str_forall p b.
Proof.
  induction a as [|c a IH]; [done|].
  change (p c && str_forall p (a +:+ b) = p c && str_forall p a && str_forall p b).
  by rewrite IH, andb_assoc.
Qed.

Lemma str_take_app a b : str_take (slen a) (a +:+ b) = a.
Proof. induction a as [|c a IH]; [by destruct b|]. apply (f_equal (String c)), IH. Qed.

Lemma str_drop_app a b : str_drop (slen a) (a +:+ b) = b.
Proof. induction a as [|c a IH]; cbn; [done|exact IH]. Qed.

Lemma str_take_drop n s : str_take n s +:+ str_drop n s = s.
Proof.
  revert s; induction n as [|n IH]; intros [|c s]; [done..|].
  apply (f_equal (String c)), IH.
Qed.

Lemma slen_take n s : n ≤ slen s → slen (str_take n s) = n.
Proof.
  revert s; induction n as [|n IH]; intros [|c s]; cbn; try lia.
  intros; rewrite IH; lia.
Qed.

Lemma slen_drop n s : slen (str_drop n s) = slen s - n.
Proof. revert s; induction n as [|n IH]; intros [|c s]; cbn; auto. Qed.

Lemma str_take_drop_split n s :
  n ≤ slen s → ∃ a b, s = a +:+ b ∧ slen a = n ∧ str_take n s = a ∧ str_drop n s = b.
Proof.
  intros Hn. exists (str_take n s), (str_drop n s).
  rewrite str_take_drop, slen_take by done. done.
Qed.

Lemma str_drop_drop i j s : str_drop i (str_drop j s) = str_drop (j + i) s.
Proof. revert s; induction j as [|j IH]; intros s; [done|]. destruct s; [by destruct i|apply IH]. Qed.

Lemma slen_slice i j s : i ≤ j → j ≤ slen s → slen (str_slice i j s) = j - i.
Proof. intros. unfold str_slice. apply slen_take. rewrite slen_drop. lia. Qed.

Lemma slice_mid a b c i j :
  slen a = i → slen a + slen b = j → str_slice i j (a +:+ b +:+ c) = b.
Proof.
  intros <- <-. unfold str_slice. rewrite str_drop_app.
  replace (slen a + slen b - slen a) with (slen b) by lia. apply str_take_app.
Qed.

Lemma slice_split i j s :
  i ≤ j → str_drop i s = str_slice i j s +:+ str_drop j s.
Proof.
  intros. unfold str_slice. rewrite <-(str_take_drop (j - i) (str_drop i s)) at 1.
  f_equal. rewrite str_drop_drop. f_equal. lia.
Qed.

Lemma app_inj_len (a b c d : string) :
  slen a = slen c → a +:+ b = c +:+ d → a = c ∧ b = d.
Proof.
  revert c; induction a as [|x a IH]; intros [|y c]; cbn; try discriminate; [done|].
  intros [=Hl] [=-> He]. destruct (IH c Hl He) as [-> ->]. done.
Qed.
End strings.

(** ** Digits *)

Definition ascii_of_Z (z : Z) : ascii := ascii_of_N (Z.to_N z).
Definition Z_of_ascii (c : ascii) : Z := Z.of_N (N_of_ascii c).

(** The digit characters of [strconv.FormatUint] ("0".."9", then "a".."f"). *)
Definition digit_char (d : Z) : ascii :=
  if d <? 10 then ascii_of_Z (48 + d) else ascii_of_Z (87 + d).

Definition digit_upper (d : Z) : ascii :=
  if d <? 10 then ascii_of_Z (48 + d) else ascii_of_Z (55 + d).

Definition is_digit (c : ascii) : bool := (48 <=? Z_of_ascii c) && (Z_of_ascii c <=? 57).
Definition is_hex_upper (c : ascii) : bool :=
  is_digit c || ((65 <=? Z_of_ascii c) && (Z_of_ascii c <=? 70)).
Definition is_hex_lower (c : ascii) : bool :=
  is_digit c || ((97 <=? Z_of_ascii c) && (Z_of_ascii c <=? 102)).

Definition digit_val (c : ascii) : Z :=
  let n := Z_of_ascii c in
  if is_digit c then n - 48
  else if (65 <=? n) && (n <=? 70) then n - 55
  else if (97 <=? n) && (n <=? 102) then n - 87 else 0.

Definition upper_char (c : ascii) : ascii :=
  let n := Z_of_ascii c in
  if (97 <=? n) && (n <=? 122) then ascii_of_Z (n - 32) else c.

(** [strings.ToUpper] on ASCII text. *)
Definition ToUpper : string → string := str_map upper_char.

(** ** Printing *)

(** [strconv]'s loop: emit [n mod base] from the right until [n] is zero.  The fuel
    only has to reach the number of digits; the callers pass the bit length. *)
Fixpoint render (dg : Z → ascii) (base : Z) (fuel : nat) (n : Z) (acc : string) : string :=
  match fuel with
  | O => acc
  | S fuel' =>
      if n =? 0 then acc
      else render dg base fuel' (n / base) (String (dg (n mod base)) acc)
  end.

Definition bit_fuel (n : Z) : nat := S (Z.to_nat (Z.log2 n)).

Definition format_nonneg (dg : Z → ascii) (base : Z) (n : Z) : string :=
  if n =? 0 then String (dg 0) "" else render dg base (bit_fuel n) n "".

(** [strconv.Itoa] (and [%d]): a sign and the decimal digits. *)
Definition Itoa (n : Z) : string :=
  if n <? 0 then String "-" (format_nonneg digit_char 10 (- n))
  else format_nonneg digit_char 10 n.

(** [strconv.FormatUint(v, 16)]. *)
Definition FormatUint16 (v : Z) : string := format_nonneg digit_char 16 v.

(** Left-pads with zeros up to [width] bytes, as the [for len(s) < width] loops do. *)
Fixpoint pad_loop (fuel width : nat) (s : string) : string :=
  match fuel with
  | O => s
  | S fuel' => if (slen s <? width)%nat then pad_loop fuel' width (String "0" s) else s
  end.

(** ** Parsing *)

Fixpoint parse_acc (base : Z) (s : string) (acc : Z) : Z :=
  match s with
  | EmptyString => acc
  | String c s' => parse_acc base s' (acc * base + digit_val c)
  end.

(** [strconv.ParseUint] and [strconv.Atoi] on text already checked to be digits. *)
Definition parse (base : Z) (s : string) : Z := parse_acc base s 0.

(** ** The reference numeral: exactly [w] digits of [n] *)

Fixpoint fixed (dg : Z → ascii) (base : Z) (w : nat) (n : Z) : string :=
  match w with
  | O => ""
  | S w' => fixed dg base w' (n / base) +:+ String (dg (n mod base)) ""
  end.

(** ** Lemmas: padding and printing reach the fixed numeral *)

Lemma slen_fixed dg base w n : slen (fixed dg base w n) = w.
Proof.
  revert n; induction w as [|w IH]; intros n; [done|].
  cbn [fixed]. rewrite slen_app, IH. cbn. lia.
Qed.

Lemma fixed_forall p dg base w n :
  0 < base → (∀ d, 0 ≤ d < base → p (dg d) = true) → str_forall p (fixed dg base w n) = true.
Proof.
  intros Hb Hp. revert n; induction w as [|w IH]; intros n; [done|].
  cbn [fixed]. rewrite str_forall_app, IH. cbn. rewrite Hp; [done|].
  apply Z.mod_pos_bound; lia.
Qed.

(** [fixed] with one more digit of a number that fits in fewer digits is a zero in front. *)
Lemma fixed_S_small dg base w n :
  0 < base → dg 0 = "0"%char → 0 ≤ n < base ^ Z.of_nat w →
  fixed dg base (S w) n = String "0" (fixed dg base w n).
Proof.
  intros Hb H0. revert n; induction w as [|w IH]; intros n Hn.
  - cbn in *. replace n with 0 by lia. rewrite Z.mod_0_l by lia. by rewrite H0.
  - change (fixed dg base (S (S w)) n) with
      (fixed dg base (S w) (n / base) +:+ String (dg (n mod base)) "").
    rewrite IH; [done|]. split; [apply Z.div_pos; lia|].
    apply Z.div_lt_upper_bound; [lia|].
    rewrite Nat2Z.inj_succ, Z.pow_succ_r in Hn by lia. lia.
Qed.

(** The number of base-[base] digits [render] emits for [n]. *)
Fixpoint ndigits (base : Z) (fuel : nat) (n : Z) : nat :=
  match fuel with
  | O => O
  | S fuel' => if n =? 0 then O else S (ndigits base fuel' (n / base))
  end.

Lemma render_fixed dg base fuel n acc :
  1 < base → 0 ≤ n < 2 ^ Z.of_nat fuel →
  render dg base fuel n acc = fixed dg base (ndigits base fuel n) n +:+ acc
  ∧ n < base ^ Z.of_nat (ndigits base fuel n).
Proof.
  intros Hb. revert n acc; induction fuel as [|fuel IH]; intros n acc Hn.
  - cbn in *. split; [done|lia].
  - cbn [render ndigits]. destruct (Z.eqb_spec n 0) as [->|Hz].
    + cbn. split; [done|lia].
    + rewrite Nat2Z.inj_succ, Z.pow_succ_r in Hn by lia.
      assert (Hd : 0 ≤ n / base < 2 ^ Z.of_nat fuel).
      { split; [apply Z.div_pos; lia|]. apply Z.div_lt_upper_bound; [lia|]. nia. }
      destruct (IH (n / base) (String (dg (n mod base)) acc) Hd) as [-> Hlt].
      split; [cbn [fixed]; by rewrite app_assoc_str|].
      rewrite Nat2Z.inj_succ, Z.pow_succ_r by lia.
      pose proof (Z.div_mod n base). pose proof (Z.mod_pos_bound n base). nia.
Qed.

Lemma bit_fuel_enough n : 0 ≤ n → n < 2 ^ Z.of_nat (bit_fuel n).
Proof.
  intros Hn. unfold bit_fuel. rewrite Nat2Z.inj_succ, Z2Nat.id by apply Z.log2_nonneg.
  destruct (decide (n = 0)) as [->|]; [cbn; lia|]. apply Z.log2_spec; lia.
Qed.

Lemma pad_loop_S fuel width s :
  (slen s < width)%nat → pad_loop (S fuel) width s = pad_loop fuel width (String "0" s).
Proof. intros. cbn [pad_loop]. by rewrite (proj2 (Nat.ltb_lt _ _)). Qed.

Lemma pad_loop_done fuel width s : (width ≤ slen s)%nat → pad_loop fuel width s = s.
Proof. intros. destruct fuel; [done|]. cbn [pad_loop]. by rewrite (proj2 (Nat.ltb_ge _ _)). Qed.

(** Padding a [k]-digit numeral of a number that fits gives its [w]-digit numeral. *)
Lemma pad_loop_fixed dg base fuel w k n :
  0 < base → dg 0 = "0"%char → 0 ≤ n < base ^ Z.of_nat k → (k ≤ w)%nat → (w - k ≤ fuel)%nat →
  pad_loop fuel w (fixed dg base k n) = fixed dg base w n.
Proof.
  intros Hb H0. revert k; induction fuel as [|fuel IH]; intros k Hn Hk Hf.
  - replace k with w by lia. done.
  - destruct (decide (k = w)) as [->|].
    + apply pad_loop_done. by rewrite slen_fixed.
    + rewrite pad_loop_S by (rewrite slen_fixed; lia).
      rewrite <-fixed_S_small by done. apply IH; [|lia..].
      split; [lia|]. rewrite Nat2Z.inj_succ, Z.pow_succ_r by lia. nia.
Qed.

Lemma ndigits_le base fuel n w :
  1 < base → 0 ≤ n < base ^ Z.of_nat w → (ndigits base fuel n ≤ w)%nat.
Proof.
  intros Hb. revert n w; induction fuel as [|fuel IH]; intros n w Hn; [cbn; lia|].
  cbn. destruct (Z.eqb_spec n 0); [lia|].
  destruct w as [|w]; [cbn in Hn; lia|].
  apply le_n_S, IH. split; [apply Z.div_pos; lia|].
  apply Z.div_lt_upper_bound; [lia|].
  rewrite Nat2Z.inj_succ, Z.pow_succ_r in Hn by lia. lia.
Qed.

(** The printing loop followed by the padding loop is the fixed numeral. *)
Lemma pad_format dg base w n :
  1 < base → dg 0 = "0"%char → (0 < w)%nat → 0 ≤ n < base ^ Z.of_nat w →
  pad_loop w w (format_nonneg dg base n) = fixed dg base w n.
Proof.
  intros Hb H0 Hw Hn. unfold format_nonneg. destruct (Z.eqb_spec n 0) as [->|Hz].
  - replace (String (dg 0) "") with (fixed dg base 1 0)
      by (cbn; rewrite Z.mod_0_l by lia; done).
    apply pad_loop_fixed; try lia; done.
  - destruct (render_fixed dg base (bit_fuel n) n "") as [-> Hlt];
      [lia|split; [lia|apply bit_fuel_enough; lia]|].
    rewrite app_nil_str. pose proof (ndigits_le base (bit_fuel n) n w Hb Hn).
    apply pad_loop_fixed; try lia; done.
Qed.

(** ** Lemmas: parsing inverts the fixed numeral, both ways *)

Lemma parse_acc_app base a b acc :
  parse_acc base (a +:+ b) acc = parse_acc base b (parse_acc base a acc).
Proof. revert acc; induction a as [|c a IH]; intros acc; [done|apply IH]. Qed.

Lemma parse_fixed dg base w n :
  1 < base → (∀ d, 0 ≤ d < base → digit_val (dg d) = d) →
  0 ≤ n < base ^ Z.of_nat w → parse base (fixed dg base w n) = n.
Proof.
  intros Hb Hd. unfold parse. revert n; induction w as [|w IH]; intros n Hn.
  - cbn in *. lia.
  - cbn [fixed]. rewrite parse_acc_app, IH.
    + cbn. rewrite Hd by (apply Z.mod_pos_bound; lia).
      pose proof (Z.div_mod n base). lia.
    + split; [apply Z.div_pos; lia|]. apply Z.div_lt_upper_bound; [lia|].
      rewrite Nat2Z.inj_succ, Z.pow_succ_r in Hn by lia. lia.
Qed.

Lemma string_snoc_ind (P : string → Prop) :
  P "" → (∀ s c, P s → P (s +:+ String c "")) → ∀ s, P s.
Proof.
  intros H0 HS s. assert (Hn : ∀ n s, slen s = n → P s); [|by eapply Hn].
  clear s. intros n; induction n as [|n IH]; intros s Hs.
  - by destruct s.
  - destruct (str_take_drop_split n s) as (a & b & -> & Ha & _); [lia|].
    rewrite slen_app in Hs. destruct b as [|c [|c' b]]; cbn in Hs; try lia.
    by apply HS, IH.
Qed.

Lemma fixed_parse dg base (p : ascii → bool) s :
  1 < base →
  (∀ c, p c = true → 0 ≤ digit_val c < base ∧ dg (digit_val c) = c) →
  str_forall p s = true →
  fixed dg base (slen s) (parse base s) = s ∧ 0 ≤ parse base s < base ^ Z.of_nat (slen s).
Proof.
  intros Hb Hp. unfold parse. induction s as [|s c IH] using string_snoc_ind; intros Hs.
  - cbn. split; [done|lia].
  - rewrite str_forall_app in Hs. apply andb_true_iff in Hs as [Hs Hc]. cbn in Hc.
    rewrite andb_true_r in Hc. destruct (IH Hs) as [He Hr]. destruct (Hp c Hc) as [Hv Hdc].
    rewrite slen_app, parse_acc_app. cbn [slen parse_acc].
    replace (slen s + 1)%nat with (S (slen s)) by lia. cbn [fixed].
    set (q := parse_acc base s 0) in *.
    assert (Hdiv : (q * base + digit_val c) / base = q).
    { rewrite Z.div_add_l by lia. rewrite Z.div_small by lia. lia. }
    assert (Hmod : (q * base + digit_val c) mod base = digit_val c).
    { rewrite Z.add_comm, Z.mod_add by lia. apply Z.mod_small. lia. }
    rewrite Hdiv, Hmod, He, Hdc. split; [done|].
    rewrite Nat2Z.inj_succ, Z.pow_succ_r by lia. nia.
Qed.

(** ** The decimal and hexadecimal instances *)

(** Decides a property of every byte by evaluating it on all 256 of them. *)
Definition all_ascii (p : ascii → bool) : bool :=
  forallb (λ n, p (ascii_of_nat n)) (seq 0 256).

Lemma all_ascii_spec p : all_ascii p = true → ∀ c, p c = true.
Proof.
  unfold all_ascii. rewrite forallb_forall. intros H c.
  rewrite <-(ascii_nat_embedding c). apply H, in_seq.
  pose proof (nat_ascii_bounded c). lia.
Qed.

(** Decides a property of every digit value below [base]. *)
Lemma all_digits (base : Z) (p : Z → bool) :
  forallb p (seqZ 0 base) = true → ∀ d, 0 ≤ d < base → p d = true.
Proof.
  rewrite forallb_forall. intros H d Hd. apply H.
  apply list_elem_of_In, elem_of_seqZ. lia.
Qed.

Lemma is_digit_dec c : is_digit c = true → 0 ≤ digit_val c < 10 ∧ digit_char (digit_val c) = c.
Proof.
  set (p := λ c, negb (is_digit c) ||
              ((0 <=? digit_val c) && (digit_val c <? 10) && (digit_char (digit_val c) =? c)%char)).
  assert (H : p c = true) by (apply all_ascii_spec; vm_compute; done).
  unfold p in H. intros Hc. rewrite Hc in H. cbn in H.
  apply andb_true_iff in H as [H He]. apply Ascii.eqb_eq in He. split; [lia|done].
Qed.

Lemma is_hex_upper_dec c :
  is_hex_upper c = true → 0 ≤ digit_val c < 16 ∧ digit_upper (digit_val c) = c.
Proof.
  set (p := λ c, negb (is_hex_upper c) ||
              ((0 <=? digit_val c) && (digit_val c <? 16) && (digit_upper (digit_val c) =? c)%char)).
  assert (H : p c = true) by (apply all_ascii_spec; vm_compute; done).
  unfold p in H. intros Hc. rewrite Hc in H. cbn in H.
  apply andb_true_iff in H as [H He]. apply Ascii.eqb_eq in He. split; [lia|done].
Qed.

Lemma digit_val_char d : 0 ≤ d < 10 → digit_val (digit_char d) = d.
Proof.
  intros Hd. apply Z.eqb_eq. revert d Hd.
  apply (all_digits 10 (λ d, digit_val (digit_char d) =? d)). vm_compute; done.
Qed.

Lemma digit_val_upper d : 0 ≤ d < 16 → digit_val (digit_upper d) = d.
Proof.
  intros Hd. apply Z.eqb_eq. revert d Hd.
  apply (all_digits 16 (λ d, digit_val (digit_upper d) =? d)). vm_compute; done.
Qed.

Lemma is_digit_char d : 0 ≤ d < 10 → is_digit (digit_char d) = true.
Proof. apply (all_digits 10 (λ d, is_digit (digit_char d))). vm_compute; done. Qed.

Lemma is_hex_digit_upper d : 0 ≤ d < 16 → is_hex_upper (digit_upper d) = true.
Proof. apply (all_digits 16 (λ d, is_hex_upper (digit_upper d))). vm_compute; done. Qed.

Lemma upper_digit_char d : 0 ≤ d < 16 → upper_char (digit_char d) = digit_upper d.
Proof.
  intros Hd. apply Ascii.eqb_eq. revert d Hd.
  apply (all_digits 16 (λ d, (upper_char (digit_char d) =? digit_upper d)%char)). vm_compute; done.
Qed.

Lemma str_map_app f a b : str_map f (a +:+ b) = str_map f a +:+ str_map f b.
Proof. induction a as [|c a IH]; [done|]. apply (f_equal (String (f c))), IH. Qed.

Lemma ToUpper_fixed16 w n : ToUpper (fixed digit_char 16 w n) = fixed digit_upper 16 w n.
Proof.
  revert n; induction w as [|w IH]; intros n; [done|].
  cbn [fixed]. unfold ToUpper in *. rewrite str_map_app, IH. cbn.
  rewrite upper_digit_char; [done|]. apply Z.mod_pos_bound; lia.
Qed.

(** The numerals the program prints: decimal of width [w], uppercase hex of width [w]. *)
Definition dec (w : nat) (n : Z) : string := fixed digit_char 10 w n.
Definition hex (w : nat) (n : Z) : string := fixed digit_upper 16 w n.
Definition undec (s : string) : Z := parse 10 s.
Definition unhex (s : string) : Z := parse 16 s.

Lemma slen_dec w n : slen (dec w n) = w.
Proof. apply slen_fixed. Qed.
Lemma slen_hex w n : slen (hex w n) = w.
Proof. apply slen_fixed. Qed.

Lemma dec_digits w n : str_forall is_digit (dec w n) = true.
Proof. apply fixed_forall; [lia|apply is_digit_char]. Qed.
Lemma hex_digits w n : str_forall is_hex_upper (hex w n) = true.
Proof. apply fixed_forall; [lia|apply is_hex_digit_upper]. Qed.

Lemma undec_dec w n : 0 ≤ n < 10 ^ Z.of_nat w → undec (dec w n) = n.
Proof. apply parse_fixed; [lia|apply digit_val_char]. Qed.
Lemma unhex_hex w n : 0 ≤ n < 16 ^ Z.of_nat w → unhex (hex w n) = n.
Proof. apply parse_fixed; [lia|apply digit_val_upper]. Qed.

Lemma dec_undec s : str_forall is_digit s = true → dec (slen s) (undec s) = s.
Proof. intros H. by apply (fixed_parse _ _ is_digit); [lia|apply is_digit_dec|]. Qed.
Lemma undec_range s :
  str_forall is_digit s = true → 0 ≤ undec s < 10 ^ Z.of_nat (slen s).
Proof. intros H. by apply (fixed_parse digit_char _ is_digit); [lia|apply is_digit_dec|]. Qed.
Lemma hex_unhex s : str_forall is_hex_upper s = true → hex (slen s) (unhex s) = s.
Proof. intros H. by apply (fixed_parse _ _ is_hex_upper); [lia|apply is_hex_upper_dec|]. Qed.
Lemma unhex_range s :
  str_forall is_hex_upper s = true → 0 ≤ unhex s < 16 ^ Z.of_nat (slen s).
Proof. intros H. by apply (fixed_parse digit_upper _ is_hex_upper); [lia|apply is_hex_upper_dec|]. Qed.

Lemma dec_inj w a b :
  0 ≤ a < 10 ^ Z.of_nat w → 0 ≤ b < 10 ^ Z.of_nat w → dec w a = dec w b → a = b.
Proof. intros Ha Hb He. by rewrite <-(undec_dec w a), He, undec_dec. Qed.

Lemma pad_Itoa w n :
  (0 < w)%nat → 0 ≤ n < 10 ^ Z.of_nat w → pad_loop w w (Itoa n) = dec w n.
Proof.
  intros Hw Hn. unfold Itoa. rewrite (proj2 (Z.ltb_ge _ _)) by lia.
  apply pad_format; [lia|done|done|done].
Qed.

Lemma pad_FormatUint16 w n :
  (0 < w)%nat → 0 ≤ n < 16 ^ Z.of_nat w → ToUpper (pad_loop w w (FormatUint16 n)) = hex w n.
Proof.
  intros Hw Hn. unfold FormatUint16. rewrite pad_format; [|lia|done..].
  apply ToUpper_fixed16.
Qed.

Create Rewrite HintDb strs.
#[export] Hint Rewrite slen_app slen_dec slen_hex slen_fixed str_forall_app app_assoc_str
  app_nil_str : strs.

(** [fmt.Sprintf("%0wd", n)]: zero-padded to [w] columns, a minus sign counting as one. *)
Definition Sprintf0d (w : nat) (n : Z) : string :=
  if n <? 0 then String "-" (pad_loop (w - 1) (w - 1) (format_nonneg digit_char 10 (- n)))
  else pad_loop w w (format_nonneg digit_char 10 n).

Lemma Sprintf0d_dec w n :
  (0 < w)%nat → 0 ≤ n < 10 ^ Z.of_nat w → Sprintf0d w n = dec w n.
Proof.
  intros Hw Hn. unfold Sprintf0d. rewrite (proj2 (Z.ltb_ge _ _)) by lia.
  apply pad_format; [lia|done|done|done].
Qed.

(** ** strconv.ParseInt *)

(** [strconv.ParseInt(s, 10, 64)]. *)
Definition ParseInt (s : string) : option Z :=
  let '(neg, digits) := match s with
                        | String "-" s => (true, s)
                        | String "+" s => (false, s)
                        | s => (false, s)
                        end in
  if String.eqb digits "" || negb (str_forall is_digit digits) then None
  else
    let n := if (neg : bool) then - undec digits else undec digits in
    if (- 2 ^ 63 <=? n) && (n <? 2 ^ 63) then Some n else None.

Lemma format_digits n :
  0 ≤ n → ∃ w, (0 < w)%nat ∧ format_nonneg digit_char 10 n = dec w n ∧ n < 10 ^ Z.of_nat w.
Proof.
  intros Hn. unfold format_nonneg. destruct (Z.eqb_spec n 0) as [->|Hz].
  { exists 1%nat. split_and!; [lia|reflexivity|lia]. }
  destruct (render_fixed digit_char 10 (bit_fuel n) n "") as [E Hlt]; [lia|split; [done|by apply bit_fuel_enough]|].
  exists (ndigits 10 (bit_fuel n) n). rewrite E, app_nil_str. split_and!; [|done|done].
  destruct (ndigits 10 (bit_fuel n) n); [cbn in Hlt; lia|lia].
Qed.

Lemma ParseInt_digits s :
  str_forall is_digit s = true → s ≠ "" → undec s < 2 ^ 63 → ParseInt s = Some (undec s).
Proof.
  intros Hd Hs Hlt. unfold ParseInt.
  assert (E : match s with String "-" s => (true, s) | String "+" s => (false, s) | s => (false, s) end = (false, s)).
  { destruct s as [|c s]; [done|]. cbn in Hd. apply andb_true_iff in Hd as [Hc _].
    destruct (decide (c = "-"%char)) as [->|H1]; [done|]. destruct (decide (c = "+"%char)) as [->|H2]; [done|].
    clear -H1 H2. destruct c as [[] [] [] [] [] [] [] []]; done. }
  rewrite E, Hd, (proj2 (String.eqb_neq _ _)) by done. cbn [orb negb].
  pose proof (undec_range s Hd). rewrite (proj2 (Z.leb_le _ _)), (proj2 (Z.ltb_lt _ _)) by lia. done.
Qed.

Lemma ParseInt_Itoa n : in_int64 n → ParseInt (Itoa n) = Some n.
Proof.
  unfold in_int64. intros Hn. unfold Itoa. destruct (Z.ltb_spec n 0) as [Hneg|Hpos].
  - destruct (format_digits (- n)) as (w & Hw & -> & Hlt); [lia|]. unfold ParseInt.
    rewrite dec_digits, undec_dec by lia. destruct (String.eqb_spec (dec w (- n)) "") as [E|_].
    { apply (f_equal slen) in E. rewrite slen_dec in E. cbn in E. lia. }
    cbn [orb negb]. rewrite (proj2 (Z.leb_le _ _)), (proj2 (Z.ltb_lt _ _)) by lia. f_equal. lia.
  - destruct (format_digits n) as (w & Hw & -> & Hlt); [lia|].
    rewrite ParseInt_digits; rewrite ?undec_dec by lia; [done|apply dec_digits| |lia].
    intros E. apply (f_equal slen) in E. rewrite slen_dec in E. cbn in E. lia.
Qed.
