(* ===== verification/Fields.v ===== *)
(** * Fields: the MCN-87A field table

    [gateway-go/internal/iso8583/spec_gen.go] and the [FieldSpec] record of
    [codec.go]: every data element's wire type, length and length prefix. *)

From S2P Require Import Prelude Digits.
Local Open Scope Z_scope.

(** [FieldSpec] of codec.go.  [Type_] is one of "n", "an", "ans", "b"; [Length] is the
    fixed length, or the maximum when [Prefix] is "LL" or "LLL". *)
Record FieldSpec := mkFieldSpec {
  Number : Z;
  Type_ : string;
  Length : nat;
  Prefix : string;
  Name : string;
  Sensitive : string
}.

Definition prefixLL : string := "LL".
Definition prefixLLL : string := "LLL".

(** The rows of the generated table, in the order of the file. *)
Definition field_rows : list FieldSpec := [
  mkFieldSpec 1 "b" 8 "" "Secondary bitmap" "";
  mkFieldSpec 2 "n" 19 "LL" "PAN" "pan";
  mkFieldSpec 3 "n" 6 "" "Processing code" "";
  mkFieldSpec 4 "n" 12 "" "Amount transaction" "";
  mkFieldSpec 7 "n" 10 "" "Transmission date time" "";
  mkFieldSpec 11 "n" 6 "" "STAN" "";
  mkFieldSpec 12 "n" 6 "" "Time local transaction" "";
  mkFieldSpec 13 "n" 4 "" "Date local transaction" "";
  mkFieldSpec 14 "n" 4 "" "Expiration date" "expiry";
  mkFieldSpec 15 "n" 4 "" "Settlement date" "";
  mkFieldSpec 18 "n" 4 "" "Merchant category code" "";
  mkFieldSpec 22 "n" 3 "" "POS entry mode" "";
  mkFieldSpec 25 "n" 2 "" "POS condition code" "";
  mkFieldSpec 32 "n" 11 "LL" "Acquiring institution ID" "";
  mkFieldSpec 37 "an" 12 "" "RRN" "";
  mkFieldSpec 38 "an" 6 "" "Authorization ID response" "";
  mkFieldSpec 39 "an" 2 "" "Response code" "";
  mkFieldSpec 41 "ans" 8 "" "Terminal ID" "";
  mkFieldSpec 42 "ans" 15 "" "Merchant ID" "";
  mkFieldSpec 43 "ans" 40 "" "Card acceptor name location" "";
  mkFieldSpec 48 "ans" 999 "LLL" "Additional data private" "key-material";
  mkFieldSpec 49 "n" 3 "" "Currency code" "";
  mkFieldSpec 52 "b" 8 "" "PIN block" "pin-block";
  mkFieldSpec 53 "n" 16 "" "Security control info" "";
  mkFieldSpec 54 "an" 120 "LLL" "Additional amounts" "";
  mkFieldSpec 55 "b" 255 "LLL" "ICC data" "emv";
  mkFieldSpec 64 "b" 8 "" "MAC" "mac";
  mkFieldSpec 70 "n" 3 "" "Network management code" "";
  mkFieldSpec 74 "n" 10 "" "Credits number" "";
  mkFieldSpec 75 "n" 10 "" "Credits reversal number" "";
  mkFieldSpec 76 "n" 10 "" "Debits number" "";
  mkFieldSpec 77 "n" 10 "" "Debits reversal number" "";
  mkFieldSpec 86 "n" 16 "" "Credits amount" "";
  mkFieldSpec 87 "n" 16 "" "Credits reversal amount" "";
  mkFieldSpec 88 "n" 16 "" "Debits amount" "";
  mkFieldSpec 89 "n" 16 "" "Debits reversal amount" "";
  mkFieldSpec 90 "n" 42 "" "Original data elements" "";
  mkFieldSpec 97 "an" 17 "" "Net settlement amount" "";
  mkFieldSpec 128 "b" 8 "" "MAC secondary" "mac"
].

(** [Fields], the generated map. *)
Definition Fields : gmap Z FieldSpec :=
  list_to_map (map (λ f, (Number f, f)) field_rows).

(** ** What the rest of the codec needs of the table *)

Definition field_keys : list Z := map Number field_rows.

Definition spec_ok (f : FieldSpec) : bool :=
  (1 <=? Number f) && (Number f <=? 128)
  && (if String.eqb (Prefix f) "" then true
      else if String.eqb (Prefix f) prefixLL then (Length f <=? 99)%nat
      else String.eqb (Prefix f) prefixLLL && (Length f <=? 999)%nat).

(** Every row is keyed by its own number, numbers are 1..128, and a prefixed field's maximum
    length can be written in its prefix. *)
Lemma Fields_ok n f : Fields !! n = Some f → Number f = n ∧ spec_ok f = true ∧ f ∈ field_rows.
Proof.
  unfold Fields. intros H. apply elem_of_list_to_map_2 in H.
  apply list_elem_of_fmap in H as (f' & [= -> ->] & Hin). split; [done|]. split; [|done].
  assert (Hall : forallb spec_ok field_rows = true) by (vm_compute; done).
  rewrite forallb_forall in Hall. apply Hall. by apply list_elem_of_In.
Qed.

Lemma Fields_range n f : Fields !! n = Some f → 1 ≤ n ≤ 128.
Proof.
  intros H. destruct (Fields_ok n f H) as (<- & Hok & _). unfold spec_ok in Hok.
  apply andb_true_iff in Hok as [Hok _]. lia.
Qed.

Lemma Fields_prefix n f :
  Fields !! n = Some f →
  Prefix f = "" ∨ (Prefix f = prefixLL ∧ (Length f ≤ 99)%nat) ∨
  (Prefix f = prefixLLL ∧ (Length f ≤ 999)%nat).
Proof.
  intros H. destruct (Fields_ok n f H) as (_ & Hok & _). unfold spec_ok in Hok.
  apply andb_true_iff in Hok as [_ Hok].
  destruct (String.eqb_spec (Prefix f) ""); [by left|].
  destruct (String.eqb_spec (Prefix f) prefixLL); [right; left|right; right].
  - split; [done|]. by apply Nat.leb_le.
  - apply andb_true_iff in Hok as [Hp Hl]. split; [by apply String.eqb_eq|by apply Nat.leb_le].
Qed.

Lemma field_keys_NoDup : NoDup field_keys.
Proof. apply (bool_decide_unpack _). vm_compute. done. Qed.

Lemma Fields_dom n : is_Some (Fields !! n) ↔ n ∈ field_keys.
Proof.
  unfold Fields, field_keys. split.
  - intros [f H]. apply elem_of_list_to_map_2 in H.
    apply list_elem_of_fmap in H as (f' & [= -> ->] & Hin). by apply list_elem_of_fmap_2.
  - intros H. apply list_elem_of_fmap in H as (f & -> & Hin). exists f.
    apply elem_of_list_to_map; [|by apply (list_elem_of_fmap_2 (λ f, (Number f, f)))].
    rewrite <-list_fmap_compose. exact field_keys_NoDup.
Qed.
