(* ===== verification/Codec.v ===== *)
(** * Codec: packing and unpacking MCN-87A messages

    [gateway-go/internal/iso8583]: codec.go, errors.go and segments.go.  Messages are
    byte strings; a field map ([map[int]string]) is a [gmap Z string].  A Go map is
    iterated in an unspecified order, so the packing function takes the enumeration
    order as an argument and [Pack] is its instance for one order. *)

From S2P Require Import Prelude Digits Fields.
Local Open Scope Z_scope.

Abbreviation fieldmap := (gmap Z string).

(** ** errors.go *)

(** [buf [20]byte] filled from the right while [n > 0]. *)
Fixpoint itoa_loop (room : nat) (n : Z) (acc : string) : string :=
  match room with
  | O => acc
  | S room' =>
      if 0 <? n then itoa_loop room' (n / 10) (String (ascii_of_Z (48 + n mod 10)) acc)
      else acc
  end.

Definition itoa (n : Z) : string :=
  if n =? 0 then "0"
  else
    let neg := n <? 0 in
    let n := if neg then wrap64 (- n) else n in
    let digits := itoa_loop 20 n "" in
    if neg then String "-" digits else digits.

Record CodecError := mkCodecError { Code : string; DE : Z; Detail : string }.

#[export] Instance CodecError_eq_dec : EqDecision CodecError.
Proof. solve_decision. Defined.

Definition CodecError_Error (e : CodecError) : string :=
  if 0 <? DE e then Code e +:+ ": DE " +:+ itoa (DE e) +:+ ": " +:+ Detail e
  else Code e +:+ ": " +:+ Detail e.

(** ** codec.go: values *)

Definition hexRe (s : string) : bool := str_forall is_hex_upper s.
Definition digitsRe (s : string) : bool := str_forall is_digit s.

Definition dataLen (f : FieldSpec) (value : string) : nat :=
  if String.eqb (Type_ f) "b" then (slen value / 2)%nat else slen value.

Definition itoa_nat (n : nat) : string := itoa (Z.of_nat n).

Definition checkValue (f : FieldSpec) (value : string) : option CodecError :=
  if String.eqb (Type_ f) "b" && (negb (slen value mod 2 =? 0)%nat || negb (hexRe value)) then
    Some (mkCodecError "INVALID_VALUE" (Number f) "must be uppercase hex")
  else if String.eqb (Type_ f) "n" && negb (digitsRe value) then
    Some (mkCodecError "INVALID_VALUE" (Number f) "must be numeric")
  else
    let size := dataLen f value in
    if String.eqb (Prefix f) "" && negb (size =? Length f)%nat then
      Some (mkCodecError "INVALID_LENGTH" (Number f)
              ("fixed length " +:+ itoa_nat (Length f) +:+ ", got " +:+ itoa_nat size))
    else if negb (String.eqb (Prefix f) "") && (Length f <? size)%nat then
      Some (mkCodecError "INVALID_LENGTH" (Number f)
              ("max " +:+ itoa_nat (Length f) +:+ ", got " +:+ itoa_nat size))
    else None.

(** ** codec.go: bitmaps *)

(** The loop [for i := 0; i < 64; i++] collecting the set bits, most significant first. *)
Definition bitPositions (value : Z) (offset : Z) : list Z :=
  flat_map (λ i, if negb (Z.land value (Z.shiftl 1 (63 - i)) =? 0)
                 then [offset + i + 1] else []) (seqZ 0 64).

Definition bitmapValue (numbers : gmap Z bool) (page : Z) : Z :=
  fold_left (λ value i, if default false (numbers !! (page * 64 + i + 1))
                        then Z.lor value (Z.shiftl 1 (63 - i)) else value) (seqZ 0 64) 0.

Definition pad16 (s : string) : string := pad_loop 16 16 s.

Definition bitmapHex (numbers : gmap Z bool) (page : Z) : string :=
  ToUpper (pad16 (FormatUint16 (bitmapValue numbers page))).

(** ** codec.go: packing *)

Definition padN (n : nat) (width : nat) : string := pad_loop width width (Itoa (Z.of_nat n)).
Definition pad2 (n : nat) : string := padN n 2.
Definition pad3 (n : nat) : string := padN n 3.

Definition packField (n : Z) (v : string) : result CodecError string :=
  match Fields !! n with
  | None => Err (mkCodecError "UNKNOWN_FIELD" n "")
  | Some spec =>
      check (checkValue spec v) ≫= λ _,
      if String.eqb (Prefix spec) prefixLL then Ok (pad2 (dataLen spec v) +:+ v)
      else if String.eqb (Prefix spec) prefixLLL then Ok (pad3 (dataLen spec v) +:+ v)
      else Ok v
  end.

(** [for n := range fields]: marks [n] and notes a field above 64. *)
Definition presenceOf (order : list Z) : gmap Z bool * bool :=
  let '(present, secondary) :=
    fold_left (λ acc n, (<[n := true]> (acc.1), (acc.2 || (64 <? n))%bool)) order (∅, false) in
  ((if secondary then <[1 := true]> present else present), secondary).

(** The inner loop of [sortInts]: [for j := i; j > 0 && a[j-1] > a[j]; j--], swapping. *)
Fixpoint sift (j : nat) (a : list Z) : list Z :=
  match j with
  | O => a
  | S j' =>
      match a !! j', a !! j with
      | Some x, Some y => if y <? x then sift j' (<[j' := y]> (<[j := x]> a)) else a
      | _, _ => a
      end
  end.

Definition sortInts (a : list Z) : list Z :=
  fold_left (λ a i, sift i a) (seq 1 (length a - 1)) a.

(** The builder loop [for _, n := range numbers]. *)
Fixpoint packFields (numbers : list Z) (fields : fieldmap) : result CodecError string :=
  match numbers with
  | [] => Ok ""
  | n :: rest =>
      packed ← packField n (default "" (fields !! n));
      tail ← packFields rest fields;
      Ok (packed +:+ tail)
  end.

(** [Pack] when the two loops over the map enumerate its keys as [o1] and [o2]. *)
Definition PackOrder (o1 o2 : list Z) (mti : string) (fields : fieldmap) : result CodecError string :=
  if negb (slen mti =? 4)%nat || negb (digitsRe mti) then Err (mkCodecError "INVALID_MTI" 0 mti)
  else match fields !! 1 with
  | Some _ => Err (mkCodecError "UNKNOWN_FIELD" 0 "DE 1 is derived, do not set it")
  | None =>
      let '(present, secondary) := presenceOf o1 in
      let numbers := sortInts o2 in
      body ← packFields numbers fields;
      Ok (mti +:+ bitmapHex present 0 +:+
          (if secondary : bool then bitmapHex present 1 else "") +:+ body)
  end.

Definition keys (fields : fieldmap) : list Z := (map_to_list fields).*1.

Definition Pack (mti : string) (fields : fieldmap) : result CodecError string :=
  PackOrder (keys fields) (keys fields) mti fields.

(** ** codec.go: unpacking *)

Record taker := mkTaker { packed : string; pos : nat }.

Definition take_ (t : taker) (count : nat) (what : string) : result CodecError (string * taker) :=
  if (slen (packed t) <? pos t + count)%nat then
    Err (mkCodecError "TRUNCATED" 0 (what +:+ " needs " +:+ itoa_nat count +:+ " chars at " +:+ itoa_nat (pos t)))
  else Ok (str_slice (pos t) (pos t + count) (packed t), mkTaker (packed t) (pos t + count)).

Definition unpackBitmaps (t : taker) : result CodecError (list Z * taker) :=
  '(primary, t) ← take_ t 16 "primary bitmap";
  if negb (hexRe primary) then Err (mkCodecError "INVALID_BITMAP" 0 primary)
  else
    let numbers := bitPositions (unhex primary) 0 in
    match numbers with
    | 1 :: _ =>
        '(secondary, t) ← take_ t 16 "secondary bitmap";
        if negb (hexRe secondary) then Err (mkCodecError "INVALID_BITMAP" 0 secondary)
        else Ok (app numbers (bitPositions (unhex secondary) 64), t)
    | _ => Ok (numbers, t)
    end.

Definition unpackField (t : taker) (n : Z) : result CodecError (string * taker) :=
  match Fields !! n with
  | None => Err (mkCodecError "UNKNOWN_FIELD" n "")
  | Some spec =>
      '(size, t) ←
        (if negb (String.eqb (Prefix spec) "") then
           let digits := if String.eqb (Prefix spec) prefixLLL then 3%nat else 2%nat in
           '(rawLen, t) ← take_ t digits ("DE " +:+ itoa n +:+ " length");
           if negb (digitsRe rawLen) then
             Err (mkCodecError "INVALID_LENGTH" n ("prefix '" +:+ rawLen +:+ "'"))
           else
             let size := Z.to_nat (undec rawLen) in
             if (Length spec <? size)%nat then
               Err (mkCodecError "INVALID_LENGTH" n
                      ("max " +:+ itoa_nat (Length spec) +:+ ", got " +:+ itoa_nat size))
             else Ok (size, t)
         else Ok (Length spec, t));
      let width := if String.eqb (Type_ spec) "b" then (size * 2)%nat else size in
      '(value, t) ← take_ t width ("DE " +:+ itoa n);
      check (checkValue spec value) ≫= λ _,
      Ok (value, t)
  end.

(** The loop [for _, n := range numbers], skipping DE 1. *)
Fixpoint unpackFields (t : taker) (numbers : list Z) (fields : fieldmap) :
    result CodecError (fieldmap * taker) :=
  match numbers with
  | [] => Ok (fields, t)
  | n :: rest =>
      if n =? 1 then unpackFields t rest fields
      else
        '(value, t) ← unpackField t n;
        unpackFields t rest (<[n := value]> fields)
  end.

Definition Unpack (s : string) : result CodecError (string * fieldmap) :=
  '(mti, t) ← take_ (mkTaker s 0) 4 "MTI";
  if negb (digitsRe mti) then Err (mkCodecError "INVALID_MTI" 0 mti)
  else
    '(numbers, t) ← unpackBitmaps t;
    '(fields, t) ← unpackFields t numbers ∅;
    if negb (pos t =? slen (packed t))%nat then
      Err (mkCodecError "TRAILING_DATA" 0
             (itoa (Z.of_nat (slen (packed t)) - Z.of_nat (pos t)) +:+ " chars after last field"))
    else Ok (mti, fields).

(** ** segments.go *)

Record Segment := mkSegment { Key : string; Text : string }.

Definition unpackBitmapsSegmented (t : taker) : result CodecError (list Z * list Segment * taker) :=
  let start := pos t in
  '(numbers, t') ← unpackBitmaps t;
  let segments := [mkSegment "primaryBitmap" (str_slice start (start + 16) (packed t))] in
  let segments :=
    match numbers with
    | 1 :: _ => app segments [mkSegment "secondaryBitmap" (str_slice (start + 16) (start + 32) (packed t))]
    | _ => segments
    end in
  Ok (numbers, segments, t').

Fixpoint unpackFieldsSegmented (t : taker) (numbers : list Z) (fields : fieldmap)
    (segments : list Segment) : result CodecError (fieldmap * list Segment * taker) :=
  match numbers with
  | [] => Ok (fields, segments, t)
  | n :: rest =>
      if n =? 1 then unpackFieldsSegmented t rest fields segments
      else
        let start := pos t in
        '(value, t) ← unpackField t n;
        unpackFieldsSegmented t rest (<[n := value]> fields)
          (app segments [mkSegment (Itoa n) (str_slice start (pos t) (packed t))])
  end.

Definition UnpackSegmented (s : string) : result CodecError (string * fieldmap * list Segment) :=
  '(mti, t) ← take_ (mkTaker s 0) 4 "MTI";
  if negb (digitsRe mti) then Err (mkCodecError "INVALID_MTI" 0 mti)
  else
    let segments := [mkSegment "mti" mti] in
    '(numbers, bitmapSegments, t) ← unpackBitmapsSegmented t;
    let segments := app segments bitmapSegments in
    '(fields, segments, t) ← unpackFieldsSegmented t numbers ∅ segments;
    if negb (pos t =? slen (packed t))%nat then
      Err (mkCodecError "TRAILING_DATA" 0
             (itoa (Z.of_nat (slen (packed t)) - Z.of_nat (pos t)) +:+ " chars after last field"))
    else Ok (mti, fields, segments).
