(* ===== verification/CodecSort.v ===== *)
(** * CodecSort: [sortInts] sorts, whatever order the map was iterated in

    Lemmas on codec.go's insertion sort and on the presence bitmap computed from a
    map's keys; both are independent of the iteration order. *)

From S2P Require Import Prelude Digits Fields Codec.
Local Open Scope Z_scope.

(** Insertion into a sorted list, the reference the swapping loop is compared with. *)
Fixpoint ins (x : Z) (l : list Z) : list Z :=
  match l with
  | [] => [x]
  | y :: l' => if x <? y then x :: y :: l' else y :: ins x l'
  end.

Lemma ins_perm x l : ins x l ≡ₚ x :: l.
Proof.
  induction l as [|y l IH]; [done|]. cbn [ins]. case_if; [done|].
  by rewrite IH, Permutation_swap.
Qed.

Lemma ins_sorted x l : StronglySorted Z.le l → StronglySorted Z.le (ins x l).
Proof.
  induction l as [|y l IH]; intros Hs; cbn [ins]; [by repeat constructor|].
  apply StronglySorted_inv in Hs as [Hs Hy]. case_if.
  - constructor; [by constructor|]. constructor; [lia|].
    eapply Forall_impl; [exact Hy|]. cbn; intros; lia.
  - constructor; [by apply IH|].
    rewrite ins_perm. constructor; [lia|done].
Qed.

Lemma ins_snoc_lt x y l : x < y → ins x (l ++ [y]) = ins x l ++ [y].
Proof.
  intros Hxy. induction l as [|z l IH]; cbn; [by rewrite (proj2 (Z.ltb_lt _ _))|].
  case_if; [done|]. by rewrite IH.
Qed.

Lemma ins_snoc_ge x y l :
  y ≤ x → StronglySorted Z.le (l ++ [y]) → ins x (l ++ [y]) = l ++ [y; x].
Proof.
  intros Hxy. induction l as [|z l IH]; cbn; intros Hs.
  - by rewrite (proj2 (Z.ltb_ge _ _)).
  - apply StronglySorted_inv in Hs as [Hs Hz]. apply Forall_app in Hz as [_ Hz].
    apply Forall_cons in Hz as [Hz _].
    rewrite (proj2 (Z.ltb_ge _ _)) by lia. by rewrite IH.
Qed.

Lemma StronglySorted_app_l {A} (R : A → A → Prop) l k :
  StronglySorted R (l ++ k) → StronglySorted R l.
Proof.
  induction l as [|x l IH]; intros Hs; [constructor|].
  apply StronglySorted_inv in Hs as [Hs Hx]. apply Forall_app in Hx as [Hx _].
  constructor; auto.
Qed.

(** The swapping loop inserts [x], found at index [length l], into the sorted [l]. *)
Lemma sift_ins l x r :
  StronglySorted Z.le l → sift (length l) (l ++ x :: r) = ins x l ++ r.
Proof.
  revert x r; induction l as [|y l IH] using rev_ind; intros x r Hs; [done|].
  rewrite length_app, Nat.add_1_r. cbn [sift].
  assert (H1 : ((l ++ [y]) ++ x :: r) !! length l = Some y)
    by (rewrite <-app_assoc, lookup_app_r, Nat.sub_diag by lia; done).
  assert (H2 : ((l ++ [y]) ++ x :: r) !! S (length l) = Some x).
  { rewrite lookup_app_r by (rewrite length_app; cbn; lia).
    rewrite length_app. cbn. by replace (S (length l) - (length l + 1))%nat with 0%nat by lia. }
  rewrite H1, H2. case_if.
  - rewrite ins_snoc_lt by lia. rewrite <-(app_assoc (ins x l)).
    rewrite <-(IH x ([y] ++ r)) by (by eapply StronglySorted_app_l). f_equal.
    rewrite <-app_assoc. cbn [app].
    rewrite insert_app_r_alt by lia.
    replace (S (length l) - length l)%nat with 1%nat by lia. cbn.
    rewrite insert_app_r_alt by lia. by rewrite Nat.sub_diag.
  - rewrite ins_snoc_ge by (done || lia). by rewrite <-!app_assoc.
Qed.

Lemma sort_prefix p r :
  StronglySorted Z.le p →
  let s := fold_left (λ a i, sift i a) (seq (length p) (length r)) (p ++ r) in
  StronglySorted Z.le s ∧ s ≡ₚ p ++ r.
Proof.
  revert p; induction r as [|x r IH]; intros p Hp; cbn -[sift].
  - by rewrite app_nil_r.
  - rewrite sift_ins by done.
    destruct (IH (ins x p)) as [H1 H2]; [by apply ins_sorted|].
    assert (Hl : length (ins x p) = S (length p)) by (by rewrite ins_perm).
    rewrite Hl in H1, H2. split; [done|]. rewrite H2, ins_perm. cbn.
    by rewrite Permutation_middle.
Qed.

Lemma sortInts_sorted a : StronglySorted Z.le (sortInts a) ∧ sortInts a ≡ₚ a.
Proof.
  unfold sortInts. destruct a as [|x r]; [by repeat constructor|].
  replace (length (x :: r) - 1)%nat with (length r) by (cbn; lia).
  apply (sort_prefix [x] r). repeat constructor.
Qed.

Lemma sortInts_unique a l : StronglySorted Z.le l → l ≡ₚ a → sortInts a = l.
Proof.
  intros Hl Hp. destruct (sortInts_sorted a) as [Hs Ha].
  eapply (StronglySorted_unique Z.le); [done..|]. by rewrite Ha.
Qed.

Lemma sortInts_perm a b : a ≡ₚ b → sortInts a = sortInts b.
Proof.
  intros H. destruct (sortInts_sorted b) as [Hs Hb].
  apply sortInts_unique; [done|]. by rewrite Hb.
Qed.

(** ** Presence *)

Lemma presence_fold order m b :
  let r := fold_left (λ acc n, (<[n := true]> (acc.1), (acc.2 || (64 <? n))%bool)) order (m, b) in
  (∀ k, (r.1 : gmap Z bool) !! k = if decide (k ∈ order) then Some true else m !! k)
  ∧ r.2 = (b || existsb (Z.ltb 64) order)%bool.
Proof.
  revert m b; induction order as [|n order IH]; intros m b; cbn.
  - split; [done|by rewrite orb_false_r].
  - destruct (IH (<[n := true]> m) (b || (64 <? n))%bool) as [H1 H2]. split.
    + intros k. rewrite H1. destruct (decide (k ∈ order)) as [Hi|Hi].
      * rewrite decide_True by (by right). done.
      * destruct (decide (k = n)) as [->|Hn].
        { rewrite lookup_insert_eq, decide_True by (by left). done. }
        rewrite lookup_insert_ne by done. rewrite decide_False; [done|].
        intros [?|?]%elem_of_cons; done.
    + rewrite H2. by rewrite orb_assoc.
Qed.

Definition has_secondary (order : list Z) : bool := existsb (Z.ltb 64) order.

Lemma has_secondary_spec order : has_secondary order = true ↔ ∃ n, n ∈ order ∧ 64 < n.
Proof.
  unfold has_secondary. rewrite existsb_exists.
  split; intros (n & Hin & Hn); exists n; rewrite list_elem_of_In in *.
  - split; [done|]. by apply Z.ltb_lt.
  - split; [done|]. by apply Z.ltb_lt.
Qed.

Lemma presenceOf_spec order :
  (presenceOf order).2 = has_secondary order
  ∧ ∀ k, default false ((presenceOf order).1 !! k)
         = bool_decide (k ∈ order ∨ (k = 1 ∧ has_secondary order = true)).
Proof.
  unfold presenceOf, has_secondary.
  destruct (fold_left _ order (∅, false)) as [present secondary] eqn:E.
  destruct (presence_fold order ∅ false) as [H1 H2]. rewrite E in H1, H2. cbn in *. subst.
  split; [done|]. intros k. destruct (existsb _ order).
  - destruct (decide (k = 1)) as [->|Hk].
    + rewrite lookup_insert_eq, bool_decide_eq_true_2 by auto. done.
    + rewrite lookup_insert_ne, H1 by done. rewrite lookup_empty.
      destruct (decide (k ∈ order)).
      * by rewrite bool_decide_eq_true_2 by auto.
      * rewrite bool_decide_eq_false_2; [done|]. by intros [?|[? ?]].
  - rewrite H1, lookup_empty. destruct (decide (k ∈ order)).
    + by rewrite bool_decide_eq_true_2 by auto.
    + rewrite bool_decide_eq_false_2; [done|]. by intros [?|[? ?]].
Qed.

Lemma bitmapHex_ext p1 p2 page :
  (∀ k, default false (p1 !! k) = default false (p2 !! k)) → bitmapHex p1 page = bitmapHex p2 page.
Proof.
  intros H. unfold bitmapHex, bitmapValue. do 3 f_equal.
  assert (Hg : ∀ l v, fold_left (λ value i, if default false (p1 !! (page * 64 + i + 1))
      then Z.lor value (Z.shiftl 1 (63 - i)) else value) l v
    = fold_left (λ value i, if default false (p2 !! (page * 64 + i + 1))
      then Z.lor value (Z.shiftl 1 (63 - i)) else value) l v).
  { induction l as [|i l IH]; intros v; [done|]. cbn. by rewrite H, IH. }
  apply Hg.
Qed.

(** ** The bitmap of a page lists exactly its present numbers *)

Lemma bitmap_fold_testbit (P : Z → bool) l v k :
  0 ≤ k < 64 → Forall (λ i, 0 ≤ i < 64) l →
  Z.testbit (fold_left (λ value i, if P i then Z.lor value (Z.shiftl 1 (63 - i)) else value) l v) k
  = (Z.testbit v k || existsb (λ i, P i && (63 - i =? k)) l)%bool.
Proof.
  intros Hk. revert v; induction l as [|i l IH]; intros v Hl; cbn [fold_left existsb].
  - by rewrite orb_false_r.
  - apply Forall_cons in Hl as [Hi Hl]. rewrite IH by done.
    destruct (P i); cbn [andb]; [|by rewrite orb_false_l].
    rewrite Z.lor_spec, <-orb_assoc. f_equal. f_equal.
    rewrite Z.shiftl_spec by lia. destruct (Z.eqb_spec (63 - i) k) as [<-|Hne].
    + by rewrite Z.sub_diag.
    + destruct (Z.eq_dec (k - (63 - i)) 0); [lia|].
      destruct (Z.ltb_spec (k - (63 - i)) 0); [by apply Z.testbit_neg_r|].
      change 1 with (2 ^ 0). by apply Z.pow2_bits_false; lia.
Qed.

Lemma bitmap_fold_nonneg (P : Z → bool) l v :
  0 ≤ v < 2 ^ 64 → Forall (λ i, 0 ≤ i < 64) l →
  0 ≤ fold_left (λ value i, if P i then Z.lor value (Z.shiftl 1 (63 - i)) else value) l v < 2 ^ 64.
Proof.
  revert v; induction l as [|i l IH]; intros v Hv Hl; [done|]. cbn [fold_left].
  apply Forall_cons in Hl as [Hi Hl]. apply IH; [|done]. destruct (P i); [|done].
  assert (H0 : 0 ≤ Z.lor v (Z.shiftl 1 (63 - i))).
  { apply Z.lor_nonneg. split; [lia|]. by apply Z.shiftl_nonneg. }
  split; [done|]. destruct (Z.eq_dec (Z.lor v (Z.shiftl 1 (63 - i))) 0) as [->|]; [lia|].
  apply Z.log2_lt_pow2; [lia|]. rewrite Z.log2_lor by (try apply Z.shiftl_nonneg; lia).
  apply Z.max_lub_lt.
  - destruct (Z.eq_dec v 0) as [->|]; [cbn; lia|]. apply Z.log2_lt_pow2; lia.
  - rewrite Z.shiftl_mul_pow2, Z.mul_1_l, Z.log2_pow2 by lia. lia.
Qed.

Lemma seqZ_64 : Forall (λ i, 0 ≤ i < 64) (seqZ 0 64).
Proof. apply Forall_forall. intros i. rewrite elem_of_seqZ. lia. Qed.

Lemma bitmapValue_range numbers page : 0 ≤ bitmapValue numbers page < 16 ^ Z.of_nat 16.
Proof.
  change (16 ^ Z.of_nat 16) with (2 ^ 64).
  apply (bitmap_fold_nonneg (λ i, default false (numbers !! (page * 64 + i + 1)))); [lia|].
  apply seqZ_64.
Qed.

Lemma land_pow2 v k : 0 ≤ k → negb (Z.land v (Z.shiftl 1 k) =? 0) = Z.testbit v k.
Proof.
  intros Hk. rewrite Z.shiftl_mul_pow2, Z.mul_1_l by lia.
  destruct (Z.testbit v k) eqn:Hb.
  - apply negb_true_iff, Z.eqb_neq. intros H0.
    assert (Hc : Z.testbit (Z.land v (2 ^ k)) k = false) by (rewrite H0; apply Z.bits_0).
    rewrite Z.land_spec, Hb, Z.pow2_bits_true in Hc by done. done.
  - apply negb_false_iff, Z.eqb_eq. apply Z.bits_inj. intros j.
    rewrite Z.bits_0, Z.land_spec. destruct (decide (j = k)) as [->|].
    + by rewrite Hb.
    + rewrite Z.pow2_bits_false by lia. apply andb_false_r.
Qed.

(** Present numbers of one page, ascending. *)
Definition page_numbers (P : Z → bool) (page : Z) : list Z :=
  flat_map (λ i, if P (page * 64 + i + 1) then [page * 64 + i + 1] else []) (seqZ 0 64).

Lemma bitPositions_bitmap numbers page :
  bitPositions (bitmapValue numbers page) (page * 64)
  = page_numbers (λ k, default false (numbers !! k)) page.
Proof.
  unfold bitPositions, page_numbers. rewrite !flat_map_concat_map. f_equal. apply map_ext_in. intros i Hi.
  apply list_elem_of_In, elem_of_seqZ in Hi. rewrite land_pow2 by lia.
  unfold bitmapValue.
  rewrite (bitmap_fold_testbit (λ i, default false (numbers !! (page * 64 + i + 1))))
    by (lia || apply seqZ_64).
  rewrite Z.bits_0, orb_false_l.
  destruct (default false (numbers !! (page * 64 + i + 1))) eqn:HP.
  - replace (existsb _ _) with true; [done|]. symmetry. apply existsb_exists.
    exists i. rewrite HP. split; [apply list_elem_of_In, elem_of_seqZ; lia|].
    cbn. by apply Z.eqb_eq.
  - replace (existsb _ _) with false; [done|]. symmetry. apply not_true_iff_false.
    intros (j & _ & Hj)%existsb_exists. apply andb_true_iff in Hj as [Hj He].
    apply Z.eqb_eq in He. replace j with i in Hj by lia. congruence.
Qed.
