(* ===== verification/CodecCorrect.v ===== *)
(** * CodecCorrect: round trips and bounds of the ISO 8583 codec

    The wire form of every field map [Pack] accepts is unpacked to the same map;
    every message [Unpack] accepts is re-packed to the same bytes, unless it carries a
    needless all-zero secondary bitmap; and nothing [Pack] produces exceeds a frame. *)

From S2P Require Import Prelude Digits Fields Codec CodecSort.
Local Open Scope Z_scope.

(** ** The taker: the unread rest of the message *)

Definition rest (t : taker) : string := str_drop (pos t) (packed t).
Definition advance (t : taker) (n : nat) : taker := mkTaker (packed t) (pos t + n).
Definition in_range (t : taker) : Prop := (pos t ≤ slen (packed t))%nat.

Lemma rest_advance t a b :
  in_range t → rest t = a +:+ b → rest (advance t (slen a)) = b ∧ in_range (advance t (slen a)).
Proof.
  unfold rest, advance, in_range; cbn. intros Hr He. split.
  - by rewrite <-str_drop_drop, He, str_drop_app.
  - apply (f_equal slen) in He. rewrite slen_drop, slen_app in He. lia.
Qed.

Lemma take_app t a b what :
  in_range t → rest t = a +:+ b → take_ t (slen a) what = Ok (a, advance t (slen a)).
Proof.
  intros Hr He. pose proof (rest_advance t a b Hr He) as [_ Hr'].
  unfold take_, in_range, advance in *; cbn [packed pos] in *.
  rewrite (proj2 (Nat.ltb_ge _ _)) by lia. unfold str_slice.
  replace (pos t + slen a - pos t)%nat with (slen a) by lia.
  fold (rest t). by rewrite He, str_take_app.
Qed.

Lemma take_inv t count what a t' :
  in_range t → take_ t count what = Ok (a, t') →
  t' = advance t count ∧ slen a = count ∧ rest t = a +:+ rest t' ∧ in_range t'.
Proof.
  unfold take_, in_range, advance, rest. intros Hr.
  destruct (slen (packed t) <? pos t + count)%nat eqn:Hc; [done|].
  apply Nat.ltb_ge in Hc. intros [= <- <-]. cbn. split; [done|].
  split; [rewrite slen_slice; lia|]. split; [|lia]. apply slice_split. lia.
Qed.

Lemma advance_advance t i j : advance (advance t i) j = advance t (i + j).
Proof. unfold advance; cbn. f_equal. lia. Qed.

(** ** One field *)

Lemma checkValue_None f v :
  checkValue f v = None →
  (Type_ f = "b" → slen v = (dataLen f v * 2)%nat) ∧
  (Type_ f ≠ "b" → slen v = dataLen f v) ∧
  (Prefix f = "" → dataLen f v = Length f) ∧ (Prefix f ≠ "" → dataLen f v ≤ Length f)%nat.
Proof.
  unfold checkValue. intros H.
  assert (Hlen : (Type_ f = "b" → slen v = (dataLen f v * 2)%nat) ∧ (Type_ f ≠ "b" → slen v = dataLen f v)).
  { unfold dataLen. destruct (String.eqb_spec (Type_ f) "b") as [Ht|Ht]; cbn [andb] in H; [|done].
    split; [intros _|done]. case_if; [done|]. apply orb_false_iff in Hb as [Hb _].
    apply negb_false_iff, Nat.eqb_eq in Hb. rewrite Nat.mul_comm. by apply Nat.Div0.div_exact. }
  destruct Hlen as [Hb Hnb]. split; [done|]. split; [done|].
  do 2 (case_if; [done|]).
  destruct (String.eqb_spec (Prefix f) "") as [Hp|Hp],
    (Nat.eqb_spec (dataLen f v) (Length f)), (Nat.ltb_spec (Length f) (dataLen f v));
    cbn in H; try done; split; intros; try done; lia.
Qed.

Lemma field_width f v :
  checkValue f v = None →
  (if String.eqb (Type_ f) "b" then (dataLen f v * 2)%nat else dataLen f v) = slen v.
Proof.
  intros H. destruct (checkValue_None f v H) as (H1 & H2 & _).
  destruct (String.eqb_spec (Type_ f) "b"); [by rewrite H1|by rewrite H2].
Qed.

Lemma padN_dec n w : (0 < w)%nat → (Z.of_nat n < 10 ^ Z.of_nat w)%Z → padN n w = dec w (Z.of_nat n).
Proof. intros. apply pad_Itoa; lia. Qed.

(** Reading the length prefix of the wire form gives the size back. *)
Lemma undec_padN n w :
  (0 < w)%nat → (Z.of_nat n < 10 ^ Z.of_nat w)%Z →
  slen (padN n w) = w ∧ digitsRe (padN n w) = true ∧ Z.to_nat (undec (padN n w)) = n.
Proof.
  intros Hw Hn. rewrite padN_dec by done. split; [apply slen_dec|].
  split; [apply dec_digits|]. rewrite undec_dec by lia. lia.
Qed.

(** Conversely a digit string of the prefix width is what [padN] prints for its value. *)
Lemma padN_undec s w :
  (0 < w)%nat → slen s = w → digitsRe s = true → padN (Z.to_nat (undec s)) w = s.
Proof.
  intros Hw Hl Hd. pose proof (undec_range s Hd) as Hr. rewrite Hl in Hr.
  rewrite padN_dec by lia. rewrite Z2Nat.id by lia. rewrite <-Hl. by apply dec_undec.
Qed.

Lemma unpackField_app n v p t r :
  packField n v = Ok p → in_range t → rest t = p +:+ r →
  unpackField t n = Ok (v, advance t (slen p)).
Proof.
  unfold packField, unpackField. destruct (Fields !! n) as [spec|] eqn:Hf; [|done].
  intros Hp Hr He. apply result_bind_Ok in Hp as ([] & Hc & Hp). apply check_Ok in Hc.
  pose proof (field_width spec v Hc) as Hw.
  destruct (checkValue_None spec v Hc) as (_ & _ & Hfix & Hvar).
  destruct (Fields_prefix n spec Hf) as [Hpre|[[Hpre Hlen]|[Hpre Hlen]]]; rewrite Hpre in *; cbn [String.eqb Ascii.eqb negb prefixLL prefixLLL Bool.eqb] in *.
  - injection Hp as <-. specialize (Hfix eq_refl). bind_step. rewrite <-Hfix, Hw.
    rewrite (take_app t v r) by done. bind_step. by rewrite Hc.
  - injection Hp as <-. rewrite app_assoc_str in He. specialize (Hvar ltac:(done)).
    destruct (undec_padN (dataLen spec v) 2) as (Hs & Hd & Hu); [lia..|].
    unfold pad2 in *. rewrite <-Hs at 1. rewrite (take_app _ _ _ _ Hr He). bind_step.
    rewrite Hd, Hu. cbn [negb].
    destruct (rest_advance _ _ _ Hr He) as [He' Hr'].
    rewrite (proj2 (Nat.ltb_ge _ _)) by lia. bind_step. rewrite Hw.
    rewrite (take_app _ _ _ _ Hr' He'). bind_step. rewrite Hc. cbn.
    by rewrite advance_advance, slen_app.
  - injection Hp as <-. rewrite app_assoc_str in He. specialize (Hvar ltac:(done)).
    destruct (undec_padN (dataLen spec v) 3) as (Hs & Hd & Hu); [lia..|].
    unfold pad3 in *. rewrite <-Hs at 1. rewrite (take_app _ _ _ _ Hr He). bind_step.
    rewrite Hd, Hu. cbn [negb].
    destruct (rest_advance _ _ _ Hr He) as [He' Hr'].
    rewrite (proj2 (Nat.ltb_ge _ _)) by lia. bind_step. rewrite Hw.
    rewrite (take_app _ _ _ _ Hr' He'). bind_step. rewrite Hc. cbn.
    by rewrite advance_advance, slen_app.
Qed.

Lemma dataLen_width f v size :
  slen v = (if String.eqb (Type_ f) "b" then (size * 2)%nat else size) → dataLen f v = size.
Proof.
  unfold dataLen. case_if; [|done]. intros ->. by rewrite Nat.div_mul.
Qed.

Lemma unpackField_inv t n v t' :
  in_range t → unpackField t n = Ok (v, t') →
  ∃ p, packField n v = Ok p ∧ t' = advance t (slen p) ∧ rest t = p +:+ rest t' ∧ in_range t'.
Proof.
  unfold packField, unpackField. destruct (Fields !! n) as [spec|] eqn:Hf; [|done].
  intros Hr H. apply result_bind_Ok in H as ([size t1] & Hsz & H).
  apply result_bind_Ok in H as ([v' t2] & Htk & H).
  apply result_bind_Ok in H as ([] & Hc & H). injection H as -> ->.
  rewrite Hc. bind_step. apply check_Ok in Hc.
  destruct (Fields_prefix n spec Hf) as [Hpre|[[Hpre Hlen]|[Hpre Hlen]]]; rewrite Hpre in *; cbn [String.eqb Ascii.eqb negb prefixLL prefixLLL Bool.eqb] in Hsz |- *.
  - injection Hsz as <- <-. apply take_inv in Htk as (-> & Hl & He & Hr2); [|done].
    exists v. by rewrite Hl.
  - apply result_bind_Ok in Hsz as ([raw t0] & Htk0 & Hsz).
    apply take_inv in Htk0 as (-> & Hl0 & He0 & Hr0); [|done].
    destruct (digitsRe raw) eqn:Hd; rewrite ?Hd in Hsz; cbn [negb] in Hsz; [|done].
    destruct (Length spec <? _)%nat eqn:Hb; [done|]. injection Hsz as <- <-.
    apply take_inv in Htk as (-> & Hl & He & Hr2); [|done].
    rewrite (dataLen_width _ _ _ Hl). unfold pad2. rewrite (padN_undec raw 2); [|lia|done..].
    exists (raw +:+ v). split; [done|]. rewrite slen_app, Hl0, Hl, advance_advance. split; [done|].
    split; [|by rewrite <-advance_advance]. rewrite He0, He, app_assoc_str.
    by rewrite <-advance_advance.
  - apply result_bind_Ok in Hsz as ([raw t0] & Htk0 & Hsz).
    apply take_inv in Htk0 as (-> & Hl0 & He0 & Hr0); [|done].
    destruct (digitsRe raw) eqn:Hd; rewrite ?Hd in Hsz; cbn [negb] in Hsz; [|done].
    destruct (Length spec <? _)%nat eqn:Hb; [done|]. injection Hsz as <- <-.
    apply take_inv in Htk as (-> & Hl & He & Hr2); [|done].
    rewrite (dataLen_width _ _ _ Hl). unfold pad3. rewrite (padN_undec raw 3); [|lia|done..].
    exists (raw +:+ v). split; [done|]. rewrite slen_app, Hl0, Hl, advance_advance. split; [done|].
    split; [|by rewrite <-advance_advance]. rewrite He0, He, app_assoc_str.
    by rewrite <-advance_advance.
Qed.

(** ** The field loop *)

Lemma packFields_cons n numbers fields body :
  packFields (n :: numbers) fields = Ok body →
  ∃ p tail, packField n (default "" (fields !! n)) = Ok p ∧ packFields numbers fields = Ok tail
            ∧ body = p +:+ tail.
Proof. cbn [packFields]. intros H. invert_ok. naive_solver. Qed.

Lemma unpackFields_app numbers fields body t r acc :
  packFields numbers fields = Ok body → (1 ∉ numbers) → in_range t → rest t = body +:+ r →
  ∃ m, unpackFields t numbers acc = Ok (m, advance t (slen body)) ∧
       ∀ k, m !! k = if decide (k ∈ numbers) then Some (default "" (fields !! k)) else acc !! k.
Proof.
  revert body t acc; induction numbers as [|n numbers IH]; intros body t acc Hp H1 Hr He.
  - injection Hp as <-. exists acc. split; [|done]. cbn. unfold advance. destruct t; cbn.
    by rewrite Nat.add_0_r.
  - apply packFields_cons in Hp as (p & tail & Hn & Hp & ->). rewrite app_assoc_str in He.
    apply not_elem_of_cons in H1 as [Hne H1].
    destruct (rest_advance _ _ _ Hr He) as [He' Hr'].
    destruct (IH tail (advance t (slen p)) (<[n := default "" (fields !! n)]> acc))
      as (m & Hm & Hk); [done..|].
    exists m. cbn [unpackFields]. rewrite (proj2 (Z.eqb_neq n 1)) by done.
    rewrite (unpackField_app _ _ _ _ _ Hn Hr He). bind_step.
    rewrite Hm, advance_advance, slen_app. split; [done|]. intros k. rewrite Hk.
    destruct (decide (k ∈ numbers)); [by rewrite decide_True by (by right)|].
    destruct (decide (k = n)) as [->|Hkn].
    + by rewrite lookup_insert_eq, decide_True by (by left).
    + rewrite lookup_insert_ne, decide_False; [done| |done].
      by intros [?|?]%elem_of_cons.
Qed.

(** What a successful field loop read: the packed fields, concatenated in bitmap order. *)
Lemma unpackFields_inv numbers t acc m t' :
  in_range t → NoDup numbers → unpackFields t numbers acc = Ok (m, t') →
  (∀ k, k ∉ numbers ∨ k = 1 → m !! k = acc !! k) ∧
  (∀ k, k ∈ numbers → k ≠ 1 → is_Some (m !! k)) ∧
  ∃ body, packFields (filter (λ k, k ≠ 1) numbers) m = Ok body ∧
          rest t = body +:+ rest t' ∧ in_range t' ∧ t' = advance t (slen body).
Proof.
  revert t acc; induction numbers as [|n numbers IH]; intros t acc Hr Hnd H.
  - injection H as <- <-. split; [done|]. split; [by intros ? ?%elem_of_nil|].
    exists "". split; [done|]. split; [done|]. split; [done|].
    unfold advance. destruct t; cbn. by rewrite Nat.add_0_r.
  - apply NoDup_cons in Hnd as [Hn Hnd]. cbn [unpackFields] in H.
    destruct (Z.eqb_spec n 1) as [->|Hn1].
    + destruct (IH t acc Hr Hnd H) as (H1 & H2 & body & H3).
      rewrite filter_cons_False by (by intros []). split; [|split; [|eauto]].
      * intros k [Hk| ->]; apply H1; [left; by apply not_elem_of_cons in Hk as []|by right].
      * intros k [->|Hk]%elem_of_cons Hk1; [done|by apply H2].
    + apply result_bind_Ok in H as ([v t1] & Hu & H).
      apply unpackField_inv in Hu as (p & Hp & -> & He & Hr1); [|done].
      destruct (IH _ _ Hr1 Hnd H) as (H1 & H2 & body & H3 & H4 & H5 & H6).
      assert (Hm : m !! n = Some v) by (rewrite H1 by auto; apply lookup_insert_eq).
      split; [|split].
      * intros k Hk. rewrite H1 by (destruct Hk as [Hk| ->]; [left; by apply not_elem_of_cons in Hk as []|by right]).
        apply lookup_insert_ne. intros ->. destruct Hk as [Hk|]; [|done]. apply Hk. by left.
      * intros k [->|Hk]%elem_of_cons Hk1; [by rewrite Hm|by apply H2].
      * exists (p +:+ body). rewrite filter_cons_True by done. cbn [packFields].
        rewrite Hm. cbn [default]. unfold id. rewrite Hp. bind_step. rewrite H3. bind_step. split; [done|].
        rewrite slen_app, <-advance_advance. split; [by rewrite app_assoc_str, <-H4|done].
Qed.

(** ** Bitmaps and sorted numbers *)

Lemma page_numbers_filter P page :
  page_numbers P page = filter (λ k, P k = true) (seqZ (page * 64 + 1) 64).
Proof.
  unfold page_numbers. change 64 with (Z.of_nat 64) at 3. change 64 with (Z.of_nat 64) at 4.
  assert (Hg : ∀ n lo, flat_map (λ i, if P (page * 64 + i + 1) then [page * 64 + i + 1] else [])
                  (seqZ lo (Z.of_nat n))
              = filter (λ k, P k = true) (seqZ (page * 64 + lo + 1) (Z.of_nat n))).
  { induction n as [|n IH]; intros lo; [done|].
    rewrite !(seqZ_cons _ (Z.of_nat (S n))) by lia.
    replace (Z.pred (Z.of_nat (S n))) with (Z.of_nat n) by lia.
    cbn [flat_map]. rewrite IH. replace (page * 64 + Z.succ lo + 1) with (Z.succ (page * 64 + lo + 1)) by lia.
    rewrite filter_cons. destruct (P (page * 64 + lo + 1)) eqn:HP.
    - rewrite decide_True by done. done.
    - by rewrite decide_False by done. }
  rewrite Hg. f_equal. f_equal. lia.
Qed.

Lemma elem_of_page_numbers P page k :
  k ∈ page_numbers P page ↔ P k = true ∧ page * 64 + 1 ≤ k < page * 64 + 65.
Proof. rewrite page_numbers_filter, list_elem_of_filter, elem_of_seqZ. intuition lia. Qed.

Lemma StronglySorted_filter {A} (R : A → A → Prop) (P : A → Prop) `{∀ x, Decision (P x)} l :
  StronglySorted R l → StronglySorted R (filter P l).
Proof.
  induction l as [|x l IH]; intros Hs; [constructor|].
  apply StronglySorted_inv in Hs as [Hs Hx]. rewrite filter_cons. case_decide; [|auto].
  constructor; [auto|]. apply Forall_forall. intros y [_ Hy]%list_elem_of_filter.
  rewrite Forall_forall in Hx. auto.
Qed.

Lemma StronglySorted_seqZ lo n : StronglySorted Z.lt (seqZ lo (Z.of_nat n)).
Proof.
  revert lo; induction n as [|n IH]; intros lo; [constructor|].
  rewrite seqZ_cons by lia. replace (Z.pred (Z.of_nat (S n))) with (Z.of_nat n) by lia.
  constructor; [apply IH|]. apply Forall_forall. intros k. rewrite elem_of_seqZ. lia.
Qed.

Lemma StronglySorted_app_intro {A} (R : A → A → Prop) l k :
  StronglySorted R l → StronglySorted R k → (∀ x y, x ∈ l → y ∈ k → R x y) →
  StronglySorted R (l ++ k).
Proof.
  induction l as [|x l IH]; intros Hl Hk H; [done|].
  apply StronglySorted_inv in Hl as [Hl Hx]. constructor.
  - apply IH; [done..|]. intros y z ? ?. apply H; [by right|done].
  - apply Forall_app. split; [done|]. apply Forall_forall. intros y ?. apply H; [by left|done].
Qed.

Lemma page_numbers_sorted P page : StronglySorted Z.lt (page_numbers P page).
Proof. rewrite page_numbers_filter. apply StronglySorted_filter, (StronglySorted_seqZ _ 64). Qed.

Lemma pages_sorted P : StronglySorted Z.lt (page_numbers P 0 ++ page_numbers P 1).
Proof.
  apply StronglySorted_app_intro; try apply page_numbers_sorted.
  intros x y. rewrite !elem_of_page_numbers. lia.
Qed.

Lemma sorted_lt_NoDup l : StronglySorted Z.lt l → NoDup l.
Proof.
  induction l as [|x l IH]; intros Hs; [constructor|].
  apply StronglySorted_inv in Hs as [Hs Hx]. constructor; [|auto].
  intros Hin. rewrite Forall_forall in Hx. specialize (Hx x Hin). lia.
Qed.

Lemma sorted_lt_le l : StronglySorted Z.lt l → StronglySorted Z.le l.
Proof.
  induction 1 as [|x l Hs IH Hx]; constructor; [done|].
  eapply Forall_impl; [exact Hx|]. cbn; intros; lia.
Qed.

Lemma sortInts_of_set order l :
  NoDup order → StronglySorted Z.lt l → (∀ k, k ∈ l ↔ k ∈ order) → sortInts order = l.
Proof.
  intros Hnd Hl Hk. apply sortInts_unique; [by apply sorted_lt_le|].
  apply NoDup_Permutation; [by apply sorted_lt_NoDup|done|done].
Qed.

Lemma keys_NoDup (f : fieldmap) : NoDup (keys f).
Proof. apply NoDup_fst_map_to_list. Qed.

Lemma elem_of_keys (f : fieldmap) k : k ∈ keys f ↔ is_Some (f !! k).
Proof.
  unfold keys. rewrite list_elem_of_fmap. split.
  - intros ([k' v] & -> & Hin). apply elem_of_map_to_list in Hin. by exists v.
  - intros [v Hv]. exists (k, v). split; [done|]. by apply elem_of_map_to_list.
Qed.

(** ** The bitmaps of a packed message *)

Lemma match_one {A} (l : list Z) (a b : A) :
  (match l with 1 :: _ => a | _ => b end) = if bool_decide (head l = Some 1) then a else b.
Proof. destruct l as [|[|[p|p|]|p] l]; done. Qed.

Lemma bitmapHex_hex present page : bitmapHex present page = hex 16 (bitmapValue present page).
Proof. apply pad_FormatUint16; [lia|apply bitmapValue_range]. Qed.

Lemma bitmapHex_ok present page :
  slen (bitmapHex present page) = 16%nat ∧ hexRe (bitmapHex present page) = true ∧
  bitPositions (unhex (bitmapHex present page)) (page * 64)
  = page_numbers (λ k, default false (present !! k)) page.
Proof.
  rewrite bitmapHex_hex. split; [apply slen_hex|]. split; [apply hex_digits|].
  rewrite unhex_hex by apply bitmapValue_range. apply bitPositions_bitmap.
Qed.

Lemma StronglySorted_head_min l k :
  StronglySorted Z.lt l → k ∈ l → (∀ n, n ∈ l → k ≤ n) → head l = Some k.
Proof.
  intros Hs Hk Hmin. destruct l as [|x l]; [by apply elem_of_nil in Hk|]. cbn. f_equal.
  apply elem_of_cons in Hk as [->|Hk]; [done|].
  apply StronglySorted_inv in Hs as [_ Hx]. rewrite Forall_forall in Hx.
  specialize (Hx k Hk). specialize (Hmin x ltac:(by left)). lia.
Qed.

(** The bit numbers [unpackBitmaps] must read for a map with keys [order]. *)
Definition wire_numbers (order : list Z) : list Z :=
  if has_secondary order then 1 :: sortInts order else sortInts order.

Lemma wire_numbers_pages order :
  NoDup order → (∀ k, k ∈ order → 2 ≤ k ≤ 128) →
  let P := λ k, default false ((presenceOf order).1 !! k) in
  wire_numbers order = (if has_secondary order then app (page_numbers P 0) (page_numbers P 1)
                        else page_numbers P 0).
Proof.
  intros Hnd Hr P.
  assert (HP : ∀ k, P k = true ↔ k ∈ order ∨ (k = 1 ∧ has_secondary order = true)).
  { intros k. unfold P. rewrite (proj2 (presenceOf_spec order)). apply bool_decide_eq_true. }
  unfold wire_numbers. destruct (has_secondary order) eqn:Hsec.
  - assert (Hl : StronglySorted Z.lt (1 :: sortInts order)).
    { constructor; [|].
      - destruct (sortInts_sorted order) as [Hs Hp].
        assert (Hnd' : NoDup (sortInts order)) by (by rewrite Hp).
        clear -Hs Hnd'. induction Hs as [|x l Hs IH Hx]; constructor.
        + apply IH. by apply NoDup_cons in Hnd' as [].
        + apply NoDup_cons in Hnd' as [Hx' _]. rewrite Forall_forall in Hx |- *.
          intros y Hy. specialize (Hx y Hy). assert (x ≠ y) by (by intros ->). lia.
      - apply Forall_forall. intros k. rewrite (proj2 (sortInts_sorted order)).
        intros Hk%Hr. lia. }
    apply (StronglySorted_unique Z.le); [by apply sorted_lt_le|apply sorted_lt_le, pages_sorted|].
    apply NoDup_Permutation; [by apply sorted_lt_NoDup|apply sorted_lt_NoDup, pages_sorted|].
    intros k. rewrite elem_of_app, !elem_of_page_numbers, HP, elem_of_cons.
    rewrite (proj2 (sortInts_sorted order)). split.
    + intros [->|Hk]; [left; split; [by right|lia]|]. pose proof (Hr k Hk).
      destruct (decide (k ≤ 64)); [left|right]; split; auto; lia.
    + intros [[[?|[-> _]] _]|[[?|[-> _]] _]]; auto.
  - apply sortInts_of_set; [done|apply page_numbers_sorted|].
    intros k. rewrite elem_of_page_numbers, HP. split; [by intros [[?|[_ ?]] _]|].
    intros Hk. split; [by left|]. pose proof (Hr k Hk). split; [lia|].
    apply not_true_iff_false in Hsec. destruct (decide (k ≤ 64)); [lia|].
    exfalso. apply Hsec, has_secondary_spec. exists k. split; [done|lia].
Qed.

Lemma unpackBitmaps_packed order t r :
  NoDup order → (∀ k, k ∈ order → 2 ≤ k ≤ 128) → in_range t →
  let present := (presenceOf order).1 in
  let maps := bitmapHex present 0 +:+ (if has_secondary order then bitmapHex present 1 else "") in
  rest t = maps +:+ r → unpackBitmaps t = Ok (wire_numbers order, advance t (slen maps)).
Proof.
  intros Hnd Hk Hr present maps He. rewrite wire_numbers_pages by done. unfold maps in *.
  destruct (bitmapHex_ok present 0) as (Hl0 & Hh0 & Hb0).
  destruct (bitmapHex_ok present 1) as (Hl1 & Hh1 & Hb1).
  change (0 * 64) with 0 in Hb0. change (1 * 64) with 64 in Hb1.
  rewrite app_assoc_str in He. destruct (rest_advance _ _ _ Hr He) as [He' Hr'].
  unfold unpackBitmaps. rewrite <-Hl0 at 1. rewrite (take_app _ _ _ _ Hr He). bind_step.
  rewrite Hh0. cbn [negb]. rewrite match_one. rewrite Hb0.
  assert (HP1 : default false (present !! 1) = has_secondary order).
  { unfold present. rewrite (proj2 (presenceOf_spec order)).
    destruct (has_secondary order); [by apply bool_decide_eq_true_2; right|].
    apply bool_decide_eq_false_2. intros [Hin|[_ ?]]; [|done]. apply Hk in Hin. lia. }
  destruct (has_secondary order) eqn:Hsec.
  - rewrite bool_decide_eq_true_2.
    + rewrite <-Hl1 at 1. rewrite (take_app _ _ _ _ Hr' He'). bind_step. rewrite Hh1. cbn [negb].
      rewrite Hb1. unfold present.
      by rewrite advance_advance, slen_app.
    + apply StronglySorted_head_min; [apply page_numbers_sorted|..].
      * apply elem_of_page_numbers. split; [done|lia].
      * intros n Hn%elem_of_page_numbers. lia.
  - rewrite bool_decide_eq_false_2; [by rewrite app_nil_str|].
    intros Hh. apply head_Some_elem_of, elem_of_page_numbers in Hh as [Hh _]. congruence.
Qed.

(** ** Pack, inverted *)

Lemma packFields_known numbers f body :
  packFields numbers f = Ok body → ∀ n, n ∈ numbers → is_Some (Fields !! n).
Proof.
  revert body; induction numbers as [|n numbers IH]; intros body Hp k; [by intros ?%elem_of_nil|].
  apply packFields_cons in Hp as (p & tail & Hn & Hp & _).
  intros [->|Hk]%elem_of_cons; [|by eapply IH].
  unfold packField in Hn. destruct (Fields !! n); [done|discriminate].
Qed.

Lemma PackOrder_inv o1 o2 m f s :
  PackOrder o1 o2 m f = Ok s →
  slen m = 4%nat ∧ digitsRe m = true ∧ f !! 1 = None ∧
  ∃ body, packFields (sortInts o2) f = Ok body ∧
    s = m +:+ (bitmapHex (presenceOf o1).1 0 +:+
               (if has_secondary o1 then bitmapHex (presenceOf o1).1 1 else "")) +:+ body.
Proof.
  unfold PackOrder. intros H. case_if in H; [done|].
  apply orb_false_iff in Hb as [Hl Hd]. apply negb_false_iff in Hl, Hd. apply Nat.eqb_eq in Hl.
  destruct (f !! 1) eqn:H1; [done|]. split; [done|]. split; [done|]. split; [done|].
  destruct (presenceOf o1) as [present sec] eqn:Ep.
  apply result_bind_Ok in H as (body & Hp & [= <-]). exists body. split; [done|].
  replace sec with (has_secondary o1) by (rewrite <-(proj1 (presenceOf_spec o1)), Ep; done).
  cbn [fst]. by rewrite app_assoc_str.
Qed.

Lemma packed_keys_range f body :
  f !! 1 = None → packFields (sortInts (keys f)) f = Ok body →
  ∀ k, k ∈ keys f → 2 ≤ k ≤ 128.
Proof.
  intros H1 Hp k Hk.
  assert (Hin : k ∈ sortInts (keys f)) by (by rewrite (proj2 (sortInts_sorted _))).
  destruct (packFields_known _ _ _ Hp k Hin) as [spec Hs]. pose proof (Fields_range _ _ Hs).
  assert (k ≠ 1) by (intros ->; apply elem_of_keys in Hk as [? ?]; congruence). lia.
Qed.

(** ** The round trips *)

Lemma unpackFields_wire t order acc :
  unpackFields t (wire_numbers order) acc = unpackFields t (sortInts order) acc.
Proof. unfold wire_numbers. by destruct (has_secondary order). Qed.

Lemma Unpack_packed m f s : Pack m f = Ok s → Unpack s = Ok (m, f).
Proof.
  intros H. apply PackOrder_inv in H as (Hm & Hd & H1 & body & Hp & ->).
  pose proof (packed_keys_range f body H1 Hp) as Hk. set (maps := bitmapHex _ 0 +:+ _).
  unfold Unpack. set (t0 := mkTaker _ 0).
  assert (Hr0 : in_range t0) by (unfold in_range; cbn; lia).
  assert (He0 : rest t0 = m +:+ (maps +:+ body)) by done.
  rewrite <-Hm at 1. rewrite (take_app _ _ _ _ Hr0 He0). bind_step. rewrite Hd. cbn [negb].
  destruct (rest_advance _ _ _ Hr0 He0) as [He1 Hr1].
  rewrite (unpackBitmaps_packed (keys f) _ body (keys_NoDup f) Hk Hr1 He1). bind_step. fold maps.
  destruct (rest_advance _ _ _ Hr1 He1) as [He2 Hr2]. rewrite <-(app_nil_str body) in He2.
  set (t2 := advance (advance t0 (slen m)) (slen maps)) in *.
  destruct (unpackFields_app _ f body t2 "" ∅ Hp) as (mp & Hmp & Hlk); [|exact Hr2|exact He2|].
  { rewrite (proj2 (sortInts_sorted _)). intros Hin. apply Hk in Hin. lia. }
  rewrite unpackFields_wire, Hmp. bind_step.
  unfold t2. rewrite !advance_advance. cbn [pos packed advance t0]. rewrite !slen_app.
  rewrite (proj2 (Nat.eqb_eq _ _)) by lia. cbn [negb]. do 2 f_equal.
  apply map_eq. intros k. rewrite Hlk. destruct (f !! k) as [v|] eqn:Hv.
  - rewrite decide_True; [done|]. rewrite (proj2 (sortInts_sorted _)). apply elem_of_keys. eauto.
  - rewrite decide_False; [done|]. rewrite (proj2 (sortInts_sorted _)), elem_of_keys, Hv.
    by intros [? ?].
Qed.

(** C23. Unpacking inverts packing: whatever the field map, if [Pack] produces a message then
    [Unpack] reads back the same MTI and exactly the same field map. *)
Theorem Unpack_Pack m f s : Pack m f = Ok s → Unpack s = Ok (m, f).
Proof. apply Unpack_packed. Qed.

Lemma Unpack_Pack_witness :
  let f : fieldmap := <[11 := "000123"]> (<[7 := "0730101500"]> {[70 := "301"]}) in
  Unpack "0800822000000000000004000000000000000730101500000123301" = Ok ("0800", f).
Proof. apply Unpack_Pack. vm_compute. reflexivity. Defined.

(** Packing does not depend on the order in which Go happens to iterate the field map:
    any two enumerations of its keys give the same message or the same error. *)
Theorem PackOrder_irrelevant o1 o2 m f :
  o1 ≡ₚ keys f → o2 ≡ₚ keys f → PackOrder o1 o2 m f = Pack m f.
Proof.
  intros H1 H2. unfold Pack, PackOrder. rewrite (sortInts_perm o2 (keys f)) by done.
  case_if; [done|]. destruct (f !! 1); [done|].
  assert (Hs : has_secondary o1 = has_secondary (keys f)).
  { apply eq_true_iff_eq. rewrite !has_secondary_spec. by setoid_rewrite H1. }
  destruct (presenceOf_spec o1) as [E1 P1], (presenceOf_spec (keys f)) as [E2 P2].
  assert (HP : ∀ page, bitmapHex (presenceOf o1).1 page = bitmapHex (presenceOf (keys f)).1 page).
  { intros page. apply bitmapHex_ext. intros k. rewrite P1, P2, Hs.
    apply bool_decide_ext. by rewrite H1. }
  destruct (presenceOf o1) as [p1 s1], (presenceOf (keys f)) as [p2 s2]. cbn [fst snd] in *.
  subst s1 s2. rewrite Hs, !HP. done.
Qed.

Lemma PackOrder_irrelevant_witness :
  let f : fieldmap := <[11 := "000123"]> (<[7 := "0730101500"]> {[70 := "301"]}) in
  PackOrder [70; 11; 7] [7; 70; 11] "0800" f = Pack "0800" f.
Proof.
  apply PackOrder_irrelevant; apply (bool_decide_unpack _); vm_compute; exact I.
Defined.

(** ** What [Unpack] accepts *)

(** The bitmap numbers of a message's first two bitmaps, read off the bytes. *)
Lemma unpackBitmaps_inv t numbers t' :
  in_range t → unpackBitmaps t = Ok (numbers, t') →
  ∃ primary, slen primary = 16%nat ∧ hexRe primary = true ∧
  let first := bitPositions (unhex primary) 0 in
  if bool_decide (head first = Some 1) then
    ∃ secondary, slen secondary = 16%nat ∧ hexRe secondary = true ∧
      numbers = app first (bitPositions (unhex secondary) 64) ∧
      rest t = primary +:+ secondary +:+ rest t' ∧ in_range t' ∧ t' = advance t 32
  else numbers = first ∧ rest t = primary +:+ rest t' ∧ in_range t' ∧ t' = advance t 16.
Proof.
  unfold unpackBitmaps. intros Hr H. apply result_bind_Ok in H as ([primary t1] & Htk & H).
  apply take_inv in Htk as (-> & Hl & He & Hr1); [|done].
  destruct (hexRe primary) eqn:Hh; [cbn [negb] in H|done].
  exists primary. split; [done|]. split; [done|]. rewrite match_one in H. cbn zeta.
  case_bool_decide; [|injection H as <- <-; done].
  apply result_bind_Ok in H as ([secondary t2] & Htk & H).
  apply take_inv in Htk as (-> & Hl2 & He2 & Hr2); [|done].
  destruct (hexRe secondary) eqn:Hh2; [cbn [negb] in H|done]. injection H as <- <-.
  exists secondary. rewrite advance_advance in *. by rewrite He, He2.
Qed.

Lemma elem_of_bitPositions v offset k :
  k ∈ bitPositions v offset ↔
  offset + 1 ≤ k < offset + 65 ∧ Z.testbit v (63 - (k - offset - 1)) = true.
Proof.
  unfold bitPositions. rewrite list_elem_of_In, in_flat_map. split.
  - intros (i & Hi & Hk). apply list_elem_of_In, elem_of_seqZ in Hi.
    rewrite land_pow2 in Hk by lia. destruct (Z.testbit v (63 - i)) eqn:Hb; [|done].
    destruct Hk as [<-|[]]. split; [lia|]. by replace (offset + i + 1 - offset - 1) with i by lia.
  - intros [Hk Hb]. exists (k - offset - 1). split; [apply list_elem_of_In, elem_of_seqZ; lia|].
    rewrite land_pow2, Hb by lia. left. lia.
Qed.

Lemma bitPositions_sorted v offset : StronglySorted Z.lt (bitPositions v offset).
Proof.
  assert (Hg : ∀ n lo, StronglySorted Z.lt
    (flat_map (λ i, if negb (Z.land v (Z.shiftl 1 (63 - i)) =? 0) then [offset + i + 1] else [])
       (seqZ lo (Z.of_nat n)))); [|apply (Hg 64%nat 0)].
  induction n as [|n IH]; intros lo; [constructor|].
  rewrite seqZ_cons by lia. replace (Z.pred (Z.of_nat (S n))) with (Z.of_nat n) by lia.
  cbn [flat_map]. case_if; [|apply IH]. constructor; [apply IH|].
  apply Forall_forall. intros k Hk%list_elem_of_In%in_flat_map.
  destruct Hk as (i & Hi & Hk). apply list_elem_of_In, elem_of_seqZ in Hi.
  case_if in Hk; [destruct Hk as [<-|[]]; lia|done].
Qed.

Lemma unpackBitmaps_NoDup t numbers t' :
  in_range t → unpackBitmaps t = Ok (numbers, t') → StronglySorted Z.lt numbers.
Proof.
  intros Hr H. destruct (unpackBitmaps_inv t numbers t' Hr H) as (p & _ & _ & Hn).
  cbn zeta in Hn. case_bool_decide.
  - destruct Hn as (s & _ & _ & -> & _).
    apply StronglySorted_app_intro; try apply bitPositions_sorted.
    intros x y. rewrite !elem_of_bitPositions. lia.
  - destruct Hn as (-> & _). apply bitPositions_sorted.
Qed.

(** Everything a successful [Unpack] establishes about the message. *)
Lemma Unpack_inv s m f :
  Unpack s = Ok (m, f) →
  slen m = 4%nat ∧ digitsRe m = true ∧
  ∃ numbers t1 body, unpackBitmaps (mkTaker s 4) = Ok (numbers, t1) ∧ in_range t1 ∧
    StronglySorted Z.lt numbers ∧
    (∀ k, is_Some (f !! k) ↔ k ∈ numbers ∧ k ≠ 1) ∧
    packFields (filter (λ k, k ≠ 1) numbers) f = Ok body ∧ rest t1 = body ∧
    s = m +:+ rest (mkTaker s 4).
Proof.
  unfold Unpack. intros H. apply result_bind_Ok in H as ([mti t0] & Htk & H).
  apply take_inv in Htk as (-> & Hl & He & Hr0); [|unfold in_range; cbn; lia].
  destruct (digitsRe mti) eqn:Hd; [cbn [negb] in H|done].
  apply result_bind_Ok in H as ([numbers t1] & Hb & H).
  apply result_bind_Ok in H as ([mp t2] & Hf & H).
  destruct (pos t2 =? slen (packed t2))%nat eqn:Hend; [cbn [negb] in H|done].
  injection H as <- <-. apply Nat.eqb_eq in Hend. split; [done|]. split; [done|].
  change (advance (mkTaker s 0) 4) with (mkTaker s 4) in *.
  pose proof (unpackBitmaps_NoDup _ _ _ Hr0 Hb) as Hs.
  assert (Hr1 : in_range t1).
  { destruct (unpackBitmaps_inv _ _ _ Hr0 Hb) as (p & _ & _ & Hn). cbn zeta in Hn.
    case_bool_decide; [destruct Hn as (? & _ & _ & _ & _ & Hn & _)|destruct Hn as (_ & _ & Hn & _)];
    exact Hn. }
  destruct (unpackFields_inv _ _ _ _ _ Hr1 (sorted_lt_NoDup _ Hs) Hf) as (H1 & H2 & body & H3 & H4 & _).
  exists numbers, t1, body. split; [done|]. split; [done|]. split; [done|].
  split; [|split; [done|]].
  - intros k. split; [|by intros []; auto].
    intros [v Hv]. destruct (decide (k ∈ numbers)) as [Hin|Hin], (decide (k = 1)) as [->|];
      try done; rewrite H1 in Hv by auto; by rewrite lookup_empty in Hv.
  - split; [|by apply He]. rewrite H4. unfold rest at 1. rewrite Hend.
    replace (str_drop _ _) with ""; [by rewrite app_nil_str|].
    clear. induction (packed t2) as [|c s' IH]; [done|exact IH].
Qed.

(** ** Re-packing what was unpacked *)

Lemma bitmapValue_testbit numbers page k :
  0 ≤ k < 64 →
  Z.testbit (bitmapValue numbers page) k = default false (numbers !! (page * 64 + 64 - k)).
Proof.
  intros Hk. unfold bitmapValue.
  rewrite (bitmap_fold_testbit (λ i, default false (numbers !! (page * 64 + i + 1))))
    by (lia || apply seqZ_64).
  rewrite Z.bits_0, orb_false_l. apply eq_true_iff_eq. rewrite existsb_exists. split.
  - intros (i & _ & Hi). apply andb_true_iff in Hi as [Hi Hik]. apply Z.eqb_eq in Hik.
    by replace (page * 64 + 64 - k) with (page * 64 + i + 1) by lia.
  - intros H. exists (63 - k). split; [apply list_elem_of_In, elem_of_seqZ; lia|].
    replace (page * 64 + (63 - k) + 1) with (page * 64 + 64 - k) by lia. rewrite H. cbn. lia.
Qed.

(** A bitmap word is re-printed from the numbers read off it. *)
Lemma bitmapHex_of_word numbers page word :
  slen word = 16%nat → hexRe word = true →
  (∀ k, page * 64 + 1 ≤ k < page * 64 + 65 →
        default false (numbers !! k) = true ↔ k ∈ bitPositions (unhex word) (page * 64)) →
  bitmapHex numbers page = word.
Proof.
  intros Hl Hh Hk. rewrite bitmapHex_hex. rewrite <-(hex_unhex word Hh), Hl. f_equal.
  pose proof (unhex_range word Hh) as Hr. rewrite Hl in Hr. change (16 ^ Z.of_nat 16) with (2 ^ 64) in Hr.
  pose proof (bitmapValue_range numbers page) as Hv. change (16 ^ Z.of_nat 16) with (2 ^ 64) in Hv.
  apply Z.bits_inj'. intros i Hi. destruct (decide (i < 64)) as [Hlt|].
  - apply eq_true_iff_eq. rewrite bitmapValue_testbit by lia.
    rewrite Hk, elem_of_bitPositions by lia.
    replace (63 - (page * 64 + 64 - i - page * 64 - 1)) with i by lia. intuition lia.
  - assert (Hhigh : ∀ z, 0 ≤ z < 2 ^ 64 → Z.testbit z i = false); [|by rewrite !Hhigh].
    intros z Hz. destruct (Z.eq_dec z 0) as [->|]; [apply Z.bits_0|].
    apply Z.bits_above_log2; [lia|]. assert (Z.log2 z < 64) by (apply Z.log2_lt_pow2; lia). lia.
Qed.

(** The one shape of accepted message that is not re-packed to itself: the primary bitmap
    announces a secondary one, and the secondary one is all zeros. *)
Definition needless_secondary (s : string) : bool :=
  Z.testbit (unhex (str_slice 4 20 s)) 63 && (unhex (str_slice 20 36 s) =? 0).

Lemma head_one_testbit word :
  head (bitPositions (unhex word) 0) = Some 1 ↔ Z.testbit (unhex word) 63 = true.
Proof.
  split.
  - intros H. apply head_Some_elem_of, elem_of_bitPositions in H as [_ H].
    by replace (63 - (1 - 0 - 1)) with 63 in H by lia.
  - intros H. apply StronglySorted_head_min; [apply bitPositions_sorted|..].
    + apply elem_of_bitPositions. split; [lia|]. by replace (63 - (1 - 0 - 1)) with 63 by lia.
    + intros n Hn%elem_of_bitPositions. lia.
Qed.

Lemma has_word_bit word :
  slen word = 16%nat → hexRe word = true →
  (∃ k, k ∈ bitPositions (unhex word) 64) ↔ unhex word ≠ 0.
Proof.
  intros Hl Hh. pose proof (unhex_range word Hh) as Hr. rewrite Hl in Hr.
  change (16 ^ Z.of_nat 16) with (2 ^ 64) in Hr. split.
  - intros (k & Hk%elem_of_bitPositions) H0. rewrite H0, Z.bits_0 in Hk. by destruct Hk.
  - intros Hne. exists (128 - Z.log2 (unhex word)). apply elem_of_bitPositions.
    assert (Z.log2 (unhex word) < 64) by (apply Z.log2_lt_pow2; lia).
    pose proof (Z.log2_nonneg (unhex word)). split; [lia|].
    replace (63 - _) with (Z.log2 (unhex word)) by lia. apply Z.bit_log2. lia.
Qed.

Lemma keys_of_numbers f numbers :
  StronglySorted Z.lt numbers → (∀ k, is_Some (f !! k) ↔ k ∈ numbers ∧ k ≠ 1) →
  sortInts (keys f) = filter (λ k, k ≠ 1) numbers.
Proof.
  intros Hs Hk. apply sortInts_of_set; [apply keys_NoDup|by apply StronglySorted_filter|].
  intros k. rewrite elem_of_keys, Hk, list_elem_of_filter. tauto.
Qed.

(** The packed form of an unpacked message, in terms of its bitmaps. *)
Lemma Pack_of_numbers m f numbers body :
  slen m = 4%nat → digitsRe m = true → StronglySorted Z.lt numbers →
  (∀ k, is_Some (f !! k) ↔ k ∈ numbers ∧ k ≠ 1) →
  packFields (filter (λ k, k ≠ 1) numbers) f = Ok body →
  Pack m f = Ok (m +:+ bitmapHex (presenceOf (keys f)).1 0 +:+
                 (if has_secondary (keys f) then bitmapHex (presenceOf (keys f)).1 1 else "") +:+ body).
Proof.
  intros Hl Hd Hs Hk Hp. unfold Pack, PackOrder. rewrite Hl, Hd. cbn [Nat.eqb negb orb].
  destruct (f !! 1) as [v|] eqn:H1.
  - exfalso. destruct (proj1 (Hk 1)) as [_ Hne]; [by rewrite H1|by apply Hne].
  - rewrite (keys_of_numbers f numbers) by done.
    rewrite <-(proj1 (presenceOf_spec (keys f))).
    destruct (presenceOf (keys f)) as [present sec]. rewrite Hp. done.
Qed.

Section repack.
Context (s m : string) (f : fieldmap) (numbers : list Z).
Hypothesis Hk : ∀ k, is_Some (f !! k) ↔ k ∈ numbers ∧ k ≠ 1.

Let P k : default false ((presenceOf (keys f)).1 !! k) = true ↔
          k ∈ keys f ∨ (k = 1 ∧ has_secondary (keys f) = true).
Proof. by rewrite (proj2 (presenceOf_spec (keys f))), bool_decide_eq_true. Qed.

Lemma repack_one word :
  numbers = bitPositions (unhex word) 0 → head numbers ≠ Some 1 →
  slen word = 16%nat → hexRe word = true →
  has_secondary (keys f) = false ∧ bitmapHex (presenceOf (keys f)).1 0 = word.
Proof.
  intros Hn Hh Hl Hx.
  assert (Hsec : has_secondary (keys f) = false).
  { apply not_true_iff_false. rewrite has_secondary_spec. intros (k & Hin & Hgt).
    rewrite elem_of_keys, Hk, Hn, elem_of_bitPositions in Hin. lia. }
  split; [done|]. apply bitmapHex_of_word; [done..|]. intros k Hrange. rewrite P, Hsec, elem_of_keys, Hk.
  rewrite Hn. change (0 * 64) with 0. split; [by intros [[]|[_ ?]]|]. intros Hin. left. split; [done|].
  intros ->. apply Hh. rewrite Hn. apply head_one_testbit.
  apply elem_of_bitPositions in Hin as [_ Hin]. by replace (63 - (1 - 0 - 1)) with 63 in Hin by lia.
Qed.

Lemma repack_two word word2 :
  numbers = app (bitPositions (unhex word) 0) (bitPositions (unhex word2) 64) →
  head (bitPositions (unhex word) 0) = Some 1 →
  slen word = 16%nat → hexRe word = true → slen word2 = 16%nat → hexRe word2 = true →
  (has_secondary (keys f) = true ↔ unhex word2 ≠ 0) ∧
  (unhex word2 ≠ 0 → bitmapHex (presenceOf (keys f)).1 0 = word ∧
                     bitmapHex (presenceOf (keys f)).1 1 = word2).
Proof.
  intros Hn Hh Hl Hx Hl2 Hx2.
  assert (Hsec : has_secondary (keys f) = true ↔ unhex word2 ≠ 0).
  { rewrite has_secondary_spec, <-has_word_bit by done. split.
    - intros (k & Hin & Hgt). exists k. rewrite elem_of_keys, Hk, Hn, elem_of_app in Hin.
      destruct Hin as [[Hin|Hin] _]; [|done]. apply elem_of_bitPositions in Hin. lia.
    - intros (k & Hin). exists k. rewrite elem_of_keys, Hk, Hn, elem_of_app.
      pose proof Hin as Hin'. apply elem_of_bitPositions in Hin' as [Hr _]. split; [|lia].
      split; [by right|lia]. }
  split; [done|]. intros Hne. apply Hsec in Hne. split; (apply bitmapHex_of_word; [done..|]);
    intros k Hrange; rewrite P, Hne, elem_of_keys, Hk, Hn, elem_of_app, !elem_of_bitPositions;
    change (0 * 64) with 0 in *; change (1 * 64) with 64 in *.
  - apply head_one_testbit in Hh. split.
    + intros [[[?|?] _]|[-> _]]; [tauto|lia|]. by replace (63 - _) with 63 by lia.
    + intros Hin. destruct (decide (k = 1)); [by right|left]. split; [left|done]. tauto.
  - split; [|intros Hin; left; split; [right; tauto|lia]].
    intros [[[?|?] _]|[-> _]]; [lia|tauto|lia].
Qed.
End repack.

(** C33. Packing inverts unpacking exactly on canonical messages: re-packing what [Unpack] read
    gives the same bytes if and only if the message does not carry an all-zero secondary
    bitmap. *)
Theorem Pack_Unpack s m f :
  Unpack s = Ok (m, f) → (Pack m f = Ok s ↔ needless_secondary s = false).
Proof.
  intros H. destruct (Unpack_inv s m f H) as
    (Hl & Hd & numbers & t1 & body & Hb & _ & Hs & Hk & Hp & He1 & Hm).
  assert (Hr0 : in_range (mkTaker s 4)).
  { unfold in_range. cbn. rewrite Hm, slen_app. lia. }
  rewrite (Pack_of_numbers m f numbers body) by done.
  destruct (unpackBitmaps_inv _ _ _ Hr0 Hb) as (word & Hlw & Hxw & Hn). cbn zeta in Hn.
  case_bool_decide as Hh.
  - destruct Hn as (word2 & Hl2 & Hx2 & Hn & He & _ & _).
    destruct (repack_two f numbers Hk word word2) as [Hsec Heq]; [done..|].
    assert (Hneed : needless_secondary s = false ↔ unhex word2 ≠ 0).
    { apply head_one_testbit in Hh. unfold needless_secondary.
      rewrite Hm, He, He1. rewrite (slice_mid m word) by lia.
      rewrite <-app_assoc_str, (slice_mid (m +:+ word) word2) by (rewrite ?slen_app; lia).
      rewrite Hh. cbn [andb]. by rewrite Z.eqb_neq. }
    rewrite Hneed. split.
    + intros Hpk. injection Hpk as Hpk. rewrite Hm, He, He1 in Hpk.
      apply app_inj_len in Hpk as [_ Hpk]; [|done].
      rewrite <-Hsec. destruct (has_secondary (keys f)); [done|exfalso].
      apply (f_equal slen) in Hpk. rewrite !slen_app in Hpk.
      rewrite (proj1 (bitmapHex_ok _ 0)) in Hpk. cbn [slen] in Hpk. lia.
    + intros Hne. destruct (Heq Hne) as [-> ->]. apply Hsec in Hne. rewrite Hne.
      by rewrite Hm, He, He1.
  - destruct Hn as (Hn & He & _ & _).
    destruct (repack_one f numbers Hk word) as [Hsec Heq]; [done|by rewrite Hn|done..|].
    rewrite Hsec, Heq. split; [intros _|intros _].
    + unfold needless_secondary. rewrite head_one_testbit in Hh.
      rewrite Hm, He, He1. rewrite (slice_mid m word) by lia.
      by rewrite (not_true_is_false _ Hh).
    + by rewrite Hm, He, He1.
Qed.

Lemma Pack_Unpack_witness :
  let s := "0800822000000000000004000000000000000730101500000123301" in
  let f : fieldmap := <[11 := "000123"]> (<[7 := "0730101500"]> {[70 := "301"]}) in
  Pack "0800" f = Ok s ↔ needless_secondary s = false.
Proof. apply Pack_Unpack. vm_compute. reflexivity. Defined.
