(* ===== verification/CodecBounds.v ===== *)
(** * CodecBounds: typed values, message size, and the Lab's segmented unpacking

    What an unpacked map contains, how long a packed message can be, and that
    [UnpackSegmented] is [Unpack] plus an exact partition of the message. *)

From S2P Require Import Prelude Digits Fields Codec CodecSort CodecCorrect.
Local Open Scope Z_scope.

(** ** Values *)

Lemma packFields_values numbers f body :
  packFields numbers f = Ok body →
  ∀ n, n ∈ numbers → ∃ spec, Fields !! n = Some spec ∧ checkValue spec (default "" (f !! n)) = None.
Proof.
  revert body; induction numbers as [|n numbers IH]; intros body Hp k; [by intros ?%elem_of_nil|].
  apply packFields_cons in Hp as (p & tail & Hn & Hp & _).
  intros [->|Hk]%elem_of_cons; [|by eapply IH].
  unfold packField in Hn. destruct (Fields !! n) as [spec|]; [|discriminate].
  exists spec. split; [done|]. apply result_bind_Ok in Hn as (? & Hc & _). by apply check_Ok in Hc.
Qed.

(** The shape of a valid field value: digits for a field of type n, uppercase hexadecimal for one of type b,
    and a length.  Of the text types an and ans it is only the length: any bytes pass. *)
Definition value_ok (spec : FieldSpec) (v : string) : Prop :=
  (Type_ spec = "n" → digitsRe v = true) ∧
  (Type_ spec = "b" → hexRe v = true ∧ slen v = (dataLen spec v * 2)%nat) ∧
  (if String.eqb (Prefix spec) "" then dataLen spec v = Length spec
   else (dataLen spec v ≤ Length spec)%nat).

Lemma checkValue_ok spec v : checkValue spec v = None → value_ok spec v.
Proof.
  intros Hc. pose proof (checkValue_None spec v Hc) as (Hb & _ & Hfix & Hvar).
  unfold value_ok. split; [|split].
  - intros Ht. unfold checkValue in Hc. rewrite Ht in Hc. cbn [String.eqb Ascii.eqb Bool.eqb andb] in Hc.
    destruct (digitsRe v); [done|discriminate].
  - intros Ht. split; [|by apply Hb]. unfold checkValue in Hc. rewrite Ht in Hc.
    cbn [String.eqb Ascii.eqb Bool.eqb andb] in Hc.
    destruct (hexRe v); [done|]. rewrite orb_true_r in Hc. discriminate.
  - destruct (String.eqb_spec (Prefix spec) ""); auto.
Qed.

Lemma value_ok_checkValue spec v : value_ok spec v → checkValue spec v = None.
Proof.
  intros (Hn & Hb & Hlen). unfold checkValue. destruct (String.eqb_spec (Type_ spec) "b") as [Ht|_].
  - destruct (Hb Ht) as [-> ->]. rewrite Nat.Div0.mod_mul. rewrite Ht. cbn [andb orb negb Nat.eqb String.eqb Ascii.eqb Bool.eqb].
    destruct (String.eqb (Prefix spec) ""); cbn [andb negb]; [by rewrite Hlen, Nat.eqb_refl|].
    by rewrite (proj2 (Nat.ltb_ge _ _)).
  - destruct (String.eqb_spec (Type_ spec) "n") as [Ht|_]; [rewrite (Hn Ht)|]; cbn [andb negb];
      (destruct (String.eqb (Prefix spec) ""); cbn [andb negb]; [by rewrite Hlen, Nat.eqb_refl|by rewrite (proj2 (Nat.ltb_ge _ _))]).
Qed.

Lemma packField_accepts n spec v : Fields !! n = Some spec → is_ok (packField n v) = true ↔ value_ok spec v.
Proof.
  intros Hf. unfold packField. rewrite Hf. split.
  - intros H. apply checkValue_ok. by destruct (checkValue spec v).
  - intros ->%value_ok_checkValue. cbn. by repeat case_if.
Qed.

(** C34. What the codec checks of a message: an unpacked message has a numeric MTI of four digits, and each
    of its fields is in the field table, is not DE 1, and has the length the table gives it (exactly, or at
    most under a length prefix), digits only for a field of type n and two uppercase hexadecimal digits a
    byte for one of type b.  The contents of an and ans fields are not checked, and nothing more is when
    a field is packed: the values accepted are exactly those of this shape. *)
Theorem Unpack_values s m f :
  Unpack s = Ok (m, f) →
  slen m = 4%nat ∧ digitsRe m = true ∧
  ∀ n v, f !! n = Some v → n ≠ 1 ∧ ∃ spec, Fields !! n = Some spec ∧ value_ok spec v ∧
    ∀ v', is_ok (packField n v') = true ↔ value_ok spec v'.
Proof.
  intros H. destruct (Unpack_inv s m f H) as (Hl & Hd & numbers & t1 & body & _ & _ & Hs & Hk & Hp & _).
  split; [done|]. split; [done|]. intros n v Hv.
  destruct (proj1 (Hk n)) as [Hin Hne]; [by rewrite Hv|]. split; [done|].
  destruct (packFields_values _ _ _ Hp n) as (spec & Hf & Hc); [by apply list_elem_of_filter|].
  exists spec. split; [done|]. split; [|intros v'; by apply packField_accepts]. apply checkValue_ok. by rewrite Hv in Hc.
Qed.

Lemma Unpack_values_witness :
  let s := "0800822000000000000004000000000000000730101500000123301" in
  slen "0800" = 4%nat ∧ digitsRe "0800" = true ∧
  ∀ n v, (<[11 := "000123"]> (<[7 := "0730101500"]> {[70 := "301"]}) : fieldmap) !! n = Some v →
  n ≠ 1 ∧ ∃ spec, Fields !! n = Some spec ∧ value_ok spec v ∧ ∀ v', is_ok (packField n v') = true ↔ value_ok spec v'.
Proof.
  apply (Unpack_values "0800822000000000000004000000000000000730101500000123301").
  vm_compute. reflexivity.
Defined.

(** docs/03 gives the text types ASCII, yet a response code of two bytes above 127 is packed and read back. *)
Example text_is_not_checked :
  let rc := String (Ascii.ascii_of_nat 200) (String (Ascii.ascii_of_nat 7) "") in
  match Pack "0810" {[ 39 := rc ]} with
  | Ok s => match Unpack s with Ok (m, f) => String.eqb m "0810" && bool_decide (f !! 39 = Some rc) | Err _ => false end
  | Err _ => false
  end = true.
Proof. vm_compute. reflexivity. Qed.

(** ** Size *)

(** The longest wire form of a field: its length prefix and its longest value. *)
Definition max_wire (spec : FieldSpec) : nat :=
  (slen (Prefix spec) + if String.eqb (Type_ spec) "b" then Length spec * 2 else Length spec)%nat.

Lemma packField_length n v p :
  packField n v = Ok p → ∃ spec, Fields !! n = Some spec ∧ (slen p ≤ max_wire spec)%nat.
Proof.
  unfold packField. destruct (Fields !! n) as [spec|] eqn:Hf; [|done]. intros H.
  exists spec. split; [done|]. apply result_bind_Ok in H as ([] & Hc & H). apply check_Ok in Hc.
  destruct (checkValue_None spec v Hc) as (Hb & Hnb & Hfix & Hvar).
  assert (Hv : (slen v ≤ if String.eqb (Type_ spec) "b" then Length spec * 2 else Length spec)%nat).
  { assert (dataLen spec v ≤ Length spec)%nat.
    { destruct (decide (Prefix spec = "")) as [He|He]; [by rewrite Hfix|by apply Hvar]. }
    destruct (String.eqb_spec (Type_ spec) "b"); [rewrite Hb by done|rewrite Hnb by done]; lia. }
  unfold max_wire. destruct (Fields_prefix n spec Hf) as [Hpre|[[Hpre Hlen]|[Hpre Hlen]]];
    rewrite Hpre in *; cbn [String.eqb Ascii.eqb Bool.eqb prefixLL prefixLLL] in *.
  - injection H as <-. change (slen "") with 0%nat. lia.
  - injection H as <-. specialize (Hvar ltac:(done)).
    destruct (undec_padN (dataLen spec v) 2) as (Hs & _); [lia..|].
    unfold pad2. rewrite slen_app, Hs. change (slen prefixLL) with 2%nat. lia.
  - injection H as <-. specialize (Hvar ltac:(done)).
    destruct (undec_padN (dataLen spec v) 3) as (Hs & _); [lia..|].
    unfold pad3. rewrite slen_app, Hs. change (slen prefixLLL) with 3%nat. lia.
Qed.

Definition wire_bound (n : Z) : nat := match Fields !! n with Some spec => max_wire spec | None => 0%nat end.

Lemma packFields_length numbers f body :
  packFields numbers f = Ok body → (slen body ≤ sum_list_with wire_bound numbers)%nat.
Proof.
  revert body; induction numbers as [|n numbers IH]; intros body Hp.
  - injection Hp as <-. done.
  - apply packFields_cons in Hp as (p & tail & Hn & Hp & ->).
    apply packField_length in Hn as (spec & Hf & Hl). specialize (IH tail Hp).
    cbn [sum_list_with]. unfold wire_bound at 1. rewrite Hf, slen_app. lia.
Qed.

(** docs/03 paragraph 1: [maxFrameSize] in isonet/framer.go. *)
Definition maxFrameSize : Z := 4096.

(** No packed message is longer than a frame may be. *)
Lemma Pack_length_le m f s : Pack m f = Ok s → Z.of_nat (slen s) ≤ maxFrameSize.
Proof.
  intros H. apply PackOrder_inv in H as (Hl & _ & _ & body & Hp & ->).
  rewrite !slen_app, Hl, (proj1 (bitmapHex_ok _ 0)).
  assert (Hs : (slen (if has_secondary (keys f) then bitmapHex (presenceOf (keys f)).1 1 else "") ≤ 16)%nat).
  { destruct (has_secondary (keys f)); [rewrite (proj1 (bitmapHex_ok _ 1))|cbn]; lia. }
  assert (Hb : (slen body ≤ sum_list_with wire_bound field_keys)%nat).
  { etransitivity; [by eapply packFields_length|]. apply list_sum_le_sublist.
    apply NoDup_submseteq.
    - rewrite (proj2 (sortInts_sorted _)). apply keys_NoDup.
    - intros k Hk. apply Fields_dom. by eapply packFields_known. }
  assert (Hc : (sum_list_with wire_bound field_keys ≤ 4000)%nat).
  { apply Nat.leb_le. vm_compute. done. }
  unfold maxFrameSize. lia.
Qed.

(** ** Segments *)

Definition texts (l : list Segment) : string := foldr (λ x acc, Text x +:+ acc) "" l.

Lemma texts_app l k : texts (l ++ k) = texts l +:+ texts k.
Proof.
  induction l as [|x l IH]; [done|].
  change (Text x +:+ texts (l ++ k) = (Text x +:+ texts l) +:+ texts k).
  by rewrite IH, app_assoc_str.
Qed.

Lemma texts_cons x l : texts (x :: l) = Text x +:+ texts l.
Proof. done. Qed.

(** What [UnpackSegmented] returns, with the segments dropped. *)
Definition drop_segments (r : result CodecError (string * fieldmap * list Segment)) :
    result CodecError (string * fieldmap) :=
  '(m, f, _) ← r; Ok (m, f).

Lemma slice_advance t n :
  str_slice (pos t) (pos (advance t n)) (packed t) = str_take n (rest t).
Proof. unfold str_slice, rest, advance. cbn. f_equal. lia. Qed.

Lemma unpackFieldsSegmented_spec t numbers fields segs :
  in_range t →
  match unpackFields t numbers fields with
  | Err e => unpackFieldsSegmented t numbers fields segs = Err e
  | Ok (m, t') => ∃ more, unpackFieldsSegmented t numbers fields segs = Ok (m, segs ++ more, t')
                          ∧ rest t = texts more +:+ rest t' ∧ in_range t'
  end.
Proof.
  revert t fields segs; induction numbers as [|n numbers IH]; intros t fields segs Hr;
    cbn [unpackFields unpackFieldsSegmented].
  - exists []. by rewrite app_nil_r.
  - destruct (n =? 1); [by apply IH|].
    destruct (unpackField t n) as [[v t1]|e] eqn:Hu; bind_step; [|done].
    apply unpackField_inv in Hu as (p & _ & -> & He & Hr1); [|done].
    specialize (IH (advance t (slen p)) (<[n := v]> fields)
      (segs ++ [mkSegment (Itoa n) (str_slice (pos t) (pos (advance t (slen p))) (packed (advance t (slen p))))]) Hr1).
    destruct (unpackFields _ numbers _) as [[m t']|e]; [|done].
    destruct IH as (more & IH & He2 & Hr2). rewrite <-app_assoc in IH. cbn [app] in IH.
    eexists. split; [exact IH|]. split; [|done].
    rewrite texts_cons. cbn [Text]. change (packed (advance t (slen p))) with (packed t).
    rewrite slice_advance, He, str_take_app, app_assoc_str. by f_equal.
Qed.

Lemma unpackBitmapsSegmented_spec t :
  in_range t →
  match unpackBitmaps t with
  | Err e => unpackBitmapsSegmented t = Err e
  | Ok (numbers, t') => ∃ segs, unpackBitmapsSegmented t = Ok (numbers, segs, t')
                                ∧ rest t = texts segs +:+ rest t' ∧ in_range t'
  end.
Proof.
  intros Hr. unfold unpackBitmapsSegmented.
  destruct (unpackBitmaps t) as [[numbers t']|e] eqn:Hb; bind_step; [|done].
  eexists. split; [done|]. rewrite match_one.
  pose proof (unpackBitmaps_NoDup _ _ _ Hr Hb) as Hs.
  destruct (unpackBitmaps_inv _ _ _ Hr Hb) as (word & Hlw & _ & Hn). cbn zeta in Hn.
  assert (Hsl : ∀ r, rest t = word +:+ r → str_slice (pos t) (pos t + 16) (packed t) = word).
  { intros r He. rewrite <-Hlw. change (pos t + slen word)%nat with (pos (advance t (slen word))).
    by rewrite slice_advance, He, str_take_app. }
  case_bool_decide as Hh.
  - destruct Hn as (word2 & Hl2 & _ & -> & He & Hr' & ->). rewrite bool_decide_eq_true_2.
    + cbn [app]. rewrite !texts_cons. cbn [Text]. rewrite (Hsl _ He). cbn [texts foldr]. rewrite app_nil_str.
      replace (str_slice (pos t + 16) (pos t + 32) (packed t)) with word2; [by rewrite He, app_assoc_str|].
      symmetry. rewrite <-(slice_mid word word2 (rest (advance t 32)) 16 32) by lia.
      unfold str_slice. rewrite <-str_drop_drop. fold (rest t).
      replace (pos t + 32 - (pos t + 16))%nat with (32 - 16)%nat by lia. by rewrite He.
    + destruct (bitPositions (unhex word) 0); [done|exact Hh].
  - destruct Hn as (-> & He & Hr' & _). rewrite bool_decide_eq_false_2 by done.
    rewrite texts_cons. cbn [Text texts foldr]. by rewrite (Hsl _ He), app_nil_str.
Qed.

Lemma UnpackSegmented_Unpack s :
  drop_segments (UnpackSegmented s) = Unpack s ∧
  ∀ m f segs, UnpackSegmented s = Ok (m, f, segs) → texts segs = s.
Proof.
  unfold UnpackSegmented, Unpack, drop_segments.
  destruct (take_ (mkTaker s 0) 4 "MTI") as [[mti t0]|e] eqn:Htk; bind_step; [|done].
  apply take_inv in Htk as (-> & Hl & He & Hr0); [|unfold in_range; cbn; lia].
  change (rest (mkTaker s 0)) with s in He.
  destruct (negb (digitsRe mti)); bind_step; [done|].
  pose proof (unpackBitmapsSegmented_spec _ Hr0) as Hb.
  destruct (unpackBitmaps (advance (mkTaker s 0) 4)) as [[numbers t1]|e]; bind_step;
    [|by rewrite Hb].
  destruct Hb as (segs & -> & He1 & Hr1). bind_step.
  pose proof (unpackFieldsSegmented_spec t1 numbers ∅ ([mkSegment "mti" mti] ++ segs) Hr1) as Hf.
  destruct (unpackFields t1 numbers ∅) as [[m t2]|e]; bind_step; [|by rewrite Hf].
  destruct Hf as (more & -> & He2 & Hr2). bind_step.
  destruct (pos t2 =? slen (packed t2))%nat eqn:Hend; cbn [negb]; bind_step; [|done].
  split; [done|]. intros ? ? ? [= <- <- <-].
  apply Nat.eqb_eq in Hend. cbn [app]. rewrite texts_cons, texts_app. cbn [Text].
   transitivity (mti +:+ texts segs +:+ texts more +:+ rest t2); [|by rewrite He1, He2 in He].
  do 2 f_equal.
  replace (rest t2) with ""; [by rewrite app_nil_str|].
  unfold rest. rewrite Hend. clear. induction (packed t2) as [|c s' IH]; [done|exact IH].
Qed.

(** C35. The Lab's [UnpackSegmented] agrees with [Unpack] on every input, errors included, and
    its segments are an exact partition of the message: concatenated in order they give back
    every byte. *)
Theorem UnpackSegmented_refines s :
  drop_segments (UnpackSegmented s) = Unpack s ∧
  ∀ m f segs, UnpackSegmented s = Ok (m, f, segs) → texts segs = s.
Proof. apply UnpackSegmented_Unpack. Qed.
