(* ===== verification/Net.v ===== *)
(** * Net: frames, backoff and the latency window of the issuer connection

    [gateway-go/internal/isonet]: framer.go, backoff.go and latency.go. *)

From S2P Require Import Prelude Digits Fields Codec CodecSort CodecCorrect CodecBounds.
Local Open Scope Z_scope.

(** ** framer.go *)

Inductive FrameError :=
  | FrameTooLarge (size : Z)
  | WriteHeader | WritePayload
  | ReadHeader (eof : bool) | ReadPayload (eof : bool).

(** [binary.BigEndian.PutUint16] and [Uint16]. *)
Definition PutUint16 (v : Z) : string :=
  String (ascii_of_Z (v / 256)) (String (ascii_of_Z (v mod 256)) "").

Definition Uint16 (header : string) : Z :=
  match header with
  | String hi (String lo _) => Z_of_ascii hi * 256 + Z_of_ascii lo
  | _ => 0
  end.

Section writer.
(** The [io.Writer] is the connection: a state and its write call, [true] on error. *)
Context {W : Type} (Write : W → string → W * bool).

Definition WriteFrame (w : W) (payload : string) : W * option FrameError :=
  if maxFrameSize <? Z.of_nat (slen payload) then
    (w, Some (FrameTooLarge (Z.of_nat (slen payload))))
  else
    let header := PutUint16 (Z.of_nat (slen payload)) in
    let '(w, failed) := Write w header in
    if failed : bool then (w, Some WriteHeader)
    else
      let '(w, failed) := Write w payload in
      if failed : bool then (w, Some WritePayload) else (w, None).
End writer.

(** [io.ReadFull] on the bytes a connection delivers before it ends: all [n] bytes, or an
    error telling whether nothing at all was read ([io.EOF]) or only a part. *)
Definition ReadFull (n : nat) (stream : string) : result bool (string * string) :=
  if (n <=? slen stream)%nat then Ok (str_take n stream, str_drop n stream)
  else Err (slen stream =? 0)%nat.

Definition ReadFrame (stream : string) : result FrameError (string * string) :=
  match ReadFull 2 stream with
  | Err eof => Err (ReadHeader eof)
  | Ok (header, stream) =>
      let size := Uint16 header in
      if maxFrameSize <? size then Err (FrameTooLarge size)
      else match ReadFull (Z.to_nat size) stream with
           | Err eof => Err (ReadPayload eof)
           | Ok (payload, stream) => Ok (payload, stream)
           end
  end.

(** *** Properties of the framer *)

(** A writer that never fails and appends to the bytes in flight. *)
Definition buffer_write (buf p : string) : string * bool := (buf +:+ p, false).

Fixpoint write_frames (buf : string) (payloads : list string) : string * option FrameError :=
  match payloads with
  | [] => (buf, None)
  | p :: rest =>
      match WriteFrame buffer_write buf p with
      | (buf, Some e) => (buf, Some e)
      | (buf, None) => write_frames buf rest
      end
  end.

Fixpoint read_frames (n : nat) (stream : string) : result FrameError (list string * string) :=
  match n with
  | O => Ok ([], stream)
  | S n => '(p, stream) ← ReadFrame stream; '(ps, stream) ← read_frames n stream; Ok (p :: ps, stream)
  end.

Definition frame (p : string) : string := PutUint16 (Z.of_nat (slen p)) +:+ p.

Lemma Z_of_ascii_of_Z z : 0 ≤ z < 256 → Z_of_ascii (ascii_of_Z z) = z.
Proof.
  intros Hz. unfold Z_of_ascii, ascii_of_Z. rewrite N_ascii_embedding by lia. lia.
Qed.

Lemma Uint16_PutUint16 v s : 0 ≤ v < 65536 → Uint16 (PutUint16 v +:+ s) = v.
Proof.
  intros Hv. change (Z_of_ascii (ascii_of_Z (v / 256)) * 256 + Z_of_ascii (ascii_of_Z (v mod 256)) = v).
  rewrite !Z_of_ascii_of_Z.
  - pose proof (Z.div_mod v 256). lia.
  - apply Z.mod_pos_bound; lia.
  - split; [apply Z.div_pos; lia|apply Z.div_lt_upper_bound; lia].
Qed.

Lemma WriteFrame_buffer buf p :
  Z.of_nat (slen p) ≤ maxFrameSize → WriteFrame buffer_write buf p = (buf +:+ frame p, None).
Proof.
  intros Hp. unfold WriteFrame. rewrite (proj2 (Z.ltb_ge _ _)) by done.
  cbn [buffer_write]. unfold buffer_write, frame. by rewrite app_assoc_str.
Qed.

Lemma ReadFull_app a b : ReadFull (slen a) (a +:+ b) = Ok (a, b).
Proof.
  unfold ReadFull. rewrite slen_app, (proj2 (Nat.leb_le _ _)) by lia.
  by rewrite str_take_app, str_drop_app.
Qed.

Lemma ReadFrame_frame p rest :
  Z.of_nat (slen p) ≤ maxFrameSize → ReadFrame (frame p +:+ rest) = Ok (p, rest).
Proof.
  intros Hp. unfold ReadFrame, frame. rewrite app_assoc_str.
  rewrite (ReadFull_app (PutUint16 (Z.of_nat (slen p)))).
  assert (Hu : Uint16 (PutUint16 (Z.of_nat (slen p))) = Z.of_nat (slen p)).
  { rewrite <-(app_nil_str (PutUint16 _)). apply Uint16_PutUint16. unfold maxFrameSize in Hp. lia. }
  rewrite Hu. rewrite (proj2 (Z.ltb_ge _ _)) by done. rewrite Nat2Z.id. by rewrite ReadFull_app.
Qed.

(** Framing is lossless for any sequence of payloads within the size limit: writing them one
    after the other succeeds, and reading as many frames back from the stream gives the same
    payloads in order and leaves the following bytes untouched. *)
Theorem frames_roundtrip payloads rest :
  Forall (λ p, Z.of_nat (slen p) ≤ maxFrameSize) payloads →
  ∃ wire, write_frames "" payloads = (wire, None) ∧
          read_frames (length payloads) (wire +:+ rest) = Ok (payloads, rest).
Proof.
  intros Hall. exists (foldr (λ p acc, frame p +:+ acc) "" payloads). split.
  - assert (H : ∀ buf, write_frames buf payloads
                  = (buf +:+ foldr (λ p acc, frame p +:+ acc) "" payloads, None)); [|apply H].
    induction Hall as [|p ps Hp _ IH]; intros buf; cbn [write_frames foldr]; [by rewrite app_nil_str|].
    by rewrite WriteFrame_buffer, IH, app_assoc_str.
  - induction Hall as [|p ps Hp _ IH]; cbn [read_frames length foldr]; [done|].
    rewrite app_assoc_str, ReadFrame_frame by done. bind_step. by rewrite IH.
Qed.

Lemma frames_roundtrip_witness :
  ∃ wire, write_frames "" ["0800"; ""; "0200"] = (wire, None) ∧
          read_frames 3 (wire +:+ "tail") = Ok (["0800"; ""; "0200"], "tail").
Proof. apply frames_roundtrip. repeat constructor; vm_compute; discriminate. Defined.

(** No message is ever refused for its size: whatever [Pack] produces, the frame writer
    accepts it on any connection that takes the bytes, and the peer reads back exactly the packed
    message, whatever follows it on the stream. *)
Theorem packed_message_crosses_wire m f s buf rest :
  Pack m f = Ok s →
  ∃ wire, WriteFrame buffer_write buf s = (buf +:+ wire, None) ∧
          ReadFrame (wire +:+ rest) = Ok (s, rest).
Proof.
  intros H%Pack_length_le. exists (frame s).
  split; [by apply WriteFrame_buffer|by apply ReadFrame_frame].
Qed.

Lemma packed_message_crosses_wire_witness :
  ∃ wire, WriteFrame buffer_write "" "0800822000000000000004000000000000000730101500000123301"
          = (wire, None) ∧
          ReadFrame (wire +:+ "xyz") = Ok ("0800822000000000000004000000000000000730101500000123301", "xyz").
Proof.
  apply (packed_message_crosses_wire "0800" (<[11 := "000123"]> (<[7 := "0730101500"]> {[70 := "301"]}))).
  vm_compute. reflexivity.
Defined.

(** ** backoff.go *)

Record Backoff := mkBackoff { Base : Z; Cap : Z }.

(** The doubling loop, [attempt] iterations with an early return at the cap. *)
Fixpoint ceiling_loop (b : Backoff) (iterations : nat) (d : Z) : Z :=
  match iterations with
  | O => d
  | S n => let d := wrap64 (d * 2) in if Cap b <=? d then Cap b else ceiling_loop b n d
  end.

Definition ceiling (b : Backoff) (attempt : Z) : Z := ceiling_loop b (Z.to_nat attempt) (Base b).

(** [rand.Int64N n] is uniform in [0, n); the draw is an argument of the model. *)
Definition Delay (b : Backoff) (rand : Z → Z) (attempt : Z) : Z :=
  let c := ceiling b attempt in if c <=? 0 then 0 else rand c.

Lemma ceiling_loop_spec b n d :
  0 < d < Cap b → Cap b < 2 ^ 62 → ceiling_loop b n d = Z.min (Cap b) (d * 2 ^ Z.of_nat n).
Proof.
  revert d; induction n as [|n IH]; intros d Hd Hc; cbn [ceiling_loop]; [cbn; lia|].
  rewrite wrap64_id by (unfold in_int64; lia).
  rewrite Nat2Z.inj_succ, Z.pow_succ_r by lia. pose proof (Z.pow_pos_nonneg 2 (Z.of_nat n)).
  destruct (Z.leb_spec (Cap b) (d * 2)); [nia|]. rewrite IH by lia. f_equal. lia.
Qed.

(** The reconnect delay is full-jitter exponential backoff: for a base not above the cap the
    jitter is drawn from [0, min(cap, base * 2^attempt)), at every attempt number and without
    overflow. *)
Theorem Delay_full_jitter b rand attempt :
  0 < Base b ≤ Cap b → Cap b < 2 ^ 62 → 0 ≤ attempt →
  (∀ n, 0 < n → 0 ≤ rand n < n) →
  let bound := Z.min (Cap b) (Base b * 2 ^ attempt) in
  ceiling b attempt = bound ∧ Delay b rand attempt = rand bound ∧
  0 ≤ Delay b rand attempt < bound.
Proof.
  intros Hb Hc Ha Hrand bound. pose proof (Z.pow_pos_nonneg 2 attempt ltac:(lia) Ha) as Hp.
  assert (Hceil : ceiling b attempt = bound).
  { unfold ceiling, bound. destruct (decide (Base b = Cap b)) as [He|].
    - rewrite He, Z.min_l by nia.
      destruct (Z.to_nat attempt) as [|n]; cbn [ceiling_loop]; [done|].
      rewrite wrap64_id by (unfold in_int64; lia). by rewrite (proj2 (Z.leb_le _ _)) by lia.
    - rewrite ceiling_loop_spec by lia. by rewrite Z2Nat.id. }
  assert (0 < bound) by (unfold bound; nia).
  split; [done|]. unfold Delay. rewrite Hceil, (proj2 (Z.leb_gt _ _)) by done. auto.
Qed.

Lemma Delay_full_jitter_witness :
  let b := mkBackoff 1000000000 30000000000 in
  ceiling b 3 = 8000000000 ∧ Delay b (λ n, n - 1) 3 = 7999999999 ∧ 0 ≤ Delay b (λ n, n - 1) 3 < 8000000000.
Proof.
  apply (Delay_full_jitter (mkBackoff 1000000000 30000000000) (λ n, n - 1) 3);
    [vm_compute; split; [done|discriminate]|done|done|intros n Hn; cbv beta; lia].
Defined.

(** The bound the comment on [Backoff] promises, min(cap, base * 2^attempt), fails on the first
    attempt when the base exceeds the cap: the loop that clamps never runs, and the delay is drawn
    below the base instead. *)
Theorem first_attempt_ignores_cap b :
  0 < Cap b < Base b → ceiling b 0 = Base b ∧ ceiling b 0 ≠ Z.min (Cap b) (Base b * 2 ^ 0).
Proof.
  intros Hb. change (ceiling b 0) with (Base b). rewrite Z.pow_0_r, Z.mul_1_r. split; [done|]. lia.
Qed.

Lemma first_attempt_ignores_cap_witness :
  ceiling (mkBackoff 60 30) 0 = 60 ∧ ceiling (mkBackoff 60 30) 0 ≠ Z.min 30 (60 * 2 ^ 0).
Proof. apply (first_attempt_ignores_cap (mkBackoff 60 30)). cbn. lia. Defined.

(** ** latency.go *)

Definition latencyWindowSize : nat := 1000.

(** The ring buffer: [samples] has [latencyWindowSize] slots, [next] is the slot written next. *)
Record latencyWindow := mkWindow { samples : list Z; next : nat; count : nat }.

Definition empty_window : latencyWindow := mkWindow (replicate latencyWindowSize 0) 0 0.

Definition add (w : latencyWindow) (d : Z) : latencyWindow :=
  mkWindow (<[next w := d]> (samples w)) ((next w + 1) mod latencyWindowSize)
           (Nat.min (count w + 1) latencyWindowSize).

(** [p99Ms]: nil before any sample, else the nearest-rank percentile in whole milliseconds;
    the [lookup] is the slice index, which panics out of range in Go. *)
Inductive p99 := NoSample | Panic | Ms (ms : Z).

Definition p99Ms (w : latencyWindow) : p99 :=
  let sorted := merge_sort Z.le (take (count w) (samples w)) in
  match length sorted with
  | O => NoSample
  | n =>
      let rank := ((n * 99 + 99) / 100)%nat in
      match sorted !! (rank - 1)%nat with
      | None => Panic
      | Some d => Ms (Z.quot d 1000000)
      end
  end.

(** *** The window holds the most recent samples *)

Definition lastn {A} (n : nat) (l : list A) : list A := drop (length l - n) l.

Definition window_of (ds : list Z) : latencyWindow := fold_left add ds empty_window.

(** Before the buffer is full it is a prefix; afterwards it is [lastn] rotated at [next]. *)
Definition holds (w : latencyWindow) (ds : list Z) : Prop :=
  length (samples w) = latencyWindowSize ∧
  if (length ds <? latencyWindowSize)%nat then
    next w = length ds ∧ count w = length ds ∧ take (length ds) (samples w) = ds
  else
    (next w < latencyWindowSize)%nat ∧ count w = latencyWindowSize ∧
    drop (next w) (samples w) ++ take (next w) (samples w) = lastn latencyWindowSize ds.

Lemma lastn_all {A} n (l : list A) : (length l ≤ n)%nat → lastn n l = l.
Proof. intros. unfold lastn. by replace (length l - n)%nat with 0%nat by lia. Qed.

Lemma lastn_snoc {A} n (l : list A) x :
  (n ≤ length l)%nat → (0 < n)%nat → lastn n (l ++ [x]) = tail (lastn n l) ++ [x].
Proof.
  intros Hn H0. unfold lastn. rewrite length_app. cbn.
  replace (length l + 1 - n)%nat with (S (length l - n)) by lia.
  rewrite drop_app_le by lia. f_equal.
  destruct (drop (length l - n) l) as [|y k] eqn:E.
  - apply (f_equal length) in E. rewrite length_drop in E. cbn in E. lia.
  - cbn. rewrite <-Nat.add_1_r, <-drop_drop, E. done.
Qed.

Lemma drop_insert_rotate {A} (l : list A) k x y r :
  (k < length l)%nat → drop k l = y :: r → drop (S k) (<[k:=x]> l) = r ∧ take (S k) (<[k:=x]> l) = take k l ++ [x].
Proof.
  intros Hk Hd. split.
  - rewrite drop_insert_lt by lia. rewrite <-Nat.add_1_r, <-drop_drop, Hd. done.
  - rewrite (take_S_r _ _ x) by (by apply list_lookup_insert_eq). by rewrite take_insert_ge by lia.
Qed.

Lemma add_holds w ds d : holds w ds → holds (add w d) (ds ++ [d]).
Proof.
  unfold holds, add. cbn [samples next count]. intros (Hl & H). split; [by rewrite length_insert|].
  rewrite length_app. change (length [d]) with 1%nat.
  destruct (Nat.ltb_spec (length ds) latencyWindowSize) as [Hlt|Hge].
  - destruct H as (Hn & Hc & Ht). rewrite Hn, Hc.
    assert (Htk : take (length ds + 1) (<[length ds:=d]> (samples w)) = ds ++ [d]).
    { rewrite Nat.add_1_r, (take_S_r _ _ d) by (apply list_lookup_insert_eq; lia).
      by rewrite take_insert_ge, Ht by lia. }
    destruct (Nat.ltb_spec (length ds + 1) latencyWindowSize).
    + rewrite Nat.mod_small, Nat.min_l by lia. done.
    + replace (length ds + 1)%nat with latencyWindowSize in * by lia.
      rewrite Nat.Div0.mod_same, Nat.min_id. split; [unfold latencyWindowSize; lia|]. split; [done|].
      rewrite lastn_all by (rewrite length_app; cbn; lia).
      rewrite drop_0, take_0, app_nil_r, <-Htk. symmetry. apply take_ge. rewrite length_insert. lia.
  - destruct H as (Hn & Hc & Ht). rewrite Hc.
    rewrite (proj2 (Nat.ltb_ge _ _)) by lia. split; [apply Nat.mod_upper_bound; done|].
    split; [apply Nat.min_r; lia|]. rewrite lastn_snoc, <-Ht by (unfold latencyWindowSize in *; lia).
    destruct (drop (next w) (samples w)) as [|y r] eqn:E.
    { apply (f_equal length) in E. rewrite length_drop in E. cbn in E. lia. }
    destruct (drop_insert_rotate (samples w) (next w) d y r) as [Hd Hk]; [lia|done|].
    cbn [tail app]. destruct (decide (next w + 1 = latencyWindowSize)%nat) as [He|].
    + rewrite He, Nat.Div0.mod_same, drop_0, take_0, app_nil_r.
      rewrite Nat.add_1_r in He. assert (r = []) as ->.
      { apply (f_equal length) in E. rewrite length_drop in E. cbn in E. destruct r; [done|cbn in E; lia]. }
      cbn [app]. rewrite <-Hk. symmetry. apply take_ge. rewrite length_insert. lia.
    + rewrite Nat.mod_small, Nat.add_1_r by lia. by rewrite Hd, Hk, app_assoc.
Qed.

Lemma window_holds ds : holds (window_of ds) ds.
Proof.
  unfold window_of. induction ds as [|d ds IH] using rev_ind.
  - split; [apply length_replicate|done].
  - rewrite fold_left_app. by apply add_holds.
Qed.

Lemma window_recent ds :
  take (count (window_of ds)) (samples (window_of ds)) ≡ₚ lastn latencyWindowSize ds.
Proof.
  destruct (window_holds ds) as [Hl H].
  destruct (Nat.ltb_spec (length ds) latencyWindowSize) as [Hlt|Hge]; destruct H as (Hn & Hc & Ht).
  - by rewrite Hc, Ht, lastn_all by lia.
  - rewrite Hc, take_ge, <-Ht by lia. rewrite <-(take_drop (next (window_of ds)) (samples _)) at 1.
    apply Permutation_app_comm.
Qed.

(** *** The percentile *)

Lemma sorted_rank_le (s : list Z) (r : nat) (x : Z) :
  StronglySorted Z.le s → s !! (r - 1)%nat = Some x → (1 ≤ r)%nat →
  (r ≤ length (filter (λ y, (y ≤ x)%Z) s))%nat ∧ (length (filter (λ y, (y < x)%Z) s) ≤ r - 1)%nat.
Proof.
  intros Hs Hx Hr. assert (Hsplit : s = take (r - 1) s ++ x :: drop r s).
  { replace r with (S (r - 1)) at 2 by lia. by rewrite take_drop_middle. }
  assert (Hlt : (r - 1 < length s)%nat) by (by eapply lookup_lt_Some).
  rewrite Hsplit in Hs |- *. set (a := take (r - 1) s) in *. set (b := drop r s) in *.
  assert (Ha : length a = (r - 1)%nat) by (unfold a; rewrite length_take; lia).
  assert (Hle : Forall (λ y, y ≤ x) a).
  { clear -Hs. induction a as [|y a IH]; constructor.
    - apply StronglySorted_inv in Hs as [_ Hy]. rewrite Forall_app, Forall_cons in Hy. tauto.
    - apply StronglySorted_inv in Hs as [Hs _]. by apply IH. }
  assert (Hge : Forall (λ y, x ≤ y) b).
  { clear -Hs. induction a as [|y a IH]; cbn in Hs; apply StronglySorted_inv in Hs as [Hs Hy]; auto. }
  rewrite !filter_app, !length_app. split.
  - rewrite filter_cons_True by lia. cbn.
    replace (filter (λ y, y ≤ x) a) with a; [lia|]. symmetry.
    clear -Hle. induction Hle; [done|]. rewrite filter_cons_True by done. by f_equal.
  - rewrite filter_cons_False by lia.
    replace (filter (λ y, y < x) b) with (@nil Z).
    + cbn. pose proof (length_filter (λ y, y < x) a). lia.
    + clear -Hge. induction Hge; [done|]. rewrite filter_cons_False by lia. done.
Qed.

(** After any history of samples the window's p99 is the nearest-rank percentile of the most
    recent 1000 of them: the slice index is always in range, at least 99% of those samples are no
    larger than the reported one and fewer than 99% are smaller. *)
Theorem p99_of_recent ds :
  match p99Ms (window_of ds) with
  | NoSample => ds = []
  | Panic => False
  | Ms ms => ∃ x, x ∈ lastn latencyWindowSize ds ∧ ms = Z.quot x 1000000 ∧
      let n := length (lastn latencyWindowSize ds) in
      (99 * n ≤ 100 * length (filter (λ y, (y ≤ x)%Z) (lastn latencyWindowSize ds)))%nat ∧
      (100 * length (filter (λ y, (y < x)%Z) (lastn latencyWindowSize ds)) < 99 * n)%nat
  end.
Proof.
  unfold p99Ms. pose proof (window_recent ds) as Hp.
  set (recent := take _ _) in *. pose proof (merge_sort_Permutation Z.le recent) as Hsp.
  pose proof (StronglySorted_merge_sort Z.le recent) as Hss.
  set (s := merge_sort Z.le recent) in *. assert (Hps : s ≡ₚ lastn latencyWindowSize ds) by (by rewrite Hsp).
  assert (Hlen : length s = length (lastn latencyWindowSize ds)) by (by rewrite Hps).
  destruct (length s) as [|n] eqn:En.
  - destruct ds as [|d ds]; [done|exfalso]. unfold lastn in Hlen.
    rewrite length_drop in Hlen. unfold latencyWindowSize in Hlen. cbn [length] in Hlen. lia.
  - set (r := ((S n * 99 + 99) / 100)%nat).
    assert (Hr : (1 ≤ r ∧ r ≤ S n ∧ 99 * S n ≤ 100 * r ∧ 100 * (r - 1) < 99 * S n)%nat).
    { unfold r. pose proof (Nat.div_mod_eq (S n * 99 + 99) 100).
      pose proof (Nat.mod_upper_bound (S n * 99 + 99) 100). lia. }
    destruct (s !! (r - 1)%nat) as [x|] eqn:Ex; [|apply lookup_ge_None in Ex; lia].
    exists x. destruct (sorted_rank_le s r x Hss Ex) as [H1 H2]; [lia|].
    rewrite <-Hlen. rewrite !Hps in H1, H2. split; [|split; [done|cbn zeta; lia]].
    rewrite <-Hps. by eapply list_elem_of_lookup_2.
Qed.
