(* ===== verification/Mux.v ===== *)
(** * Mux: correlating responses to requests on one issuer connection

    [gateway-go/internal/isonet/mux.go].  Concurrent [Send] calls, their write goroutines and the
    [Serve] loop share the [pending] table and the connection.  Each of them is a sequence of
    atomic steps (what happens under [pendingMu], under [writeMu], or as one channel operation);
    [step] runs one labelled step, and a schedule is any list of labels.  A [Send] call is named
    by a number, which also names the one-slot channel it makes. *)

From S2P Require Import Prelude Digits Fields Codec CodecSort CodecCorrect CodecBounds Net.
Local Open Scope Z_scope.

(** Go's [fields[n]] on a missing key. *)
Definition at_ (fields : fieldmap) (n : Z) : string := default "" (fields !! n).

Definition muxKey : Type := string * string.

Definition key_of (fields : fieldmap) : muxKey := (at_ fields 11, at_ fields 7).

(** ** NextSTAN *)

(** The atomic counter wraps like any [int64]; [%] truncates towards zero. *)
Definition NextSTAN (stan : Z) : Z * string :=
  let stan := wrap64 (stan + 1) in
  (stan, Sprintf0d 6 (Z.rem stan 1000000)).

(** ** The state of one connection *)

Inductive SendError :=
  | PackRequest (e : CodecError)
  | WriteRequest (e : FrameError)
  | CtxErr.

Inductive phase :=
  | Registered                          (* pending[key] = ch done, not packed yet *)
  | Writing                             (* in the first select *)
  | Awaiting                            (* in the second select *)
  | Leaving (r : result SendError fieldmap)  (* returning: the deferred delete is next *)
  | Returned (r : result SendError fieldmap).

Inductive writer :=
  | WriteQueued (packed : string)       (* the goroutine waits for writeMu *)
  | WriteDone (e : option FrameError).  (* the value in the writeDone channel *)

Record send := Send { req_mti : string; req : fieldmap; ph : phase }.

Inductive serving :=
  | Reading
  | Delivering (ch : nat) (fields : fieldmap)   (* at [ch <- fields] *)
  | Stopped (e : option FrameError).

Section mux.
Context {W : Type} (Write : W → string → W * bool).

Record Mux := NewMux {
  conn : W;
  pending : gmap muxKey nat;
  chans : gmap nat (option fieldmap);
  sends : gmap nat send;
  writers : gmap nat writer;
  serve : serving;
  late : list (string * fieldmap)        (* calls of onLateResponse *)
}.

Definition newMux (c : W) : Mux := NewMux c ∅ ∅ ∅ ∅ Reading [].

Definition set_phase (i : nat) (s : send) (p : phase) (m : Mux) : Mux :=
  NewMux (conn m) (pending m) (chans m) (<[i := Send (req_mti s) (req s) p]> (sends m))
         (writers m) (serve m) (late m).

Inductive Label :=
  | LSend (i : nat) (mti : string) (fields : fieldmap)  (* Send is called and registers *)
  | LPack (i : nat)          (* iso8583.Pack and, on success, the write goroutine starts *)
  | LWrite (i : nat)         (* the goroutine writes its frame under writeMu *)
  | LWritten (i : nat)       (* the first select takes writeDone *)
  | LCancel (i : nat)        (* either select takes ctx.Done() *)
  | LReceive (i : nat)       (* the second select takes the response *)
  | LDelete (i : nat)        (* the deferred delete, then Send returns *)
  | LFrame (payload : string)   (* Serve reads a frame and looks its key up *)
  | LReadError (e : FrameError) (* ReadFrame fails: Serve returns *)
  | LServeCtx                (* Serve sees its context done *)
  | LDeliver.                (* ch <- fields, possible only when the slot is free *)

(** Send: registering the channel, up to the deferred delete. *)
Definition register (i : nat) (mti : string) (fields : fieldmap) (m : Mux) : option Mux :=
  match sends m !! i with
  | Some _ => None
  | None => Some (NewMux (conn m) (<[key_of fields := i]> (pending m)) (<[i := None]> (chans m))
                         (<[i := Send mti fields Registered]> (sends m)) (writers m) (serve m) (late m))
  end.

Definition pack (i : nat) (s : send) (m : Mux) : option Mux :=
  match ph s with
  | Registered =>
      match Pack (req_mti s) (req s) with
      | Err e => Some (set_phase i s (Leaving (Err (PackRequest e))) m)
      | Ok packed =>
          Some (set_phase i s Writing
            (NewMux (conn m) (pending m) (chans m) (sends m) (<[i := WriteQueued packed]> (writers m))
                    (serve m) (late m)))
      end
  | _ => None
  end.

Definition do_write (i : nat) (m : Mux) : option Mux :=
  match writers m !! i with
  | Some (WriteQueued packed) =>
      let '(c, e) := WriteFrame Write (conn m) packed in
      Some (NewMux c (pending m) (chans m) (sends m) (<[i := WriteDone e]> (writers m))
                   (serve m) (late m))
  | _ => None
  end.

Definition written (i : nat) (s : send) (m : Mux) : option Mux :=
  match ph s, writers m !! i with
  | Writing, Some (WriteDone None) => Some (set_phase i s Awaiting m)
  | Writing, Some (WriteDone (Some e)) => Some (set_phase i s (Leaving (Err (WriteRequest e))) m)
  | _, _ => None
  end.

Definition cancel (i : nat) (s : send) (m : Mux) : option Mux :=
  match ph s with
  | Writing | Awaiting => Some (set_phase i s (Leaving (Err CtxErr)) m)
  | _ => None
  end.

Definition receive (i : nat) (s : send) (m : Mux) : option Mux :=
  match ph s, chans m !! i with
  | Awaiting, Some (Some resp) =>
      Some (set_phase i s (Leaving (Ok resp))
        (NewMux (conn m) (pending m) (<[i := None]> (chans m)) (sends m) (writers m) (serve m) (late m)))
  | _, _ => None
  end.

Definition delete_key (i : nat) (s : send) (m : Mux) : option Mux :=
  match ph s with
  | Leaving r =>
      Some (set_phase i s (Returned r)
        (NewMux (conn m) (delete (key_of (req s)) (pending m)) (chans m) (sends m) (writers m)
                (serve m) (late m)))
  | _ => None
  end.

Definition with_serve (sv : serving) (l : list (string * fieldmap)) (m : Mux) : Mux :=
  NewMux (conn m) (pending m) (chans m) (sends m) (writers m) sv l.

(** Serve, one turn of its loop up to the channel send. *)
Definition dispatch (payload : string) (m : Mux) : option Mux :=
  match serve m with
  | Reading =>
      match Unpack payload with
      | Err _ => Some m
      | Ok (mti, fields) =>
          match pending m !! key_of fields with
          | None => Some (with_serve Reading (late m ++ [(mti, fields)]) m)
          | Some ch => Some (with_serve (Delivering ch fields) (late m) m)
          end
      end
  | _ => None
  end.

Definition deliver (m : Mux) : option Mux :=
  match serve m with
  | Delivering ch fields =>
      match chans m !! ch with
      | Some None =>
          Some (NewMux (conn m) (pending m) (<[ch := Some fields]> (chans m)) (sends m) (writers m)
                       Reading (late m))
      | _ => None
      end
  | _ => None
  end.

Definition stop (e : option FrameError) (m : Mux) : option Mux :=
  match serve m with Reading => Some (with_serve (Stopped e) (late m) m) | _ => None end.

Definition on_send (f : nat → send → Mux → option Mux) (i : nat) (m : Mux) : option Mux :=
  s ← sends m !! i; f i s m.

Definition step (l : Label) (m : Mux) : option Mux :=
  match l with
  | LSend i mti fields => register i mti fields m
  | LPack i => on_send pack i m
  | LWrite i => do_write i m
  | LWritten i => on_send written i m
  | LCancel i => on_send cancel i m
  | LReceive i => on_send receive i m
  | LDelete i => on_send delete_key i m
  | LFrame payload => dispatch payload m
  | LReadError e => stop (Some e) m
  | LServeCtx => stop None m
  | LDeliver => deliver m
  end.

Fixpoint run (ls : list Label) (m : Mux) : option Mux :=
  match ls with
  | [] => Some m
  | l :: ls => m ← step l m; run ls m
  end.

(** [Pending], the inFlight gauge. *)
Definition Pending (m : Mux) : nat := size (pending m).

(** ** Invariants *)

Definition active (s : send) : bool := match ph s with Returned _ => false | _ => true end.

(** The result a call returns or is about to return. *)
Definition outcome (s : send) : option (result SendError fieldmap) :=
  match ph s with Leaving r | Returned r => Some r | _ => None end.

(** [f] answers call [i]: same key, and it satisfies [P]. *)
Definition answers (P : fieldmap → Prop) (m : Mux) (i : nat) (f : fieldmap) : Prop :=
  ∃ s, sends m !! i = Some s ∧ key_of f = key_of (req s) ∧ P f.

Record mux_inv (P : fieldmap → Prop) (m : Mux) : Prop := {
  inv_pending k i : pending m !! k = Some i →
    ∃ s, sends m !! i = Some s ∧ key_of (req s) = k ∧ active s = true;
  inv_chan i f : chans m !! i = Some (Some f) → answers P m i f;
  inv_serve i f : serve m = Delivering i f → answers P m i f;
  inv_outcome i s f : sends m !! i = Some s → outcome s = Some (Ok f) → key_of f = key_of (req s) ∧ P f
}.

Lemma mux_inv_mono (P Q : fieldmap → Prop) m : (∀ f, P f → Q f) → mux_inv P m → mux_inv Q m.
Proof.
  intros HPQ [H1 H2 H3 H4]. split; [done|..].
  - intros i f (s & ? & ? & ?)%H2. exists s. auto.
  - intros i f (s & ? & ? & ?)%H3. exists s. auto.
  - intros i s f Hs Ho. destruct (H4 _ _ _ Hs Ho). auto.
Qed.

Lemma mux_inv_init P c : mux_inv P (newMux c).
Proof. by split. Qed.

(** How a step may change the calls: a new one, or the phase of an old one. *)
Lemma answers_update P m m' i f :
  (∀ j s, sends m !! j = Some s → ∃ s', sends m' !! j = Some s' ∧ req s' = req s) →
  answers P m i f → answers P m' i f.
Proof.
  intros Hs (s & (s' & Hs' & Hr)%Hs & Hk & HP). exists s'. by rewrite Hr.
Qed.

Lemma step_sends l m m' :
  step l m = Some m' →
  ∀ j s, sends m !! j = Some s → ∃ s', sends m' !! j = Some s' ∧ req s' = req s.
Proof.
  intros H j s Hj.
  destruct l; cbn [step] in H;
    unfold register, on_send, pack, do_write, written, cancel, receive, delete_key, dispatch, deliver, stop in H;
    try (apply bind_Some in H as (s0 & Hs0 & H)); step_cases H; cbn [sends set_phase with_serve];
    try (by eauto); destruct (decide (i = j)) as [->|];
    rewrite ?lookup_insert_eq, ?lookup_insert_ne by done; try (by eauto); try congruence.
  all: eexists; split; [done|cbn; congruence].
Qed.

(** The fields a label brings in from the wire. *)
Definition received (l : Label) (f : fieldmap) : Prop :=
  ∃ payload mti, l = LFrame payload ∧ Unpack payload = Ok (mti, f).

Lemma inv_register P i mti f m m' : register i mti f m = Some m' → mux_inv P m → mux_inv P m'.
Proof.
  unfold register. intros H [H1 H2 H3 H4]. step_cases H.
  assert (Hold : ∀ j, sends m !! j ≠ None → j ≠ i) by (intros j Hj ->; done).
  split; cbn [pending chans serve sends].
  - intros k j [[<- <-]|[Hk Hj]]%lookup_insert_Some.
    + exists (Send mti f Registered). by rewrite lookup_insert_eq.
    + destruct (H1 _ _ Hj) as (s & Hs & ?). exists s.
      rewrite lookup_insert_ne; [done|]. intros ->. congruence.
  - intros j g [[<- ?]|[Hk (s & Hs & ?)%H2]]%lookup_insert_Some; [done|].
    exists s. cbn [sends]. rewrite lookup_insert_ne; [done|]. congruence.
  - intros j g (s & Hs & ?)%H3. exists s. cbn [sends]. rewrite lookup_insert_ne; [done|]. congruence.
  - intros j s g [[<- <-]|[Hk Hj]]%lookup_insert_Some; [done|eauto].
Qed.

(** A step of call [i] that keeps it active and whose outcome, if any, answers it. *)
Lemma inv_set_phase P i s p m :
  sends m !! i = Some s → mux_inv P m →
  (active s = true → active (Send (req_mti s) (req s) p) = true) →
  (∀ f, outcome (Send (req_mti s) (req s) p) = Some (Ok f) → answers P m i f) →
  mux_inv P (set_phase i s p m).
Proof.
  intros Hs [H1 H2 H3 H4] Ha Ho.
  assert (Hup : ∀ j f, answers P m j f → answers P (set_phase i s p m) j f).
  { intros j f. apply answers_update. intros k t Hk. cbn [sends set_phase].
    destruct (decide (i = k)) as [->|]; rewrite ?lookup_insert_eq, ?lookup_insert_ne by done; [|eauto].
    eexists; split; [done|]. cbn. congruence. }
  split; [|by intros; apply Hup, H2|by intros; apply Hup, H3|]; cbn [pending sends set_phase].
  - intros k j (t & Ht & Hk & Hact)%H1. destruct (decide (i = j)) as [->|].
    + rewrite lookup_insert_eq. simplify_eq. eexists; split; [done|]. auto.
    + rewrite lookup_insert_ne by done. eauto.
  - intros j t f [[<- <-]|[Hij Hj]]%lookup_insert_Some Hout; [|eauto].
    destruct (Ho _ Hout) as (s' & Hs' & ?). by simplify_eq.
Qed.

(** Steps that touch neither the calls nor [pending], and put nothing new anywhere. *)
Lemma inv_frame P m c ch w sv l :
  mux_inv P m →
  (∀ i f, ch !! i = Some (Some f) → answers P m i f) →
  (∀ i f, sv = Delivering i f → answers P m i f) →
  mux_inv P (NewMux c (pending m) ch (sends m) w sv l).
Proof. intros [H1 H2 H3 H4] Hch Hsv. by split. Qed.

Lemma inv_delete P i s m m' :
  sends m !! i = Some s → delete_key i s m = Some m' → mux_inv P m → mux_inv P m'.
Proof.
  unfold delete_key. intros Hs H [H1 H2 H3 H4]. step_cases H.
  match goal with |- mux_inv P (set_phase i s (Returned r) ?m1) => set (m0 := m1) end.
  assert (Hup : ∀ j f, answers P m j f → answers P (set_phase i s (Returned r) m0) j f).
  { intros j f. apply answers_update. intros k t Hk. cbn.
    destruct (decide (i = k)) as [->|]; rewrite ?lookup_insert_eq, ?lookup_insert_ne by done; [|eauto].
    eexists; split; [done|]. cbn. congruence. }
  split; [|by intros; apply Hup, H2|by intros; apply Hup, H3|]; cbn.
  - intros k j [Hk (t & Ht & Hkt & Hact)%H1]%lookup_delete_Some.
    rewrite lookup_insert_ne; [eauto|]. intros ->. by simplify_eq.
  - intros j t f [[<- <-]|[Hij Hj]]%lookup_insert_Some Hout; [|eauto].
    eapply (H4 _ _ f Hs). unfold outcome in *. by rewrite E.
Qed.

Lemma inv_step P l m m' :
  step l m = Some m' → mux_inv P m → mux_inv (λ f, P f ∨ received l f) m'.
Proof.
  intros H Hinv. apply (mux_inv_mono P (λ f, P f ∨ received l f)) in Hinv; [|by left].
  set (Q := λ f, P f ∨ received l f) in *.
  destruct l; cbn [step] in H; unfold on_send in H;
    try (apply bind_Some in H as (s & Hs & H)).
  - eapply inv_register; eauto.
  - unfold pack in H. step_cases H.
    + apply inv_set_phase; cbn; [done| |done|done]. by apply inv_frame; [|apply Hinv|apply Hinv].
    + apply inv_set_phase; cbn; done.
  - unfold do_write in H. step_cases H. by apply inv_frame; [|apply Hinv|apply Hinv].
  - unfold written in H. step_cases H; by apply inv_set_phase.
  - unfold cancel in H. step_cases H; by apply inv_set_phase.
  - unfold receive in H. step_cases H. apply inv_set_phase; cbn; [done| |done|].
    + apply inv_frame; [done| |apply Hinv].
      intros j f [[_ ?]|[_ ?]]%lookup_insert_Some; [done|]. by apply Hinv.
    + intros f' [= <-]. destruct (inv_chan _ _ Hinv _ _ E0) as (t & ? & ?). by exists t.
  - eapply inv_delete; eauto.
  - unfold dispatch in H. step_cases H; unfold with_serve; [|by apply inv_frame; [|apply Hinv|]|done].
    apply inv_frame; [done|apply Hinv|]. intros i f' [= <- <-].
    destruct (inv_pending _ _ Hinv _ _ E2) as (t & Ht & Hk & _). exists t. split; [done|]. split; [done|].
    right. eexists _, _. done.
  - unfold stop in H. step_cases H. by apply inv_frame; [|apply Hinv|].
  - unfold stop in H. step_cases H. by apply inv_frame; [|apply Hinv|].
  - unfold deliver in H. step_cases H. apply inv_frame; [done| |done].
    intros j f' [[<- [= <-]]|[_ Hj]]%lookup_insert_Some; [by apply (inv_serve _ _ Hinv)|by apply (inv_chan _ _ Hinv)].
Qed.

Lemma run_app ls1 ls2 m : run (ls1 ++ ls2) m = m' ← run ls1 m; run ls2 m'.
Proof.
  revert m. induction ls1 as [|l ls1 IH]; intros m; [done|]. cbn [run app].
  destruct (step l m); [apply IH|done].
Qed.

Lemma inv_run ls c m :
  run ls (newMux c) = Some m → mux_inv (λ f, ∃ l, l ∈ ls ∧ received l f) m.
Proof.
  revert m. induction ls as [|l ls IH] using rev_ind; intros m H.
  - injection H as <-. apply mux_inv_init.
  - rewrite run_app in H. apply bind_Some in H as (m1 & H1 & H). cbn [run] in H.
    apply bind_Some in H as (m2 & H2 & [= <-]).
    eapply mux_inv_mono; [|eapply inv_step; [done|by apply IH]]. cbn.
    intros f [(l' & ? & ?)|Hr]; [exists l'|exists l]; split; try done; set_solver.
Qed.

(** ** What a finished call returns *)

(** C36. Correlation: however the concurrent calls, their write goroutines, cancellations and the
    frames read interleave, a [Send] that returns a response returns the unpacked fields of a frame
    that really arrived on this connection, with the STAN and DE 7 of its own request. *)
Theorem response_correlates ls c m i s f :
  run ls (newMux c) = Some m →
  sends m !! i = Some s → ph s = Returned (Ok f) →
  at_ f 11 = at_ (req s) 11 ∧ at_ f 7 = at_ (req s) 7 ∧
  ∃ payload mti, LFrame payload ∈ ls ∧ Unpack payload = Ok (mti, f).
Proof.
  intros Hrun Hs Hph. apply inv_run in Hrun.
  destruct (inv_outcome _ _ Hrun i s f Hs) as [Hk (l & Hl & payload & mti & -> & HU)].
  { unfold outcome. by rewrite Hph. }
  injection Hk as -> ->. eauto 6.
Qed.

(** C37. The pending table does not leak: every entry belongs to a call that has not returned yet
    and whose request has that key, so once every call has returned the table is empty. *)
Theorem pending_no_leak ls c m :
  run ls (newMux c) = Some m →
  (∀ k i, pending m !! k = Some i →
     ∃ s, sends m !! i = Some s ∧ key_of (req s) = k ∧ active s = true) ∧
  ((∀ i s, sends m !! i = Some s → active s = false) → Pending m = 0%nat).
Proof.
  intros Hrun. apply inv_run in Hrun. split; [apply Hrun|].
  intros Hall. unfold Pending. apply map_size_empty_iff, map_empty. intros k.
  destruct (pending m !! k) as [i|] eqn:Hk; [|done].
  destruct (inv_pending _ _ Hrun _ _ Hk) as (s & Hs & _ & Ha). rewrite (Hall _ _ Hs) in Ha. done.
Qed.

(** ** Delivery *)

(** The calls in flight with key [k]. *)
Definition in_flight (k : muxKey) (m : Mux) : list (nat * send) :=
  List.filter (λ x, active x.2 && bool_decide (key_of (req x.2) = k)) (map_to_list (sends m)).

(** At no point of the run are two calls with key [k] in flight; a key may be used again once its call has
    returned, as the SAF worker does with the STAN and DE 7 it repeats. *)
Fixpoint never_shared (k : muxKey) (ls : list Label) (m : Mux) : bool :=
  (length (in_flight k m) <=? 1)%nat &&
  match ls with
  | [] => true
  | l :: ls => match step l m with Some m => never_shared k ls m | None => true end
  end.

Lemma in_flight_spec k m i s : (i, s) ∈ in_flight k m ↔ sends m !! i = Some s ∧ active s = true ∧ key_of (req s) = k.
Proof.
  unfold in_flight. rewrite list_elem_of_In, filter_In, <- list_elem_of_In, elem_of_map_to_list, andb_true_iff. cbn [fst snd].
  by rewrite bool_decide_eq_true.
Qed.

Lemma in_flight_alone k m i j s t :
  (length (in_flight k m) <=? 1)%nat = true → sends m !! i = Some s → sends m !! j = Some t →
  active s = true → active t = true → key_of (req s) = k → key_of (req t) = k → i = j.
Proof.
  intros Hl Hi Hj Hs Ht Hks Hkt. assert (H1 : (i, s) ∈ in_flight k m) by by apply in_flight_spec.
  assert (H2 : (j, t) ∈ in_flight k m) by by apply in_flight_spec.
  apply Nat.leb_le in Hl. destruct (in_flight k m) as [|x [|y l]]; [by apply not_elem_of_nil in H1| |cbn in Hl; lia].
  apply list_elem_of_singleton in H1, H2. congruence.
Qed.

Lemma never_shared_snoc k l ls m m1 m2 :
  never_shared k (ls ++ [l]) m = true → run ls m = Some m1 → step l m1 = Some m2 →
  never_shared k ls m = true ∧ (length (in_flight k m1) <=? 1)%nat = true ∧ (length (in_flight k m2) <=? 1)%nat = true.
Proof.
  revert m. induction ls as [|l0 ls IH]; intros m; cbn [app never_shared run].
  - intros [H H']%andb_true_iff [= <-] E. rewrite E in H'. rewrite H. by apply andb_true_iff in H' as [H' _].
  - intros [H H']%andb_true_iff. rewrite H. destruct (step l0 m) as [m0|]; [|done]. cbn [mbind option_bind andb]. by apply IH.
Qed.

(** The entry of [k] is the call in flight with that key, and every call has its channel. *)
Record mux_exact (k : muxKey) (m : Mux) : Prop := {
  ex_pending i s : sends m !! i = Some s → active s = true → key_of (req s) = k → pending m !! k = Some i;
  ex_chan i s : sends m !! i = Some s → is_Some (chans m !! i)
}.

Lemma exact_set_phase k i s p m :
  sends m !! i = Some s → mux_exact k m → active s = true → mux_exact k (set_phase i s p m).
Proof.
  intros Hs [H1 H2] Ha. split; cbn.
  - intros j t [[<- <-]|[Hij Hj]]%lookup_insert_Some Hact; [exact (H1 _ _ Hs Ha)|eauto].
  - intros j t [[<- <-]|[Hij Hj]]%lookup_insert_Some; eauto.
Qed.

Lemma exact_frame k m c ch w sv l :
  mux_exact k m → (∀ i, is_Some (chans m !! i) → is_Some (ch !! i)) →
  mux_exact k (NewMux c (pending m) ch (sends m) w sv l).
Proof. intros [H1 H2] Hch. split; cbn; eauto. Qed.

Lemma is_Some_insert {A} (ch : gmap nat A) j x i : is_Some (ch !! i) → is_Some (<[j:=x]> ch !! i).
Proof. rewrite lookup_insert_is_Some'. auto. Qed.

Lemma exact_step k l m m' :
  step l m = Some m' → (length (in_flight k m) <=? 1)%nat = true → (length (in_flight k m') <=? 1)%nat = true →
  mux_exact k m → mux_exact k m'.
Proof.
  intros H Hd Hd' Hex. pose proof Hex as [H1 H2].
  destruct l; cbn [step] in H; unfold on_send in H;
    try (apply bind_Some in H as (s & Hs & H)).
  - unfold register in H. step_cases H. split; cbn.
    + intros j t [[<- <-]|[Hij Hj]]%lookup_insert_Some Hact Hk; cbn in Hk; [by rewrite Hk, lookup_insert_eq|].
      rewrite lookup_insert_ne; [by eapply H1|]. intros Hk'. apply Hij.
      eapply (in_flight_alone k _ i j (Send mti fields Registered) t Hd'); cbn [sends req];
        rewrite ?lookup_insert_eq, ?lookup_insert_ne by done; done.
    + intros j t [[<- <-]|[Hij Hj]]%lookup_insert_Some; apply lookup_insert_is_Some'; eauto.
  - unfold pack in H. step_cases H; apply exact_set_phase; try done; try (by unfold active; rewrite E).
  - unfold do_write in H. step_cases H. by apply exact_frame.
  - unfold written in H. step_cases H; apply exact_set_phase; try done; by unfold active; rewrite E.
  - unfold cancel in H. step_cases H; apply exact_set_phase; try done; by unfold active; rewrite E.
  - unfold receive in H. step_cases H. apply exact_set_phase; try done; try (by unfold active; rewrite E).
    apply exact_frame; [done|]. intros j. apply is_Some_insert.
  - unfold delete_key in H. step_cases H. split; cbn.
    + intros j t [[<- <-]|[Hij Hj]]%lookup_insert_Some Hact Hk; [done|].
      rewrite lookup_delete_ne; [by eapply H1|]. intros Hk'. apply Hij.
      eapply (in_flight_alone k m i j s t Hd); try done. unfold active. by rewrite E.
    + intros j t [[<- <-]|[Hij Hj]]%lookup_insert_Some; eauto.
  - unfold dispatch in H. step_cases H; unfold with_serve; by try apply exact_frame.
  - unfold stop in H. step_cases H. by apply exact_frame.
  - unfold stop in H. step_cases H. by apply exact_frame.
  - unfold deliver in H. step_cases H. apply exact_frame; [done|]. intros j. apply is_Some_insert.
Qed.

Lemma exact_run k ls c m : run ls (newMux c) = Some m → never_shared k ls (newMux c) = true → mux_exact k m.
Proof.
  revert m. induction ls as [|l ls IH] using rev_ind; intros m H Hd.
  - injection H as <-. by split.
  - rewrite run_app in H. apply bind_Some in H as (m1 & H1 & H). cbn [run] in H.
    apply bind_Some in H as (m2 & H2 & [= <-]).
    destruct (never_shared_snoc k l ls _ m1 m2 Hd H1 H2) as (Hn & Hd1 & Hd2).
    eapply exact_step; [done|done|done|]. by apply IH.
Qed.

(** What is left for call [i] once its response is in the hands of [Serve]: the hand-over, the receipt, the
    cleanup. *)
Definition rank (i : nat) (m : Mux) : nat :=
  match sends m !! i with
  | None => 4
  | Some s =>
      match ph s, chans m !! i with
      | Returned _, _ => 0
      | Leaving _, _ => 1
      | _, Some (Some _) => 2
      | _, _ => 3
      end
  end.

Definition next_of (i : nat) (m : Mux) : Label :=
  match rank i m with 3%nat => LDeliver | 2%nat => LReceive i | _ => LDelete i end.

(** The response [f] is on its way to call [i], or the call is over: with [f], or, if it [may_cancel],
    cancelled. *)
Record on_its_way (i : nat) (f : fieldmap) (may_cancel : Prop) (m : Mux) : Prop := {
  way_call : ∃ s, sends m !! i = Some s ∧
    match ph s with
    | Awaiting => serve m = Delivering i f ∧ chans m !! i = Some None ∨ chans m !! i = Some (Some f)
    | Leaving r | Returned r => r = Ok f ∨ r = Err CtxErr ∧ may_cancel
    | _ => False
    end
}.

Lemma on_its_way_mono i f (P Q : Prop) m : (P → Q) → on_its_way i f P m → on_its_way i f Q m.
Proof.
  intros HPQ [(s & Hs & H)]. split. exists s. split; [done|]. destruct (ph s); try done; tauto.
Qed.

(** A step that leaves the call and its channel alone, and the hand-over when there is one to come. *)
Lemma way_same i f P Q m m' :
  on_its_way i f P m → sends m' !! i = sends m !! i → chans m' !! i = chans m !! i →
  (serve m' = serve m ∨ serve m ≠ Delivering i f) → on_its_way i f (P ∨ Q) m' ∧ (rank i m' ≤ rank i m)%nat.
Proof.
  intros [(s & Hs & Hw)] Es Ec Hsv. split; [|unfold rank; rewrite Es, Ec; lia]. split. exists s. rewrite Es, Ec.
  split; [done|]. destruct (ph s); try done; [|tauto..]. destruct Hsv as [->|Hsv]; tauto.
Qed.

(** A step of the call itself. *)
Lemma way_moved i f P Q s p m m' :
  sends m !! i = Some s → sends m' !! i = Some (Send (req_mti s) (req s) p) →
  match p, ph s with
  | Leaving r, Awaiting | Returned r, Leaving _ => r = Ok f ∨ r = Err CtxErr ∧ (P ∨ Q)
  | _, _ => False
  end → on_its_way i f (P ∨ Q) m' ∧ (rank i m' ≤ rank i m)%nat.
Proof.
  intros Hs Hs' Hp. split.
  - split. eexists. split; [exact Hs'|]. cbn [ph]. destruct p, (ph s); try done.
  - unfold rank. rewrite Hs, Hs'. cbn [ph]. destruct p, (ph s); try done; destruct (chans m !! i) as [[?|]|], (chans m' !! i) as [[?|]|]; lia.
Qed.

Lemma sends_moved i j s p m : (i = j → False) → sends (set_phase j s p m) !! i = sends m !! i.
Proof. intros Hne. cbn. by rewrite lookup_insert_ne by (intros ->; by apply Hne). Qed.

(** No step takes the response away; a cancellation of the call is the only other end. *)
Lemma way_step i f P l m m' :
  on_its_way i f P m → step l m = Some m' → on_its_way i f (P ∨ l = LCancel i) m' ∧ (rank i m' ≤ rank i m)%nat.
Proof.
  intros Hway H. pose proof Hway as [(s & Hs & Hw)].
  destruct l as [j ? ?|j|j|j|j|j|j|payload|e| |]; cbn [step] in H; unfold on_send in H;
    try (apply bind_Some in H as (s0 & Hs0 & H); destruct (decide (i = j)) as [<-|Hne]; [assert (s0 = s) as -> by congruence|]).
  - unfold register in H. step_cases H. assert (i ≠ j) by congruence.
    eapply way_same; [done|cbn; by rewrite lookup_insert_ne..|by left].
  - unfold pack in H. destruct (ph s); done.
  - unfold pack in H. step_cases H; (eapply way_same; [done|by rewrite sends_moved|done|by left]).
  - unfold do_write in H. step_cases H. by eapply way_same; [done|done|done|left].
  - unfold written in H. destruct (ph s); done.
  - unfold written in H. step_cases H; (eapply way_same; [done|by rewrite sends_moved|done|by left]).
  - unfold cancel in H. destruct (ph s) eqn:E; try done. injection H as <-.
    eapply way_moved; [exact Hs|cbn; by rewrite lookup_insert_eq|]. rewrite E. auto.
  - unfold cancel in H. step_cases H; (eapply way_same; [done|by rewrite sends_moved|done|by left]).
  - unfold receive in H. destruct (ph s) eqn:E; try done. destruct Hw as [[_ Hw]|Hw]; rewrite Hw in H; [done|]. injection H as <-.
    eapply way_moved; [exact Hs|cbn; by rewrite lookup_insert_eq|]. rewrite E. by left.
  - unfold receive in H. step_cases H.
    eapply way_same; [done|by rewrite sends_moved|cbn; by rewrite lookup_insert_ne|by left].
  - unfold delete_key in H. destruct (ph s) eqn:E; try done. injection H as <-.
    eapply way_moved; [exact Hs|cbn; by rewrite lookup_insert_eq|]. rewrite E. tauto.
  - unfold delete_key in H. step_cases H. eapply way_same; [done|by rewrite sends_moved|done|by left].
  - unfold dispatch in H. destruct (serve m) eqn:E; try done. step_cases H; (eapply way_same; [done|done|done|right; congruence]).
  - unfold stop in H. destruct (serve m) eqn:E; try done. injection H as <-. eapply way_same; [done|done|done|right; congruence].
  - unfold stop in H. destruct (serve m) eqn:E; try done. injection H as <-. eapply way_same; [done|done|done|right; congruence].
  - unfold deliver in H. destruct (serve m) as [|ch g|] eqn:E; try done. destruct (chans m !! ch) as [[?|]|] eqn:Ec; try done.
    injection H as <-. destruct (decide (i = ch)) as [<-|Hne].
    2: { eapply way_same; [done|done|cbn; by rewrite lookup_insert_ne|right; congruence]. }
    split; [|unfold rank; cbn [sends chans]; rewrite lookup_insert_eq, Ec; destruct (sends m !! i) as [t|]; [destruct (ph t)|]; lia].
    split. exists s. cbn [sends chans]. rewrite lookup_insert_eq. split; [done|].
    destruct (ph s); try done; [|tauto..]. right. destruct Hw as [[[= <-] _]|Hw]; [done|congruence].
Qed.

(** The call's next step can be taken at once, and brings its end nearer. *)
Lemma way_next i f P m :
  on_its_way i f P m → rank i m ≠ 0%nat →
  ∃ m', step (next_of i m) m = Some m' ∧ (rank i m' < rank i m)%nat ∧ next_of i m ∈ [LDeliver; LReceive i; LDelete i].
Proof.
  intros [(s & Hs & Hw)] Hr. unfold next_of, rank in *. rewrite Hs in *. destruct (ph s) eqn:Ep; try done.
  - destruct Hw as [[Hsv Hc]|Hc]; rewrite Hc in *; cbn [step]; unfold deliver, on_send.
    + rewrite Hsv, Hc. eexists. split; [done|]. cbn [sends chans]. rewrite Hs, Ep, lookup_insert_eq. split; [lia|by left].
    + rewrite Hs. cbn [mbind option_bind]. unfold receive. rewrite Ep, Hc. eexists. split; [done|]. cbn [sends set_phase].
      rewrite lookup_insert_eq. cbn [ph]. split; [lia|by right; left].
  - assert (E : match chans m !! i with Some (Some _) => 1%nat | _ => 1%nat end = 1%nat) by (by destruct (chans m !! i) as [[?|]|]).
    cbn [step]; unfold on_send; rewrite Hs; cbn [mbind option_bind]; unfold delete_key; rewrite Ep. eexists. split; [done|].
    cbn [sends set_phase]. rewrite lookup_insert_eq. cbn [ph]. split; [lia|by right; right; left].
Qed.

Lemma way_run i f ls m m' :
  on_its_way i f False m → run ls m = Some m' → on_its_way i f (LCancel i ∈ ls) m' ∧ (rank i m' ≤ rank i m)%nat.
Proof.
  revert m'. induction ls as [|l ls IH] using rev_ind; intros m' Hw H.
  - injection H as <-. split; [apply (on_its_way_mono i f False); [done|exact Hw]|lia].
  - rewrite run_app in H. apply bind_Some in H as (m1 & H1 & H). cbn [run] in H.
    apply bind_Some in H as (m2 & H2 & [= <-]). destruct (IH m1 Hw H1) as [Hw1 Hr1].
    destruct (way_step i f _ l m1 m2 Hw1 H2) as [Hw2 Hr2]. split; [|lia].
    eapply on_its_way_mono; [|exact Hw2]. intros [Hin| ->]; apply elem_of_app; [by left|right; by left].
Qed.

Lemma dispatch_on_its_way m i s payload mti f :
  sends m !! i = Some s → ph s = Awaiting → serve m = Reading → pending m !! key_of f = Some i →
  chans m !! i = Some None → Unpack payload = Ok (mti, f) →
  ∃ m', step (LFrame payload) m = Some m' ∧ late m' = late m ∧ rank i m' = 3%nat ∧ on_its_way i f False m'.
Proof.
  intros Hs Hph Hsv Hp Hch HU. eexists. cbn [step]. unfold dispatch. rewrite Hsv, HU, Hp. split; [done|]. split; [done|].
  unfold rank. cbn [with_serve sends chans]. rewrite Hs, Hph, Hch. split; [done|]. split. exists s. cbn [sends with_serve serve chans].
  rewrite Hph. auto.
Qed.


(** A response nobody waits for any more is reported, once, and the loop goes on: the
    late-response hook gets the message when no call with its key is in flight. *)
Lemma late_response_reported ls c m payload mti f :
  run ls (newMux c) = Some m → serve m = Reading → Unpack payload = Ok (mti, f) →
  (∀ i s, sends m !! i = Some s → key_of (req s) = key_of f → active s = false) →
  ∃ m', step (LFrame payload) m = Some m' ∧ serve m' = Reading ∧
        late m' = late m ++ [(mti, f)] ∧ sends m' = sends m ∧ pending m' = pending m.
Proof.
  intros Hrun%inv_run Hsv HU Hall. cbn [step]. unfold dispatch. rewrite Hsv, HU.
  destruct (pending m !! key_of f) as [i|] eqn:Hp; [|by eexists].
  destruct (inv_pending _ _ Hrun _ _ Hp) as (s & Hs & Hk & Ha). rewrite (Hall _ _ Hs Hk) in Ha. done.
Qed.
End mux.
Arguments newMux {W} c.
Arguments run {W} Write ls m.
Arguments step {W} Write l m.
Arguments never_shared {W} Write k ls m.
Arguments rank {W} i m.
Arguments next_of {W} i m.
Arguments Pending {W} m.
Arguments sends {W} m.
Arguments pending {W} m.
Arguments chans {W} m.
Arguments serve {W} m.
Arguments late {W} m.

(** ** A concrete schedule: two concurrent requests, answered in the opposite order *)

Definition demo_fields (stan : string) : fieldmap := {[ 7%Z := "1006123000"; 11%Z := stan; 70%Z := "301" ]}.

Definition demo_frame (mti stan : string) : string :=
  match Pack mti (demo_fields stan) with Ok s => s | Err _ => "" end.

Definition demo_start : list Label :=
  [LSend 0 "0800" (demo_fields "000001"); LSend 1 "0800" (demo_fields "000002"); LPack 1; LPack 0;
   LWrite 0; LWrite 1; LWritten 1; LWritten 0].

Definition demo_schedule : list Label :=
  demo_start ++ [LFrame (demo_frame "0810" "000002"); LDeliver; LFrame (demo_frame "0810" "000001");
    LReceive 1; LDeliver; LDelete 1; LReceive 0; LDelete 0].

Definition demo_state (ls : list Label) : Mux (W := string) :=
  default (newMux "") (run buffer_write ls (newMux "")).

Definition demo_send (i : nat) (ls : list Label) : send :=
  default (Send "" ∅ Registered) (sends (demo_state ls) !! i).

Lemma response_correlates_witness :
  let s := demo_send 0 demo_schedule in let f := demo_fields "000001" in
  at_ f 11 = at_ (req s) 11 ∧ at_ f 7 = at_ (req s) 7 ∧
  ∃ payload mti, LFrame payload ∈ demo_schedule ∧ Unpack payload = Ok (mti, f).
Proof.
  apply (response_correlates buffer_write demo_schedule "" (demo_state demo_schedule) 0%nat);
    vm_compute; reflexivity.
Defined.

Lemma pending_no_leak_witness :
  (∀ k i, pending (demo_state demo_start) !! k = Some i →
     ∃ s, sends (demo_state demo_start) !! i = Some s ∧ key_of (req s) = k ∧ active s = true) ∧
  ((∀ i s, sends (demo_state demo_start) !! i = Some s → active s = false) →
     Pending (demo_state demo_start) = 0%nat).
Proof. apply (pending_no_leak buffer_write demo_start ""). vm_compute; reflexivity. Defined.

(** A request whose key an earlier one had, which has returned: a repeat. *)
Definition demo_repeat : list Label :=
  demo_schedule ++ [LSend 2 "0800" (demo_fields "000002"); LPack 2; LWrite 2; LWritten 2].


(** ** STANs *)

Fixpoint NextSTANs (n : nat) (stan : Z) : list string :=
  match n with
  | O => []
  | S n => let '(stan, s) := NextSTAN stan in s :: NextSTANs n stan
  end.

Lemma NextSTAN_eq c :
  0 ≤ c → c + 1 < 2 ^ 63 → NextSTAN c = (c + 1, dec 6 ((c + 1) mod 1000000)).
Proof.
  intros H0 H1. unfold NextSTAN. rewrite wrap64_id by (unfold in_int64; lia).
  rewrite Z.rem_mod_nonneg by lia.
  rewrite Sprintf0d_dec by (pose proof (Z.mod_pos_bound (c + 1) 1000000); lia). done.
Qed.

Lemma NextSTANs_eq n c :
  0 ≤ c → c + Z.of_nat n < 2 ^ 63 →
  NextSTANs n c = map (λ k, dec 6 ((c + 1 + Z.of_nat k) mod 1000000)) (seq 0 n).
Proof.
  revert c. induction n as [|n IH]; intros c H0 H1; cbn [NextSTANs]; [done|].
  rewrite NextSTAN_eq by lia. rewrite IH by lia. cbn [seq map]. f_equal.
  - by rewrite Z.add_0_r.
  - rewrite <-seq_shift, map_map. apply map_ext. intros k. do 2 f_equal. lia.
Qed.

(** STANs: from any counter value reached by counting up from 0 (and short of 2^63 draws),
    [NextSTAN] gives six digits every time, and no STAN repeats within a million consecutive draws,
    the wrap from 999999 to 000000 included. *)
Theorem NextSTAN_distinct n c :
  0 ≤ c → c + Z.of_nat n < 2 ^ 63 → Z.of_nat n ≤ 1000000 →
  Forall (λ s, slen s = 6%nat ∧ str_forall is_digit s = true) (NextSTANs n c) ∧
  NoDup (NextSTANs n c).
Proof.
  intros H0 H1 Hn. rewrite NextSTANs_eq by done. split.
  - apply Forall_forall. intros s (k & <- & _)%list_elem_of_In%in_map_iff.
    split; [apply slen_dec|apply dec_digits].
  - apply NoDup_fmap_2_strong; [|apply NoDup_seq].
    intros k1 k2 Hk1%elem_of_seq Hk2%elem_of_seq He%dec_inj; [|apply Z.mod_pos_bound; lia..].
    pose proof (Z.div_mod (c + 1 + Z.of_nat k1) 1000000). pose proof (Z.div_mod (c + 1 + Z.of_nat k2) 1000000).
    nia.
Qed.

Lemma NextSTAN_distinct_witness :
  Forall (λ s, slen s = 6%nat ∧ str_forall is_digit s = true) (NextSTANs 3 999998) ∧
  NoDup (NextSTANs 3 999998).
Proof. apply (NextSTAN_distinct 3 999998); lia. Defined.

Example NextSTANs_wrap : NextSTANs 3 999998 = ["999999"; "000000"; "000001"].
Proof. reflexivity. Qed.

(** ** A duplicated response can stop the read loop *)

(** [Serve] is at [ch <- fields] on a full slot whose owner has returned without emptying it. *)
Definition stuck {W} (i : nat) (f : fieldmap) (m : Mux (W := W)) : Prop :=
  serve m = Delivering i f ∧ (∃ g, chans m !! i = Some (Some g)) ∧
  ∃ s r, sends m !! i = Some s ∧ ph s = Returned r.

Lemma stuck_step {W} (Write : W → string → W * bool) i f l m m' :
  step Write l m = Some m' → stuck i f m → stuck i f m'.
Proof.
  intros H (Hsv & (g & Hch) & s & r & Hs & Hph).
  destruct l; cbn [step] in H; unfold register, on_send, do_write, dispatch, deliver, stop in H;
    try (apply bind_Some in H as (s0 & Hs0 & H);
         assert (i0 = i → s0 = s) by congruence;
         unfold pack, written, cancel, receive, delete_key in H);
    rewrite ?Hsv, ?Hch in H; try discriminate H; step_cases H; unfold stuck; cbn; split; try done; split.
  all: try (destruct (decide (i0 = i)) as [->|]; rewrite ?lookup_insert_ne by done).
  all: try solve [eauto]; exfalso; intuition congruence.
Qed.

Definition double_response : list Label :=
  [LSend 0 "0800" (demo_fields "000001"); LPack 0; LWrite 0; LWritten 0;
   LFrame (demo_frame "0810" "000001"); LDeliver; LFrame (demo_frame "0810" "000001");
   LCancel 0; LDelete 0].

(** The hand-over [ch <- fields] is not bounded: there is a schedule (the issuer answers one
    request twice while the caller's deadline fires) after which no schedule whatsoever lets
    [Serve] read another frame, although every [Send] has returned and the table is empty. *)
Theorem Serve_can_block_forever :
  ∃ m, run buffer_write double_response (newMux "") = Some m ∧
       Pending m = 0%nat ∧ (∀ i s, sends m !! i = Some s → active s = false) ∧
       ∀ ls m', run buffer_write ls m = Some m' → ∃ i f, serve m' = Delivering i f.
Proof.
  exists (demo_state double_response). split; [by vm_compute|]. split; [by vm_compute|]. split.
  - intros i s. assert (H : sends (demo_state double_response)
      = ({[ 0%nat := demo_send 0 double_response ]} : gmap nat send)) by by vm_compute.
    rewrite H. intros [<- <-]%lookup_singleton_Some. by vm_compute.
  - assert (H : stuck 0 (demo_fields "000001") (demo_state double_response)).
    { split; [by vm_compute|]. split; [exists (demo_fields "000001"); by vm_compute|].
      exists (demo_send 0 double_response), (Err CtxErr). split; by vm_compute. }
    generalize dependent (demo_state double_response). intros m H ls. revert m H.
    induction ls as [|l ls IH]; intros m H m' Hr.
    + injection Hr as <-. destruct H as [H _]. eauto.
    + cbn [run] in Hr. apply bind_Some in Hr as (m1 & H1 & Hr). eapply IH; [|done]. by eapply stuck_step.
Qed.
