(* ===== verification/Des.v ===== *)
(** * Des: the DES block cipher of Go's [crypto/des]

    [gateway-go/internal/hsm/jce.go] builds its MAC and its PIN translation on [crypto/des] and
    [crypto/cipher] (CBC mode, zero IV).  This file models what it uses of them: FIPS 46-3 on
    bit lists, single and triple DES, and the CBC encrypter. *)

From S2P Require Import Prelude Digits.
Local Open Scope nat_scope.

(** ** Bits, most significant first *)

Definition bits_of_ascii (c : ascii) : list bool :=
  match c with Ascii b0 b1 b2 b3 b4 b5 b6 b7 => [b7; b6; b5; b4; b3; b2; b1; b0] end.

Fixpoint bits_of (s : string) : list bool :=
  match s with
  | EmptyString => []
  | String c s => bits_of_ascii c ++ bits_of s
  end.

Fixpoint string_of_bits (bs : list bool) : string :=
  match bs with
  | b7 :: b6 :: b5 :: b4 :: b3 :: b2 :: b1 :: b0 :: bs =>
      String (Ascii b0 b1 b2 b3 b4 b5 b6 b7) (string_of_bits bs)
  | _ => ""
  end.

Definition xor_bits : list bool → list bool → list bool := zip_with xorb.

(** A table of the standard: output bit [i] is input bit [table i], counting from 1. *)
Definition permute (table : list nat) (bs : list bool) : list bool :=
  map (λ i, nth (i - 1) bs false) table.

Lemma string_of_bits_of s : string_of_bits (bits_of s) = s.
Proof. induction s as [|[] s IH]; [done|]. cbn. by rewrite IH. Qed.

Lemma bits_of_string_of bs n : length bs = 8 * n → bits_of (string_of_bits bs) = bs.
Proof.
  revert bs. induction n as [|n IH]; intros bs H.
  - by destruct bs.
  - do 8 (destruct bs as [|? bs]; [cbn in H; lia|]). cbn. rewrite IH; [done|]. cbn in H. lia.
Qed.

Lemma length_bits_of s : length (bits_of s) = 8 * slen s.
Proof. induction s as [|[] s IH]; [done|]. cbn [bits_of bits_of_ascii]. rewrite length_app, IH. cbn. lia. Qed.

Lemma slen_string_of_bits bs n : length bs = 8 * n → slen (string_of_bits bs) = n.
Proof.
  revert bs. induction n as [|n IH]; intros bs H.
  - by destruct bs.
  - do 8 (destruct bs as [|? bs]; [cbn in H; lia|]). cbn. f_equal. apply IH. cbn in H. lia.
Qed.

Lemma length_permute t bs : length (permute t bs) = length t.
Proof. apply length_map. Qed.

Lemma length_xor_bits a b n : length a = n → length b = n → length (xor_bits a b) = n.
Proof. intros Ha Hb. unfold xor_bits. rewrite length_zip_with. lia. Qed.

Lemma xor_bits_cancel a b : length a = length b → xor_bits (xor_bits a b) b = a.
Proof.
  revert b. induction a as [|x a IH]; intros [|y b] H; try done. cbn. f_equal.
  - by destruct x, y.
  - apply IH. by injection H.
Qed.

(** Two tables that undo each other on lists of [n] bits. *)
Lemma permute_permute t1 t2 n bs :
  map (λ i, nth (i - 1) t1 0) t2 = seq 1 n → length bs = n →
  Forall (λ i, 1 ≤ i ≤ length t1) t2 →
  permute t2 (permute t1 bs) = bs.
Proof.
  intros Ht Hn Hall.
  transitivity (permute (seq 1 n) bs).
  - rewrite <-Ht. unfold permute at 1 3. rewrite map_map. apply map_ext_in. intros i Hi.
    rewrite Forall_forall in Hall. specialize (Hall i (proj2 (list_elem_of_In _ _) Hi)).
    unfold permute. rewrite nth_indep with (d' := (λ i, nth (i - 1) bs false) 0) by (rewrite length_map; lia).
    by rewrite (map_nth (λ i, nth (i - 1) bs false)).
  - subst n. clear. unfold permute. rewrite <-seq_shift, map_map.
    transitivity (map (λ i, nth i bs false) (seq 0 (length bs))).
    + apply map_ext. intros i. f_equal. lia.
    + apply (nth_ext _ _ false false); rewrite length_map, length_seq; [done|].
      intros k Hk. rewrite nth_indep with (d' := (λ i, nth i bs false) 0) by (rewrite length_map, length_seq; lia).
      rewrite (map_nth (λ i, nth i bs false)). f_equal. rewrite seq_nth by lia. done.
Qed.

(** ** The tables of FIPS 46-3 *)

Definition IP : list nat :=
  [58;50;42;34;26;18;10;2; 60;52;44;36;28;20;12;4; 62;54;46;38;30;22;14;6; 64;56;48;40;32;24;16;8;
   57;49;41;33;25;17;9;1; 59;51;43;35;27;19;11;3; 61;53;45;37;29;21;13;5; 63;55;47;39;31;23;15;7].
Definition FP : list nat :=
  [40;8;48;16;56;24;64;32; 39;7;47;15;55;23;63;31; 38;6;46;14;54;22;62;30; 37;5;45;13;53;21;61;29;
   36;4;44;12;52;20;60;28; 35;3;43;11;51;19;59;27; 34;2;42;10;50;18;58;26; 33;1;41;9;49;17;57;25].
Definition ETable : list nat :=
  [32;1;2;3;4;5; 4;5;6;7;8;9; 8;9;10;11;12;13; 12;13;14;15;16;17;
   16;17;18;19;20;21; 20;21;22;23;24;25; 24;25;26;27;28;29; 28;29;30;31;32;1].
Definition PTable : list nat :=
  [16;7;20;21;29;12;28;17; 1;15;23;26;5;18;31;10; 2;8;24;14;32;27;3;9; 19;13;30;6;22;11;4;25].
Definition PC1 : list nat :=
  [57;49;41;33;25;17;9; 1;58;50;42;34;26;18; 10;2;59;51;43;35;27; 19;11;3;60;52;44;36;
   63;55;47;39;31;23;15; 7;62;54;46;38;30;22; 14;6;61;53;45;37;29; 21;13;5;28;20;12;4].
Definition PC2 : list nat :=
  [14;17;11;24;1;5; 3;28;15;6;21;10; 23;19;12;4;26;8; 16;7;27;20;13;2;
   41;52;31;37;47;55; 30;40;51;45;33;48; 44;49;39;56;34;53; 46;42;50;36;29;32].
Definition key_shifts : list nat := [1;1;2;2;2;2;2;2;1;2;2;2;2;2;2;1].

Definition sboxes : list (list nat) :=
 [[14;4;13;1;2;15;11;8;3;10;6;12;5;9;0;7; 0;15;7;4;14;2;13;1;10;6;12;11;9;5;3;8;
   4;1;14;8;13;6;2;11;15;12;9;7;3;10;5;0; 15;12;8;2;4;9;1;7;5;11;3;14;10;0;6;13];
  [15;1;8;14;6;11;3;4;9;7;2;13;12;0;5;10; 3;13;4;7;15;2;8;14;12;0;1;10;6;9;11;5;
   0;14;7;11;10;4;13;1;5;8;12;6;9;3;2;15; 13;8;10;1;3;15;4;2;11;6;7;12;0;5;14;9];
  [10;0;9;14;6;3;15;5;1;13;12;7;11;4;2;8; 13;7;0;9;3;4;6;10;2;8;5;14;12;11;15;1;
   13;6;4;9;8;15;3;0;11;1;2;12;5;10;14;7; 1;10;13;0;6;9;8;7;4;15;14;3;11;5;2;12];
  [7;13;14;3;0;6;9;10;1;2;8;5;11;12;4;15; 13;8;11;5;6;15;0;3;4;7;2;12;1;10;14;9;
   10;6;9;0;12;11;7;13;15;1;3;14;5;2;8;4; 3;15;0;6;10;1;13;8;9;4;5;11;12;7;2;14];
  [2;12;4;1;7;10;11;6;8;5;3;15;13;0;14;9; 14;11;2;12;4;7;13;1;5;0;15;10;3;9;8;6;
   4;2;1;11;10;13;7;8;15;9;12;5;6;3;0;14; 11;8;12;7;1;14;2;13;6;15;0;9;10;4;5;3];
  [12;1;10;15;9;2;6;8;0;13;3;4;14;7;5;11; 10;15;4;2;7;12;9;5;6;1;13;14;0;11;3;8;
   9;14;15;5;2;8;12;3;7;0;4;10;1;13;11;6; 4;3;2;12;9;5;15;10;11;14;1;7;6;0;8;13];
  [4;11;2;14;15;0;8;13;3;12;9;7;5;10;6;1; 13;0;11;7;4;9;1;10;14;3;5;12;2;15;8;6;
   1;4;11;13;12;3;7;14;10;15;6;8;0;5;9;2; 6;11;13;8;1;4;10;7;9;5;0;15;14;2;3;12];
  [13;2;8;4;6;15;11;1;10;9;3;14;5;0;12;7; 1;15;13;8;10;3;7;4;12;5;6;11;0;14;9;2;
   7;11;4;1;9;12;14;2;0;6;10;13;15;3;5;8; 2;1;14;7;4;10;8;13;15;12;9;0;3;5;6;11]].

(** ** The key schedule and the round function *)

Definition rotl (n : nat) (bs : list bool) : list bool := drop n bs ++ take n bs.

Fixpoint schedule (shifts : list nat) (c d : list bool) : list (list bool) :=
  match shifts with
  | [] => []
  | n :: shifts =>
      let c := rotl n c in let d := rotl n d in
      permute PC2 (c ++ d) :: schedule shifts c d
  end.

Definition subkeys (key : string) : list (list bool) :=
  let k := permute PC1 (bits_of key) in schedule key_shifts (take 28 k) (drop 28 k).

Definition nat_bits4 (n : nat) : list bool :=
  [Nat.testbit n 3; Nat.testbit n 2; Nat.testbit n 1; Nat.testbit n 0].

(** One S-box: the outer bits select the row, the inner four the column. *)
Definition sbox (table : list nat) (b0 b1 b2 b3 b4 b5 : bool) : list bool :=
  let v (b : bool) := if b then 1 else 0 in
  nat_bits4 (nth (16 * (2 * v b0 + v b5) + (8 * v b1 + 4 * v b2 + 2 * v b3 + v b4)) table 0).

Fixpoint substitute (boxes : list (list nat)) (bs : list bool) : list bool :=
  match boxes, bs with
  | t :: boxes, b0 :: b1 :: b2 :: b3 :: b4 :: b5 :: bs => sbox t b0 b1 b2 b3 b4 b5 ++ substitute boxes bs
  | _, _ => []
  end.

Definition feistel (r k : list bool) : list bool :=
  permute PTable (substitute sboxes (xor_bits (permute ETable r) k)).

Definition round (lr : list bool * list bool) (k : list bool) : list bool * list bool :=
  (lr.2, xor_bits lr.1 (feistel lr.2 k)).

Definition crypt_block (keys : list (list bool)) (block : string) : string :=
  let b := permute IP (bits_of block) in
  let lr := fold_left round keys (take 32 b, drop 32 b) in
  string_of_bits (permute FP (lr.2 ++ lr.1)).

(** ** Block ciphers: [crypto/cipher.Block] *)

Record Block := mkBlock { Encrypt : string → string; Decrypt : string → string }.

(** [des.NewCipher] on a key of 8 bytes (its only error is another length). *)
Definition des_cipher (key : string) : Block :=
  mkBlock (crypt_block (subkeys key)) (crypt_block (reverse (subkeys key))).

(** [des.NewTripleDESCipher] on a key of 24 bytes. *)
Definition triple_cipher (key : string) : Block :=
  let c1 := des_cipher (str_slice 0 8 key) in
  let c2 := des_cipher (str_slice 8 16 key) in
  let c3 := des_cipher (str_slice 16 24 key) in
  mkBlock (λ b, Encrypt c3 (Decrypt c2 (Encrypt c1 b)))
          (λ b, Decrypt c1 (Encrypt c2 (Decrypt c3 b))).

Definition des_NewCipher (key : string) : option Block :=
  if slen key =? 8 then Some (des_cipher key) else None.

Definition des_NewTripleDESCipher (key : string) : option Block :=
  if slen key =? 24 then Some (triple_cipher key) else None.

Definition xor_string (a b : string) : string :=
  string_of_bits (xor_bits (bits_of a) (bits_of b)).

(** [cipher.NewCBCEncrypter(b, iv).CryptBlocks] on a whole number [n] of 8-byte blocks. *)
Fixpoint cbc_encrypt (b : Block) (n : nat) (iv data : string) : string :=
  match n with
  | O => ""
  | S n =>
      let c := Encrypt b (xor_string (str_take 8 data) iv) in
      c +:+ cbc_encrypt b n c (str_drop 8 data)
  end.

(** ** Decryption undoes encryption *)

Lemma substitute_length bs : length bs = 48 → length (substitute sboxes bs) = 32.
Proof.
  intros H. do 48 (destruct bs as [|? bs]; [discriminate H|]). destruct bs; [|discriminate H]. reflexivity.
Qed.

Lemma length_feistel r k : length k = 48 → length (feistel r k) = 32.
Proof. intros Hk. unfold feistel. by rewrite length_permute. Qed.

Lemma round_undo lr k :
  length lr.1 = 32 → length k = 48 →
  round (prod_swap (round lr k)) k = prod_swap lr.
Proof.
  destruct lr as [l r]. intros Hl Hk. unfold round, prod_swap. cbn [fst snd] in *.
  f_equal. apply xor_bits_cancel. by rewrite length_feistel.
Qed.

Lemma rounds_undo keys lr :
  Forall (λ k, length k = 48) keys → length lr.1 = 32 → length lr.2 = 32 →
  fold_left round (reverse keys) (prod_swap (fold_left round keys lr)) = prod_swap lr ∧
  length (fold_left round keys lr).1 = 32 ∧ length (fold_left round keys lr).2 = 32.
Proof.
  intros Hk. revert lr. induction Hk as [|k keys Hk _ IH]; intros lr Hl Hr; [done|].
  cbn [fold_left]. destruct (IH (round lr k)) as (He & H1 & H2).
  - by destruct lr.
  - apply length_xor_bits; [done|by apply length_feistel].
  - split; [|done]. rewrite reverse_cons, fold_left_app, He. cbn [fold_left]. by apply round_undo.
Qed.

Lemma subkeys_length key : Forall (λ k, length k = 48) (subkeys key).
Proof.
  unfold subkeys. generalize (take 28 (permute PC1 (bits_of key))) (drop 28 (permute PC1 (bits_of key))).
  induction key_shifts as [|n l IH]; intros c d; cbn [schedule]; constructor; [|apply IH].
  apply length_permute.
Qed.

Lemma crypt_block_length keys b :
  Forall (λ k, length k = 48) keys → slen (crypt_block keys b) = 8.
Proof. intros _. apply slen_string_of_bits. by rewrite length_permute. Qed.

Lemma crypt_block_undo keys b :
  Forall (λ k, length k = 48) keys → slen b = 8 →
  crypt_block (reverse keys) (crypt_block keys b) = b.
Proof.
  intros Hk Hb. unfold crypt_block at 1 2.
  assert (Hbits : length (bits_of b) = 64) by (rewrite length_bits_of; lia).
  set (p := permute IP (bits_of b)). assert (Hp : length p = 64) by apply length_permute.
  destruct (rounds_undo keys (take 32 p, drop 32 p) Hk) as (He & H1 & H2);
    [cbn [fst]; rewrite length_take; lia|cbn [snd]; rewrite length_drop; lia|].
  set (lr := fold_left round keys (take 32 p, drop 32 p)) in *.
  rewrite (bits_of_string_of _ 8) by (by rewrite length_permute).
  rewrite (permute_permute FP IP 64);
    [|reflexivity|rewrite length_app; lia|repeat constructor; vm_compute; lia].
  rewrite (take_app_length' lr.2 lr.1 32), (drop_app_length' lr.2 lr.1 32) by done.
  unfold prod_swap in He. rewrite He. cbn [fst snd]. rewrite take_drop.
  unfold p. rewrite (permute_permute IP FP 64); [|reflexivity|done|repeat constructor; vm_compute; lia].
  apply string_of_bits_of.
Qed.

(** A cipher of 8-byte blocks whose two directions undo each other. *)
Record block_ok (c : Block) : Prop := {
  Encrypt_length b : slen (Encrypt c b) = 8;
  Decrypt_length b : slen (Decrypt c b) = 8;
  Decrypt_Encrypt b : slen b = 8 → Decrypt c (Encrypt c b) = b;
  Encrypt_Decrypt b : slen b = 8 → Encrypt c (Decrypt c b) = b
}.

Lemma des_ok key : block_ok (des_cipher key).
Proof.
  pose proof (subkeys_length key) as H.
  assert (H' : Forall (λ k, length k = 48) (reverse (subkeys key))) by by apply Forall_reverse.
  split; intros b; cbn [des_cipher Encrypt Decrypt].
  - by apply crypt_block_length.
  - by apply crypt_block_length.
  - by apply crypt_block_undo.
  - intros Hb. pose proof (crypt_block_undo _ b H' Hb) as He. by rewrite reverse_involutive in He.
Qed.

Lemma compose3_ok c1 c2 c3 :
  block_ok c1 → block_ok c2 → block_ok c3 →
  block_ok (mkBlock (λ b, Encrypt c3 (Decrypt c2 (Encrypt c1 b)))
                    (λ b, Decrypt c1 (Encrypt c2 (Decrypt c3 b)))).
Proof.
  intros H1 H2 H3. split; intros b; cbn [Encrypt Decrypt].
  - apply H3.
  - apply H1.
  - intros Hb. rewrite (Decrypt_Encrypt c3 H3) by apply H2. rewrite (Encrypt_Decrypt c2 H2) by apply H1.
    by apply H1.
  - intros Hb. rewrite (Encrypt_Decrypt c1 H1) by apply H2. rewrite (Decrypt_Encrypt c2 H2) by apply H3.
    by apply H3.
Qed.

Lemma triple_ok key : block_ok (triple_cipher key).
Proof. apply compose3_ok; apply des_ok. Qed.

Lemma cbc_length c n iv data : block_ok c → slen (cbc_encrypt c n iv data) = 8 * n.
Proof.
  intros Hc. revert iv data. induction n as [|n IH]; intros iv data; [done|].
  cbn [cbc_encrypt]. rewrite slen_app, IH, (Encrypt_length c Hc). lia.
Qed.

