(* ===== verification/Aes.v ===== *)
(** * Aes: AES-GCM sealing of Go's [crypto/aes] and [crypto/cipher]

    [gateway-go/internal/store/crypto.go] seals the SAF payloads and the keys under the LMK with
    AES-GCM; [hsm/jce.go] takes key check values with AES.  This file models what they use of the
    standard library (FIPS 197, SP 800-38D with 12-byte nonces and no additional data) and, at the
    end, [EncryptBytes] and [DecryptBytes]. *)

From S2P Require Import Prelude Digits Des.
Local Open Scope Z_scope.

(** ** Bytes *)

Fixpoint bytes_of (s : string) : list Z :=
  match s with "" => [] | String c s => Z_of_ascii c :: bytes_of s end.

Fixpoint string_of_bytes (l : list Z) : string :=
  match l with [] => "" | b :: l => String (ascii_of_Z b) (string_of_bytes l) end.

Lemma slen_string_of_bytes l : slen (string_of_bytes l) = length l.
Proof. induction l as [|b l IH]; [done|]. cbn. by rewrite IH. Qed.

(** Big-endian numbers. *)
Definition number_of (s : string) : Z := fold_left (λ n b, n * 256 + b) (bytes_of s) 0.

Fixpoint bytes_be (w : nat) (n : Z) : list Z :=
  match w with O => [] | S w => Z.land (Z.shiftr n (8 * Z.of_nat w)) 255 :: bytes_be w n end.

Definition string_be (w : nat) (n : Z) : string := string_of_bytes (bytes_be w n).

Lemma slen_string_be w n : slen (string_be w n) = w.
Proof.
  unfold string_be. rewrite slen_string_of_bytes. induction w as [|w IH]; [done|]. cbn. by rewrite IH.
Qed.

(** ** AES (FIPS 197) *)

Definition xtime (b : Z) : Z :=
  if 128 <=? b then Z.lxor (Z.land (2 * b) 255) 27 else 2 * b.

Fixpoint gmul_ (n : nat) (a b : Z) : Z :=
  match n with
  | O => 0
  | S n => Z.lxor (if Z.testbit b 0 then a else 0) (gmul_ n (xtime a) (Z.shiftr b 1))
  end.
Definition gmul : Z → Z → Z := gmul_ 8.

Definition rot8 (k b : Z) : Z := Z.land (Z.lor (Z.shiftl b k) (Z.shiftr b (8 - k))) 255.

(** The multiplicative inverse [b ^ 254], then the affine map. *)
Definition sub_byte (b : Z) : Z :=
  let b2 := gmul b b in let b4 := gmul b2 b2 in let b8 := gmul b4 b4 in
  let b16 := gmul b8 b8 in let b32 := gmul b16 b16 in let b64 := gmul b32 b32 in
  let b128 := gmul b64 b64 in
  let i := gmul b128 (gmul b64 (gmul b32 (gmul b16 (gmul b8 (gmul b4 b2))))) in
  Z.lxor 99 (Z.lxor i (Z.lxor (rot8 1 i) (Z.lxor (rot8 2 i) (Z.lxor (rot8 3 i) (rot8 4 i))))).

Definition sbox_table : list Z := Eval vm_compute in map sub_byte (seqZ 0 256).
Definition sub (b : Z) : Z := nth (Z.to_nat b) sbox_table 0.

Definition xor_l : list Z → list Z → list Z := zip_with Z.lxor.

Fixpoint chunks {A} (n k : nat) (l : list A) : list (list A) :=
  match n with O => [] | S n => take k l :: chunks n k (drop k l) end.

(** The key schedule: [ws] holds the words so far, newest first. *)
Fixpoint expand (fuel i nk : nat) (rcon : Z) (ws : list (list Z)) : list (list Z) :=
  match fuel with
  | O => ws
  | S fuel =>
      let prev := nth 0 ws [] in
      let back := nth (nk - 1) ws [] in
      let first := (i mod nk =? 0)%nat in
      let t := if first then xor_l (map sub (drop 1 prev ++ take 1 prev)) [rcon; 0; 0; 0]
               else if (6 <? nk)%nat && (i mod nk =? 4)%nat then map sub prev else prev in
      expand fuel (S i) nk (if first then xtime rcon else rcon) (xor_l back t :: ws)
  end.

Definition round_keys (key : string) : list (list Z) :=
  let nk := (slen key / 4)%nat in
  let ws := reverse (expand (4 * (nk + 7) - nk) nk nk 1 (reverse (chunks nk 4 (bytes_of key)))) in
  map (@concat Z) (chunks (nk + 7) 4 ws).

Definition shift_rows (s : list Z) : list Z :=
  map (λ i, nth ((i + 4 * (i mod 4)) mod 16)%nat s 0) (seq 0 16).

Definition mix_column (c : list Z) : list Z :=
  match c with
  | [a; b; c; d] =>
      [Z.lxor (gmul a 2) (Z.lxor (gmul b 3) (Z.lxor c d));
       Z.lxor a (Z.lxor (gmul b 2) (Z.lxor (gmul c 3) d));
       Z.lxor a (Z.lxor b (Z.lxor (gmul c 2) (gmul d 3)));
       Z.lxor (gmul a 3) (Z.lxor b (Z.lxor c (gmul d 2)))]
  | _ => []
  end.

Definition mix_columns (s : list Z) : list Z := concat (map mix_column (chunks 4 4 s)).

Fixpoint aes_rounds (keys : list (list Z)) (s : list Z) : list Z :=
  match keys with
  | [] => s
  | [k] => xor_l (shift_rows (map sub s)) k
  | k :: keys => aes_rounds keys (xor_l (mix_columns (shift_rows (map sub s))) k)
  end.

Definition aes_encrypt (key block : string) : string :=
  match round_keys key with
  | [] => ""
  | k :: keys => string_of_bytes (aes_rounds keys (xor_l (bytes_of block) k))
  end.

(** [aes.NewCipher]: the error is a [KeySizeError]. *)
Definition aes_NewCipher (key : string) : option (string → string) :=
  if (slen key =? 16)%nat || (slen key =? 24)%nat || (slen key =? 32)%nat then Some (aes_encrypt key)
  else None.

(** ** GCM (SP 800-38D) *)

Fixpoint gf128_mul_ (n : nat) (x v acc : Z) : Z :=
  match n with
  | O => acc
  | S n =>
      gf128_mul_ n x (if Z.testbit v 0 then Z.lxor (Z.shiftr v 1) (Z.shiftl 225 120) else Z.shiftr v 1)
        (if Z.testbit x (Z.of_nat n) then Z.lxor acc v else acc)
  end.
Definition gf128_mul (x y : Z) : Z := gf128_mul_ 128 x y 0.

Definition zeros (n : nat) : string := string_of_bytes (repeat 0 n).

(** The 16-byte blocks of [s], the last one completed with zeros. *)
Fixpoint blocks (n : nat) (s : string) : list Z :=
  match n with
  | O => []
  | S n => let b := str_take 16 s in number_of (b +:+ zeros (16 - slen b)) :: blocks n (str_drop 16 s)
  end.

Definition ghash (h : Z) (ct : string) : Z :=
  let n := ((slen ct + 15) / 16)%nat in
  fold_left (λ y b, gf128_mul (Z.lxor y b) h) (blocks n ct ++ [8 * Z.of_nat (slen ct)]) 0.

(** [ctr] keystream blocks of [cipher.NewGCM]: the last 32 bits count, wrapping. *)
Fixpoint keystream (E : string → string) (n : nat) (nonce : string) (ctr : Z) : string :=
  match n with
  | O => ""
  | S n => E (nonce +:+ string_be 4 ctr) +:+ keystream E n nonce ((ctr + 1) mod 2 ^ 32)
  end.

Definition ctr_crypt (E : string → string) (nonce s : string) : string :=
  xor_string s (str_take (slen s) (keystream E ((slen s + 15) / 16) nonce 2)).

Definition gcm_tag (E : string → string) (nonce ct : string) : string :=
  xor_string (string_be 16 (ghash (number_of (E (zeros 16))) ct)) (E (nonce +:+ string_be 4 1)).

Definition NonceSize : nat := 12.

(** [gcm.Seal(nonce, nonce, plaintext, nil)] without the nonce it appends to. *)
Definition Seal (E : string → string) (nonce plaintext : string) : string :=
  let ct := ctr_crypt E nonce plaintext in ct +:+ gcm_tag E nonce ct.

Definition Open (E : string → string) (nonce sealed : string) : option string :=
  if (slen sealed <? 16)%nat then None
  else
    let ct := str_take (slen sealed - 16) sealed in
    let tag := str_drop (slen sealed - 16) sealed in
    if String.eqb (gcm_tag E nonce ct) tag then Some (ctr_crypt E nonce ct) else None.

(** ** store/crypto.go *)

Inductive CryptoError := NewAESCipher | GenerateNonce | ShortCiphertext | GCMOpen.

Definition newGCM (key : string) : result CryptoError (string → string) :=
  match aes_NewCipher key with None => Err NewAESCipher | Some block => Ok block end.

(** [rand.Reader] either gives the 12 nonce bytes or fails. *)
Definition EncryptBytes (rand : option string) (key plaintext : string) : result CryptoError string :=
  gcm ← newGCM key;
  match rand with
  | None => Err GenerateNonce
  | Some nonce => Ok (nonce +:+ Seal gcm nonce plaintext)
  end.

Definition DecryptBytes (key ciphertext : string) : result CryptoError string :=
  gcm ← newGCM key;
  if (slen ciphertext <? NonceSize)%nat then Err ShortCiphertext
  else
    let nonce := str_take NonceSize ciphertext in
    let sealed := str_drop NonceSize ciphertext in
    match Open gcm nonce sealed with None => Err GCMOpen | Some p => Ok p end.

(** ** Round trip *)

Lemma slen_xor_string a b : slen a = slen b → slen (xor_string a b) = slen a.
Proof.
  intros H. apply slen_string_of_bits. apply length_xor_bits; rewrite length_bits_of; lia.
Qed.

Lemma xor_string_cancel a b : slen a = slen b → xor_string (xor_string a b) b = a.
Proof.
  intros H. unfold xor_string. rewrite (bits_of_string_of _ (slen a)).
  - rewrite xor_bits_cancel by (rewrite !length_bits_of; lia). apply string_of_bits_of.
  - apply length_xor_bits; rewrite length_bits_of; lia.
Qed.

(** An AES cipher gives blocks of 16 bytes. *)
Definition block16 (E : string → string) : Prop := ∀ b, slen b = 16%nat → slen (E b) = 16%nat.

Lemma slen_keystream E n nonce c :
  block16 E → slen nonce = 12%nat → slen (keystream E n nonce c) = (16 * n)%nat.
Proof.
  intros HE Hn. revert c. induction n as [|n IH]; intros c; [done|]. cbn [keystream].
  rewrite slen_app, IH, HE by (rewrite slen_app, slen_string_be; lia). lia.
Qed.

Lemma keystream_enough E nonce s :
  block16 E → slen nonce = 12%nat →
  slen s = slen (str_take (slen s) (keystream E ((slen s + 15) / 16) nonce 2)).
Proof.
  intros HE Hn. rewrite slen_take; [done|]. rewrite slen_keystream by done.
  pose proof (Nat.div_mod_eq (slen s + 15) 16). pose proof (Nat.mod_upper_bound (slen s + 15) 16). lia.
Qed.

Lemma slen_ctr E nonce s : block16 E → slen nonce = 12%nat → slen (ctr_crypt E nonce s) = slen s.
Proof. intros. unfold ctr_crypt. apply slen_xor_string. by apply keystream_enough. Qed.

Lemma ctr_involutive E nonce s :
  block16 E → slen nonce = 12%nat → ctr_crypt E nonce (ctr_crypt E nonce s) = s.
Proof.
  intros HE Hn. unfold ctr_crypt at 1. rewrite slen_ctr by done.
  apply xor_string_cancel. by apply keystream_enough.
Qed.

Lemma slen_tag E nonce ct : block16 E → slen nonce = 12%nat → slen (gcm_tag E nonce ct) = 16%nat.
Proof.
  intros HE Hn. unfold gcm_tag. rewrite slen_xor_string; rewrite slen_string_be; [done|].
  symmetry. apply HE. rewrite slen_app, slen_string_be. lia.
Qed.

Lemma Open_Seal E nonce p :
  block16 E → slen nonce = 12%nat → Open E nonce (Seal E nonce p) = Some p.
Proof.
  intros HE Hn. unfold Open, Seal. cbn zeta.
  set (ct := ctr_crypt E nonce p). set (tag := gcm_tag E nonce ct).
  assert (Ht : slen tag = 16%nat) by by apply slen_tag.
  rewrite slen_app, Ht. replace (slen ct + 16 <? 16)%nat with false by (symmetry; apply Nat.ltb_ge; lia).
  replace (slen ct + 16 - 16)%nat with (slen ct) by lia.
  rewrite str_take_app, str_drop_app. fold tag. rewrite String.eqb_refl. unfold ct. f_equal.
  by apply ctr_involutive.
Qed.

(** *** AES blocks have 16 bytes *)

Lemma length_xor_l a b n : length a = n → length b = n → length (xor_l a b) = n.
Proof. intros Ha Hb. unfold xor_l. rewrite length_zip_with. lia. Qed.

Lemma chunks_spec {A} n k (l : list A) :
  length l = (n * k)%nat → length (chunks n k l) = n ∧ Forall (λ c, length c = k) (chunks n k l).
Proof.
  revert l. induction n as [|n IH]; intros l H; [by split|]. cbn [chunks length].
  destruct (IH (drop k l)) as [H1 H2]; [rewrite length_drop; lia|].
  split; [by rewrite H1|]. constructor; [rewrite length_take; lia|done].
Qed.

Lemma concat_length {A} k (ls : list (list A)) :
  Forall (λ c, length c = k) ls → length (concat ls) = (length ls * k)%nat.
Proof. induction 1 as [|c ls Hc _ IH]; [done|]. cbn. rewrite length_app. lia. Qed.

Lemma chunks_forall {A} (P : A → Prop) n k (l : list A) :
  Forall P l → Forall (λ c, Forall P c) (chunks n k l).
Proof.
  revert l. induction n as [|n IH]; intros l H; cbn [chunks]; constructor.
  - by apply Forall_take.
  - by apply IH, Forall_drop.
Qed.

Lemma expand_spec fuel i nk rcon ws :
  (1 ≤ nk ≤ length ws)%nat → Forall (λ w, length w = 4%nat) ws →
  length (expand fuel i nk rcon ws) = (fuel + length ws)%nat ∧
  Forall (λ w, length w = 4%nat) (expand fuel i nk rcon ws).
Proof.
  revert i rcon ws. induction fuel as [|fuel IH]; intros i rcon ws Hnk Hws; [by split|].
  cbn [expand].
  assert (Hn : ∀ k, (k < length ws)%nat → length (nth k ws []) = 4%nat).
  { intros k Hk. rewrite Forall_forall in Hws. apply Hws. by apply list_elem_of_In, nth_In. }
  match goal with |- context [expand fuel (S i) nk ?r (xor_l ?b ?t :: ws)] =>
    set (t0 := t); set (b0 := b); set (r0 := r) end.
  assert (Ht : length t0 = 4%nat).
  { assert (H0 : length (nth 0 ws []) = 4%nat) by (apply Hn; lia).
    unfold t0. destruct (i mod nk =? 0)%nat; [|destruct (_ && _); rewrite ?length_map; done].
    apply length_xor_l; [|done]. rewrite length_map, length_app, length_drop, length_take. lia. }
  destruct (IH (S i) r0 (xor_l b0 t0 :: ws)) as [H1 H2].
  - cbn [length]. lia.
  - constructor; [|done]. apply length_xor_l; [apply Hn; lia|done].
  - split; [rewrite H1; cbn [length]; lia|done].
Qed.

Lemma length_bytes_of s : length (bytes_of s) = slen s.
Proof. induction s as [|c s IH]; [done|]. cbn. by rewrite IH. Qed.

Lemma round_keys_spec key n :
  slen key = (4 * n)%nat → (1 ≤ n)%nat →
  ∃ k ks, round_keys key = k :: ks ∧ ks ≠ [] ∧ Forall (λ k, length k = 16%nat) (k :: ks).
Proof.
  intros Hk Hn. unfold round_keys. rewrite Hk, Nat.mul_comm, Nat.div_mul by lia. cbn zeta.
  destruct (chunks_spec n 4 (bytes_of key)) as [Hc1 Hc2]; [rewrite length_bytes_of; lia|].
  destruct (expand_spec (4 * (n + 7) - n) n n 1 (reverse (chunks n 4 (bytes_of key)))) as [He1 He2].
  { rewrite length_reverse, Hc1. lia. }
  { by apply Forall_reverse. }
  rewrite length_reverse, Hc1 in He1.
  set (ws := reverse (expand _ _ _ _ _)).
  assert (Hw1 : length ws = ((n + 7) * 4)%nat) by (unfold ws; rewrite length_reverse; lia).
  assert (Hw2 : Forall (λ w, length w = 4%nat) ws) by by apply Forall_reverse.
  destruct (chunks_spec (n + 7) 4 ws Hw1) as [Hg1 Hg2].
  pose proof (chunks_forall _ (n + 7) 4 ws Hw2) as Hg3.
  assert (Hall : Forall (λ k, length k = 16%nat) (map (@concat Z) (chunks (n + 7) 4 ws))).
  { apply Forall_map. rewrite Forall_forall in Hg2, Hg3 |- *. intros c Hc. cbn.
    rewrite (concat_length 4); [|by apply Hg3]. rewrite (Hg2 c Hc). done. }
  assert (Hlen : length (map (@concat Z) (chunks (n + 7) 4 ws)) = (n + 7)%nat) by by rewrite length_map.
  destruct (map _ _) as [|k [|k' ks]]; cbn in Hlen; [lia|lia|]. eauto.
Qed.

Lemma length_mix_columns s : length s = 16%nat → length (mix_columns s) = 16%nat.
Proof.
  intros H. do 16 (destruct s as [|? s]; [discriminate H|]). destruct s; [|discriminate H]. reflexivity.
Qed.

Lemma length_aes_rounds keys s :
  keys ≠ [] → Forall (λ k, length k = 16%nat) keys → length (aes_rounds keys s) = 16%nat.
Proof.
  intros Hne Hk. revert s. induction Hk as [|k keys Hk Hks IH]; intros s; [done|].
  destruct keys as [|k' keys]; cbn [aes_rounds]; [by apply length_xor_l|]. by apply IH.
Qed.

Lemma aes_block16 key E : aes_NewCipher key = Some E → block16 E.
Proof.
  unfold aes_NewCipher. intros H. assert (Hk : ∃ n, slen key = (4 * n)%nat ∧ (1 ≤ n)%nat).
  { destruct (slen key =? 16)%nat eqn:E1; [exists 4%nat; apply Nat.eqb_eq in E1; lia|].
    destruct (slen key =? 24)%nat eqn:E2; [exists 6%nat; apply Nat.eqb_eq in E2; lia|].
    destruct (slen key =? 32)%nat eqn:E3; [exists 8%nat; apply Nat.eqb_eq in E3; lia|discriminate H]. }
  assert (E = aes_encrypt key) as -> by (destruct (_ || _); congruence).
  destruct Hk as (n & Hn & H1). intros b Hb. unfold aes_encrypt.
  destruct (round_keys_spec key n Hn H1) as (k & ks & -> & Hne & Hall).
  rewrite slen_string_of_bytes. apply length_aes_rounds; [done|by inversion Hall].
Qed.

(** The published vectors: FIPS 197 C.1 and C.3, GCM test case 2. *)
Example aes128_vector :
  aes_encrypt (string_of_bytes (seqZ 0 16)) (string_of_bytes (map (λ i, i * 17) (seqZ 0 16)))
  = string_be 16 0x69c4e0d86a7b0430d8cdb78070b4c55a.
Proof. vm_compute. reflexivity. Qed.

Example aes256_vector :
  aes_encrypt (string_of_bytes (seqZ 0 32)) (string_of_bytes (map (λ i, i * 17) (seqZ 0 16)))
  = string_be 16 0x8ea2b7ca516745bfeafc49904b496089.
Proof. vm_compute. reflexivity. Qed.

Example gcm_vector :
  Seal (aes_encrypt (zeros 16)) (zeros 12) (zeros 16)
  = string_be 16 0x0388dace60b6a392f328c2b971b2fe78 +:+ string_be 16 0xab6e47d42cec13bdf53a67b21257bddf.
Proof. vm_compute. reflexivity. Qed.

Lemma DecryptBytes_EncryptBytes rand key plaintext ct :
  (∀ nonce, rand = Some nonce → slen nonce = NonceSize) →
  EncryptBytes rand key plaintext = Ok ct → DecryptBytes key ct = Ok plaintext.
Proof.
  intros Hr H. unfold EncryptBytes in H. invert_ok. unfold DecryptBytes. rewrite Hm. bind_step.
  unfold newGCM in Hm. destruct (aes_NewCipher key) as [E|] eqn:HE; [|discriminate]. invert_ok.
  destruct rand as [nonce|]; [|discriminate]. invert_ok. specialize (Hr nonce eq_refl).
  rewrite slen_app, Hr. replace (12 + _ <? NonceSize)%nat with false by (symmetry; apply Nat.ltb_ge; unfold NonceSize; lia).
  rewrite <-Hr, str_take_app, str_drop_app. rewrite Open_Seal; [done| |done]. by eapply aes_block16.
Qed.
