(* ===== verification/KeyStore.v ===== *)
(** * KeyStore: the key_store table and its repository

    [gateway-go/internal/store/keystore.go] over the table of
    [migrations/00004_key_store.sql].  Each repository method is one statement or transaction, so
    it is a function of the table and of [now()].  A NULL owner is the empty string, as
    [nullableOwnerRef] and the statements' [coalesce] make it; the rows are in id order. *)

From S2P Require Import Prelude Digits.
Local Open Scope Z_scope.

(** Instants are nanoseconds since 1970 UTC, durations are nanoseconds. *)
Definition time := Z.
Definition duration := Z.
Definition Millisecond : duration := 1000000.
Definition Second : duration := 1000 * Millisecond.
Definition Minute : duration := 60 * Second.
Definition Hour : duration := 60 * Minute.

Inductive KeyStatus := PENDING | ACTIVE | RETIRED.
#[export] Instance KeyStatus_eq_dec : EqDecision KeyStatus.
Proof. solve_decision. Defined.

Record KeyRow := mkKeyRow {
  k_id : Z; KeyType : string; OwnerRef : string; KeyUnderLMKHex : string; KCV : string;
  k_status : KeyStatus; ActivatedAt : option time; RetiredAt : option time; k_created : time
}.

#[export] Instance KeyRow_eq_dec : EqDecision KeyRow.
Proof. unfold time. solve_decision. Defined.

Record KeyTable := mkKeyTable { rows : list KeyRow; next_key : Z }.

Definition key_types : list string := ["ZMK"; "ZPK"; "ZAK"; "TPK"; "TAK"].

Definition same_pair (kt owner : string) (r : KeyRow) : bool :=
  String.eqb (KeyType r) kt && String.eqb (OwnerRef r) owner.

Definition has_status (s : KeyStatus) (r : KeyRow) : bool :=
  match s, k_status r with
  | PENDING, PENDING | ACTIVE, ACTIVE | RETIRED, RETIRED => true
  | _, _ => false
  end.

(** The unique index uq_acq_active_key. *)
Definition active_of (kt owner : string) (r : KeyRow) : bool :=
  same_pair kt owner r && has_status ACTIVE r.

Definition retire (now : time) (r : KeyRow) : KeyRow :=
  mkKeyRow (k_id r) (KeyType r) (OwnerRef r) (KeyUnderLMKHex r) (KCV r) RETIRED (ActivatedAt r) (Some now) (k_created r).

Definition set_active (now : time) (r : KeyRow) : KeyRow :=
  mkKeyRow (k_id r) (KeyType r) (OwnerRef r) (KeyUnderLMKHex r) (KCV r) ACTIVE (Some now) (RetiredAt r) (k_created r).

(** An UPDATE: the rows the WHERE clause selects are rewritten. *)
Definition update (wh : KeyRow → bool) (f : KeyRow → KeyRow) (t : KeyTable) : KeyTable :=
  mkKeyTable (map (λ r, if wh r then f r else r) (rows t)) (next_key t).

(** ** The repository *)

(** A row violating the key_type check is refused; the sequence gives the id. *)
Definition Insert (now : time) (row : KeyRow) (t : KeyTable) : option (Z * KeyTable) :=
  if existsb (String.eqb (KeyType row)) key_types then
    let id := next_key t in
    Some (id, mkKeyTable (rows t ++ [mkKeyRow id (KeyType row) (OwnerRef row) (KeyUnderLMKHex row) (KCV row)
                                              PENDING None None now]) (id + 1))
  else None.

Definition EnsureActive (now : time) (keyType keyUnderLMKHex kcv : string) (t : KeyTable)
    : option (bool * KeyTable) :=
  if existsb (active_of keyType "") (rows t) then Some (false, t)
  else if existsb (String.eqb keyType) key_types then
    let id := next_key t in
    Some (true, mkKeyTable (rows t ++ [mkKeyRow id keyType "" keyUnderLMKHex kcv ACTIVE (Some now) None now]) (id + 1))
  else None.

(** [None] is pgx.ErrNoRows. *)
Definition ActiveKCV (keyType : string) (t : KeyTable) : option string :=
  KCV <$> List.find (active_of keyType "") (rows t).

Definition Get (id : Z) (t : KeyTable) : option KeyRow :=
  List.find (λ r, k_id r =? id) (rows t).

(** The sub-selects on the row [id]; an unknown id makes them NULL. *)
Definition pair_of (id : Z) (t : KeyTable) (r : KeyRow) : bool :=
  match Get id t with Some k => same_pair (KeyType k) (OwnerRef k) r | None => false end.

(** The three updates of the transaction. *)
Definition Activate (now : time) (id : Z) (t : KeyTable) : KeyTable :=
  let t := update (λ r, has_status ACTIVE r && pair_of id t r) (retire now) t in
  let t := update (λ r, k_id r =? id) (set_active now) t in
  update (λ r, has_status PENDING r && negb (k_id r =? id) && pair_of id t r) (retire now) t.

(** The method is named [List]. *)
Definition List_ (t : KeyTable) : list KeyRow := rows t.

Definition ListCurrent (t : KeyTable) : list KeyRow :=
  List.filter (λ r, has_status ACTIVE r || has_status PENDING r) (rows t).

Definition RetirePending (now : time) (id : Z) (t : KeyTable) : KeyTable :=
  update (λ r, (k_id r =? id) && has_status PENDING r) (retire now) t.

(** [ORDER BY f DESC LIMIT 1]; rows with equal keys are taken in id order. *)
Definition pick_max (f : KeyRow → Z) (l : list KeyRow) : option KeyRow :=
  fold_left (λ best r, match best with
                       | Some b => if f b <? f r then Some r else best
                       | None => Some r end) l None.

Definition recently_retired (now : time) (keyType ownerRef : string) (within : duration) (r : KeyRow) : bool :=
  same_pair keyType ownerRef r && has_status RETIRED r &&
  match ActivatedAt r with Some _ => true | None => false end &&
  match RetiredAt r with Some at_ => now - within <? at_ | None => false end.

Definition FindRecentlyRetired (now : time) (keyType ownerRef : string) (within : duration) (t : KeyTable)
    : option KeyRow :=
  pick_max (λ r, default 0 (RetiredAt r)) (List.filter (recently_retired now keyType ownerRef within) (rows t)).

Definition FindPending (keyType ownerRef : string) (t : KeyTable) : option KeyRow :=
  pick_max k_id (List.filter (λ r, same_pair keyType ownerRef r && has_status PENDING r) (rows t)).

Definition FallbackKeys (now : time) (keyType ownerRef : string) (within : duration) (t : KeyTable)
    : list KeyRow :=
  option_list (FindPending keyType ownerRef t) ++ option_list (FindRecentlyRetired now keyType ownerRef within t).

(** ** The invariant of the table *)

(** A key is dated when it becomes active, and only then. *)
Definition dated (r : KeyRow) : Prop :=
  match k_status r with
  | PENDING => ActivatedAt r = None
  | ACTIVE => ActivatedAt r ≠ None
  | RETIRED => True
  end.

Record table_ok (t : KeyTable) : Prop := {
  ids_unique : NoDup (map k_id (rows t));
  ids_below : Forall (λ r, k_id r < next_key t) (rows t);
  all_dated : Forall dated (rows t);
  one_active : ∀ kt owner, (length (List.filter (active_of kt owner) (rows t)) ≤ 1)%nat
}.

Lemma update_ids wh f t :
  (∀ r, k_id (f r) = k_id r) → map k_id (rows (update wh f t)) = map k_id (rows t).
Proof. intros Hf. cbn. rewrite map_map. apply map_ext. intros r. destruct (wh r); [apply Hf|done]. Qed.

Lemma update_below wh f t n :
  (∀ r, k_id (f r) = k_id r) → Forall (λ r, k_id r < n) (rows t) →
  Forall (λ r, k_id r < n) (rows (update wh f t)).
Proof.
  intros Hf H. cbn. apply Forall_map. eapply Forall_impl; [exact H|]. intros r Hr. cbn.
  destruct (wh r); [by rewrite Hf|done].
Qed.

(** Rows selected after rewriting come from rows selected before. *)
Lemma filter_map_le {A} (p q : A → bool) (f : A → A) l :
  (∀ r, r ∈ l → p (f r) = true → q r = true) →
  (length (List.filter p (map f l)) ≤ length (List.filter q l))%nat.
Proof.
  induction l as [|r l IH]; intros H; [done|]. cbn.
  assert (IH' := IH (λ r Hr, H r (list_elem_of_further _ _ _ Hr))).
  destruct (p (f r)) eqn:E; [rewrite (H r (list_elem_of_here _ _) E); cbn; lia|destruct (q r); cbn; lia].
Qed.

Lemma has_status_retire now s r : has_status s (retire now r) = match s with RETIRED => true | _ => false end.
Proof. by destruct s. Qed.

Lemma retire_ok now wh t : table_ok t → table_ok (update wh (retire now) t).
Proof.
  intros [H1 H2 H4 H3]. split.
  - by rewrite update_ids.
  - by apply update_below.
  - cbn. apply Forall_map. eapply Forall_impl; [exact H4|]. cbn. intros r Hr. by destruct (wh r).
  - intros kt owner. etrans; [|apply (H3 kt owner)]. apply filter_map_le. intros r _.
    destruct (wh r); [|done]. unfold active_of. rewrite has_status_retire.
    by rewrite andb_false_r.
Qed.

(** Appending a row that takes the next id of the sequence. *)
Lemma snoc_ids l r n :
  NoDup (map k_id l) → Forall (λ r, k_id r < n) l → k_id r = n → NoDup (map k_id (l ++ [r])).
Proof.
  intros H1 H2 Hr. rewrite map_app. apply NoDup_app. split_and!; [done| |apply NoDup_singleton].
  intros x (r' & -> & Hr')%list_elem_of_fmap [Hx|[]%not_elem_of_nil]%elem_of_cons.
  rewrite Forall_forall in H2. specialize (H2 r' Hr'). cbn in Hx. lia.
Qed.

Lemma snoc_below l r n :
  Forall (λ r, k_id r < n) l → k_id r = n → Forall (λ r, k_id r < n + 1) (l ++ [r]).
Proof.
  intros H Hr. apply Forall_app. split; [|repeat constructor; lia].
  eapply Forall_impl; [exact H|]. cbn. intros; lia.
Qed.

Lemma Insert_ok now row t id t' : table_ok t → Insert now row t = Some (id, t') → table_ok t'.
Proof.
  unfold Insert. intros [H1 H2 H4 H3] H. case_if in H; [|done]. injection H as <- <-. split; cbn.
  - by eapply snoc_ids.
  - by apply snoc_below.
  - apply Forall_app. by split; [|repeat constructor].
  - intros kt owner. rewrite List.filter_app, length_app. cbn. unfold active_of at 2. cbn.
    rewrite andb_false_r. cbn. specialize (H3 kt owner). lia.
Qed.

Lemma existsb_filter {A} (p : A → bool) l : existsb p l = false → List.filter p l = [].
Proof.
  induction l as [|x l IH]; [done|]. cbn. intros [H1 H2]%orb_false_iff. by rewrite H1, IH.
Qed.

Lemma EnsureActive_ok now kt k kcv t b t' :
  table_ok t → EnsureActive now kt k kcv t = Some (b, t') → table_ok t'.
Proof.
  unfold EnsureActive. intros [H1 H2 H4 H3] H. case_if in H; [by injection H as <- <-|].
  case_if in H; [|done]. injection H as <- <-. split; cbn.
  - by eapply snoc_ids.
  - by apply snoc_below.
  - apply Forall_app. by split; [|repeat constructor].
  - intros kt' owner. rewrite List.filter_app, length_app.
    destruct (active_of kt' owner (mkKeyRow (next_key t) kt "" k kcv ACTIVE (Some now) None now)) eqn:E.
    + unfold active_of, same_pair in E. cbn [KeyType OwnerRef] in E.
      apply andb_true_iff in E as [[->%String.eqb_eq <-%String.eqb_eq]%andb_true_iff _].
      rewrite (existsb_filter _ _ Hb). cbn. destruct (active_of _ _ _); cbn; lia.
    + cbn. rewrite E. cbn. specialize (H3 kt' owner). lia.
Qed.

Lemma id_count (id : Z) (l : list KeyRow) : NoDup (map k_id l) → (length (List.filter (λ r, (k_id r =? id)%Z) l) ≤ 1)%nat.
Proof.
  induction l as [|r l IH]; [cbn; lia|]. cbn [map List.filter]. intros [Hr Hl]%NoDup_cons.
  destruct (k_id r =? id)%Z eqn:E; [|by apply IH]. apply Z.eqb_eq in E as <-. cbn.
  rewrite (existsb_filter _ l); [done|]. apply not_true_is_false.
  intros (r' & Hr' & He%Z.eqb_eq)%existsb_exists. apply Hr. rewrite <-He.
  apply list_elem_of_fmap. exists r'. split; [done|by apply list_elem_of_In].
Qed.

Lemma Get_in id t r : Get id t = Some r → r ∈ rows t ∧ k_id r = id.
Proof. intros [H1 H2%Z.eqb_eq]%find_some. split; [by apply list_elem_of_In|done]. Qed.

Lemma Get_spec id t r : table_ok t → r ∈ rows t → k_id r = id → Get id t = Some r.
Proof.
  intros [H _ _ _]. unfold Get. induction (rows t) as [|r' l IH]; [by intros ?%not_elem_of_nil|].
  cbn in *. apply NoDup_cons in H as [Hn Hl]. intros [->|Hin]%elem_of_cons Hid.
  - by rewrite (proj2 (Z.eqb_eq _ _) Hid).
  - rewrite (proj2 (Z.eqb_neq _ _)); [by apply IH|]. intros Heq. apply Hn. rewrite Heq, <-Hid.
    apply list_elem_of_fmap. by exists r.
Qed.

(** How the transaction rewrites one row. *)
Definition activate_row (now : time) (k r : KeyRow) : KeyRow :=
  if k_id r =? k_id k then set_active now (if has_status ACTIVE r then retire now r else r)
  else if same_pair (KeyType k) (OwnerRef k) r && negb (has_status RETIRED r) then retire now r else r.

Lemma Get_update id wh f t :
  (∀ r, k_id (f r) = k_id r) → Get id (update wh f t) = (λ r, if wh r then f r else r) <$> Get id t.
Proof.
  intros Hf. unfold Get, update. cbn. induction (rows t) as [|r l IH]; [done|]. cbn.
  replace (k_id (if wh r then f r else r)) with (k_id r) by (destruct (wh r); [by rewrite Hf|done]).
  destruct (k_id r =? id); [done|]. apply IH.
Qed.

Lemma same_pair_refl r : same_pair (KeyType r) (OwnerRef r) r = true.
Proof. unfold same_pair. by rewrite !String.eqb_refl. Qed.

Lemma pair_of_update id wh f t r :
  (∀ r, k_id (f r) = k_id r ∧ KeyType (f r) = KeyType r ∧ OwnerRef (f r) = OwnerRef r) →
  pair_of id (update wh f t) r = pair_of id t r.
Proof.
  intros Hf. unfold pair_of. rewrite Get_update by apply Hf. destruct (Get id t) as [k|]; [|done]. cbn.
  destruct (wh k); [|done]. destruct (Hf k) as (_ & -> & ->). done.
Qed.

Lemma Activate_rows now id t k :
  table_ok t → Get id t = Some k →
  Activate now id t = mkKeyTable (map (activate_row now k) (rows t)) (next_key t).
Proof.
  intros Hok Hk. pose proof (Get_in _ _ _ Hk) as [Hin Hid]. unfold Activate. cbn zeta.
  unfold update at 1. cbn [next_key]. f_equal.
  transitivity (map (λ r, if has_status PENDING r && negb (k_id r =? id) && pair_of id t r then retire now r else r)
    (rows (update (λ r, k_id r =? id) (set_active now)
      (update (λ r, has_status ACTIVE r && pair_of id t r) (retire now) t)))).
  { apply map_ext. intros r. by rewrite !pair_of_update. }
  unfold update. cbn [rows]. rewrite !map_map. apply map_ext_in. intros r Hr.
  unfold pair_of. rewrite Hk. unfold activate_row. subst id.
  destruct (decide (k_id r = k_id k)) as [He|He].
  - assert (r = k) as ->.
    { pose proof (Get_spec (k_id k) t r Hok (proj2 (list_elem_of_In _ _) Hr) He). congruence. }
    rewrite same_pair_refl, Z.eqb_refl. unfold has_status.
    destruct (k_status k) eqn:Es; cbn -[same_pair]; rewrite ?Z.eqb_refl; cbn -[same_pair];
      rewrite ?Z.eqb_refl, ?Es; done.
  - rewrite (proj2 (Z.eqb_neq _ _) He). unfold has_status.
    assert (Hsp : same_pair (KeyType k) (OwnerRef k) (retire now r) = same_pair (KeyType k) (OwnerRef k) r) by done.
    destruct (same_pair (KeyType k) (OwnerRef k) r) eqn:Ep, (k_status r) eqn:Es; cbn -[same_pair];
      rewrite ?(proj2 (Z.eqb_neq _ _) He), ?Es, ?Hsp, ?Ep; cbn -[same_pair];
      rewrite ?(proj2 (Z.eqb_neq _ _) He), ?Es, ?Hsp, ?Ep; done.
Qed.

Lemma Activate_unknown now id t : Get id t = None → Activate now id t = t.
Proof.
  intros Hn. unfold Activate. cbn zeta.
  assert (Hu : ∀ wh f, (∀ r, r ∈ rows t → wh r = false) → update wh f t = t).
  { intros wh f H. destruct t as [l n]. unfold update. cbn in *. f_equal. rewrite <-(map_id l) at 2.
    apply map_ext_in. intros r Hr. by rewrite H by by apply list_elem_of_In. }
  assert (Hp : ∀ r, pair_of id t r = false) by (intros r; unfold pair_of; by rewrite Hn).
  rewrite (Hu (λ r, has_status ACTIVE r && pair_of id t r)) by (intros; by rewrite Hp, andb_false_r).
  rewrite (Hu (λ r, k_id r =? id)) by (intros r Hr; by apply (find_none _ _ Hn), list_elem_of_In).
  apply Hu. intros. by rewrite Hp, andb_false_r.
Qed.

Lemma Activate_ok now id t : table_ok t → table_ok (Activate now id t).
Proof.
  intros Hok. destruct (Get id t) as [k|] eqn:Hk; [|by rewrite Activate_unknown].
  rewrite (Activate_rows now id t k) by done. pose proof Hok as [H1 H2 H4 H3].
  assert (Hid : ∀ r, k_id (activate_row now k r) = k_id r).
  { intros r. unfold activate_row. repeat case_if; done. }
  split; cbn [rows next_key].
  - rewrite map_map. erewrite map_ext; [exact H1|]. done.
  - apply Forall_map. eapply Forall_impl; [exact H2|]. cbn. intros r. by rewrite Hid.
  - apply Forall_map. eapply Forall_impl; [exact H4|]. intros r Hr. unfold activate_row. by repeat case_if.
  - intros kt owner. destruct (same_pair kt owner k) eqn:Ek.
    + (* the pair of the activated key: only that row can be active *)
      etrans; [|apply (id_count (k_id k) (rows t) H1)]. apply filter_map_le. intros r _.
      unfold activate_row. destruct (k_id r =? k_id k)%Z; [done|].
      unfold same_pair in Ek. apply andb_true_iff in Ek as [->%String.eqb_eq ->%String.eqb_eq].
      unfold active_of, has_status. repeat case_if; cbn; rewrite ?andb_false_r; try done.
      intros [Hs Ha]%andb_true_iff. rewrite Hs in Hb. cbn in Hb. destruct (k_status r); done.
    + etrans; [|apply (H3 kt owner)]. apply filter_map_le. intros r Hr.
      unfold activate_row. destruct (k_id r =? k_id k)%Z eqn:E.
      * assert (r = k) as ->.
        { pose proof (Get_in _ _ _ Hk) as [_ <-]. apply Z.eqb_eq in E.
          pose proof (Get_spec (k_id k) t r Hok Hr E). congruence. }
        unfold active_of.
        assert (same_pair kt owner (set_active now (if has_status ACTIVE k then retire now k else k)) = false) as ->.
        { by case_if. } done.
      * case_if; [|done]. unfold active_of. cbn. by rewrite andb_false_r.
Qed.

(** ** Histories of the table *)

Inductive key_op :=
  | OpInsert (row : KeyRow)
  | OpEnsureActive (kt k kcv : string)
  | OpActivate (id : Z)
  | OpRetirePending (id : Z).

(** A refused statement changes nothing. *)
Definition apply_op (t : KeyTable) (at_op : time * key_op) : KeyTable :=
  let '(now, op) := at_op in
  match op with
  | OpInsert row => match Insert now row t with Some (_, t') => t' | None => t end
  | OpEnsureActive kt k kcv => match EnsureActive now kt k kcv t with Some (_, t') => t' | None => t end
  | OpActivate id => Activate now id t
  | OpRetirePending id => RetirePending now id t
  end.

Lemma apply_op_ok t o : table_ok t → table_ok (apply_op t o).
Proof.
  destruct o as [now []]; intros H; cbn [apply_op].
  - destruct (Insert now row t) as [[id t']|] eqn:E; [by eapply Insert_ok|done].
  - destruct (EnsureActive now kt k kcv t) as [[b t']|] eqn:E; [by eapply EnsureActive_ok|done].
  - by apply Activate_ok.
  - by apply retire_ok.
Qed.

Definition empty_table : KeyTable := mkKeyTable [] 1.

Lemma empty_ok : table_ok empty_table.
Proof. split; cbn; [constructor|constructor|constructor|lia]. Qed.

Lemma history_ok ops t : table_ok t → table_ok (fold_left apply_op ops t).
Proof. revert t. induction ops as [|o ops IH]; intros t H; [done|]. apply IH. by apply apply_op_ok. Qed.

(** C39. Whatever the repository's methods are called with and in whatever order, ids stay unique
    and no (key type, owner) pair ever has two ACTIVE keys: the partial unique index is never hit. *)
Theorem at_most_one_active ops kt owner :
  let t := fold_left apply_op ops empty_table in
  NoDup (map k_id (rows t)) ∧ (length (List.filter (active_of kt owner) (rows t)) ≤ 1)%nat.
Proof. intros t. destruct (history_ok ops empty_table empty_ok) as [H1 _ _ H2]. by split. Qed.

(** ** ORDER BY ... DESC LIMIT 1 *)

Lemma pick_max_from (f : KeyRow → Z) l b :
  ∃ r, fold_left (λ best r, match best with
                       | Some b => if f b <? f r then Some r else best
                       | None => Some r end) l (Some b) = Some r ∧
       (r = b ∨ r ∈ l) ∧ f b ≤ f r ∧ ∀ r', r' ∈ l → f r' ≤ f r.
Proof.
  revert b. induction l as [|x l IH]; intros b.
  - exists b. split; [done|]. split; [by left|]. split; [lia|]. by intros r ?%not_elem_of_nil.
  - cbn [fold_left]. case_if.
    + destruct (IH x) as (r & -> & Hr & Hx & Hall). apply Z.ltb_lt in Hb. exists r. split; [done|].
      split; [right; destruct Hr; set_solver|]. split; [lia|]. intros r' [->|Hr']%elem_of_cons; [done|by apply Hall].
    + destruct (IH b) as (r & -> & Hr & Hx & Hall). apply Z.ltb_ge in Hb. exists r. split; [done|].
      split; [destruct Hr; [by left|right; set_solver]|]. split; [done|].
      intros r' [->|Hr']%elem_of_cons; [lia|by apply Hall].
Qed.

Lemma pick_max_spec (f : KeyRow → Z) l :
  match pick_max f l with
  | Some r => r ∈ l ∧ ∀ r', r' ∈ l → f r' ≤ f r
  | None => l = []
  end.
Proof.
  destruct l as [|x l]; [done|]. unfold pick_max. cbn [fold_left].
  destruct (pick_max_from f l x) as (r & -> & Hr & Hx & Hall). split; [set_solver|].
  intros r' [->|Hr']%elem_of_cons; [done|by apply Hall].
Qed.

Lemma pick_max_unique (f : KeyRow → Z) l r :
  r ∈ l → (∀ r', r' ∈ l → r' ≠ r → f r' < f r) → pick_max f l = Some r.
Proof.
  intros Hr Hall. pose proof (pick_max_spec f l) as H. destruct (pick_max f l) as [m|].
  - destruct H as [Hm Hmax]. f_equal. specialize (Hmax r Hr).
    destruct (decide (f m < f r)) as [|]; [lia|].
    apply dec_stable. intros Hne. specialize (Hall m Hm Hne). lia.
  - subst l. by apply not_elem_of_nil in Hr.
Qed.

(** ** The dual-key window of a rotation *)

Lemma find_in {A} (p : A → bool) l x : List.find p l = Some x → x ∈ l ∧ p x = true.
Proof. intros [H1 H2]%find_some. split; [by apply list_elem_of_In|done]. Qed.

Lemma filter_nil_iff {A} (p : A → bool) l : (∀ x, x ∈ l → p x = false) → List.filter p l = [].
Proof.
  intros H. apply existsb_filter. apply not_true_is_false. intros (x & Hx & Hp)%existsb_exists.
  rewrite H in Hp; [done|by apply list_elem_of_In].
Qed.

Lemma activated_pair_status now k r :
  same_pair (KeyType k) (OwnerRef k) r = true → k_id r ≠ k_id k →
  k_status (activate_row now k r) = RETIRED.
Proof.
  intros Hp Hid. unfold activate_row. rewrite (proj2 (Z.eqb_neq _ _) Hid), Hp. cbn.
  unfold has_status. by destruct (k_status r) eqn:E.
Qed.

(** The candidate the grace window looks for. *)
Lemma window_candidates now now' within t k o :
  table_ok t → Get (k_id k) t = Some k → o ∈ rows t → k_id o ≠ k_id k →
  same_pair (KeyType k) (OwnerRef k) o = true → k_status o = ACTIVE →
  (∀ r at_, r ∈ rows t → RetiredAt r = Some at_ → at_ < now) →
  now - within < now → now ≤ now' →
  FindRecentlyRetired now' (KeyType k) (OwnerRef k) within (Activate now (k_id k) t)
  = if now' - within <? now then Some (retire now o) else None.
Proof.
  intros Hok Hk Ho Hne Hp Hact Hpast Hw Hnow. unfold FindRecentlyRetired.
  rewrite (Activate_rows now _ t k) by done. cbn [rows].
  assert (Hro : activate_row now k o = retire now o).
  { unfold activate_row. rewrite (proj2 (Z.eqb_neq _ _) Hne), Hp. unfold has_status. by rewrite Hact. }
  assert (Hother : ∀ r, r ∈ rows t → r ≠ o →
            recently_retired now' (KeyType k) (OwnerRef k) within (activate_row now k r) = true →
            default 0 (RetiredAt (activate_row now k r)) < now ∧
            now' - within < now).
  { intros r Hr Hro' Hrec. unfold recently_retired in Hrec.
    apply andb_true_iff in Hrec as [Hrec Hat]. apply andb_true_iff in Hrec as [Hrec Hdate].
    apply andb_true_iff in Hrec as [Hsp Hst].
    unfold activate_row in *. destruct (k_id r =? k_id k); [by case_if in Hst|].
    pose proof (all_dated _ Hok) as Hd. rewrite Forall_forall in Hd. specialize (Hd r Hr). unfold dated in Hd.
    destruct (same_pair (KeyType k) (OwnerRef k) r) eqn:Er; cbn -[Z.sub] in *.
    - unfold has_status in *. destruct (k_status r) eqn:Es; cbn -[Z.sub] in *.
      + by rewrite Hd in Hdate.
      + exfalso. apply Hro'. pose proof (one_active _ Hok (KeyType k) (OwnerRef k)) as H1.
        assert (Hact_o : active_of (KeyType k) (OwnerRef k) o = true)
          by (unfold active_of, has_status; by rewrite Hp, Hact).
        assert (Hact_r : active_of (KeyType k) (OwnerRef k) r = true)
          by (unfold active_of, has_status; by rewrite Er, Es).
        assert (o ∈ List.filter (active_of (KeyType k) (OwnerRef k)) (rows t)) as H2
          by (apply list_elem_of_In, filter_In; split; [by apply list_elem_of_In|done]).
        assert (r ∈ List.filter (active_of (KeyType k) (OwnerRef k)) (rows t)) as H3
          by (apply list_elem_of_In, filter_In; split; [by apply list_elem_of_In|done]).
        destruct (List.filter _ _) as [|x [|y l]]; cbn in H1; [by apply not_elem_of_nil in H2| |lia].
        apply list_elem_of_singleton in H2, H3. congruence.
      + destruct (RetiredAt r) as [at_|] eqn:Eat; [|done]. cbn. pose proof (Hpast r at_ Hr Eat).
        apply Z.ltb_lt in Hat. lia.
    - by rewrite Er in Hsp. }
  assert (Hrec_o : recently_retired now' (KeyType k) (OwnerRef k) within (retire now o) = (now' - within <? now)).
  { unfold recently_retired.
    change (same_pair (KeyType k) (OwnerRef k) (retire now o)) with (same_pair (KeyType k) (OwnerRef k) o).
    rewrite Hp. cbn -[Z.sub]. pose proof (all_dated _ Hok) as Hd. rewrite Forall_forall in Hd. specialize (Hd o Ho).
    unfold dated in Hd. rewrite Hact in Hd. by destruct (ActivatedAt o). }
  destruct (now' - within <? now) eqn:E.
  - apply pick_max_unique.
    + apply list_elem_of_In, filter_In. split; [|done]. apply list_elem_of_In. rewrite <-Hro.
      by apply list_elem_of_fmap_2.
    + intros r' Hr'%list_elem_of_In%filter_In Hne'. destruct Hr' as [Hr' Hrec].
      apply list_elem_of_In, list_elem_of_fmap in Hr' as (r & -> & Hr).
      apply (Hother r); [done| |done]. intros ->. by rewrite Hro in Hne'.
  - rewrite filter_nil_iff; [done|]. intros r' (r & -> & Hr)%list_elem_of_fmap.
    destruct (decide (r = o)) as [->|Hr'].
    + by rewrite Hro, Hrec_o.
    + apply not_true_is_false. intros Hrec. destruct (Hother r Hr Hr' Hrec) as [_ Hlt].
      apply Z.ltb_ge in E. lia.
Qed.

Lemma no_pending_left now k t :
  table_ok t → Get (k_id k) t = Some k →
  FindPending (KeyType k) (OwnerRef k) (Activate now (k_id k) t) = None.
Proof.
  intros Hok Hk. unfold FindPending. rewrite (Activate_rows now _ t k) by done. cbn [rows].
  rewrite filter_nil_iff; [done|]. intros r' (r & -> & Hr)%list_elem_of_fmap.
  apply not_true_is_false. intros [Hsp Hst]%andb_true_iff.
  unfold activate_row in *. destruct (k_id r =? k_id k); [done|].
  unfold has_status in *. destruct (same_pair (KeyType k) (OwnerRef k) r) eqn:Er; cbn in Hst, Hsp.
  - destruct (k_status r) eqn:Es; cbn in Hst; try done; by rewrite Es in Hst.
  - by rewrite Er in Hsp.
Qed.

(** Rotation of a key: activating a PENDING key while another key of the pair is ACTIVE makes
    it the only ACTIVE key, retires the old one and every other PENDING key of the pair, leaves the
    other pairs alone, and from then on the MAC fallback offers exactly the old key, until the
    window has elapsed since the rotation, and nothing afterwards. *)
Theorem Activate_dual_key now now' within t k o :
  table_ok t → k ∈ rows t → k_status k = PENDING → o ∈ rows t → k_status o = ACTIVE →
  same_pair (KeyType k) (OwnerRef k) o = true →
  (∀ r at_, r ∈ rows t → RetiredAt r = Some at_ → at_ < now) → 0 < within → now ≤ now' →
  let t' := Activate now (k_id k) t in
  List.filter (active_of (KeyType k) (OwnerRef k)) (rows t') = [set_active now k] ∧
  (∀ r, r ∈ rows t → same_pair (KeyType k) (OwnerRef k) r = false → r ∈ rows t') ∧
  FallbackKeys now' (KeyType k) (OwnerRef k) within t'
  = if now' - within <? now then [retire now o] else [].
Proof.
  intros Hok Hk Hpend Ho Hact Hp Hpast Hw Hnow t'.
  assert (Hg : Get (k_id k) t = Some k) by by apply Get_spec.
  assert (Hne : k_id o ≠ k_id k).
  { intros He. pose proof (Get_spec _ t o Hok Ho He). congruence. }
  split; [|split].
  - pose proof (Activate_ok now (k_id k) t Hok) as Hok'. fold t' in Hok'.
    pose proof (one_active _ Hok' (KeyType k) (OwnerRef k)) as H1.
    assert (Hin : set_active now k ∈ List.filter (active_of (KeyType k) (OwnerRef k)) (rows t')).
    { apply list_elem_of_In, filter_In. split.
      - apply list_elem_of_In. unfold t'. rewrite (Activate_rows now _ t k) by done. cbn [rows].
        apply list_elem_of_fmap. exists k. split; [|done]. unfold activate_row.
        rewrite Z.eqb_refl. unfold has_status. by rewrite Hpend.
      - unfold active_of. change (same_pair (KeyType k) (OwnerRef k) k && true = true).
        by rewrite same_pair_refl. }
    destruct (List.filter _ _) as [|x [|y l]]; cbn in H1; [by apply not_elem_of_nil in Hin| |lia].
    by apply list_elem_of_singleton in Hin as ->.
  - intros r Hr Hp'. unfold t'. rewrite (Activate_rows now _ t k) by done. cbn [rows].
    apply list_elem_of_fmap. exists r. split; [|done]. unfold activate_row. rewrite Hp'.
    destruct (k_id r =? k_id k) eqn:E; [|done]. apply Z.eqb_eq in E.
    pose proof (Get_spec _ t r Hok Hr E) as Hgr. rewrite Hg in Hgr. injection Hgr as ->.
    by rewrite same_pair_refl in Hp'.
  - unfold FallbackKeys. unfold t'. rewrite no_pending_left by done.
    rewrite (window_candidates now now' within t k o); try done; [|lia]. by case_if.
Qed.

Definition demo_table : KeyTable :=
  mkKeyTable [mkKeyRow 1 "ZAK" "" "AA" "111111" ACTIVE (Some 5) None 5;
              mkKeyRow 2 "ZPK" "" "BB" "222222" ACTIVE (Some 6) None 6;
              mkKeyRow 3 "ZAK" "" "CC" "333333" PENDING None None 7] 4.

Lemma demo_table_ok : table_ok demo_table.
Proof.
  change demo_table with (fold_left apply_op
    [(5, OpEnsureActive "ZAK" "AA" "111111"); (6, OpEnsureActive "ZPK" "BB" "222222");
     (7, OpInsert (mkKeyRow 0 "ZAK" "" "CC" "333333" PENDING None None 0))] empty_table).
  apply history_ok, empty_ok.
Qed.

Lemma Activate_dual_key_witness :
  let t' := Activate 100 3 demo_table in
  List.filter (active_of "ZAK" "") (rows t') = [set_active 100 (mkKeyRow 3 "ZAK" "" "CC" "333333" PENDING None None 7)] ∧
  (∀ r, r ∈ rows demo_table → same_pair "ZAK" "" r = false → r ∈ rows t') ∧
  FallbackKeys 200 "ZAK" "" (5 * Minute) t'
  = if 200 - 5 * Minute <? 100 then [retire 100 (mkKeyRow 1 "ZAK" "" "AA" "111111" ACTIVE (Some 5) None 5)] else [].
Proof.
  apply (Activate_dual_key 100 200 (5 * Minute) demo_table
           (mkKeyRow 3 "ZAK" "" "CC" "333333" PENDING None None 7)
           (mkKeyRow 1 "ZAK" "" "AA" "111111" ACTIVE (Some 5) None 5)); try done.
  - apply demo_table_ok.
  - by do 2 right; left.
  - by left.
  - intros r at_ Hr Hat. unfold demo_table in Hr. cbn in Hr.
    repeat (apply elem_of_cons in Hr as [->|Hr]; [done|]). by apply not_elem_of_nil in Hr.
Defined.
