(* ===== verification/Mac.v ===== *)
(** * Mac: the HSM simulator, message authentication and its verification

    [gateway-go/internal/hsm/jce.go] and [module.go], [purchase/mac.go] and the [attachMAC] of
    [purchase/service.go] and [advtxn/service.go].  The HSM is used through the interface
    [Module_]; [JCEModule] is its implementation over the ciphers of Des and Aes. *)

From S2P Require Import Prelude Digits Fields Codec CodecSort CodecCorrect CodecBounds Mux Des Aes KeyStore.
Local Open Scope Z_scope.

(** ** encoding/hex and strings.EqualFold *)

Fixpoint EncodeToString (s : string) : string :=
  match s with
  | "" => ""
  | String c s =>
      String (digit_char (Z_of_ascii c / 16)) (String (digit_char (Z_of_ascii c mod 16)) (EncodeToString s))
  end.

Definition is_hex (c : ascii) : bool := is_hex_upper (upper_char c).

(** An odd length and a byte that is no hex digit are its two errors. *)
Fixpoint DecodeString (s : string) : option string :=
  match s with
  | "" => Some ""
  | String a (String b s) =>
      if is_hex a && is_hex b then
        rest ← DecodeString s;
        Some (String (ascii_of_Z (16 * digit_val (upper_char a) + digit_val (upper_char b))) rest)
      else None
  | String _ "" => None
  end.

(** Compared with a string of hex digits, only ASCII letters can fold. *)
Definition EqualFold (a b : string) : bool := String.eqb (ToUpper a) (ToUpper b).

(** ** hsm/jce.go *)

Inductive HsmError :=
  | LMKRequired | LMKNotHex
  | CryptoErr (e : CryptoError)
  | KCVError
  | ZAKLength (n : nat)
  | MACPanic                    (* the slice expression on an empty message *)
  | DesKeyLength (n : nat) | BlockLength (n : nat)
  | DecryptUnderTPK (e : HsmError) | EncryptUnderZPK (e : HsmError).

(** [hsm.Module].  Wrapping draws a nonce: its bytes, or the failure of the random source. *)
Class Module_ := {
  WrapUnderLMK : option string → string → result HsmError string;
  Unwrap : string → result HsmError string;
  ComputeKCV : string → result HsmError string;
  ComputeMAC : string → string → result HsmError string;
  TranslatePIN : string → string → string → result HsmError string
}.

Definition map_err {E F A} (f : E → F) (r : result E A) : result F A :=
  match r with Ok a => Ok a | Err e => Err (f e) end.

Definition NewJCEModule (lmkHex : string) : result HsmError string :=
  if String.eqb lmkHex "" then Err LMKRequired
  else match DecodeString lmkHex with None => Err LMKNotHex | Some lmk => Ok lmk end.

Definition jce_WrapUnderLMK (lmk : string) (rand : option string) (clearKey : string) : result HsmError string :=
  map_err CryptoErr (EncryptBytes rand lmk clearKey).

Definition jce_Unwrap (lmk keyUnderLMK : string) : result HsmError string :=
  map_err CryptoErr (DecryptBytes lmk keyUnderLMK).

Definition jce_ComputeKCV (clearKey : string) : result HsmError string :=
  match aes_NewCipher clearKey with
  | None => Err KCVError
  | Some block => Ok (ToUpper (EncodeToString (str_take 3 (block (zeros 16)))))
  end.

Definition zero_byte : ascii := ascii_of_Z 0.

(** [for len(padded)%blockSize != 0 { padded = append(padded, 0) }] *)
Fixpoint zeroPad_loop (fuel : nat) (padded : string) (blockSize : nat) : string :=
  match fuel with
  | O => padded
  | S fuel => if (slen padded mod blockSize =? 0)%nat then padded
              else zeroPad_loop fuel (padded +:+ String zero_byte "") blockSize
  end.

Definition zeroPad (data : string) (blockSize : nat) : string :=
  if (slen data mod blockSize =? 0)%nat then data else zeroPad_loop blockSize data blockSize.

Definition jce_ComputeMAC (packed zak : string) : result HsmError string :=
  if negb (slen zak =? 16)%nat then Err (ZAKLength (slen zak))
  else
    let k1 := str_slice 0 8 zak in
    let k2 := str_slice 8 16 zak in
    match des_NewCipher k1, des_NewCipher k2 with
    | Some block1, Some block2 =>
        let padded := zeroPad packed 8 in
        let encrypted := cbc_encrypt block1 (slen padded / 8) (zeros 8) padded in
        if (slen encrypted <? 8)%nat then Err MACPanic
        else
          let lastBlock := str_drop (slen encrypted - 8) encrypted in
          let intermediate := Decrypt block2 lastBlock in
          Ok (Encrypt block1 intermediate)
    | _, _ => Err (DesKeyLength 8)
    end.

Definition desCipher (key : string) : result HsmError Block :=
  match slen key with
  | 8%nat => match des_NewCipher key with Some c => Ok c | None => Err (DesKeyLength (slen key)) end
  | 16%nat =>
      match des_NewTripleDESCipher (key +:+ str_slice 0 8 key) with
      | Some c => Ok c | None => Err (DesKeyLength (slen key)) end
  | 24%nat => match des_NewTripleDESCipher key with Some c => Ok c | None => Err (DesKeyLength (slen key)) end
  | n => Err (DesKeyLength n)
  end.

Definition desECBDecryptBlock (key block : string) : result HsmError string :=
  c ← desCipher key;
  if negb (slen block =? 8)%nat then Err (BlockLength (slen block)) else Ok (Decrypt c block).

Definition desECBEncryptBlock (key block : string) : result HsmError string :=
  c ← desCipher key;
  if negb (slen block =? 8)%nat then Err (BlockLength (slen block)) else Ok (Encrypt c block).

Definition jce_TranslatePIN (pinBlockUnderTPK tpk zpk : string) : result HsmError string :=
  clearPINBlock ← map_err DecryptUnderTPK (desECBDecryptBlock tpk pinBlockUnderTPK);
  map_err EncryptUnderZPK (desECBEncryptBlock zpk clearPINBlock).

Definition JCEModule (lmk : string) : Module_ := {|
  WrapUnderLMK := jce_WrapUnderLMK lmk;
  Unwrap := jce_Unwrap lmk;
  ComputeKCV := jce_ComputeKCV;
  ComputeMAC := jce_ComputeMAC;
  TranslatePIN := jce_TranslatePIN
|}.

(** ** purchase/mac.go *)

Definition dualKeyWindow : duration := 5 * Minute.

(** What the key store passed to [NewMACVerifier] is: nothing, a [RetiredKeyFinder] only, or a
    [FallbackKeyFinder] too.  [None] is a database error. *)
Inductive KeyFinder :=
  | NoKeyStore
  | RetiredFinder (FindRecentlyRetired : string → string → duration → option (option KeyRow))
  | FallbackFinder (FallbackKeys : string → string → duration → option (list KeyRow)).

Record MACVerifier := NewMACVerifier { zakSource : string; keyStore : KeyFinder }.

Definition macFieldOf (fields : fieldmap) : option (string * Z) :=
  match fields !! 64 with
  | Some val => Some (val, 64)
  | None => match fields !! 128 with
            | Some val => Some (val, 128)
            | None => None
            end
  end.

Section verifier.
Context {H : Module_}.

Definition macMatches (packed macHex zak : string) : bool :=
  match ComputeMAC packed zak with
  | Err _ => false
  | Ok expected => EqualFold macHex (EncodeToString expected)
  end.

Definition fallbackZAKs (v : MACVerifier) : list KeyRow :=
  match keyStore v with
  | NoKeyStore => []
  | FallbackFinder find => default [] (find "ZAK" "" dualKeyWindow)
  | RetiredFinder find =>
      match find "ZAK" "" dualKeyWindow with Some (Some retired) => [retired] | _ => [] end
  end.

(** The loop over the fallback keys, [continue] on a key that does not decode or unwrap. *)
Fixpoint macMatchesAny (keys : list KeyRow) (packed macHex : string) : bool :=
  match keys with
  | [] => false
  | key :: keys =>
      match DecodeString (KeyUnderLMKHex key) with
      | None => macMatchesAny keys packed macHex
      | Some keyUnderLMK =>
          match Unwrap keyUnderLMK with
          | Err _ => macMatchesAny keys packed macHex
          | Ok zak => if macMatches packed macHex zak then true else macMatchesAny keys packed macHex
          end
      end
  end.

Definition macMatchesRecentlyRetiredZAK (v : MACVerifier) (packed macHex : string) : bool :=
  macMatchesAny (fallbackZAKs v) packed macHex.

Definition Verify (v : MACVerifier) (mti : string) (resp : fieldmap) : bool :=
  match macFieldOf resp with
  | None => false
  | Some (macHex, macField) =>
      let respWithoutMAC := delete macField resp in
      match Pack mti respWithoutMAC with
      | Err _ => false
      | Ok packed =>
          if macMatches packed macHex (zakSource v) then true
          else macMatchesRecentlyRetiredZAK v packed macHex
      end
  end.

(** ** attachMAC (purchase/service.go, advtxn/service.go) *)

Inductive AttachError := PackForMAC (e : CodecError) | ComputeMACError (e : HsmError).

Definition attachMAC (zak mti : string) (fields : fieldmap) : result AttachError fieldmap :=
  packed ← map_err PackForMAC (Pack mti fields);
  mac ← map_err ComputeMACError (ComputeMAC packed zak);
  Ok (<[64 := ToUpper (EncodeToString mac)]> fields).

(** *** Verification accepts exactly the MACs of the keys in force *)

(** The key a fallback row holds. *)
Definition clear_key (row : KeyRow) : option string :=
  c ← DecodeString (KeyUnderLMKHex row);
  match Unwrap c with Ok z => Some z | Err _ => None end.

Lemma macMatchesAny_true keys packed macHex :
  macMatchesAny keys packed macHex = true ↔
  ∃ row zak, row ∈ keys ∧ clear_key row = Some zak ∧ macMatches packed macHex zak = true.
Proof.
  induction keys as [|row keys IH]; cbn [macMatchesAny].
  { split; [done|]. by intros (row & zak & ?%not_elem_of_nil & _). }
  assert (Htail : macMatchesAny keys packed macHex = true →
    ∃ row' zak, row' ∈ row :: keys ∧ clear_key row' = Some zak ∧ macMatches packed macHex zak = true).
  { intros (row' & zak & ? & ?)%IH. exists row', zak. split; [by right|done]. }
  assert (Hsplit : ∀ row' zak, row' ∈ row :: keys → clear_key row' = Some zak →
    macMatches packed macHex zak = true → (clear_key row = Some zak) ∨ macMatchesAny keys packed macHex = true).
  { intros row' zak [->|Hin]%elem_of_cons Hc Hm; [by left|]. right. apply IH. by exists row', zak. }
  unfold clear_key in *. destruct (DecodeString (KeyUnderLMKHex row)) as [c|] eqn:Ed; cbn in Hsplit |- *;
    [destruct (Unwrap c) as [z|] eqn:Eu|].
  - case_if.
    + split; [intros _|done]. exists row, z. split; [by left|]. by rewrite Ed; cbn; rewrite Eu.
    + split; [done|]. intros (row' & zak & H1 & H2 & H3).
      destruct (Hsplit row' zak H1 H2 H3) as [[= <-]|?]; [congruence|done].
  - split; [done|]. intros (row' & zak & H1 & H2 & H3). by destruct (Hsplit row' zak H1 H2 H3).
  - split; [done|]. intros (row' & zak & H1 & H2 & H3). by destruct (Hsplit row' zak H1 H2 H3).
Qed.

Definition mac_hex_of (packed zak macHex : string) : Prop :=
  ∃ mac, ComputeMAC packed zak = Ok mac ∧ EqualFold macHex (EncodeToString mac) = true.

Lemma macMatches_true packed macHex zak : macMatches packed macHex zak = true ↔ mac_hex_of packed zak macHex.
Proof.
  unfold macMatches, mac_hex_of. destruct (ComputeMAC packed zak) as [mac|e]; split.
  - by exists mac.
  - by intros (? & [= <-] & ?).
  - done.
  - by intros (? & ? & _).
Qed.

Lemma Verify_true v mti resp :
  Verify v mti resp = true ↔
  ∃ macHex macField packed,
    macFieldOf resp = Some (macHex, macField) ∧ Pack mti (delete macField resp) = Ok packed ∧
    (mac_hex_of packed (zakSource v) macHex ∨
     ∃ row zak, row ∈ fallbackZAKs v ∧ clear_key row = Some zak ∧ mac_hex_of packed zak macHex).
Proof.
  unfold Verify. destruct (macFieldOf resp) as [[macHex macField]|]; [|split; [done|by intros (? & ? & ? & ? & _)]].
  destruct (Pack mti (delete macField resp)) as [packed|e] eqn:Ep.
  2: { split; [done|]. by intros (? & ? & ? & [= <- <-] & Hp & _); rewrite Ep in Hp. }
  transitivity (macMatches packed macHex (zakSource v) = true ∨ macMatchesRecentlyRetiredZAK v packed macHex = true).
  { case_if; [tauto|]. naive_solver. }
  unfold macMatchesRecentlyRetiredZAK. rewrite macMatches_true, macMatchesAny_true.
  setoid_rewrite macMatches_true. split.
  - intros Hor. by exists macHex, macField, packed.
  - intros (? & ? & ? & [= <- <-] & Hp & Hor). rewrite Ep in Hp. by injection Hp as <-.
Qed.
End verifier.

(** ** Hex *)

Lemma ascii_cases (P : ascii → bool) : all_ascii P = true → ∀ c, P c = true.
Proof. apply all_ascii_spec. Qed.

Lemma decode_byte c :
  let hi := digit_char (Z_of_ascii c / 16) in let lo := digit_char (Z_of_ascii c mod 16) in
  (is_hex hi && is_hex lo = true ∧
   ascii_of_Z (16 * digit_val (upper_char hi) + digit_val (upper_char lo)) = c) ∧
  (is_hex (upper_char hi) && is_hex (upper_char lo) = true ∧
   ascii_of_Z (16 * digit_val (upper_char (upper_char hi)) + digit_val (upper_char (upper_char lo))) = c).
Proof. destruct c as [[] [] [] [] [] [] [] []]; vm_compute; done. Qed.

Lemma DecodeString_Encode s : DecodeString (EncodeToString s) = Some s.
Proof.
  induction s as [|c s IH]; [done|]. cbn [EncodeToString DecodeString].
  destruct (decode_byte c) as [[H1 H2] _]. by rewrite H1, IH, H2.
Qed.

Lemma DecodeString_Upper s : DecodeString (ToUpper (EncodeToString s)) = Some s.
Proof.
  induction s as [|c s IH]; [done|]. unfold ToUpper in *. cbn [EncodeToString str_map DecodeString].
  destruct (decode_byte c) as [_ [H1 H2]]. by rewrite H1, IH, H2.
Qed.

Lemma upper_char_idem c : upper_char (upper_char c) = upper_char c.
Proof. destruct c as [[] [] [] [] [] [] [] []]; reflexivity. Qed.

Lemma ToUpper_idem s : ToUpper (ToUpper s) = ToUpper s.
Proof. unfold ToUpper. induction s as [|c s IH]; [done|]. cbn. by rewrite upper_char_idem, IH. Qed.

Lemma EqualFold_Upper s : EqualFold (ToUpper s) s = true.
Proof. unfold EqualFold. rewrite ToUpper_idem. apply String.eqb_refl. Qed.

(** ** A MAC attached by the gateway verifies *)

(** Attach, then verify: for any HSM, a message whose DE 64 was set by [attachMAC] under the
    ZAK the verifier holds passes [Verify], for every MTI and every field set without a MAC of its
    own, with or without a secondary bitmap. *)
Theorem attached_mac_verifies (H : Module_) zak find mti fields fields' :
  fields !! 64 = None → attachMAC zak mti fields = Ok fields' →
  Verify (NewMACVerifier zak find) mti fields' = true.
Proof.
  intros Hno Ha. unfold attachMAC in Ha.
  destruct (Pack mti fields) as [packed|] eqn:Hp; cbn in Ha; [|done].
  destruct (ComputeMAC packed zak) as [mac|] eqn:Hm; cbn in Ha; [|done]. injection Ha as <-.
  apply Verify_true. exists (ToUpper (EncodeToString mac)), 64, packed. split_and!.
  - unfold macFieldOf. by rewrite lookup_insert_eq.
  - by rewrite delete_insert_id.
  - left. exists mac. split; [done|]. apply EqualFold_Upper.
Qed.

(** ** ISO 9797-1 *)

Definition padding1 (m : string) : string := m +:+ zeros ((8 - slen m mod 8) mod 8).

Fixpoint cbc_chain (c : Block) (n : nat) (h data : string) : string :=
  match n with
  | O => h
  | S n => cbc_chain c n (Encrypt c (xor_string (str_take 8 data) h)) (str_drop 8 data)
  end.

(** Algorithm 3 with padding method 1, as the standard writes it. *)
Definition iso9797_alg3 (c1 c2 : Block) (m : string) : string :=
  let p := padding1 m in
  Encrypt c1 (Decrypt c2 (cbc_chain c1 (slen p / 8) (zeros 8) p)).

Lemma zeros_S n : zeros (S n) = String zero_byte (zeros n).
Proof. done. Qed.

Lemma slen_zeros n : slen (zeros n) = n.
Proof. induction n as [|n IH]; [done|]. cbn. by f_equal. Qed.

Lemma zeroPad_loop_spec fuel k data :
  (k < 8)%nat → (k ≤ fuel)%nat → ((slen data + k) mod 8 = 0)%nat →
  zeroPad_loop fuel data 8 = data +:+ zeros k.
Proof.
  revert k data. induction fuel as [|fuel IH]; intros k data Hk Hf Hm.
  - assert (k = 0%nat) as -> by lia. cbn. by rewrite app_nil_str.
  - cbn [zeroPad_loop]. destruct k as [|k].
    + rewrite Nat.add_0_r in Hm. rewrite Hm. cbn. by rewrite app_nil_str.
    + destruct (slen data mod 8 =? 0)%nat eqn:E.
      { apply Nat.eqb_eq in E. rewrite <-Nat.Div0.add_mod_idemp_l, E in Hm.
        cbn [plus] in Hm. rewrite Nat.mod_small in Hm by lia. lia. }
      rewrite (IH k); [|lia|lia|]. 2: { rewrite slen_app. cbn [String.length]. replace (slen data + 1 + k)%nat with (slen data + S k)%nat by lia. done. }
      rewrite app_assoc_str. done.
Qed.

Lemma zeroPad_spec data : zeroPad data 8 = padding1 data.
Proof.
  unfold zeroPad, padding1. destruct (slen data mod 8 =? 0)%nat eqn:E.
  - apply Nat.eqb_eq in E. rewrite E. change ((8 - 0) mod 8)%nat with 0%nat. cbn. by rewrite app_nil_str.
  - apply Nat.eqb_neq in E. pose proof (Nat.mod_upper_bound (slen data) 8).
    rewrite (Nat.mod_small (8 - _)) by lia. apply zeroPad_loop_spec; [lia|lia|].
    rewrite <-Nat.Div0.add_mod_idemp_l.
    replace (slen data mod 8 + (8 - slen data mod 8))%nat with 8%nat by lia. done.
Qed.

Lemma padding1_length m : (slen (padding1 m) mod 8 = 0)%nat.
Proof.
  unfold padding1. rewrite slen_app, slen_zeros.
  destruct (decide (slen m mod 8 = 0)%nat) as [E|E].
  - rewrite E. change ((8 - 0) mod 8)%nat with 0%nat. by rewrite Nat.add_0_r.
  - pose proof (Nat.mod_upper_bound (slen m) 8). rewrite (Nat.mod_small (8 - _)) by lia.
    rewrite <-Nat.Div0.add_mod_idemp_l.
    replace (slen m mod 8 + (8 - slen m mod 8))%nat with 8%nat by lia. done.
Qed.

Lemma cbc_last c n h data :
  block_ok c → str_drop (8 * n) (cbc_encrypt c (S n) h data) = cbc_chain c (S n) h data.
Proof.
  intros Hc. revert h data. induction n as [|n IH]; intros h data.
  - cbn. by rewrite app_nil_str.
  - cbn [cbc_encrypt cbc_chain]. cbn zeta. set (x := Encrypt c _).
    replace (8 * S n)%nat with (slen x + 8 * n)%nat by (unfold x; rewrite (Encrypt_length c Hc); lia).
    rewrite <-str_drop_drop, str_drop_app. apply IH.
Qed.

Lemma jce_ComputeMAC_cases lmk packed zak :
  match @ComputeMAC (JCEModule lmk) packed zak with
  | Ok mac => slen zak = 16%nat ∧ packed ≠ "" ∧ slen mac = 8%nat ∧
      mac = iso9797_alg3 (des_cipher (str_slice 0 8 zak)) (des_cipher (str_slice 8 16 zak)) packed
  | Err e => (slen zak ≠ 16%nat ∧ e = ZAKLength (slen zak)) ∨ (slen zak = 16%nat ∧ packed = "" ∧ e = MACPanic)
  end.
Proof.
  change (@ComputeMAC (JCEModule lmk) packed zak) with (jce_ComputeMAC packed zak). unfold jce_ComputeMAC.
  destruct (slen zak =? 16)%nat eqn:Ez; [|by left; split; [apply Nat.eqb_neq|]]. apply Nat.eqb_eq in Ez. cbn [negb].
  unfold des_NewCipher. rewrite !slen_slice by lia. cbn [Nat.sub Nat.eqb].
  rewrite zeroPad_spec. set (p := padding1 packed).
  set (c1 := des_cipher (str_slice 0 8 zak)). set (c2 := des_cipher (str_slice 8 16 zak)).
  assert (H1 : block_ok c1) by apply des_ok.
  rewrite (cbc_length c1) by done.
  pose proof (padding1_length packed) as Hm. fold p in Hm.
  pose proof (Nat.div_mod_eq (slen p) 8) as Hd. rewrite Hm, Nat.add_0_r in Hd.
  destruct (slen p / 8)%nat as [|n] eqn:En.
  - right. split; [done|]. split; [|done]. assert (slen packed = 0%nat) as H0.
    { unfold p, padding1 in Hd. rewrite slen_app in Hd. lia. } by destruct packed.
  - replace (8 * S n <? 8)%nat with false by (symmetry; apply Nat.ltb_ge; lia).
    replace (8 * S n - 8)%nat with (8 * n)%nat by lia.
    rewrite (cbc_last c1) by done. split; [done|]. split; [|split].
    + intros ->. done.
    + apply (Encrypt_length c1 H1).
    + unfold iso9797_alg3. fold p. by rewrite En.
Qed.

(** C40. The Retail MAC: on a non-empty message and a double-length key the module computes exactly
    ISO 9797-1 algorithm 3 with padding method 1 and the key's halves, in eight bytes; on any other
    key length it answers a typed error, whatever the message. *)
Theorem ComputeMAC_iso9797 lmk packed zak :
  match @ComputeMAC (JCEModule lmk) packed zak with
  | Ok mac => slen zak = 16%nat ∧ packed ≠ "" ∧ slen mac = 8%nat ∧
      mac = iso9797_alg3 (des_cipher (str_slice 0 8 zak)) (des_cipher (str_slice 8 16 zak)) packed
  | Err e => (slen zak ≠ 16%nat ∧ e = ZAKLength (slen zak)) ∨ (slen zak = 16%nat ∧ packed = "" ∧ e = MACPanic)
  end.
Proof. apply jce_ComputeMAC_cases. Qed.

(** The golden vectors of contracts/iso8583/vectors/mac. *)
Definition unhex_string (s : string) : string := default "" (DecodeString s).

Definition vector_zak : string := unhex_string "3132333435363738393a3b3c3d3e3f40".

Definition vector_0210 : fieldmap := list_to_map
  [(2, "9704360000004417"); (3, "000000"); (4, "000000250000"); (7, "0921073208"); (11, "000123");
   (12, "143208"); (13, "0921"); (15, "0921"); (32, "970499"); (37, "626514000123"); (38, "A00123");
   (39, "00"); (41, "00000042"); (42, "GOCPHO000000001"); (49, "704")].

Definition vector_0200 : fieldmap := list_to_map
  [(2, "9704360000004417"); (3, "000000"); (4, "000000250000"); (7, "0921073208"); (11, "000123");
   (12, "143208"); (13, "0921"); (14, "2811"); (15, "0921"); (18, "5814"); (22, "051"); (25, "00");
   (32, "970499"); (37, "626514000123"); (41, "00000042"); (42, "GOCPHO000000001");
   (43, "CA PHE GOC PHO           HO CHI MINH  VN"); (49, "704"); (52, "7A3F09C21B84D6E0");
   (55, "9F2608A1B2C3D4E5F607189F2701809F3602001C")].

Example mac_vector_0200 :
  attachMAC (H := JCEModule "") vector_zak "0200" vector_0200 = Ok (<[64 := "A88877B331724C35"]> vector_0200).
Proof. vm_compute. reflexivity. Qed.

Example mac_vector_0210 :
  attachMAC (H := JCEModule "") vector_zak "0210" vector_0210 = Ok (<[64 := "DDBEB2B8A0853B4A"]> vector_0210).
Proof. vm_compute. reflexivity. Qed.

Example kcv_vector :
  jce_ComputeKCV (unhex_string "404142434445464748494a4b4c4d4e4f") = Ok "189956".
Proof. vm_compute. reflexivity. Qed.

Lemma attached_mac_verifies_witness :
  Verify (H := JCEModule "") (NewMACVerifier vector_zak NoKeyStore) "0210"
         (<[64 := "DDBEB2B8A0853B4A"]> vector_0210) = true.
Proof.
  apply (attached_mac_verifies (JCEModule "") vector_zak NoKeyStore "0210" vector_0210); [reflexivity|].
  vm_compute. reflexivity.
Defined.

(** ** PIN translation *)

Lemma desCipher_cases key :
  match desCipher key with
  | Ok c => (slen key = 8 ∨ slen key = 16 ∨ slen key = 24)%nat ∧ block_ok c
  | Err e => e = DesKeyLength (slen key) ∧ (slen key ≠ 8 ∧ slen key ≠ 16 ∧ slen key ≠ 24)%nat
  end.
Proof.
  assert (Hlen : ∀ n, slen key = n → desCipher key = match n with
     | 8%nat => Ok (des_cipher key) | 16%nat => Ok (triple_cipher (key +:+ str_slice 0 8 key))
     | 24%nat => Ok (triple_cipher key) | _ => Err (DesKeyLength n) end).
  { intros n Hn. unfold desCipher, des_NewCipher, des_NewTripleDESCipher.
    destruct (decide (n = 16)%nat) as [->|].
    { rewrite Hn. rewrite slen_app, slen_slice, Hn by lia. done. }
    rewrite Hn. do 25 (destruct n as [|n]; [done|]). done. }
  destruct (decide (slen key = 8)%nat) as [E|]; [rewrite (Hlen _ E); split; [by left|apply des_ok]|].
  destruct (decide (slen key = 16)%nat) as [E|]; [rewrite (Hlen _ E); split; [by right; left|apply triple_ok]|].
  destruct (decide (slen key = 24)%nat) as [E|]; [rewrite (Hlen _ E); split; [by right; right|apply triple_ok]|].
  rewrite (Hlen _ eq_refl). generalize dependent (slen key). intros n _ H8 H16 H24.
  do 25 (destruct n as [|n]; [done|]). done.
Qed.

(** PIN translation: with keys of a supported length the translated block has eight bytes and
    decrypts under the ZPK to exactly what the input block decrypts to under the TPK; the only
    failures are a key of another length (the TPK is looked at first) and a block that is not eight
    bytes long. *)
Theorem TranslatePIN_preserves_block lmk pinBlock tpk zpk :
  match @TranslatePIN (JCEModule lmk) pinBlock tpk zpk with
  | Ok out => slen out = 8%nat ∧ desECBDecryptBlock zpk out = desECBDecryptBlock tpk pinBlock
  | Err e => e = DecryptUnderTPK (DesKeyLength (slen tpk)) ∨
             (e = DecryptUnderTPK (BlockLength (slen pinBlock)) ∧ slen pinBlock ≠ 8%nat) ∨
             e = EncryptUnderZPK (DesKeyLength (slen zpk))
  end.
Proof.
  change (@TranslatePIN (JCEModule lmk) pinBlock tpk zpk) with (jce_TranslatePIN pinBlock tpk zpk).
  unfold jce_TranslatePIN, desECBDecryptBlock, desECBEncryptBlock.
  pose proof (desCipher_cases tpk) as Ht. destruct (desCipher tpk) as [c|e]; bind_step; cbn [map_err].
  2: { left. by destruct Ht as [-> _]. }
  destruct (slen pinBlock =? 8)%nat eqn:Eb; cbn [negb].
  2: { right; left. by split; [|apply Nat.eqb_neq]. }
  pose proof (desCipher_cases zpk) as Hz. cbn [map_err]. bind_step.
  destruct (desCipher zpk) as [d|e]; bind_step; cbn [map_err].
  2: { right; right. by destruct Hz as [-> _]. }
  destruct Ht as [_ Hc], Hz as [_ Hd].
  rewrite (Decrypt_length c Hc). cbn [Nat.eqb negb map_err].
  split; [apply (Encrypt_length d Hd)|]. rewrite (Encrypt_length d Hd). cbn [Nat.eqb negb].
  by rewrite (Decrypt_Encrypt d Hd) by apply (Decrypt_length c Hc).
Qed.

(** ** Keys under the LMK *)

(** A key_store cryptogram as rotation and provisioning write it. *)
Definition cryptogram (wrapped : string) : string := ToUpper (EncodeToString wrapped).

Lemma clear_key_wrapped lmk nonce row key wrapped :
  slen nonce = NonceSize → @WrapUnderLMK (JCEModule lmk) (Some nonce) key = Ok wrapped →
  KeyUnderLMKHex row = cryptogram wrapped → @clear_key (JCEModule lmk) row = Some key.
Proof.
  intros Hn Hw Hrow. cbn in Hw. unfold jce_WrapUnderLMK in Hw.
  destruct (EncryptBytes (Some nonce) lmk key) as [c|] eqn:He; [|done]. injection Hw as <-.
  unfold clear_key. rewrite Hrow. unfold cryptogram. rewrite DecodeString_Upper. cbn.
  unfold jce_Unwrap. rewrite (DecryptBytes_EncryptBytes (Some nonce) lmk key c); [done| |done].
  by intros ? [= <-].
Qed.

(** Wrapping under the LMK loses nothing: with a valid LMK, any key wrapped under it and
    stored as an upper-case hex cryptogram is read back by decoding and unwrapping. *)
Theorem unwrap_wrapped_key lmk nonce row key :
  slen lmk = 32%nat → slen nonce = NonceSize →
  ∃ wrapped, @WrapUnderLMK (JCEModule lmk) (Some nonce) key = Ok wrapped ∧
    (KeyUnderLMKHex row = cryptogram wrapped → @clear_key (JCEModule lmk) row = Some key).
Proof.
  intros Hl Hn. cbn. unfold jce_WrapUnderLMK, EncryptBytes, newGCM, aes_NewCipher. rewrite Hl. cbn [Nat.eqb orb].
  bind_step. cbn [map_err]. eexists. split; [done|]. intros Hrow.
  eapply (clear_key_wrapped lmk nonce row key); [done| |done]. cbn.
  unfold jce_WrapUnderLMK, EncryptBytes, newGCM, aes_NewCipher. by rewrite Hl.
Qed.

Lemma unwrap_wrapped_key_witness :
  ∃ wrapped, @WrapUnderLMK (JCEModule (zeros 32)) (Some (zeros 12)) "0123456789abcdef" = Ok wrapped ∧
    (KeyUnderLMKHex (mkKeyRow 1 "ZAK" "" "" "" ACTIVE None None 0) = cryptogram wrapped →
     @clear_key (JCEModule (zeros 32)) (mkKeyRow 1 "ZAK" "" "" "" ACTIVE None None 0) = Some "0123456789abcdef").
Proof. apply unwrap_wrapped_key; reflexivity. Defined.

(** ** Dual-key acceptance during a rotation *)

(** The verifier the gateway runs with: the ACTIVE ZAK it holds and [KeyStoreRepository.MACFallback]
    on the table, read at [now]. *)
Definition live_verifier (zak : string) (now : time) (t : KeyTable) : MACVerifier :=
  NewMACVerifier zak (FallbackFinder (λ kt owner within, Some (FallbackKeys now kt owner within t))).

(** MCN-504's grace period: after a rotation activated the new ZAK at [now], a response MAC'd
    under the old ZAK still verifies at every instant before [now + 5 min] and, from then on, only
    a MAC of the new ZAK does; responses under the new ZAK verify throughout. *)
Theorem dual_key_grace {H : Module_} now now' t k o zak_old zak_new mti resp macHex macField packed :
  table_ok t → k ∈ rows t → k_status k = PENDING → same_pair "ZAK" "" k = true →
  o ∈ rows t → k_status o = ACTIVE → same_pair "ZAK" "" o = true → clear_key o = Some zak_old →
  (∀ r at_, r ∈ rows t → RetiredAt r = Some at_ → at_ < now) → now ≤ now' →
  macFieldOf resp = Some (macHex, macField) → Pack mti (delete macField resp) = Ok packed →
  Verify (live_verifier zak_new now' (Activate now (k_id k) t)) mti resp = true ↔
  mac_hex_of packed zak_new macHex ∨ (now' < now + dualKeyWindow ∧ mac_hex_of packed zak_old macHex).
Proof.
  intros Hok Hk Hpend Hpk Ho Hact Hpo Hclear Hpast Hnow Hf Hp.
  assert (Hpo' : same_pair (KeyType k) (OwnerRef k) o = true ∧ KeyType k = "ZAK" ∧ OwnerRef k = "").
  { unfold same_pair in Hpk |- *. by apply andb_true_iff in Hpk as [->%String.eqb_eq ->%String.eqb_eq]. }
  destruct Hpo' as (Hpo' & Hkt & Hown).
  assert (Hg : Get (k_id k) t = Some k) by by apply Get_spec.
  assert (Hne : k_id o ≠ k_id k).
  { intros He. pose proof (Get_spec _ t o Hok Ho He). congruence. }
  assert (Hfb : fallbackZAKs (live_verifier zak_new now' (Activate now (k_id k) t))
                = if now' - dualKeyWindow <? now then [retire now o] else []).
  { unfold fallbackZAKs, live_verifier. cbn [keyStore default]. unfold FallbackKeys.
    rewrite <-Hkt, <-Hown, no_pending_left by done.
    assert (Hw : 0 < dualKeyWindow) by reflexivity.
    rewrite (window_candidates now now' dualKeyWindow t k o);
      [by case_if|done|done|done|done|done|done|exact Hpast|lia|done]. }
  assert (Hwin : now' < now + dualKeyWindow ↔ (now' - dualKeyWindow <? now) = true)
    by (rewrite Z.ltb_lt; lia).
  rewrite Verify_true. cbn [zakSource live_verifier]. split.
  - intros (mh & mf & p & Hf' & Hp' & Hor). rewrite Hf in Hf'. injection Hf' as <- <-.
    rewrite Hp in Hp'. injection Hp' as <-. destruct Hor as [|(row & zak & Hrow & Hc & Hm)]; [by left|].
    right. rewrite Hfb in Hrow. rewrite Hwin. case_if; [|by apply not_elem_of_nil in Hrow].
    apply list_elem_of_singleton in Hrow as ->. split; [done|].
    change (clear_key (retire now o)) with (clear_key o) in Hc. by simplify_eq.
  - intros Hor. exists macHex, macField, packed. split; [done|]. split; [done|].
    destruct Hor as [|[Hw Hm]]; [by left|right]. exists (retire now o), zak_old.
    rewrite Hfb, (proj1 Hwin Hw). split; [by left|done].
Qed.

Definition demo_lmk : string := zeros 32.
Definition demo_wrapped : string :=
  match @WrapUnderLMK (JCEModule demo_lmk) (Some (zeros 12)) vector_zak with Ok w => cryptogram w | Err _ => "" end.

(** The golden response under the old ZAK, 100 ns after the rotation to another key. *)
Definition demo_rotation : KeyTable := fold_left apply_op
  [(5, OpEnsureActive "ZAK" demo_wrapped "111111"); (7, OpInsert (mkKeyRow 0 "ZAK" "" "CC" "333333" PENDING None None 0))]
  empty_table.

Lemma dual_key_grace_witness :
  let H := JCEModule demo_lmk in
  Verify (live_verifier "another-zak-16by" 200 (Activate 100 2 demo_rotation)) "0210"
         (<[64 := "DDBEB2B8A0853B4A"]> vector_0210) = true ↔
  mac_hex_of (match Pack "0210" vector_0210 with Ok p => p | Err _ => "" end) "another-zak-16by" "DDBEB2B8A0853B4A" ∨
  (200 < 100 + dualKeyWindow ∧
   mac_hex_of (match Pack "0210" vector_0210 with Ok p => p | Err _ => "" end) vector_zak "DDBEB2B8A0853B4A").
Proof.
  intros H.
  apply (dual_key_grace (H := H) 100 200 demo_rotation (mkKeyRow 2 "ZAK" "" "CC" "333333" PENDING None None 7)
           (mkKeyRow 1 "ZAK" "" demo_wrapped "111111" ACTIVE (Some 5) None 5) vector_zak "another-zak-16by" "0210"
           (<[64 := "DDBEB2B8A0853B4A"]> vector_0210) "DDBEB2B8A0853B4A" 64);
    [apply history_ok, empty_ok|by right; left|done|done|by left|done|done|vm_compute; reflexivity| |lia|done|].
  - intros r at_ Hr Hat. revert Hr. unfold demo_rotation. generalize demo_wrapped. intros c Hr. cbn in Hr.
    repeat (apply elem_of_cons in Hr as [->|Hr]; [done|]). by apply not_elem_of_nil in Hr.
  - vm_compute. reflexivity.
Defined.
