(* ===== verification/Calendar.v ===== *)
(** * Calendar: civil time, the business date and the RRN

    What the gateway uses of Go's [time] package on UTC and on a zone with a fixed offset (the
    cutover zone Asia/Ho_Chi_Minh has had none but +07:00 since 1975), then
    [gateway-go/internal/bizdate] and [purchase/rrn.go]. *)

From S2P Require Import Prelude Digits KeyStore.
Local Open Scope Z_scope.
Ltac Zify.zify_post_hook ::= Z.to_euclidean_division_equations.

(** ** Civil dates *)

Definition Day : duration := 24 * Hour.

(** Days since 1970-01-01 of a proleptic Gregorian date; a day beyond its month runs on into the
    following ones, as in [time.Date]. *)
Definition days_of_civil (ymd : Z * Z * Z) : Z :=
  let '(y, m, d) := ymd in
  let y := if m <=? 2 then y - 1 else y in
  let era := y / 400 in
  let yoe := y mod 400 in
  let doy := (153 * (if 2 <? m then m - 3 else m + 9) + 2) / 5 + d - 1 in
  era * 146097 + (yoe * 365 + yoe / 4 - yoe / 100 + doy) - 719468.

(** Days of the 400-year era (from 1 March) before its year [y]. *)
Definition year_start (y : Z) : Z := y * 365 + y / 4 - y / 100 + y / 400.

Fixpoint year_loop (fuel : nat) (y doe : Z) : Z :=
  match fuel with
  | O => y
  | S fuel => if year_start (y + 1) <=? doe then year_loop fuel (y + 1) doe else y
  end.

Definition civil_of_days (z : Z) : Z * Z * Z :=
  let z := z + 719468 in
  let era := z / 146097 in
  let doe := z mod 146097 in
  let yoe := year_loop 2 (doe / 366) doe in
  let doy := doe - year_start yoe in
  let mp := (5 * doy + 2) / 153 in
  let d := doy - (153 * mp + 2) / 5 + 1 in
  let m := if mp <? 10 then mp + 3 else mp - 9 in
  ((if m <=? 2 then 1 else 0) + (yoe + era * 400), m, d).

Lemma year_start_next y : 0 ≤ y < 401 → year_start (y + 1) ≤ year_start y + 366.
Proof.
  intros H. unfold year_start. assert ((y + 1) / 4 ≤ y / 4 + 1) by lia.
  assert (y / 100 ≤ (y + 1) / 100) by lia.
  destruct (decide (y = 399)) as [->|]; [done|]. assert ((y + 1) / 400 = y / 400) by lia. lia.
Qed.

Lemma year_start_bounds y : 0 ≤ y → 365 * y ≤ year_start y ≤ 366 * y.
Proof.
  intros H. unfold year_start. assert (0 ≤ y / 4 - y / 100) by lia.
  assert (0 ≤ y / 400) by lia. assert (y / 4 + y / 400 ≤ y) by lia. assert (0 ≤ y / 100) by lia. lia.
Qed.

Lemma year_start_400 y : 400 ≤ y → 146097 ≤ year_start y.
Proof.
  intros H. unfold year_start. destruct (decide (y ≤ 402)) as [H2|H2].
  - assert (y = 400 ∨ y = 401 ∨ y = 402) as [->|[->| ->]] by lia; done.
  - assert (y / 100 ≤ y / 4) by lia. assert (0 ≤ y / 400) by lia. lia.
Qed.

Lemma year_loop_spec doe :
  0 ≤ doe < 146097 →
  let y := year_loop 2 (doe / 366) doe in 0 ≤ y < 400 ∧ 0 ≤ doe - year_start y ≤ 365.
Proof.
  intros Hd. cbn [year_loop]. cbn zeta. set (y0 := doe / 366).
  assert (Hy0 : 366 * y0 ≤ doe < 366 * y0 + 366) by (unfold y0; lia). clearbody y0.
  pose proof (year_start_next y0 ltac:(lia)). pose proof (year_start_bounds y0).
  pose proof (year_start_next (y0 + 1) ltac:(lia)). pose proof (year_start_bounds (y0 + 1)).
  pose proof (year_start_bounds (y0 + 1 + 1)).
  assert (H400 : ∀ y, year_start y ≤ doe → y < 400).
  { intros y Hy. destruct (decide (400 ≤ y)) as [H4|]; [|lia]. pose proof (year_start_400 y H4). lia. }
  case_if; [case_if|]; rewrite ?Z.leb_le, ?Z.leb_gt in *.
  - pose proof (H400 (y0 + 1 + 1) ltac:(lia)). lia.
  - pose proof (H400 (y0 + 1) ltac:(lia)). lia.
  - pose proof (H400 y0 ltac:(lia)). lia.
Qed.

Lemma month_of_doy doy :
  0 ≤ doy ≤ 365 →
  let mp := (5 * doy + 2) / 153 in let d := doy - (153 * mp + 2) / 5 + 1 in
  0 ≤ mp ≤ 11 ∧ 1 ≤ d ≤ 31.
Proof. cbn zeta. lia. Qed.

Lemma civil_spec z :
  let '(y, m, d) := civil_of_days z in
  days_of_civil (y, m, d) = z ∧ 1 ≤ m ≤ 12 ∧ 1 ≤ d ≤ 31.
Proof.
  unfold civil_of_days, days_of_civil. set (w := z + 719468).
  pose proof (Z.mod_pos_bound w 146097 ltac:(lia)) as Hdoe.
  pose proof (year_loop_spec _ Hdoe) as [Hyoe Hdoy]. cbn zeta in *.
  pose proof (Z.div_mod w 146097 ltac:(lia)) as Hw. set (doe := w mod 146097) in *.
  set (yoe := year_loop 2 (doe / 366) doe) in *. set (doy := doe - year_start yoe) in *.
  pose proof (month_of_doy doy Hdoy) as [Hmp Hd]. cbn zeta in *. set (mp := (5 * doy + 2) / 153) in *.
  set (m := if mp <? 10 then mp + 3 else mp - 9).
  set (y := (if m <=? 2 then 1 else 0) + (yoe + w / 146097 * 400)).
  assert (Hm : 1 ≤ m ≤ 12 ∧ (if 2 <? m then m - 3 else m + 9) = mp).
  { unfold m. destruct (mp <? 10) eqn:E; [apply Z.ltb_lt in E|apply Z.ltb_ge in E]; case_if;
      rewrite ?Z.ltb_lt, ?Z.ltb_ge in *; lia. }
  split; [|lia].
  assert (Hy : (if m <=? 2 then y - 1 else y) = yoe + w / 146097 * 400) by (unfold y; case_if; lia).
  destruct Hm as [_ ->]. rewrite Hy, Z.div_add, Z.mod_add, (Z.div_small yoe 400), (Z.mod_small yoe 400) by lia.
  assert (yoe / 400 = 0) by (apply Z.div_small; lia). unfold doy, year_start. lia.
Qed.

Lemma days_civil z : days_of_civil (civil_of_days z) = z.
Proof. pose proof (civil_spec z) as H. destruct (civil_of_days z) as [[y m] d]. tauto. Qed.

(** A day beyond the month is a number of days later. *)
Lemma days_of_civil_add y m d n : days_of_civil (y, m, d + n) = days_of_civil (y, m, d) + n.
Proof. unfold days_of_civil. lia. Qed.

(** ** Clock readings *)

(** [t.In(loc)] at offset [loc]: day number and nanoseconds since that midnight. *)
Definition local_day (loc : duration) (t : time) : Z := (t + loc) / Day.
Definition local_clock (loc : duration) (t : time) : Z := (t + loc) mod Day.

Definition civil (loc : duration) (t : time) : Z * Z * Z := civil_of_days (local_day loc t).
Definition Year (loc : duration) (t : time) : Z := (civil loc t).1.1.
Definition Hour_of (loc : duration) (t : time) : Z := local_clock loc t / Hour.
Definition Minute_of (loc : duration) (t : time) : Z := local_clock loc t mod Hour / Minute.
Definition Second_of (loc : duration) (t : time) : Z := local_clock loc t mod Minute / Second.
Definition YearDay (loc : duration) (t : time) : Z :=
  local_day loc t - days_of_civil (Year loc t, 1, 1) + 1.

(** [time.Date(y, m, d, 0, 0, 0, 0, loc)]. *)
Definition Date (ymd : Z * Z * Z) (loc : duration) : time := days_of_civil ymd * Day - loc.

(** [t.AddDate(0, 0, n)] in UTC. *)
Definition AddDays (t : time) (n : Z) : time :=
  let '(y, m, d) := civil 0 t in Date (y, m, d + n) 0 + local_clock 0 t.

Definition UTC : duration := 0.

(** The layouts the gateway formats with. *)
Definition format_MMDD (loc : duration) (t : time) : string :=
  let '(_, m, d) := civil loc t in Sprintf0d 2 m +:+ Sprintf0d 2 d.
Definition format_hhmmss (loc : duration) (t : time) : string :=
  Sprintf0d 2 (Hour_of loc t) +:+ Sprintf0d 2 (Minute_of loc t) +:+ Sprintf0d 2 (Second_of loc t).
Definition format_DE7 (loc : duration) (t : time) : string := format_MMDD loc t +:+ format_hhmmss loc t.
Definition format_DateOnly (loc : duration) (t : time) : string :=
  let '(y, m, d) := civil loc t in Sprintf0d 4 y +:+ "-" +:+ Sprintf0d 2 m +:+ "-" +:+ Sprintf0d 2 d.

(** ** bizdate/calendar.go and clock.go *)

(** [bizdate.Calendar], the port. *)
Class Calendar := {
  Current : time → time;
  Previous : time → time;
  OpenedAt : time → time
}.

Definition MMDD (d : time) : string := format_MMDD UTC d.
Definition Format (d : time) : string := format_DateOnly UTC d.

Record ClockCalendar := NewClockCalendar { cutover : duration; loc : duration }.

Definition clock_Current (c : ClockCalendar) (now : time) : time :=
  let ymd := civil (loc c) now in
  let midnight := Date ymd (loc c) in
  let d := Date ymd UTC in
  if cutover c <=? now - midnight then AddDays d 1 else d.

Definition clock_Previous (d : time) : time := AddDays d (-1).

Definition clock_OpenedAt (c : ClockCalendar) (d : time) : time :=
  let prev := AddDays d (-1) in
  Date (civil UTC prev) (loc c) + cutover c.

#[export] Instance ClockCalendar_calendar (c : ClockCalendar) : Calendar := {|
  Current := clock_Current c;
  Previous := clock_Previous;
  OpenedAt := clock_OpenedAt c
|}.

(** *** Business dates are whole days *)

Definition date_of (n : Z) : time := n * Day.

Lemma Day_pos : 0 < Day.
Proof. reflexivity. Qed.

Lemma local_day_date n : local_day 0 (date_of n) = n.
Proof. unfold local_day, date_of. rewrite Z.add_0_r. apply Z.div_mul. pose proof Day_pos. lia. Qed.

Lemma AddDays_date n k : AddDays (date_of n) k = date_of (n + k).
Proof.
  unfold AddDays, civil. rewrite local_day_date. pose proof (days_civil n) as H.
  destruct (civil_of_days n) as [[y m] d]. unfold Date. rewrite days_of_civil_add, H.
  unfold local_clock, date_of. rewrite Z.add_0_r, Z.mod_mul by (pose proof Day_pos; lia). lia.
Qed.

Lemma Current_date c now :
  clock_Current c now
  = date_of (local_day (loc c) now + if cutover c <=? local_clock (loc c) now then 1 else 0).
Proof.
  unfold clock_Current, civil. set (n := local_day (loc c) now).
  assert (Hd : ∀ o, Date (civil_of_days n) o = date_of n - o) by (intros o; unfold Date; by rewrite days_civil).
  rewrite !Hd. replace (now - (date_of n - loc c)) with (local_clock (loc c) now).
  - unfold UTC. rewrite Z.sub_0_r. case_if; [apply AddDays_date|by rewrite Z.add_0_r].
  - unfold n, local_clock, date_of, local_day. pose proof Day_pos. pose proof (Z.div_mod (now + loc c) Day). lia.
Qed.

Lemma OpenedAt_date c n : clock_OpenedAt c (date_of n) = date_of (n - 1) - loc c + cutover c.
Proof.
  unfold clock_OpenedAt. rewrite AddDays_date. unfold civil, UTC. rewrite local_day_date.
  unfold Date. rewrite days_civil. replace (n + -1) with (n - 1) by lia. done.
Qed.

(** The business date rolls exactly at cutover: with a cutover inside the local day, every
    instant belongs to the business date whose opening instant is at or before it and whose
    successor opens strictly after it; a date is the current one at the instant it opens; and the
    previous date is the one current just before. *)
Theorem business_date_rolls_at_cutover c now :
  0 ≤ cutover c < Day →
  let C := ClockCalendar_calendar c in
  let d := Current now in
  OpenedAt d ≤ now < OpenedAt (AddDays d 1) ∧
  Current (OpenedAt d) = d ∧ Current (OpenedAt d - 1) = Previous d.
Proof.
  intros Hc C d. pose proof Day_pos as HD.
  unfold d, C, Current, OpenedAt, Previous, ClockCalendar_calendar, clock_Previous.
  rewrite !Current_date, AddDays_date, !OpenedAt_date, AddDays_date.
  set (n := local_day (loc c) now). set (k := if cutover c <=? local_clock (loc c) now then 1 else 0).
  assert (Hnow : now = n * Day + local_clock (loc c) now - loc c).
  { unfold n, local_day, local_clock. pose proof (Z.div_mod (now + loc c) Day). lia. }
  pose proof (Z.mod_pos_bound (now + loc c) Day HD) as Hclk. fold (local_clock (loc c) now) in Hclk.
  assert (Hat : ∀ a b, 0 ≤ b < Day → local_day (loc c) (a * Day + b - loc c) = a ∧
                        local_clock (loc c) (a * Day + b - loc c) = b).
  { intros a b Hb. unfold local_day, local_clock. replace (a * Day + b - loc c + loc c) with (b + a * Day) by lia.
    rewrite Z.div_add, Z.mod_add, Z.div_small, Z.mod_small by lia. lia. }
  split; [|split].
  - unfold date_of, k. destruct (cutover c <=? local_clock (loc c) now) eqn:E;
      [apply Z.leb_le in E|apply Z.leb_gt in E]; nia.
  - unfold date_of at 2 3. destruct (Hat (n + k - 1) (cutover c) Hc) as [H1 H2].
    replace ((n + k - 1) * Day - loc c + cutover c) with ((n + k - 1) * Day + cutover c - loc c) by lia.
    rewrite H1, H2, Z.leb_refl. f_equal. lia.
  - unfold date_of at 2 3.
    destruct (decide (cutover c = 0)) as [E0|E0].
    + destruct (Hat (n + k - 2) (Day - 1)) as [H1 H2]; [lia|].
      replace ((n + k - 1) * Day - loc c + cutover c - 1) with ((n + k - 2) * Day + (Day - 1) - loc c) by lia.
      rewrite H1, H2. rewrite (proj2 (Z.leb_le _ _)) by lia. f_equal. lia.
    + destruct (Hat (n + k - 1) (cutover c - 1)) as [H1 H2]; [lia|].
      replace ((n + k - 1) * Day - loc c + cutover c - 1) with ((n + k - 1) * Day + (cutover c - 1) - loc c) by lia.
      rewrite H1, H2. rewrite (proj2 (Z.leb_gt _ _)) by lia. f_equal. lia.
Qed.

(** The cutover the gateway is deployed with, at an instant of clock_test.go. *)
Definition hcm : duration := 7 * Hour.
Definition default_calendar : ClockCalendar :=
  NewClockCalendar (23 * Hour + 59 * Minute + 59 * Second) hcm.

Example Current_at_cutover :
  map (λ s, Format (clock_Current default_calendar (Date (2026, 9, 25) hcm + 23 * Hour + 59 * Minute + s)))
      [58 * Second; 59 * Second; 61 * Second]
  = ["2026-09-25"; "2026-09-26"; "2026-09-26"].
Proof. vm_compute. reflexivity. Qed.

Lemma business_date_rolls_at_cutover_witness :
  let C := ClockCalendar_calendar default_calendar in
  let d := Current (Date (2026, 9, 25) hcm + 12 * Hour) in
  OpenedAt d ≤ Date (2026, 9, 25) hcm + 12 * Hour < OpenedAt (AddDays d 1) ∧
  Current (OpenedAt d) = d ∧ Current (OpenedAt d - 1) = Previous d.
Proof.
  apply (business_date_rolls_at_cutover default_calendar). split; [discriminate|reflexivity].
Defined.

(** ** purchase/rrn.go *)

Definition BuildRRN (now : time) (stan : string) : string :=
  let yearDigit := Z.rem (Year UTC now) 10 in
  let dayOfYear := YearDay UTC now in
  Itoa yearDigit +:+ Sprintf0d 3 dayOfYear +:+ Sprintf0d 2 (Hour_of UTC now) +:+ stan.

Lemma era_start y : y / 400 * 146097 + (y mod 400 * 365 + y mod 400 / 4 - y mod 400 / 100) = year_start y.
Proof.
  unfold year_start. set (e := y / 400). set (r := y mod 400).
  assert (Hy : y = r + e * 400) by (unfold e, r; lia).
  assert (Hr : 0 ≤ r < 400) by (unfold r; apply Z.mod_pos_bound; lia).
  assert (y / 4 = r / 4 + e * 100) as -> by (rewrite Hy; lia).
  assert (y / 100 = r / 100 + e * 4) as -> by (rewrite Hy; lia). lia.
Qed.

Lemma days_of_civil_start y m d :
  1 ≤ m ≤ 12 →
  days_of_civil (y, m, d)
  = year_start (if m <=? 2 then y - 1 else y)
    + (153 * (if 2 <? m then m - 3 else m + 9) + 2) / 5 + d - 1 - 719468.
Proof. intros Hm. unfold days_of_civil. rewrite <-era_start. lia. Qed.

Lemma year_start_step y : 365 ≤ year_start y - year_start (y - 1) ≤ 366.
Proof.
  rewrite <-!era_start. assert (y mod 400 = 0 ∨ 1 ≤ y mod 400 < 400) as [H0|H1] by lia.
  - assert ((y - 1) mod 400 = 399) as H9 by lia. assert ((y - 1) / 400 = y / 400 - 1) as -> by lia.
    rewrite H0, H9. change (399 / 4) with 99. change (399 / 100) with 3. change (0 / 4) with 0.
    change (0 / 100) with 0. lia.
  - assert ((y - 1) mod 400 = y mod 400 - 1) as -> by lia. assert ((y - 1) / 400 = y / 400) as -> by lia.
    set (r := y mod 400) in *. clearbody r.
    assert (r / 4 ≤ (r - 1) / 4 + 1) by lia. assert (r / 100 ≤ (r - 1) / 100 + 1) by lia.
    assert ((r - 1) / 4 ≤ r / 4) by lia. assert ((r - 1) / 100 ≤ r / 100) by lia.
    assert (r / 100 - (r - 1) / 100 ≤ r / 4 - (r - 1) / 4) by lia. lia.
Qed.

Lemma YearDay_range l t : 1 ≤ YearDay l t ≤ 400.
Proof.
  unfold YearDay, Year, civil. set (n := local_day l t). pose proof (civil_spec n) as H.
  destruct (civil_of_days n) as [[y m] d]. cbn [fst]. destruct H as (H & Hm & Hd).
  rewrite <-H, !days_of_civil_start by lia. change (1 <=? 2) with true. change (2 <? 1) with false. cbn match.
  pose proof (year_start_step y).
  destruct (m <=? 2) eqn:E; [apply Z.leb_le in E|apply Z.leb_gt in E].
  - rewrite (proj2 (Z.ltb_ge 2 m)) by lia. lia.
  - rewrite (proj2 (Z.ltb_lt 2 m)) by lia. lia.
Qed.

(** The calendar of the Unix epoch and later has years of the common era. *)
Lemma Year_nonneg t : 0 ≤ t → 0 ≤ Year UTC t.
Proof.
  intros Ht. unfold Year, civil. set (z := local_day UTC t).
  assert (Hn : 0 ≤ z) by (unfold z, local_day, UTC; apply Z.div_pos; [lia|reflexivity]).
  unfold civil_of_days. cbn [fst].
  pose proof (year_loop_spec _ (Z.mod_pos_bound (z + 719468) 146097 ltac:(lia))) as [Hy _].
  assert (0 ≤ (z + 719468) / 146097) by (apply Z.div_pos; lia). case_if; lia.
Qed.

Lemma Hour_range l t : 0 ≤ Hour_of l t < 24.
Proof.
  unfold Hour_of, local_clock. pose proof (Z.mod_pos_bound (t + l) Day Day_pos) as H.
  split; [apply Z.div_pos; [lia|reflexivity]|apply Z.div_lt_upper_bound; [reflexivity|]]. exact (proj2 H).
Qed.

Lemma Itoa_digit n : 0 ≤ n < 10 → Itoa n = dec 1 n.
Proof.
  intros H. assert (n = 0 ∨ n = 1 ∨ n = 2 ∨ n = 3 ∨ n = 4 ∨ n = 5 ∨ n = 6 ∨ n = 7 ∨ n = 8 ∨ n = 9) as Hn by lia.
  by repeat destruct Hn as [->|Hn]; subst.
Qed.

(** The RRN as fixed-width fields. *)
Lemma BuildRRN_eq now stan :
  0 ≤ Year UTC now →
  BuildRRN now stan = dec 1 (Year UTC now mod 10) +:+ dec 3 (YearDay UTC now) +:+ dec 2 (Hour_of UTC now) +:+ stan.
Proof.
  intros Hy. unfold BuildRRN. rewrite Z.rem_mod_nonneg by lia.
  rewrite Itoa_digit by (apply Z.mod_pos_bound; lia).
  pose proof (YearDay_range UTC now). pose proof (Hour_range UTC now).
  rewrite !Sprintf0d_dec by (cbn; lia). done.
Qed.

(** The RRN of a six-digit STAN has twelve digits, and two requests get the same RRN only if
    they carry the same STAN in the same hour of the same day of years with the same last digit. *)
Theorem RRN_unique now now' stan stan' :
  0 ≤ Year UTC now → 0 ≤ Year UTC now' →
  slen stan = 6%nat → slen stan' = 6%nat → str_forall is_digit stan = true →
  slen (BuildRRN now stan) = 12%nat ∧ str_forall is_digit (BuildRRN now stan) = true ∧
  (BuildRRN now stan = BuildRRN now' stan' ↔
   stan = stan' ∧ Hour_of UTC now = Hour_of UTC now' ∧ YearDay UTC now = YearDay UTC now' ∧
   Year UTC now mod 10 = Year UTC now' mod 10).
Proof.
  intros Hy Hy' Hs Hs' Hd. rewrite !BuildRRN_eq by done.
  pose proof (YearDay_range UTC now). pose proof (YearDay_range UTC now').
  pose proof (Hour_range UTC now). pose proof (Hour_range UTC now').
  pose proof (Z.mod_pos_bound (Year UTC now) 10 ltac:(lia)).
  pose proof (Z.mod_pos_bound (Year UTC now') 10 ltac:(lia)).
  split; [rewrite !slen_app, !slen_dec, Hs; done|]. split.
  { by rewrite !str_forall_app, !dec_digits, Hd. }
  split; [|by intros (-> & -> & -> & ->)].
  intros He. apply app_inj_len in He as [He1%dec_inj He]; [|cbn; lia|cbn; lia|by rewrite !slen_dec].
  apply app_inj_len in He as [He2%dec_inj He]; [|cbn; lia|cbn; lia|by rewrite !slen_dec].
  apply app_inj_len in He as [He3%dec_inj He]; [|cbn; lia|cbn; lia|by rewrite !slen_dec]. done.
Qed.

Lemma RRN_unique_witness :
  slen (BuildRRN (Date (2026, 9, 21) 0 + 7 * Hour) "000123") = 12%nat ∧
  str_forall is_digit (BuildRRN (Date (2026, 9, 21) 0 + 7 * Hour) "000123") = true ∧
  (BuildRRN (Date (2026, 9, 21) 0 + 7 * Hour) "000123" = BuildRRN (Date (2036, 9, 20) 0 + 7 * Hour) "000123" ↔
   "000123" = "000123" ∧
   Hour_of UTC (Date (2026, 9, 21) 0 + 7 * Hour) = Hour_of UTC (Date (2036, 9, 20) 0 + 7 * Hour) ∧
   YearDay UTC (Date (2026, 9, 21) 0 + 7 * Hour) = YearDay UTC (Date (2036, 9, 20) 0 + 7 * Hour) ∧
   Year UTC (Date (2026, 9, 21) 0 + 7 * Hour) mod 10 = Year UTC (Date (2036, 9, 20) 0 + 7 * Hour) mod 10).
Proof. apply RRN_unique; vm_compute; (reflexivity || discriminate). Defined.

Example RRN_example : BuildRRN (Date (2026, 9, 21) 0 + 7 * Hour + 32 * Minute) "000123" = "626407000123".
Proof. vm_compute. reflexivity. Qed.
