(* ===== verification/Mask.v ===== *)
(** * Mask: PAN masking

    [gateway-go/internal/obs/mask.go].  The regular expression [\b\d{13,19}\b] is matched
    leftmost and greedily: [\d{13,19}] followed by a word boundary can only stop at the end of a
    run of digits, so a match starts at a boundary and takes a whole run of 13 to 19 digits that no
    word character follows. *)

From S2P Require Import Prelude Digits.
Local Open Scope nat_scope.

(** RE2's [\w] is ASCII; every other byte, part of a rune or not, is no word character. *)
Definition is_word (c : ascii) : bool :=
  is_digit c || ((65 <=? Z_of_ascii c)%Z && (Z_of_ascii c <=? 90)%Z) ||
  ((97 <=? Z_of_ascii c)%Z && (Z_of_ascii c <=? 122)%Z) || (Z_of_ascii c =? 95)%Z.

Fixpoint digit_run (s : string) : nat :=
  match s with String c s => if is_digit c then S (digit_run s) else 0 | "" => 0 end.

Definition starts_word (s : string) : bool :=
  match s with String c _ => is_word c | "" => false end.

(** The length of the match at this position; [prev]: the byte before is a word character. *)
Definition panLike (prev : bool) (s : string) : option nat :=
  let n := digit_run s in
  if negb prev && (13 <=? n) && (n <=? 19) && negb (starts_word (str_drop n s)) then Some n else None.

Fixpoint repeat_char (c : ascii) (n : nat) : string :=
  match n with O => "" | S n => String c (repeat_char c n) end.

Definition maskRun (m : string) : string :=
  str_take 6 m +:+ repeat_char "*" (slen m - 10) +:+ str_drop (slen m - 4) m.

(** [ReplaceAllStringFunc] from a position on; the fuel is the length that is left. *)
Fixpoint replace_from (fuel : nat) (prev : bool) (s : string) : string :=
  match fuel with
  | O => s
  | S fuel =>
      match s with
      | "" => ""
      | String c rest =>
          match panLike prev s with
          | Some n => maskRun (str_take n s) +:+ replace_from fuel true (str_drop n s)
          | None => String c (replace_from fuel (is_word c) rest)
          end
      end
  end.

Definition MaskPAN (s : string) : string := replace_from (slen s) false s.

(** The same search, only asking whether there is a match. *)
Fixpoint has_pan (prev : bool) (s : string) : bool :=
  match s with
  | "" => false
  | String c rest => (if panLike prev s then true else false) || has_pan (is_word c) rest
  end.

(** ** Properties *)

Lemma digit_run_le s : digit_run s ≤ slen s.
Proof. induction s as [|c s IH]; cbn; [done|]. case_if; lia. Qed.

Lemma is_digit_word c : is_digit c = true → is_word c = true.
Proof. unfold is_word. by intros ->. Qed.

Lemma panLike_word s : panLike true s = None.
Proof. done. Qed.

Lemma panLike_length prev s n : panLike prev s = Some n → 13 ≤ n ≤ 19 ∧ n ≤ slen s.
Proof.
  unfold panLike. intros H. case_if in H; [|done]. injection H as <-. pose proof (digit_run_le s).
  rewrite !andb_true_iff, !Nat.leb_le in Hb. lia.
Qed.

Lemma slen_repeat c n : slen (repeat_char c n) = n.
Proof. induction n as [|n IH]; [done|]. cbn. by f_equal. Qed.

Lemma slen_maskRun m : 10 ≤ slen m → slen (maskRun m) = slen m.
Proof. intros H. unfold maskRun. rewrite !slen_app, slen_repeat, slen_take, slen_drop by lia. lia. Qed.

Lemma slen_replace fuel prev s : slen (replace_from fuel prev s) = slen s.
Proof.
  revert prev s. induction fuel as [|fuel IH]; intros prev s; [done|]. cbn [replace_from].
  destruct s as [|c s]; [done|]. destruct (panLike prev (String c s)) as [n|] eqn:E.
  - pose proof (panLike_length _ _ _ E) as [H1 H2]. rewrite slen_app, slen_maskRun, IH, slen_take, slen_drop;
      rewrite ?slen_take by lia; lia.
  - cbn [String.length]. by rewrite IH.
Qed.

(** Inside a word nothing is replaced until the word ends. *)
Lemma replace_word fuel s :
  slen s ≤ fuel → digit_run (replace_from fuel true s) = digit_run s ∧
  (∀ n, n = digit_run s →
     starts_word (str_drop n (replace_from fuel true s)) = starts_word (str_drop n s)).
Proof.
  revert s. induction fuel as [|fuel IH]; intros s Hf; [by destruct s; cbn in Hf; [|lia]|].
  destruct s as [|c s]; [done|]. cbn [replace_from]. rewrite panLike_word. cbn [digit_run].
  cbn in Hf. destruct (is_digit c) eqn:Ec.
  - rewrite (is_digit_word _ Ec). destruct (IH s) as [H1 H2]; [lia|]. split; [by rewrite H1|].
    intros n ->. cbn [str_drop]. by apply H2.
  - split; [done|]. by intros n ->.
Qed.

(** A position the search passes over stays passed over. *)
Lemma panLike_replaced fuel prev c s :
  slen s ≤ fuel → panLike prev (String c s) = None →
  panLike prev (String c (replace_from fuel (is_word c) s)) = None.
Proof.
  intros Hf H. unfold panLike in *. cbn [digit_run] in *. destruct (is_digit c) eqn:Ec.
  - rewrite (is_digit_word _ Ec). destruct (replace_word fuel s Hf) as [H1 H2]. rewrite H1.
    cbn [str_drop] in *. by rewrite (H2 _ eq_refl).
  - cbn. by rewrite andb_false_r.
Qed.

Lemma has_pan_none prev c s : panLike prev (String c s) = None → has_pan prev (String c s) = has_pan (is_word c) s.
Proof. cbn [has_pan]. by intros ->. Qed.

Lemma cons_app x a b : String x a +:+ b = String x (a +:+ b).
Proof. done. Qed.

Lemma nil_app b : "" +:+ b = b.
Proof. done. Qed.

(** Six digits, then a star: too short to match. *)
Lemma has_pan_short prev a c t :
  str_forall is_digit a = true → slen a < 13 → is_word c = false →
  has_pan prev (a +:+ String c t) = has_pan false t.
Proof.
  intros Ha Hl Hc.
  assert (Hrun : ∀ b, str_forall is_digit b = true → digit_run (b +:+ String c t) = slen b).
  { induction b as [|x b IH]; rewrite ?cons_app, ?nil_app; cbn [digit_run str_forall String.length]; intros Hb.
    - destruct (is_digit c) eqn:E; [|done]. by rewrite (is_digit_word _ E) in Hc.
    - apply andb_true_iff in Hb as [-> Hb]. by rewrite IH. }
  revert prev. induction a as [|x a IH]; intros prev.
  - rewrite nil_app, has_pan_none; [by rewrite Hc|].
    unfold panLike. pose proof (Hrun "" eq_refl) as H0. rewrite nil_app in H0. rewrite H0. cbn.
    by rewrite andb_false_r.
  - cbn in Ha. apply andb_true_iff in Ha as [Hx Ha]. cbn in Hl.
    rewrite cons_app, has_pan_none; [apply IH; [done|lia]|].
    unfold panLike. cbn [digit_run]. rewrite Hx, (Hrun a Ha).
    replace (13 <=? S (slen a)) with false by (symmetry; apply Nat.leb_gt; lia).
    by rewrite andb_false_r.
Qed.

Lemma has_pan_stars k t : has_pan false (repeat_char "*" k +:+ t) = has_pan false t.
Proof. induction k as [|k IH]; [done|]. cbn [repeat_char]. by rewrite cons_app, has_pan_none. Qed.

(** The last four digits, with no word character after them. *)
Lemma has_pan_tail prev a t :
  str_forall is_digit a = true → slen a < 13 → a ≠ "" → starts_word t = false →
  has_pan prev (a +:+ t) = has_pan true t.
Proof.
  intros Ha Hl Hne Ht.
  assert (Hrun : ∀ b, str_forall is_digit b = true → digit_run (b +:+ t) = slen b).
  { induction b as [|x b IH]; rewrite ?cons_app, ?nil_app; cbn [digit_run str_forall String.length]; intros Hb.
    - destruct t as [|c t]; [done|]. cbn [digit_run] in *. destruct (is_digit c) eqn:E; [|done].
      cbn in Ht. by rewrite (is_digit_word _ E) in Ht.
    - apply andb_true_iff in Hb as [-> Hb]. by rewrite IH. }
  revert prev. induction a as [|x a IH]; intros prev; [done|].
  cbn in Ha. apply andb_true_iff in Ha as [Hx Ha]. cbn in Hl.
  rewrite cons_app, has_pan_none.
  - rewrite (is_digit_word _ Hx). destruct a as [|y a]; [done|]. apply IH; [done|lia|done].
  - unfold panLike. cbn [digit_run]. rewrite Hx, (Hrun a Ha).
    replace (13 <=? S (slen a)) with false by (symmetry; apply Nat.leb_gt; lia).
    by rewrite andb_false_r.
Qed.

Lemma str_forall_take p n s : str_forall p s = true → str_forall p (str_take n s) = true.
Proof.
  revert n. induction s as [|c s IH]; intros [|n] H; cbn in *; try done.
  apply andb_true_iff in H as [-> H]. by rewrite IH.
Qed.

Lemma str_forall_drop p n s : str_forall p s = true → str_forall p (str_drop n s) = true.
Proof.
  revert n. induction s as [|c s IH]; intros [|n] H; cbn in *; try done.
  apply andb_true_iff in H as [_ H]. by apply IH.
Qed.

Lemma digit_run_digits s : str_forall is_digit (str_take (digit_run s) s) = true.
Proof.
  induction s as [|c s IH]; [done|]. cbn [digit_run]. destruct (is_digit c) eqn:E; [|done].
  cbn. by rewrite E, IH.
Qed.

Lemma panLike_digits prev s n :
  panLike prev s = Some n → str_forall is_digit (str_take n s) = true ∧ starts_word (str_drop n s) = false.
Proof.
  unfold panLike. intros H. case_if in H; [|done]. injection H as <-. split; [apply digit_run_digits|].
  rewrite !andb_true_iff, !negb_true_iff in Hb. tauto.
Qed.

Lemma starts_word_replace fuel prev s :
  slen s ≤ fuel → starts_word s = false → starts_word (replace_from fuel prev s) = false.
Proof.
  intros Hf Hs. destruct fuel as [|fuel]; [done|]. destruct s as [|c s]; [done|]. cbn [replace_from].
  unfold panLike. cbn [digit_run]. cbn in Hs. destruct (is_digit c) eqn:E.
  - by rewrite (is_digit_word _ E) in Hs.
  - cbn. by rewrite andb_false_r.
Qed.

Lemma replace_no_pan fuel prev s : slen s ≤ fuel → has_pan prev (replace_from fuel prev s) = false.
Proof.
  revert prev s. induction fuel as [|fuel IH]; intros prev s Hf; [by destruct s; cbn in Hf; [|lia]|].
  destruct s as [|c s]; [done|]. cbn [replace_from]. destruct (panLike prev (String c s)) as [n|] eqn:E.
  - pose proof (panLike_length _ _ _ E) as [H1 H2]. pose proof (panLike_digits _ _ _ E) as [H3 H4].
    unfold maskRun. rewrite slen_take by done.
    set (m := str_take n (String c s)) in *.
    assert (Hm : slen m = n) by by apply slen_take.
    replace (n - 10) with (S (n - 11)) by lia. cbn [repeat_char]. rewrite !app_assoc_str.
    rewrite cons_app, has_pan_short; [|by apply str_forall_take|rewrite slen_take by lia; lia|done].
    rewrite has_pan_stars, has_pan_tail.
    + apply IH. rewrite slen_drop. lia.
    + by apply str_forall_drop.
    + rewrite slen_drop. lia.
    + intros He. apply (f_equal slen) in He. rewrite slen_drop in He. cbn [String.length] in He. lia.
    + apply starts_word_replace; [rewrite slen_drop; lia|done].
  - cbn in Hf. rewrite has_pan_none by (apply panLike_replaced; [lia|done]). apply IH. lia.
Qed.

Lemma replace_id fuel prev s : slen s ≤ fuel → has_pan prev s = false → replace_from fuel prev s = s.
Proof.
  revert prev s. induction fuel as [|fuel IH]; intros prev s Hf H; [done|].
  destruct s as [|c s]; [done|]. cbn [replace_from]. cbn [has_pan] in H.
  apply orb_false_iff in H as [H1 H2]. destruct (panLike prev (String c s)); [done|].
  f_equal. apply IH; [cbn in Hf; lia|done].
Qed.

Lemma MaskPAN_no_pan s : has_pan false (MaskPAN s) = false.
Proof. by apply replace_no_pan. Qed.

Lemma MaskPAN_idem s : MaskPAN (MaskPAN s) = MaskPAN s.
Proof. apply replace_id; [done|apply MaskPAN_no_pan]. Qed.

(** Masking is complete and gentle: the masked text contains nothing that looks like a PAN any
    more, has the length of the original, is unchanged by masking it again, and a text without
    PANs is left alone byte for byte. *)
Theorem MaskPAN_complete s :
  has_pan false (MaskPAN s) = false ∧ slen (MaskPAN s) = slen s ∧ MaskPAN (MaskPAN s) = MaskPAN s ∧
  (has_pan false s = false → MaskPAN s = s).
Proof.
  split; [apply MaskPAN_no_pan|]. split; [apply slen_replace|]. split; [apply MaskPAN_idem|].
  by apply replace_id.
Qed.

Lemma MaskPAN_complete_witness :
  has_pan false (MaskPAN "PAN 9704360000004417, ref 123") = false ∧
  slen (MaskPAN "PAN 9704360000004417, ref 123") = 29 ∧
  MaskPAN (MaskPAN "PAN 9704360000004417, ref 123") = MaskPAN "PAN 9704360000004417, ref 123" ∧
  (has_pan false "PAN 9704360000004417, ref 123" = false →
   MaskPAN "PAN 9704360000004417, ref 123" = "PAN 9704360000004417, ref 123").
Proof. apply MaskPAN_complete. Defined.

Example MaskPAN_card : MaskPAN "PAN 9704360000004417, ref 123" = "PAN 970436******4417, ref 123".
Proof. reflexivity. Qed.
