(* ===== verification/Store.v ===== *)
(** * Store: tran_log, tran_state_history, saf_queue and idempotency_record

    [gateway-go/internal/store]: tranlog.go, safqueue.go and terminal.go over the tables of
    [gateway-go/migrations].  Every repository method is one SQL statement or one transaction, so
    it is a function of the database and of [now()] that either returns and changes the database or
    fails and leaves it as it was.  NULL text is the empty string, as the statements' [NULLIF] and
    [coalesce] make it. *)

From S2P Require Import Prelude Digits KeyStore Calendar.
Local Open Scope Z_scope.

(** ** Errors *)

(** The sentinel errors of the gateway.  A Go error is the chain [errors.Is] walks: wrapping with
    [%w] and [errors.Join] put chains together. *)
Inductive sentinel :=
  | ErrNotFound | ErrNotReversible | ErrNotCompletable | ErrStateMoved | ErrUnknownTerminal
  | ErrIdempotencyKeyMismatch | ErrIdempotencyInProgress | ErrReservationLost
  | ErrUnknownCardToken | ErrExceedsHold | ErrAfterSend | ErrNotSignedOn
  | errNeverSent | errNoLiveLink
  | ErrDatabase                          (* any error of the database driver *)
  | ErrOther (text : string).

#[export] Instance sentinel_eq_dec : EqDecision sentinel.
Proof. solve_decision. Defined.

Definition error : Type := list sentinel.

Definition errors_Is (e : error) (s : sentinel) : bool := existsb (λ x, bool_decide (x = s)) e.

Definition errors_Join (a b : error) : error := a ++ b.

(** ** Rows *)

(** Go's zero [time.Time], 1 January of year 1. *)
Definition zero_time : time := -62135596800 * Second.
Definition IsZero (t : time) : bool := t =? zero_time.

Record Money := mkMoney { Amount : Z; Currency : string }.

Record TranLogRow := mkTran {
  ID : Z; RRN : string; Type_ : string; Status : string; tAmount : Z; tCurrency : string;
  MaskedPAN : string; TerminalID : string; MerchantID : string; MerchantName : string;
  NetworkSTAN : string; ResponseCode : string; AuthCode : string; CreatedAt : time;
  LateResponseCode : string; LateResponseAt : option time;
  MTI : string; ProcessingCode : string; POSEntryMode : string; SentAt : option time;
  RespondedAt : option time; CardToken : string;
  ApprovedAmount : option Z; Balance : option Money; OriginalRRN : string; TraceID : string;
  ReversalReasonCode : string; CompletedBy : string; BusinessDate : time
}.

(** The columns the statements rewrite: state, codes and their times, amounts, late response,
    reversal reason, claim. *)
Definition rewrite_row (r : TranLogRow) (st rc ac : string) (responded : option time) : TranLogRow :=
  mkTran (ID r) (RRN r) (Type_ r) st (tAmount r) (tCurrency r) (MaskedPAN r) (TerminalID r)
    (MerchantID r) (MerchantName r) (NetworkSTAN r) rc ac (CreatedAt r) (LateResponseCode r)
    (LateResponseAt r) (MTI r) (ProcessingCode r) (POSEntryMode r) (SentAt r) responded (CardToken r)
    (ApprovedAmount r) (Balance r) (OriginalRRN r) (TraceID r) (ReversalReasonCode r) (CompletedBy r)
    (BusinessDate r).

Definition set_state (r : TranLogRow) (st : string) : TranLogRow :=
  rewrite_row r st (ResponseCode r) (AuthCode r) (RespondedAt r).

Definition with_extra (r : TranLogRow) (id : Z) (name : string) (created : time) (late_rc : string)
    (late_at : option time) (approved : option Z) (balance : option Money) (reason completed : string)
    (date : time) : TranLogRow :=
  mkTran id (RRN r) (Type_ r) (Status r) (tAmount r) (tCurrency r) (MaskedPAN r) (TerminalID r)
    (MerchantID r) name (NetworkSTAN r) (ResponseCode r) (AuthCode r) created late_rc
    late_at (MTI r) (ProcessingCode r) (POSEntryMode r) (SentAt r) (RespondedAt r) (CardToken r)
    approved balance (OriginalRRN r) (TraceID r) reason completed date.

Definition set_name (r : TranLogRow) (name : string) : TranLogRow :=
  with_extra r (ID r) name (CreatedAt r) (LateResponseCode r) (LateResponseAt r) (ApprovedAmount r)
    (Balance r) (ReversalReasonCode r) (CompletedBy r) (BusinessDate r).
Definition set_reason (r : TranLogRow) (reason : string) : TranLogRow :=
  with_extra r (ID r) (MerchantName r) (CreatedAt r) (LateResponseCode r) (LateResponseAt r)
    (ApprovedAmount r) (Balance r) reason (CompletedBy r) (BusinessDate r).
Definition set_completed (r : TranLogRow) (rrn : string) : TranLogRow :=
  with_extra r (ID r) (MerchantName r) (CreatedAt r) (LateResponseCode r) (LateResponseAt r)
    (ApprovedAmount r) (Balance r) (ReversalReasonCode r) rrn (BusinessDate r).
Definition set_late (r : TranLogRow) (rc : string) (at_ : option time) : TranLogRow :=
  with_extra r (ID r) (MerchantName r) (CreatedAt r) rc at_ (ApprovedAmount r) (Balance r)
    (ReversalReasonCode r) (CompletedBy r) (BusinessDate r).
Definition set_amounts (r : TranLogRow) (approved : option Z) (balance : option Money) : TranLogRow :=
  with_extra r (ID r) (MerchantName r) (CreatedAt r) (LateResponseCode r) (LateResponseAt r) approved
    balance (ReversalReasonCode r) (CompletedBy r) (BusinessDate r).
Definition set_ID (r : TranLogRow) (id : Z) : TranLogRow :=
  with_extra r id (MerchantName r) (CreatedAt r) (LateResponseCode r) (LateResponseAt r)
    (ApprovedAmount r) (Balance r) (ReversalReasonCode r) (CompletedBy r) (BusinessDate r).

Record StateTransition := mkTransition { FromStatus : string; ToStatus : string; At : time }.

Record SafRow := mkSaf {
  s_id : Z; TranID : Z; s_mti : string; Payload : string; s_status : string; Attempts : Z;
  MaxAttempts : Z; NextRetryAt : time; LastError : string; s_created : time; AckedAt : option time
}.

(** An idempotency_record row; [token] is the reservation's, [rrn] the one it attached ("" for
    NULL). *)
Record IdemRow := mkIdem {
  i_hash : string; i_status : Z; i_body : string; i_created : time; i_rrn : string; i_token : option Z
}.

Record MerchantRow := mkMerchantRow { m_name : string; m_mcc : string }.

Record DB := mkDB {
  tran : gmap Z TranLogRow; next_tran : Z;
  history : list (Z * StateTransition);
  saf : gmap Z SafRow; next_saf : Z;
  idem : gmap (string * string) IdemRow; next_token : Z;
  merchants : gmap string MerchantRow;     (* by mid *)
  terminals : gmap string string           (* tid -> mid *)
}.

Definition set_tran (db : DB) (m : gmap Z TranLogRow) : DB :=
  mkDB m (next_tran db) (history db) (saf db) (next_saf db) (idem db) (next_token db) (merchants db) (terminals db).
Definition add_history (db : DB) (id : Z) (st : StateTransition) : DB :=
  mkDB (tran db) (next_tran db) (history db ++ [(id, st)]) (saf db) (next_saf db) (idem db) (next_token db)
       (merchants db) (terminals db).
Definition set_saf (db : DB) (m : gmap Z SafRow) : DB :=
  mkDB (tran db) (next_tran db) (history db) m (next_saf db) (idem db) (next_token db) (merchants db) (terminals db).
Definition set_idem (db : DB) (m : gmap (string * string) IdemRow) : DB :=
  mkDB (tran db) (next_tran db) (history db) (saf db) (next_saf db) m (next_token db) (merchants db) (terminals db).

(** A repository call: what it answers and the database it leaves. *)
Definition dbcall (A : Type) : Type := DB → result error A * DB.

(** [UPDATE tran_log ... WHERE id = $1 AND wh], with the number of rows it changed. *)
Definition update_tran (id : Z) (wh : TranLogRow → bool) (f : TranLogRow → TranLogRow) (db : DB) : nat * DB :=
  match tran db !! id with
  | Some r => if wh r then (1%nat, set_tran db (<[id := f r]> (tran db))) else (0%nat, db)
  | None => (0%nat, db)
  end.

(** ** tranlog.go: statuses *)

Definition statusCreated : string := "CREATED".
Definition statusSent : string := "SENT".
Definition statusApproved : string := "APPROVED".
Definition statusDeclined : string := "DECLINED".
Definition statusTimedOut : string := "TIMED_OUT".
Definition statusReversalPending : string := "REVERSAL_PENDING".
Definition statusReversed : string := "REVERSED".
Definition statusFailed : string := "FAILED".

(** The CHECK constraint of tran_log.state. *)
Definition states : list string :=
  [statusCreated; statusSent; statusApproved; statusDeclined; statusTimedOut; statusReversalPending;
   statusReversed; statusFailed].
Definition valid_state (s : string) : bool := existsb (String.eqb s) states.

Definition reversalReasonByCode : gmap string string :=
  {[ "17" := "CUSTOMER_CANCELLATION"; "68" := "TIMEOUT"; "06" := "MAC_FAILURE" ]}.

Definition ReversalReasonOf (code : string) : string :=
  if String.eqb code "" then ""
  else match reversalReasonByCode !! code with
       | Some reason => reason
       | None => "SEND_FAILURE"
       end.

(** ** tranlog.go: tran_log *)

(** The row as the INSERT stores it: the columns it does not name are NULL. *)
Definition inserted (now : time) (id : Z) (row : TranLogRow) : TranLogRow :=
  mkTran id (RRN row) (Type_ row) (Status row) (tAmount row) (tCurrency row) (MaskedPAN row) (TerminalID row)
    (MerchantID row) "" (NetworkSTAN row) (ResponseCode row) (AuthCode row) now "" None (MTI row)
    (ProcessingCode row) (POSEntryMode row) (SentAt row) None (CardToken row) None None (OriginalRRN row)
    (TraceID row) "" "" (if IsZero (BusinessDate row) then date_of (local_day UTC now) else BusinessDate row).

Definition insertTranLog (now : time) (row : TranLogRow) : dbcall Z := λ db,
  match terminals db !! TerminalID row with
  | Some _ =>
      if valid_state (Status row) then
        let id := next_tran db in
        (Ok id, mkDB (<[id := inserted now id row]> (tran db)) (id + 1) (history db) (saf db) (next_saf db)
                     (idem db) (next_token db) (merchants db) (terminals db))
      else (Err [ErrDatabase], db)
  | None => (Err [ErrDatabase], db)
  end.

(** The claim of [InsertCompletion], on whichever rows carry the RRN. *)
Definition completable (preAuthRRN : string) (r : TranLogRow) : bool :=
  String.eqb (RRN r) preAuthRRN && String.eqb (Type_ r) "PREAUTH" &&
  String.eqb (Status r) statusApproved && String.eqb (CompletedBy r) "".

Definition InsertCompletion (now : time) (completion : TranLogRow) (preAuthRRN : string) : dbcall Z := λ db,
  let claimed := (λ r, if completable preAuthRRN r then set_completed r (RRN completion) else r) <$> tran db in
  if existsb (λ kv, completable preAuthRRN kv.2) (map_to_list (tran db)) then
    match insertTranLog now completion (set_tran db claimed) with
    | (Ok id, db') => (Ok id, db')
    | (Err e, _) => (Err e, db)
    end
  else (Err [ErrNotCompletable], db).

Definition UpdateStatus (now : time) (id : Z) (status responseCode authCode : string) : dbcall () := λ db,
  if valid_state status then
    (Ok (), (update_tran id (λ _, true) (λ r, rewrite_row r status responseCode authCode (Some now)) db).2)
  else match tran db !! id with Some _ => (Err [ErrDatabase], db) | None => (Ok (), db) end.

Definition UpdateAmounts (id : Z) (approvedAmount : option Z) (balance : option Money) : dbcall () := λ db,
  (Ok (), (update_tran id (λ _, true) (λ r, set_amounts r approvedAmount balance) db).2).

Definition UpdateLateResponse (now : time) (rrn responseCode : string) : dbcall () := λ db,
  (Ok (), set_tran db ((λ r, if String.eqb (RRN r) rrn then set_late r responseCode (Some now) else r) <$> tran db)).

Definition RecordStateTransition (now : time) (id : Z) (fromStatus toStatus : string) : dbcall () := λ db,
  match tran db !! id with
  | Some _ => (Ok (), add_history db id (mkTransition fromStatus toStatus now))
  | None => (Err [ErrDatabase], db)
  end.

(** [ORDER BY created_at ASC, id ASC]: a stable insertion by time. *)
Fixpoint insert_at (st : StateTransition) (l : list StateTransition) : list StateTransition :=
  match l with
  | [] => [st]
  | x :: l => if At st <? At x then st :: x :: l else x :: insert_at st l
  end.

Definition ListStateHistory (id : Z) : dbcall (list StateTransition) := λ db,
  (Ok (fold_left (λ l st, insert_at st l)
         (map snd (List.filter (λ kv, fst kv =? id) (history db))) []), db).

Definition id_le {A} (a b : Z * A) : Prop := a.1 ≤ b.1.
#[export] Instance id_le_dec {A} : RelDecision (@id_le A).
Proof. intros a b. unfold id_le. apply _. Defined.

(** The rows of a table in id order. *)
Definition by_id {A} (m : gmap Z A) : list (Z * A) := merge_sort id_le (map_to_list m).

(** tran_log joined with merchant, in id order. *)
Definition joined (db : DB) : list TranLogRow :=
  omap (λ kv : Z * TranLogRow, m ← merchants db !! MerchantID kv.2; Some (set_name kv.2 (m_name m)))
       (by_id (tran db)).

(** RRNs are not unique; the first row in id order stands for "any". *)
Definition GetTran (rrn : string) : dbcall TranLogRow := λ db,
  match List.find (λ r, String.eqb (RRN r) rrn) (joined db) with
  | Some r => (Ok r, db)
  | None => (Err [ErrNotFound], db)
  end.

(** Several rows may carry the RRN. *)
Definition ReleaseCompletion (preAuthRRN completionRRN : string) : dbcall () := λ db,
  (Ok (), set_tran db ((λ r, if String.eqb (RRN r) preAuthRRN && negb (String.eqb (CompletedBy r) "")
                                  && String.eqb (CompletedBy r) completionRRN
                             then set_completed r "" else r) <$> tran db)).

Definition has_saf (db : DB) (tran_id : Z) : bool :=
  existsb (λ kv : Z * SafRow, TranID kv.2 =? tran_id) (map_to_list (saf db)).

Definition is_orphan (db : DB) (sentBefore : time) (r : TranLogRow) : bool :=
  match SentAt r with Some at_ => at_ <? sentBefore | None => false end &&
  (String.eqb (Status r) statusSent
   || (String.eqb (Status r) statusTimedOut && negb (String.eqb (Type_ r) "BALANCE") && negb (has_saf db (ID r)))
   || (String.eqb (Status r) statusDeclined && String.eqb (ResponseCode r) "96"
       && negb (String.eqb (Type_ r) "BALANCE") && negb (String.eqb (Type_ r) "COMPLETION")
       && negb (has_saf db (ID r)))).

Definition FindOrphans (sentBefore : time) (limit : nat) : dbcall (list TranLogRow) := λ db,
  (Ok (take limit (List.filter (is_orphan db sentBefore) (joined db))), db).

Definition MarkTimedOut (now : time) (id : Z) : dbcall bool := λ db,
  match update_tran id (λ r, String.eqb (Status r) statusSent) (λ r, set_state r statusTimedOut) db with
  | (O, _) => (Ok false, db)
  | (_, db) => (Ok true, add_history db id (mkTransition statusSent statusTimedOut now))
  end.

Definition UpdateStatusFrom (now : time) (id : Z) (from status responseCode authCode : string) : dbcall () := λ db,
  if valid_state status then
    match update_tran id (λ r, String.eqb (Status r) from)
            (λ r, rewrite_row r status responseCode authCode (Some now)) db with
    | (O, _) => (Err [ErrStateMoved], db)
    | (_, db) => (Ok (), db)
    end
  else match tran db !! id with
       | Some r => if String.eqb (Status r) from then (Err [ErrDatabase], db) else (Err [ErrStateMoved], db)
       | None => (Err [ErrStateMoved], db)
       end.

(** ** tranlog.go: idempotency_record *)

Definition idempotencyTTL : duration := 24 * Hour.
Definition pendingStatus : Z := 0.

(** What [Reserve] answers: the caller holds the key, or a stored response, or what is in flight. *)
Record StoredResponse := mkStored { r_status : Z; r_body : string }.

Inductive reserved :=
  | Holds (token : Z)
  | Replay (resp : StoredResponse)
  | InProgress (rrn : string) (ReservedAt : time).   (* an *InProgressError *)

Definition upsert_idem (db : DB) (key route : string) (r : IdemRow) (bump : Z) : DB :=
  mkDB (tran db) (next_tran db) (history db) (saf db) (next_saf db) (<[(key, route) := r]> (idem db))
       (next_token db + bump) (merchants db) (terminals db).

(** The two statements run as one step, so the key is not released between them (a plain
    ErrIdempotencyInProgress); [gen_random_uuid] gives a token never given before. *)
Definition Reserve (now : time) (key route requestHash : string) : dbcall reserved := λ db,
  let fresh := mkIdem requestHash pendingStatus "null" now "" (Some (next_token db)) in
  match idem db !! (key, route) with
  | None => (Ok (Holds (next_token db)), upsert_idem db key route fresh 1)
  | Some r =>
      if i_created r <? now - idempotencyTTL then
        (Ok (Holds (next_token db)), upsert_idem db key route fresh 1)
      else if negb (String.eqb (i_hash r) requestHash) then (Err [ErrIdempotencyKeyMismatch], db)
      else if i_status r =? pendingStatus then (Ok (InProgress (i_rrn r) (i_created r)), db)
      else (Ok (Replay (mkStored (i_status r) (i_body r))), db)
  end.

Definition StoreResponse (now : time) (key route requestHash : string) (status : Z) (body : string) : dbcall () := λ db,
  match idem db !! (key, route) with
  | None => (Ok (), upsert_idem db key route (mkIdem requestHash status body now "" None) 0)
  | Some r => (Ok (), upsert_idem db key route
                        (mkIdem requestHash status body (i_created r) (i_rrn r) (i_token r)) 0)
  end.

Definition holds (token : Z) (r : IdemRow) : bool :=
  (i_status r =? pendingStatus) && match i_token r with Some t => t =? token | None => false end.

Definition AttachRRN (key route : string) (token : Z) (rrn : string) : dbcall () := λ db,
  match idem db !! (key, route) with
  | Some r => if holds token r then
                (Ok (), upsert_idem db key route
                          (mkIdem (i_hash r) (i_status r) (i_body r) (i_created r) rrn (i_token r)) 0)
              else (Err [ErrReservationLost], db)
  | None => (Err [ErrReservationLost], db)
  end.

Definition Release (key route : string) (token : Z) : dbcall () := λ db,
  match idem db !! (key, route) with
  | Some r => if holds token r then (Ok (), set_idem db (delete (key, route) (idem db))) else (Ok (), db)
  | None => (Ok (), db)
  end.

(** [None]: not reclaimed. *)
Definition Reclaim (now : time) (key route requestHash : string) (staleAfter : duration) : dbcall (option Z) := λ db,
  match idem db !! (key, route) with
  | Some r =>
      if String.eqb (i_hash r) requestHash && (i_status r =? pendingStatus) && String.eqb (i_rrn r) ""
         && (i_created r <? now - staleAfter) then
        (Ok (Some (next_token db)),
         upsert_idem db key route
           (mkIdem (i_hash r) (i_status r) (i_body r) now (i_rrn r) (Some (next_token db))) 1)
      else (Ok None, db)
  | None => (Ok None, db)
  end.

(** ** safqueue.go *)

Definition sPending : string := "PENDING".
Definition sInFlight : string := "IN_FLIGHT".
Definition sAcked : string := "ACKED".
Definition sDead : string := "DEAD".

Definition mtiReversalAdvice : string := "0420".
Definition mtiCompletionAdvice : string := "0220".

(** The INSERT into saf_queue: its foreign key and the CHECK on mti, the defaults of the rest. *)
Definition insert_saf (now : time) (tranID : Z) (mti payload : string) : dbcall Z := λ db,
  match tran db !! tranID with
  | Some _ =>
      if existsb (String.eqb mti) ["0120"; "0220"; "0420"] then
        let id := next_saf db in
        (Ok id, mkDB (tran db) (next_tran db) (history db)
                  (<[id := mkSaf id tranID mti payload sPending 0 20 now "" now None]> (saf db)) (id + 1)
                  (idem db) (next_token db) (merchants db) (terminals db))
      else (Err [ErrDatabase], db)
  | None => (Err [ErrDatabase], db)
  end.

Definition Enqueue : time → Z → string → string → dbcall Z := insert_saf.

Definition due (now : time) (r : SafRow) : bool :=
  (String.eqb (s_status r) sPending || String.eqb (s_status r) sInFlight) && (NextRetryAt r <=? now).

Definition reschedule (r : SafRow) (status : string) (attempts : Z) (next : time) (err : string) : SafRow :=
  mkSaf (s_id r) (TranID r) (s_mti r) (Payload r) status attempts (MaxAttempts r) next err (s_created r) (AckedAt r).

(** Timestamps have microseconds: [lease.Microseconds()]. *)
Definition lease_end (now : time) (lease : duration) : time := now + Z.quot lease 1000 * 1000.

Definition claim (now : time) (lease : duration) (r : SafRow) : SafRow :=
  reschedule r sInFlight (Attempts r) (lease_end now lease) (LastError r).

(** The rows are returned in id order. *)
Definition ClaimDue (now : time) (limit : nat) (lease : duration) : dbcall (list SafRow) := λ db,
  let claimed := map (λ kv : Z * SafRow, (kv.1, claim now lease kv.2))
                     (take limit (List.filter (λ kv : Z * SafRow, due now kv.2) (by_id (saf db)))) in
  (Ok (map snd claimed), set_saf db (list_to_map claimed ∪ saf db)).

Definition update_saf (id : Z) (f : SafRow → SafRow) (db : DB) : DB :=
  match saf db !! id with Some r => set_saf db (<[id := f r]> (saf db)) | None => db end.

Definition set_payload (payload : string) (r : SafRow) : SafRow :=
  mkSaf (s_id r) (TranID r) (s_mti r) payload (s_status r) (Attempts r) (MaxAttempts r) (NextRetryAt r)
        (LastError r) (s_created r) (AckedAt r).

Definition UpdatePayload (id : Z) (payload : string) : dbcall () := λ db,
  (Ok (), update_saf id (set_payload payload) db).

Definition MarkInFlight (id attempts : Z) (nextRetryAt : time) (lastError : string) : dbcall () := λ db,
  (Ok (), update_saf id (λ r, reschedule r sInFlight attempts nextRetryAt lastError) db).

Definition FindReversal (tranID : Z) : dbcall SafRow := λ db,
  match last (List.filter (λ kv : Z * SafRow, (TranID kv.2 =? tranID) && String.eqb (s_mti kv.2) mtiReversalAdvice)
                (by_id (saf db))) with
  | Some kv => (Ok kv.2, db)
  | None => (Err [ErrNotFound], db)
  end.

(** [finishOnAck], given what [update] sets. *)
Definition finishOnAck (now : time) (tranID : Z) (from to : string) (f : TranLogRow → TranLogRow) (db : DB) : DB :=
  match update_tran tranID (λ r, String.eqb (Status r) from) f db with
  | (O, _) => db
  | (_, db) => add_history db tranID (mkTransition from to now)
  end.

Definition ack (now : time) (r : SafRow) : SafRow :=
  mkSaf (s_id r) (TranID r) (s_mti r) (Payload r) sAcked (Attempts r) (MaxAttempts r) (NextRetryAt r)
        (LastError r) (s_created r) (Some now).

Definition MarkAcked (now : time) (id : Z) : dbcall () := λ db,
  match saf db !! id with
  | None => (Err [ErrDatabase], db)        (* pgx.ErrNoRows *)
  | Some r =>
      let db := update_saf id (ack now) db in
      (Ok (), if String.eqb (s_mti r) mtiReversalAdvice then
                finishOnAck now (TranID r) statusReversalPending statusReversed
                  (λ t, set_state t statusReversed) db
              else if String.eqb (s_mti r) mtiCompletionAdvice then
                finishOnAck now (TranID r) statusTimedOut statusApproved
                  (λ t, rewrite_row t statusApproved "00" (AuthCode t) (Some now)) db
              else db)
  end.

Definition TranRRN (id : Z) : dbcall string := λ db,
  match saf db !! id with
  | Some s => match tran db !! TranID s with
              | Some t => (Ok (RRN t), db)
              | None => (Err [ErrNotFound], db)
              end
  | None => (Err [ErrNotFound], db)
  end.

Definition MarkDead (id : Z) (lastError : string) : dbcall () := λ db,
  (Ok (), update_saf id (λ r, reschedule r sDead (Attempts r) (NextRetryAt r) lastError) db).

Definition owed (r : SafRow) : bool :=
  String.eqb (s_status r) sPending || String.eqb (s_status r) sInFlight.
Definition dead (r : SafRow) : bool := String.eqb (s_status r) sDead.

Definition ListPending : dbcall (list SafRow * nat) := λ db,
  let all := map snd (by_id (saf db)) in
  (Ok (List.filter owed all, length (List.filter dead all)), db).

Record SafItemRow := mkSafItem {
  si_id : Z; si_mti : string; si_rrn : string; si_amount : Z; si_currency : string;
  si_attempts : Z; si_status : string; si_next : time; si_error : string
}.

Definition SafItemsCap : nat := 200.

Record SafSnapshot := mkSnapshot { Items : list SafItemRow; Depth : nat; DeadCount : nat }.

Definition saf_item (db : DB) (s : SafRow) : option SafItemRow :=
  t ← tran db !! TranID s;
  Some (mkSafItem (s_id s) (s_mti s) (RRN t) (tAmount t) (tCurrency t) (Attempts s) (s_status s)
                  (NextRetryAt s) (LastError s)).

(** [ORDER BY s.status = 'DEAD', s.id]. *)
Definition ListItems : dbcall SafSnapshot := λ db,
  let all := map snd (by_id (saf db)) in
  (Ok (mkSnapshot (take SafItemsCap (omap (saf_item db) (List.filter owed all ++ List.filter dead all)))
         (length (List.filter owed all)) (length (List.filter dead all))), db).

(** ** terminal.go *)

Record Merchant := mkMerchant { MID : string; Name : string }.

Definition GetMerchant (tid : string) : dbcall Merchant := λ db,
  match (mid ← terminals db !! tid; m ← merchants db !! mid; Some (mkMerchant mid (m_name m))) with
  | Some m => (Ok m, db)
  | None => (Err [ErrUnknownTerminal], db)
  end.

Record FixtureTerminal := mkFixtureTerminal {
  ft_TerminalID : string; ft_MerchantID : string; ft_MerchantName : string; ft_MCC : string }.

(** [ORDER BY t.tid]: insertion in byte order. *)
Fixpoint insert_tid (t : FixtureTerminal) (l : list FixtureTerminal) : list FixtureTerminal :=
  match l with
  | [] => [t]
  | x :: l' => if String.ltb (ft_TerminalID t) (ft_TerminalID x) then t :: l else x :: insert_tid t l'
  end.

(** The method is named [List]. *)
Definition ListTerminals : dbcall (list FixtureTerminal) := λ db,
  (Ok (foldr insert_tid []
         (omap (λ kv : string * string, m ← merchants db !! kv.2; Some (mkFixtureTerminal kv.1 kv.2 (m_name m) (m_mcc m)))
               (map_to_list (terminals db)))), db).

(** A value longer than its column is refused; the two upserts of one terminal. *)
Definition upsert_terminal (t : FixtureTerminal) (db : DB) : option DB :=
  if (15 <? slen (ft_MerchantID t))%nat || (4 <? slen (ft_MCC t))%nat || (8 <? slen (ft_TerminalID t))%nat then None
  else Some (mkDB (tran db) (next_tran db) (history db) (saf db) (next_saf db) (idem db) (next_token db)
               (<[ft_MerchantID t := mkMerchantRow (ft_MerchantName t) (ft_MCC t)]> (merchants db))
               (<[ft_TerminalID t := ft_MerchantID t]> (terminals db))).

Fixpoint upsert_all (ts : list FixtureTerminal) (db : DB) : option DB :=
  match ts with
  | [] => Some db
  | t :: ts => db ← upsert_terminal t db; upsert_all ts db
  end.

(** One transaction. *)
Definition UpsertFromFixture (ts : list FixtureTerminal) : dbcall () := λ db,
  match upsert_all ts db with Some db' => (Ok (), db') | None => (Err [ErrDatabase], db) end.
