(* ===== verification/Journey.v ===== *)
(** * Journey: the plain-language story of a transaction

    [gateway-go/internal/journey]: builder.go, steps.go, message.go, types.go and easytext.go.  A
    journey is a function of one tran_log row, its state history and its queued reversal. *)

From S2P Require Import Prelude Digits Fields Codec Mux KeyStore Calendar Mask Store.
Local Open Scope Z_scope.

(** ** easytext.go *)

Definition rcEasyText : gmap string string := list_to_map
  [("00", "Approved"); ("05", "Do not honor"); ("06", "Reversal error"); ("10", "Partially approved");
   ("12", "Invalid transaction"); ("13", "Invalid amount"); ("14", "Unknown card");
   ("17", "Cancelled by customer"); ("30", "Message format error"); ("51", "Insufficient funds");
   ("54", "Card is expired"); ("55", "Incorrect PIN"); ("57", "Not allowed for this card");
   ("61", "Limit exceeded"); ("62", "Card is blocked"); ("65", "Too many transactions");
   ("68", "Response arrived too late"); ("75", "Too many PIN attempts"); ("91", "Link is down");
   ("94", "Duplicate transaction"); ("95", "Reconciliation error"); ("96", "System error")].

Definition EasyTextForRC (rc : string) : string := default "Declined" (rcEasyText !! rc).

(** ** builder.go: data *)

Inductive Actor := ActorPOS | ActorAcquirer | ActorIssuer | ActorSAF.
Inductive StepKind := KindOK | KindBad | KindWarn | KindInfo | KindReversal.
Inductive StepCode :=
  | CodePOSRequest | CodeRequestSent | CodeLocalDecline | CodeIssuerApproved | CodeIssuerDeclined
  | CodeNoResponse | CodeReversalQueued | CodePOSResult | CodeReversalSent | CodeReversalConfirmed
  | CodeLateResponse.

#[export] Instance StepCode_eq_dec : EqDecision StepCode.
Proof. solve_decision. Defined.

Record IsoField := mkIsoField {
  f_DE : string; EasyName : string; TechnicalName : string; Format_ : string; Value : string }.

Record IsoMessage := mkIsoMessage { m_MTI : string; m_Fields : list IsoField }.

Record Step := mkStep {
  Seq : Z; Code : StepCode; Actor_ : Actor; OffsetMs : Z; Title : string; EasyText : string;
  TechnicalText : string; Kind : StepKind; Message : option IsoMessage }.

Record MoneyRow := mkMoneyRow { Label : string; Delta : Z; BalanceAfter : option Z; AtStep : Z }.

Record Journey := mkJourney { Steps : list Step; Money_ : list MoneyRow }.

Record Reversal := mkReversal {
  rStatus : string; rAttempts : Z; QueuedAt : time; rAckedAt : option time; rFields : fieldmap }.

Record timedStep := mkTimed { at_time : time; step_of : Step }.

Record builder := mkBuilder { txn : TranLogRow; hist : list StateTransition; rev : option Reversal }.

(** ** types.go *)

Definition tranTypePreAuth : string := "PREAUTH".
Definition tranTypeCompletion : string := "COMPLETION".
Definition tranTypeRefund : string := "REFUND".
Definition tranTypeBalance : string := "BALANCE".
Definition mtiRequest : string := "0200".

Definition orDash (s : string) : string := if String.eqb s "" then "-" else s.

Definition mtiPair (b : builder) : string * string :=
  if String.eqb (Type_ (txn b)) tranTypePreAuth then ("0100", "0110")
  else if String.eqb (Type_ (txn b)) tranTypeCompletion then ("0220", "0230")
  else (mtiRequest, "0210").

Definition requestMTI (b : builder) : string := (mtiPair b).1.
Definition responseMTI (b : builder) : string := (mtiPair b).2.

Definition requestPath (b : builder) : string :=
  let t := Type_ (txn b) in
  if String.eqb t tranTypePreAuth then "/v1/transactions/pre-authorizations"
  else if String.eqb t tranTypeCompletion then
    "/v1/transactions/" +:+ orDash (OriginalRRN (txn b)) +:+ "/completions"
  else if String.eqb t tranTypeRefund then "/v1/transactions/refunds"
  else if String.eqb t tranTypeBalance then "/v1/transactions/balance-inquiries"
  else "/v1/transactions/purchases".

Definition carries (b : builder) (de : string) : bool :=
  if String.eqb (Type_ (txn b)) tranTypeCompletion then negb (String.eqb de "2") && negb (String.eqb de "22")
  else if String.eqb (Type_ (txn b)) tranTypeBalance then negb (String.eqb de "4") && negb (String.eqb de "49")
  else true.

Definition approvedText (b : builder) : string :=
  if String.eqb (Type_ (txn b)) tranTypePreAuth then "The card's bank approved and held the money."
  else if String.eqb (Type_ (txn b)) tranTypeRefund then "The card's bank approved and gave the money back."
  else if String.eqb (Type_ (txn b)) tranTypeBalance then "The card's bank answered with the balance."
  else "The card's bank approved and took the money.".

Definition moneySign (tranType : string) : Z :=
  if String.eqb tranType tranTypeRefund then 1
  else if String.eqb tranType tranTypeBalance then 0
  else -1.

(** ** builder.go: times *)

(** [t.Sub(u)] saturates at the ends of [time.Duration]. *)
Definition Sub (t u : time) : duration := Z.max (- 2 ^ 63) (Z.min (2 ^ 63 - 1) (t - u)).

Definition Milliseconds (d : duration) : Z := Z.quot d 1000000.

Definition msBetween (from to : time) : Z := Z.max 0 (Milliseconds (Sub to from)).

Definition start (b : builder) : time :=
  let start := CreatedAt (txn b) in
  let start := match SentAt (txn b) with
               | Some at_ => if IsZero start || (at_ <? start) then at_ else start
               | None => start
               end in
  match hist b with
  | h :: _ => if IsZero start || (At h <? start) then At h else start
  | [] => start
  end.

Fixpoint reached_in (h : list StateTransition) (status : string) : option time :=
  match h with
  | [] => None
  | st :: h => if String.eqb (ToStatus st) status then Some (At st) else reached_in h status
  end.

Definition reached (b : builder) (status : string) : option time := reached_in (hist b) status.

(** ** message.go *)

Definition fieldSpecs : gmap string (string * string * string) := list_to_map
  [("MTI", ("Message type", "Message type indicator", "n 4"));
   ("2", ("Card number (masked)", "PAN", "n..19 LLVAR"));
   ("3", ("Transaction type", "Processing code", "n 6"));
   ("4", ("Amount", "Amount, transaction", "n 12"));
   ("7", ("Sent at (UTC)", "Transmission date/time", "n 10 MMDDhhmmss"));
   ("11", ("Trace number", "STAN", "n 6"));
   ("22", ("How the card was read", "POS entry mode", "n 3"));
   ("37", ("Reference number", "RRN", "an 12"));
   ("38", ("Approval code", "Authorization ID response", "an 6"));
   ("39", ("Result code", "Response code", "an 2"));
   ("41", ("Terminal ID", "Terminal ID", "ans 8"));
   ("42", ("Merchant ID", "Merchant ID", "ans 15"));
   ("49", ("Currency", "Currency code, transaction", "n 3"));
   ("90", ("Original payment", "Original data elements", "n 42"))].

Definition deMTI : string := "MTI".

(** Go's [de{no, value}]. *)
Definition de : Type := string * string.

Definition isoField (no value : string) : IsoField :=
  let '(easy, technical, format) := default ("", "", "") (fieldSpecs !! no) in
  mkIsoField no easy technical format value.

Definition newMessage (mti : string) (values : list de) : IsoMessage :=
  mkIsoMessage mti (isoField deMTI mti ::
    map (λ v : de, isoField v.1 v.2) (List.filter (λ v : de, negb (String.eqb v.2 "")) values)).

Definition typedMessage (b : builder) (mti : string) (values : list de) : IsoMessage :=
  newMessage mti (List.filter (λ v : de, carries b v.1) values).

Definition maskedPAN (b : builder) : de := ("2", MaskPAN (MaskedPAN (txn b))).

Definition requestDE37 (b : builder) : string :=
  if String.eqb (Type_ (txn b)) tranTypeCompletion && negb (String.eqb (OriginalRRN (txn b)) "")
  then OriginalRRN (txn b) else RRN (txn b).

Definition requestDE7 (b : builder) : string :=
  match SentAt (txn b) with Some at_ => format_DE7 UTC at_ | None => "" end.

Definition amount12 (minor : Z) : string := Sprintf0d 12 minor.

Definition request (b : builder) : IsoMessage :=
  let t := txn b in
  typedMessage b (requestMTI b)
    [maskedPAN b; ("3", ProcessingCode t); ("4", amount12 (tAmount t)); ("7", requestDE7 b);
     ("11", NetworkSTAN t); ("22", POSEntryMode t); ("37", requestDE37 b); ("41", TerminalID t);
     ("42", MerchantID t); ("49", tCurrency t)].

Definition response (b : builder) : IsoMessage :=
  let t := txn b in
  let authCode := if String.eqb (ResponseCode t) "00" || String.eqb (ResponseCode t) "10" then AuthCode t else "" in
  typedMessage b (responseMTI b)
    [maskedPAN b; ("3", ProcessingCode t); ("4", amount12 (tAmount t)); ("7", requestDE7 b);
     ("11", NetworkSTAN t); ("37", requestDE37 b); ("38", authCode); ("39", ResponseCode t);
     ("41", TerminalID t); ("42", MerchantID t); ("49", tCurrency t)].

Definition advice (b : builder) (mti : string) : option IsoMessage :=
  match rev b with
  | None => None
  | Some r =>
      let f := at_ (rFields r) in
      Some (newMessage mti [maskedPAN b; ("3", f 3); ("4", f 4); ("7", f 7); ("11", f 11); ("37", f 37);
              ("39", f 39); ("41", f 41); ("42", f 42); ("49", f 49); ("90", f 90)])
  end.

Definition reversalAck (b : builder) : option IsoMessage :=
  match rev b with
  | None => None
  | Some r =>
      let f := at_ (rFields r) in
      Some (newMessage "0430" [maskedPAN b; ("3", f 3); ("4", f 4); ("7", f 7); ("11", f 11); ("37", f 37);
              ("39", "00"); ("41", f 41); ("42", f 42); ("49", f 49)])
  end.

(** ** steps.go *)

Definition new_step (code : StepCode) (actor : Actor) (kind : StepKind) (title easy technical : string)
    (message : option IsoMessage) : Step :=
  mkStep 0 code actor 0 title easy technical kind message.

Definition sentAt (b : builder) : option time :=
  match reached b statusSent with
  | Some at_ => Some at_
  | None => SentAt (txn b)
  end.

Definition requestSteps (b : builder) : list timedStep :=
  let t := txn b in
  mkTimed (start b) (new_step CodePOSRequest ActorPOS KindOK "POS sends the request"
      "The card was read and the terminal asked for payment."
      ("POST " +:+ requestPath b +:+ " · TID " +:+ TerminalID t +:+ " · entry mode " +:+ orDash (POSEntryMode t))
      None) ::
  match sentAt b with
  | None =>
      [mkTimed (start b) (new_step CodeLocalDecline ActorAcquirer KindBad "Declined before reaching the issuer"
         (EasyTextForRC (ResponseCode t))
         ("Link not signed on · RC " +:+ ResponseCode t +:+ " · no " +:+ requestMTI b +:+ " sent") None)]
  | Some at_ =>
      [mkTimed at_ (new_step CodeRequestSent ActorAcquirer KindOK "Request sent to the issuer"
         "The acquirer packed the request and sent it to the card's bank."
         (requestMTI b +:+ " · STAN " +:+ NetworkSTAN t +:+ " · RRN " +:+ RRN t +:+ " · amount "
          +:+ Itoa (tAmount t) +:+ " " +:+ tCurrency t) (Some (request b)))]
  end.

Definition issuerResponse (b : builder) (status : string) (elapsedMs : Z) : Step :=
  let t := txn b in let rc := ResponseCode t in
  if String.eqb status statusApproved then
    new_step CodeIssuerApproved ActorIssuer KindOK "Issuer approved" (approvedText b)
      (responseMTI b +:+ " · RC " +:+ rc +:+ " · DE 38 " +:+ orDash (AuthCode t) +:+ " · " +:+ Itoa elapsedMs
       +:+ " ms after the " +:+ requestMTI b) (Some (response b))
  else
    new_step CodeIssuerDeclined ActorIssuer KindBad "Issuer declined" (EasyTextForRC rc)
      (responseMTI b +:+ " · RC " +:+ rc +:+ " · " +:+ Itoa elapsedMs +:+ " ms after the " +:+ requestMTI b)
      (Some (response b)).

Definition noResponse (b : builder) (elapsedMs : Z) : Step :=
  new_step CodeNoResponse ActorAcquirer KindWarn "No response from the issuer"
    "The card's bank did not answer in time, so the acquirer assumes the money was taken."
    ("No " +:+ responseMTI b +:+ " for STAN " +:+ NetworkSTAN (txn b) +:+ " within " +:+ Itoa elapsedMs
     +:+ " ms · SENT → TIMED_OUT") None.

Definition is_OK (k : StepKind) : bool := match k with KindOK => true | _ => false end.

Definition posResult (b : builder) (status : string) (kind : StepKind) : Step :=
  new_step CodePOSResult ActorPOS kind "POS shows the result"
    (if is_OK kind then "The payment went through and the receipt printed."
     else "The terminal showed the payment failed. No money is lost.")
    ("status " +:+ status +:+ " · RC " +:+ orDash (ResponseCode (txn b))) None.

Definition reversalField (b : builder) (n : Z) : string :=
  match rev b with None => "" | Some r => at_ (rFields r) n end.

Definition reversalQueued (b : builder) : list timedStep :=
  match reached b statusReversalPending with
  | None => []
  | Some at_ =>
      [mkTimed at_ (new_step CodeReversalQueued ActorSAF KindReversal "Reversal saved before sending"
         "The cancel order was written down first, so it survives a restart."
         ("INSERT saf_queue (0420, PENDING) · reason " +:+ orDash (reversalField b 39)
          +:+ " · state → REVERSAL_PENDING") None)]
  end.

(** The loop over APPROVED, then DECLINED. *)
Fixpoint outcome_of (b : builder) (sent : time) (queued : list timedStep) (statuses : list string)
    : list timedStep :=
  match statuses with
  | [] => []
  | status :: statuses =>
      match reached b status with
      | Some at_ =>
          let resp := issuerResponse b status (msBetween sent at_) in
          mkTimed at_ resp :: mkTimed at_ (posResult b status (Kind resp)) :: queued
      | None => outcome_of b sent queued statuses
      end
  end.

Definition outcomeSteps (b : builder) : list timedStep :=
  match sentAt b with
  | None => [mkTimed (start b) (posResult b statusDeclined KindBad)]
  | Some sent =>
      let queued := reversalQueued b in
      match reached b statusTimedOut with
      | Some at_ =>
          let steps := mkTimed at_ (noResponse b (msBetween sent at_)) :: queued in
          steps ++ [mkTimed (default at_ (at_time <$> last steps)) (posResult b statusTimedOut KindBad)]
      | None => outcome_of b sent queued [statusApproved; statusDeclined]
      end
  end.

Definition reversalSends (b : builder) : Z :=
  match rev b with
  | None => 1
  | Some r => match rAckedAt r with
              | Some _ => rAttempts r + 1
              | None => Z.max (rAttempts r) 1
              end
  end.

Definition reversalMTI (b : builder) : string := if 1 <? reversalSends b then "0421" else "0420".

Definition reversalStatus (b : builder) : string :=
  match rev b with None => "ACKED" | Some r => rStatus r end.

Definition reversalSent (b : builder) : Step :=
  let mti := reversalMTI b in
  new_step CodeReversalSent ActorAcquirer KindReversal "Reversal sent"
    "The cancel order went out, naming the original payment."
    (mti +:+ " · STAN " +:+ orDash (reversalField b 11) +:+ " · DE 90 → " +:+ requestMTI b +:+ " STAN "
     +:+ NetworkSTAN (txn b) +:+ " · attempts " +:+ Itoa (reversalSends b) +:+ " · SAF " +:+ reversalStatus b)
    (advice b mti).

(** [time.ParseInLocation("0102150405", ...)]: ten digits in range, the day within its month (the
    year it parses to, 0, is a leap year), and maybe a fraction of a second. *)
Definition days_in (m : Z) : Z := nth (Z.to_nat (m - 1)) [31; 29; 31; 30; 31; 30; 31; 31; 30; 31; 30; 31] 0.

Definition fraction (s : string) : bool :=
  match s with
  | "" => true
  | String c (String d rest) => (Ascii.eqb c "." || Ascii.eqb c ",") && is_digit d && str_forall is_digit rest
  | _ => false
  end.

Definition parse_stamp (s : string) : option (Z * Z * Z * Z * Z) :=
  if (10 <=? slen s)%nat && str_forall is_digit (str_take 10 s) && fraction (str_drop 10 s) then
    let two i := undec (str_slice i (i + 2) s) in
    let '(mo, d, h, mi, sec) := (two 0%nat, two 2%nat, two 4%nat, two 6%nat, two 8%nat) in
    if (1 <=? mo) && (mo <=? 12) && (1 <=? d) && (d <=? days_in mo) && (h <? 24) && (mi <? 60) && (sec <? 60)
    then Some (mo, d, h, mi, sec) else None
  else None.

Definition parseDE7 (de7 : string) (ref : time) : option time :=
  match parse_stamp de7 with
  | Some (mo, d, h, mi, sec) =>
      Some (Date (Year UTC ref, mo, d) UTC + h * Hour + mi * Minute + sec * Second)
  | None => None
  end.

Definition reversalSentAt (b : builder) : option time :=
  match rev b with
  | None => reached b statusReversed
  | Some r =>
      match parseDE7 (at_ (rFields r) 7) (QueuedAt r), rAckedAt r with
      | Some sent, Some acked => if acked <? sent then Some acked else Some sent
      | sent, _ => sent
      end
  end.

Definition reversalConfirmedAt (b : builder) : option time :=
  match rev b with
  | Some r => match rAckedAt r with
              | Some at_ => Some at_
              | None => reached b statusReversed
              end
  | None => reached b statusReversed
  end.

Definition reversalConfirmed (b : builder) : Step :=
  new_step CodeReversalConfirmed ActorIssuer KindReversal "Issuer confirmed the reversal"
    "The money went back to the cardholder."
    ("0430 · RC 00 · SAF ACKED after " +:+ Itoa (reversalSends b) +:+ " send(s) · state → REVERSED")
    (reversalAck b).

Definition reversalSteps (b : builder) : list timedStep :=
  match reversalSentAt b with Some at_ => [mkTimed at_ (reversalSent b)] | None => [] end ++
  match reversalConfirmedAt b with Some at_ => [mkTimed at_ (reversalConfirmed b)] | None => [] end.

Definition with_offset (s : Step) (ms : Z) : Step :=
  mkStep (Seq s) (Code s) (Actor_ s) ms (Title s) (EasyText s) (TechnicalText s) (Kind s) (Message s).

Definition with_seq (s : Step) (n : Z) : Step :=
  mkStep n (Code s) (Actor_ s) (OffsetMs s) (Title s) (EasyText s) (TechnicalText s) (Kind s) (Message s).

Definition lateResponse (b : builder) : option Step :=
  match LateResponseAt (txn b) with
  | None => None
  | Some at_ =>
      Some (with_offset
        (new_step CodeLateResponse ActorIssuer KindWarn "Late response"
           "The bank's answer arrived after the acquirer had given up. It is only recorded."
           (responseMTI b +:+ " received after timeout, RC " +:+ LateResponseCode (txn b) +:+ " · state unchanged")
           None) (msBetween (start b) at_))
  end.

(** ** builder.go: the journey *)

Fixpoint withOffsets (timed : list timedStep) (start : time) (prev : Z) : list Step :=
  match timed with
  | [] => []
  | ts :: timed =>
      let off := Z.max prev (msBetween start (at_time ts)) in
      with_offset (step_of ts) off :: withOffsets timed start off
  end.

(** [sort.Search] for the first step with a larger offset, then [slices.Insert] there. *)
Fixpoint search (n : nat) (lo hi : nat) (p : nat → bool) : nat :=
  match n with
  | O => lo
  | S n => if (lo <? hi)%nat then
             let h := ((lo + hi) / 2)%nat in
             if p h then search n lo h p else search n (S h) hi p
           else lo
  end.

Definition insertAtOffset (steps : list Step) (s : Step) : list Step :=
  let i := search (S (length steps)) 0 (length steps)
             (λ i, match steps !! i with Some x => OffsetMs s <? OffsetMs x | None => true end) in
  take i steps ++ s :: drop i steps.

Fixpoint number (n : Z) (steps : list Step) : list Step :=
  match steps with [] => [] | s :: steps => with_seq s n :: number (n + 1) steps end.

Fixpoint seqOf (steps : list Step) (code : StepCode) : Z :=
  match steps with
  | [] => 0
  | s :: steps => if bool_decide (Code s = code) then Seq s else seqOf steps code
  end.

Definition debitStep (steps : list Step) : Z :=
  if 0 <? seqOf steps CodeIssuerApproved then seqOf steps CodeIssuerApproved
  else if 0 <? seqOf steps CodeNoResponse then seqOf steps CodeNoResponse
  else if 0 <? seqOf steps CodeReversalQueued then seqOf steps CodeIssuerDeclined
  else 0.

Definition moneyLabel (tranType : string) : string :=
  if String.eqb tranType tranTypeRefund then "Refund"
  else if String.eqb tranType tranTypePreAuth then "Hold"
  else if String.eqb tranType tranTypeCompletion then "Completion"
  else "Purchase".

Definition reversalLabel (tranType : string) : string :=
  if String.eqb tranType tranTypeRefund then "Reversal" else "Refund".

(** Amounts are int64 products. *)
Definition moneyRows (t : TranLogRow) (steps : list Step) : list MoneyRow :=
  let sign := moneySign (Type_ t) in
  let debitAt := debitStep steps in
  if (debitAt =? 0) || (sign =? 0) then []
  else
    let reversedAt := seqOf steps CodeReversalConfirmed in
    mkMoneyRow (moneyLabel (Type_ t)) (wrap64 (sign * tAmount t)) None debitAt ::
    (if 0 <? reversedAt then [mkMoneyRow (reversalLabel (Type_ t)) (wrap64 (- sign * tAmount t)) None reversedAt]
     else []).

Definition BuildJourney (t : TranLogRow) (history : list StateTransition) (r : option Reversal) : Journey :=
  let b := mkBuilder t history r in
  let timed := requestSteps b ++ outcomeSteps b ++ reversalSteps b in
  let steps := withOffsets timed (start b) 0 in
  let steps := match lateResponse b with Some late => insertAtOffset steps late | None => steps end in
  let steps := number 1 steps in
  mkJourney steps (moneyRows t steps).

Definition LatencyMs (t : TranLogRow) : option Z :=
  match SentAt t, RespondedAt t with
  | Some sent, Some responded => if String.eqb (ResponseCode t) "" then None else Some (msBetween sent responded)
  | _, _ => None
  end.

(** ** Order of the steps *)

(** [sort.Search]: for a monotone predicate, the first index where it holds. *)
Lemma search_spec (p : nat → bool) N n lo hi :
  (∀ i j, i ≤ j → p i = true → p j = true)%nat →
  (hi - lo ≤ n)%nat → (lo ≤ hi ≤ N)%nat →
  (∀ i, i < lo → p i = false)%nat → (∀ i, hi ≤ i < N → p i = true)%nat →
  let r := search n lo hi p in
  (r ≤ N)%nat ∧ (∀ i, i < r → p i = false)%nat ∧ (∀ i, r ≤ i < N → p i = true)%nat.
Proof.
  intros Hmono. revert lo hi. induction n as [|n IH]; intros lo hi Hn Hb Hlo Hhi; cbn [search].
  - assert (lo = hi) as -> by lia. split; [lia|]. by split.
  - destruct (lo <? hi)%nat eqn:E; [|assert (lo = hi) as -> by (apply Nat.ltb_ge in E; lia); split; [lia|by split]].
    apply Nat.ltb_lt in E. set (h := ((lo + hi) / 2)%nat).
    assert (Hh : (lo ≤ h < hi)%nat).
    { unfold h. pose proof (Nat.div_mod_eq (lo + hi) 2). pose proof (Nat.mod_upper_bound (lo + hi) 2). lia. }
    destruct (p h) eqn:Ep.
    + apply IH; [lia|lia|done|]. intros i Hi. apply (Hmono h); [lia|done].
    + apply IH; [lia|lia| |done]. intros i Hi. apply not_true_is_false. intros Hp.
      rewrite (Hmono i h) in Ep; [done|lia|done].
Qed.

Definition ordered (steps : list Step) : Prop := StronglySorted Z.le (map OffsetMs steps).

Lemma withOffsets_ge timed st prev s : s ∈ withOffsets timed st prev → prev ≤ OffsetMs s.
Proof.
  revert prev. induction timed as [|ts timed IH]; intros prev; [by intros ?%not_elem_of_nil|].
  cbn [withOffsets]. intros [->|Hs]%elem_of_cons; [cbn; lia|]. specialize (IH _ Hs). lia.
Qed.

Lemma withOffsets_ordered timed st prev : ordered (withOffsets timed st prev).
Proof.
  revert prev. induction timed as [|ts timed IH]; intros prev; [constructor|]. cbn [withOffsets].
  unfold ordered. cbn [map]. constructor; [apply IH|]. apply Forall_forall.
  intros x (s & -> & Hs)%list_elem_of_fmap. apply withOffsets_ge in Hs. done.
Qed.

Lemma ordered_nth (steps : list Step) i j x y :
  ordered steps → (i ≤ j)%nat → steps !! i = Some x → steps !! j = Some y → OffsetMs x ≤ OffsetMs y.
Proof.
  unfold ordered. revert i j. induction steps as [|s steps IH]; intros i j Ho Hij Hx Hy; [done|].
  cbn in Ho. inversion Ho as [|? ? Ho' Hall]; subst. destruct i as [|i], j as [|j]; cbn in *; [| |lia|].
  - simplify_eq. lia.
  - simplify_eq. rewrite Forall_forall in Hall. apply Hall. apply list_elem_of_fmap. exists y.
    split; [done|]. by eapply list_elem_of_lookup_2.
  - apply (IH i j); [done|lia|done|done].
Qed.

Lemma insertAtOffset_spec steps s :
  ordered steps →
  ∃ a b, steps = a ++ b ∧ insertAtOffset steps s = a ++ s :: b ∧
    Forall (λ x, OffsetMs x ≤ OffsetMs s) a ∧ Forall (λ x, OffsetMs s < OffsetMs x) b.
Proof.
  intros Ho. unfold insertAtOffset. set (p := λ i : nat, _).
  destruct (search_spec p (length steps) (S (length steps)) 0 (length steps)) as (H1 & H2 & H3).
  - intros i j Hij Hi. unfold p in *. destruct (steps !! j) as [y|] eqn:Ey; [|done].
    destruct (steps !! i) as [x|] eqn:Ex.
    + apply Z.ltb_lt in Hi. apply Z.ltb_lt. pose proof (ordered_nth steps i j x y Ho Hij Ex Ey). lia.
    + apply lookup_ge_None in Ex. apply lookup_lt_Some in Ey. lia.
  - lia.
  - lia.
  - lia.
  - lia.
  - set (r := search _ _ _ _) in *. exists (take r steps), (drop r steps).
    split; [by rewrite take_drop|]. split; [done|]. split; apply Forall_forall; intros x Hx.
    + apply list_elem_of_lookup in Hx as (i & Hi). apply lookup_take_Some in Hi as [Hi Hlt].
      specialize (H2 i Hlt). unfold p in H2. rewrite Hi in H2. by apply Z.ltb_ge in H2.
    + apply list_elem_of_lookup in Hx as (i & Hi). rewrite lookup_drop in Hi.
      pose proof (lookup_lt_Some _ _ _ Hi). specialize (H3 (r + i)%nat ltac:(lia)). unfold p in H3.
      rewrite Hi in H3. by apply Z.ltb_lt in H3.
Qed.

Lemma insertAtOffset_ordered steps s : ordered steps → ordered (insertAtOffset steps s).
Proof.
  intros Ho. destruct (insertAtOffset_spec steps s Ho) as (a & b & -> & -> & Ha & Hb).
  unfold ordered in *. rewrite map_app in *. cbn [map]. revert Ho Ha. induction a as [|x a IH]; cbn.
  - intros Ho _. constructor; [done|]. apply Forall_map. eapply Forall_impl; [exact Hb|]. cbn. lia.
  - intros Ho Ha. inversion Ho as [|? ? Ho' Hx]; subst. apply Forall_cons in Ha as [Hxs Ha].
    constructor; [by apply IH|]. apply Forall_app in Hx as [Hx1 Hx2]. apply Forall_app.
    split; [done|]. by constructor.
Qed.

Lemma number_seq n steps : map Seq (number n steps) = seqZ n (Z.of_nat (length steps)).
Proof.
  revert n. induction steps as [|s steps IH]; intros n; [done|]. cbn [number map length].
  rewrite IH, (seqZ_cons n) by lia. f_equal. f_equal; lia.
Qed.

Lemma number_offsets n steps : map OffsetMs (number n steps) = map OffsetMs steps.
Proof. revert n. induction steps as [|s steps IH]; intros n; [done|]. cbn. by rewrite IH. Qed.

Lemma number_length n steps : length (number n steps) = length steps.
Proof. revert n. induction steps as [|s steps IH]; intros n; [done|]. cbn. by rewrite IH. Qed.

(** The steps before they are numbered. *)
Definition unnumbered (t : TranLogRow) (h : list StateTransition) (r : option Reversal) : list Step :=
  let b := mkBuilder t h r in
  let steps := withOffsets (requestSteps b ++ outcomeSteps b ++ reversalSteps b) (start b) 0 in
  match lateResponse b with Some late => insertAtOffset steps late | None => steps end.

Lemma BuildJourney_steps t h r : Steps (BuildJourney t h r) = number 1 (unnumbered t h r).
Proof. done. Qed.

Lemma unnumbered_ordered t h r : ordered (unnumbered t h r).
Proof.
  unfold unnumbered. destruct (lateResponse _) as [late|].
  - apply insertAtOffset_ordered, withOffsets_ordered.
  - apply withOffsets_ordered.
Qed.

Lemma unnumbered_nonneg t h r s : s ∈ unnumbered t h r → 0 ≤ OffsetMs s.
Proof.
  unfold unnumbered. set (b := mkBuilder t h r). set (l := withOffsets _ _ _).
  assert (Hl : ∀ x, x ∈ l → 0 ≤ OffsetMs x) by (intros x; apply withOffsets_ge).
  destruct (lateResponse b) as [late|] eqn:E; [|apply Hl].
  destruct (insertAtOffset_spec l late) as (a & b' & Hab & -> & _ & _); [apply withOffsets_ordered|].
  intros [Hs|[->|Hs]%elem_of_cons]%elem_of_app.
  - apply Hl. rewrite Hab. set_solver.
  - unfold lateResponse in E. destruct (LateResponseAt (txn b)); [|done]. injection E as <-.
    cbn. unfold msBetween. lia.
  - apply Hl. rewrite Hab. set_solver.
Qed.

(** The journey is a time line: whatever the row, its history and its reversal hold, steps are
    numbered 1, 2, 3, ... and their offsets start at or after 0 and never decrease, the late
    response included. *)
Theorem journey_is_ordered t h r :
  let steps := Steps (BuildJourney t h r) in
  map Seq steps = seqZ 1 (Z.of_nat (length steps)) ∧
  StronglySorted Z.le (map OffsetMs steps) ∧ Forall (λ s, 0 ≤ OffsetMs s) steps.
Proof.
  rewrite BuildJourney_steps. cbn zeta. rewrite number_length, number_seq, number_offsets.
  split; [done|]. split; [apply unnumbered_ordered|].
  assert (H : Forall (λ ms, 0 ≤ ms) (map OffsetMs (number 1 (unnumbered t h r)))).
  { rewrite number_offsets. apply Forall_map, Forall_forall. intros s. apply unnumbered_nonneg. }
  apply Forall_forall. intros s Hs. rewrite Forall_forall in H. apply H. by apply list_elem_of_fmap_2.
Qed.

(** ** What the messages may show *)

(** The rows of a message: the MTI and the data elements of docs/03 the journey shows; no PIN block
    (52), track 2 (35), EMV data (55) or MAC (64, 128). *)
Definition shown : list string :=
  ["MTI"; "2"; "3"; "4"; "7"; "11"; "22"; "37"; "38"; "39"; "41"; "42"; "49"; "90"].

Definition safe_field (pan : string) (f : IsoField) : Prop :=
  f_DE f ∈ shown ∧ Value f ≠ "" ∧ (f_DE f = "2" → Value f = MaskPAN pan ∧ has_pan false (Value f) = false).

(** Values the builder passes on: known numbers, DE 2 masked. *)
Definition safe_de (pan : string) (v : de) : Prop := v.1 ∈ shown ∧ (v.1 = "2" → v.2 = MaskPAN pan).

Definition safe_message (pan : string) (m : IsoMessage) : Prop :=
  Forall (safe_field pan) (m_Fields m) ∧ m_MTI m ≠ "".

Lemma isoField_fields no value : f_DE (isoField no value) = no ∧ Value (isoField no value) = value.
Proof. unfold isoField. by destruct (default _ _) as [[??]?]. Qed.

Lemma newMessage_safe pan mti values :
  mti ≠ "" → Forall (safe_de pan) values → safe_message pan (newMessage mti values).
Proof.
  intros Hm Hall. split; [|done]. cbn [m_Fields newMessage]. constructor.
  { unfold safe_field. destruct (isoField_fields deMTI mti) as [-> ->].
    split; [by left|]. split; [done|]. discriminate. }
  apply Forall_forall. intros f (v & -> & Hv)%list_elem_of_fmap.
  apply list_elem_of_In, filter_In in Hv as [Hv Hne]. rewrite Forall_forall in Hall.
  destruct (Hall v) as [H1 H2]; [by apply list_elem_of_In|].
  unfold safe_field. destruct (isoField_fields v.1 v.2) as [-> ->]. split; [done|].
  apply negb_true_iff, String.eqb_neq in Hne. split; [done|]. intros He. rewrite (H2 He).
  split; [done|]. apply MaskPAN_no_pan.
Qed.

Lemma typedMessage_safe pan b mti values :
  mti ≠ "" → Forall (safe_de pan) values → safe_message pan (typedMessage b mti values).
Proof.
  intros Hm Hall. apply newMessage_safe; [done|]. apply Forall_forall. intros v Hv.
  apply list_elem_of_In, filter_In in Hv as [Hv _]. rewrite Forall_forall in Hall.
  by apply Hall, list_elem_of_In.
Qed.

Ltac safe_values :=
  repeat constructor; cbn [fst snd maskedPAN]; first [discriminate | set_solver | done].

Definition safe_step (pan : string) (s : Step) : Prop :=
  match Message s with Some m => safe_message pan m | None => True end.

Lemma requestMTI_nonempty b : requestMTI b ≠ "" ∧ responseMTI b ≠ "".
Proof. unfold requestMTI, responseMTI, mtiPair. by repeat case_if. Qed.

Lemma request_safe b : safe_message (MaskedPAN (txn b)) (request b).
Proof. apply typedMessage_safe; [apply requestMTI_nonempty|]. safe_values. Qed.

Lemma response_safe b : safe_message (MaskedPAN (txn b)) (response b).
Proof. apply typedMessage_safe; [apply requestMTI_nonempty|]. safe_values. Qed.

Lemma advice_safe b mti m : mti ≠ "" → advice b mti = Some m → safe_message (MaskedPAN (txn b)) m.
Proof.
  unfold advice. destruct (rev b); [|done]. intros Hm [= <-]. apply newMessage_safe; [done|]. safe_values.
Qed.

Lemma reversalAck_safe b m : reversalAck b = Some m → safe_message (MaskedPAN (txn b)) m.
Proof.
  unfold reversalAck. destruct (rev b); [|done]. intros [= <-]. apply newMessage_safe; [done|]. safe_values.
Qed.

Lemma timed_safe b :
  Forall (λ ts, safe_step (MaskedPAN (txn b)) (step_of ts)) (requestSteps b ++ outcomeSteps b ++ reversalSteps b).
Proof.
  assert (Hq : Forall (λ ts, safe_step (MaskedPAN (txn b)) (step_of ts)) (reversalQueued b)).
  { unfold reversalQueued. destruct (reached _ _); repeat constructor. }
  assert (Hr : ∀ status ms, safe_step (MaskedPAN (txn b)) (issuerResponse b status ms)).
  { intros status ms. unfold issuerResponse. case_if; apply response_safe. }
  apply Forall_app; split; [|apply Forall_app; split].
  - unfold requestSteps. constructor; [done|].
    destruct (sentAt b); (constructor; [|constructor]); [apply request_safe|done].
  - unfold outcomeSteps. destruct (sentAt b) as [sent|]; [|by repeat constructor].
    destruct (reached b statusTimedOut) as [at0|].
    + cbn [app]. constructor; [done|]. apply Forall_app. split; [done|]. by repeat constructor.
    + cbn [outcome_of].
      destruct (reached b statusApproved); [|destruct (reached b statusDeclined); [|constructor]];
        (constructor; [apply Hr|by constructor]).
  - unfold reversalSteps. apply Forall_app. split.
    + destruct (reversalSentAt b); repeat constructor. unfold safe_step. cbn [step_of reversalSent new_step Message].
      destruct (advice b (reversalMTI b)) as [m|] eqn:E; [|done].
      eapply advice_safe; [|exact E]. unfold reversalMTI. by case_if.
    + destruct (reversalConfirmedAt b); repeat constructor. unfold safe_step. cbn [step_of reversalConfirmed new_step Message].
      destruct (reversalAck b) as [m|] eqn:E; [|done]. by eapply reversalAck_safe.
Qed.

Lemma withOffsets_steps timed st prev s :
  s ∈ withOffsets timed st prev → ∃ ts, ts ∈ timed ∧ Code s = Code (step_of ts) ∧ Message s = Message (step_of ts).
Proof.
  revert prev. induction timed as [|ts timed IH]; intros prev; [by intros ?%not_elem_of_nil|].
  cbn [withOffsets]. intros [->|Hs]%elem_of_cons; [exists ts; split; [by left|done]|].
  destruct (IH _ Hs) as (ts' & ? & ?). exists ts'. split; [by right|done].
Qed.

Lemma unnumbered_safe t h r s : s ∈ unnumbered t h r → safe_step (MaskedPAN t) s.
Proof.
  unfold unnumbered. set (b := mkBuilder t h r). set (l := withOffsets _ _ _).
  assert (Hl : ∀ x, x ∈ l → safe_step (MaskedPAN t) x).
  { intros x (ts & Hts & _ & Hm)%withOffsets_steps. unfold safe_step. rewrite Hm.
    pose proof (timed_safe b) as H. rewrite Forall_forall in H. by apply (H ts). }
  destruct (lateResponse b) as [late|] eqn:E; [|apply Hl].
  destruct (insertAtOffset_spec l late) as (a & b' & Hab & -> & _ & _); [apply withOffsets_ordered|].
  intros [Hs|[->|Hs]%elem_of_cons]%elem_of_app; [apply Hl; rewrite Hab; set_solver| |apply Hl; rewrite Hab; set_solver].
  unfold lateResponse in E. destruct (LateResponseAt (txn b)); [|done]. by injection E as <-.
Qed.

Lemma number_elem n steps s :
  s ∈ number n steps → ∃ s0, s0 ∈ steps ∧ Code s = Code s0 ∧ Message s = Message s0.
Proof.
  revert n. induction steps as [|x steps IH]; intros n; [by intros ?%not_elem_of_nil|].
  cbn [number]. intros [->|Hs]%elem_of_cons; [exists x; split; [by left|done]|].
  destruct (IH _ Hs) as (s0 & ? & ?). exists s0. split; [by right|done].
Qed.

(** No card data in a journey: every message of every step shows only the listed elements, all
    of them stored values, and its card number is the masked one, free of PANs even when the row's
    masked_pan column holds a clear PAN by mistake. *)
Theorem journey_shows_no_pan t h r s m :
  s ∈ Steps (BuildJourney t h r) → Message s = Some m →
  Forall (λ f, f_DE f ∈ shown ∧ Value f ≠ "" ∧
               (f_DE f = "2" → Value f = MaskPAN (MaskedPAN t) ∧ has_pan false (Value f) = false)) (m_Fields m).
Proof.
  rewrite BuildJourney_steps. intros (s0 & Hs0 & _ & Hm0)%number_elem Hm.
  apply unnumbered_safe in Hs0. unfold safe_step in Hs0. rewrite <-Hm0, Hm in Hs0. apply Hs0.
Qed.

Definition demo_row : TranLogRow :=
  mkTran 1 "626407000123" "PURCHASE" "REVERSED" 250000 "704" "9704360000004417" "00000042" "GOCPHO000000001"
    "Ca phe Goc Pho" "000123" "" "" (Date (2026, 9, 21) 0 + 7 * Hour) "00"
    (Some (Date (2026, 9, 21) 0 + 7 * Hour + 40 * Second)) "0200" "000000" "051"
    (Some (Date (2026, 9, 21) 0 + 7 * Hour)) (Some (Date (2026, 9, 21) 0 + 7 * Hour + 30 * Second)) "tok_normal"
    None None "" "" "68" "" (Date (2026, 9, 21) 0).

Definition demo_history : list StateTransition :=
  let t0 := Date (2026, 9, 21) 0 + 7 * Hour in
  [mkTransition statusCreated statusSent t0; mkTransition statusSent statusTimedOut (t0 + 30 * Second);
   mkTransition statusTimedOut statusReversalPending (t0 + 30 * Second);
   mkTransition statusReversalPending statusReversed (t0 + 50 * Second)].

Definition demo_reversal : Reversal :=
  mkReversal "ACKED" 0 (Date (2026, 9, 21) 0 + 7 * Hour + 30 * Second)
    (Some (Date (2026, 9, 21) 0 + 7 * Hour + 50 * Second))
    (list_to_map [(7, "0921070035"); (11, "000124"); (39, "68")]).

Example demo_journey :
  map (λ s, (Seq s, Code s, OffsetMs s)) (Steps (BuildJourney demo_row demo_history (Some demo_reversal)))
  = [(1, CodePOSRequest, 0); (2, CodeRequestSent, 0); (3, CodeNoResponse, 30000);
     (4, CodeReversalQueued, 30000); (5, CodePOSResult, 30000); (6, CodeReversalSent, 35000);
     (7, CodeLateResponse, 40000); (8, CodeReversalConfirmed, 50000)]
  ∧ Money_ (BuildJourney demo_row demo_history (Some demo_reversal))
    = [mkMoneyRow "Purchase" (-250000) None 3; mkMoneyRow "Refund" 250000 None 8].
Proof. vm_compute. done. Qed.

Lemma journey_shows_no_pan_witness :
  Forall (λ f, f_DE f ∈ shown ∧ Value f ≠ "" ∧
               (f_DE f = "2" → Value f = MaskPAN (MaskedPAN demo_row) ∧ has_pan false (Value f) = false))
    (m_Fields (request (mkBuilder demo_row demo_history (Some demo_reversal)))).
Proof.
  apply (journey_shows_no_pan demo_row demo_history (Some demo_reversal)
           (nth 1 (Steps (BuildJourney demo_row demo_history (Some demo_reversal)))
              (new_step CodeLateResponse ActorIssuer KindWarn "" "" "" None))).
  - vm_compute. right. left.
  - vm_compute. reflexivity.
Defined.

(** ** The money of a journey *)

Lemma seqOf_spec n steps code :
  1 ≤ n →
  let r := seqOf (number n steps) code in
  (r = 0 ∧ ∀ s, s ∈ number n steps → Code s ≠ code) ∨
  (∃ s, s ∈ number n steps ∧ Code s = code ∧ Seq s = r ∧ 1 ≤ r).
Proof.
  intros Hn. cbn zeta. revert n Hn. induction steps as [|x steps IH]; intros n Hn; cbn [number seqOf].
  - left. split; [done|]. by intros s ?%not_elem_of_nil.
  - case_bool_decide as Hc.
    + right. exists (with_seq x n). split; [by left|]. split; [done|]. by split.
    + destruct (IH (n + 1)) as [[H0 Hall]|(s & Hs & Hcs & Hq & Hr)]; [lia| |].
      * left. split; [done|]. intros s [->|Hs]%elem_of_cons; [done|by apply Hall].
      * right. exists s. split; [by right|]. done.
Qed.

Definition has_step (steps : list Step) (code : StepCode) : Prop := ∃ s, s ∈ steps ∧ Code s = code.

(** Money in a journey: a balance inquiry moves none; otherwise there is a row exactly when the
    cardholder's money was or may have been taken (approved, unanswered, or declined with a reversal
    queued), for the amount with the sign of the transaction type, at the step that took it; and
    when the issuer confirmed the reversal a second row, at that step, gives exactly it back. *)
Theorem journey_money t h r :
  0 ≤ tAmount t < 2 ^ 63 →
  let steps := Steps (BuildJourney t h r) in
  let taken := has_step steps CodeIssuerApproved ∨ has_step steps CodeNoResponse ∨
               (has_step steps CodeReversalQueued ∧ has_step steps CodeIssuerDeclined) in
  match Money_ (BuildJourney t h r) with
  | [] => moneySign (Type_ t) = 0 ∨ ¬ taken
  | [d] => taken ∧ Delta d = moneySign (Type_ t) * tAmount t ∧ ¬ has_step steps CodeReversalConfirmed ∧
           ∃ s, s ∈ steps ∧ Seq s = AtStep d
  | [d; back] => taken ∧ Delta d = moneySign (Type_ t) * tAmount t ∧ Delta d + Delta back = 0 ∧
           (∃ s, s ∈ steps ∧ Seq s = AtStep d) ∧
           ∃ s, s ∈ steps ∧ Code s = CodeReversalConfirmed ∧ Seq s = AtStep back
  | _ => False
  end.
Proof.
  intros Ha. rewrite BuildJourney_steps. cbn zeta.
  change (Money_ (BuildJourney t h r)) with (moneyRows t (number 1 (unnumbered t h r))).
  set (u := unnumbered t h r). assert (H1 : 1 ≤ 1) by lia.
  assert (Hsign : moneySign (Type_ t) = 1 ∨ moneySign (Type_ t) = 0 ∨ moneySign (Type_ t) = -1).
  { unfold moneySign. repeat case_if; auto. }
  assert (Hdebit : (debitStep (number 1 u) = 0 ∧
      ¬ (has_step (number 1 u) CodeIssuerApproved ∨ has_step (number 1 u) CodeNoResponse ∨
         (has_step (number 1 u) CodeReversalQueued ∧ has_step (number 1 u) CodeIssuerDeclined))) ∨
    (debitStep (number 1 u) ≠ 0 ∧
      (has_step (number 1 u) CodeIssuerApproved ∨ has_step (number 1 u) CodeNoResponse ∨
         (has_step (number 1 u) CodeReversalQueued ∧ has_step (number 1 u) CodeIssuerDeclined)) ∧
      ∃ s, s ∈ number 1 u ∧ Seq s = debitStep (number 1 u))).
  { assert (Hno : ∀ code, (∀ s, s ∈ number 1 u → Code s ≠ code) → ¬ has_step (number 1 u) code)
      by (intros code Hc (s & Hs & He); by apply (Hc s Hs)).
    unfold debitStep.
    destruct (seqOf_spec 1 u CodeIssuerApproved H1) as [[-> Ha1]|(s & Hs & Hcs & Hq & Hp)].
    2: { rewrite (proj2 (Z.ltb_lt 0 _)) by lia. right. split; [lia|]. split; [left; by exists s|by exists s]. }
    change (0 <? 0) with false. cbn match.
    destruct (seqOf_spec 1 u CodeNoResponse H1) as [[-> Ha2]|(s & Hs & Hcs & Hq & Hp)].
    2: { rewrite (proj2 (Z.ltb_lt 0 _)) by lia. right. split; [lia|]. split; [right; left; by exists s|by exists s]. }
    change (0 <? 0) with false. cbn match.
    destruct (seqOf_spec 1 u CodeReversalQueued H1) as [[-> Ha3]|(s & Hs & Hcs & Hq & Hp)].
    { left. split; [done|]. apply Hno in Ha1, Ha2, Ha3. tauto. }
    rewrite (proj2 (Z.ltb_lt 0 _)) by lia.
    destruct (seqOf_spec 1 u CodeIssuerDeclined H1) as [[-> Ha4]|(s' & Hs' & Hcs' & Hq' & Hp')].
    { left. split; [done|]. apply Hno in Ha1, Ha2, Ha4. tauto. }
    right. split; [lia|]. split; [right; right; split; [by exists s|by exists s']|by exists s']. }
  unfold moneyRows. destruct Hdebit as [[-> Hno]|(Hne & Htaken & Hstep)]; [by right|].
  rewrite (proj2 (Z.eqb_neq _ 0) Hne). cbn [orb].
  destruct (moneySign (Type_ t) =? 0) eqn:E0; [by left; apply Z.eqb_eq|]. apply Z.eqb_neq in E0.
  assert (Hw : ∀ s, s = 1 ∨ s = -1 → wrap64 (s * tAmount t) = s * tAmount t).
  { intros s Hs. apply wrap64_id. unfold in_int64. destruct Hs as [->| ->]; lia. }
  assert (Hw2 : wrap64 (- moneySign (Type_ t) * tAmount t) = - moneySign (Type_ t) * tAmount t)
    by (apply Hw; lia).
  destruct (seqOf_spec 1 u CodeReversalConfirmed H1) as [[-> Hc]|(s & Hs & Hcs & Hq & Hp)].
  - change (0 <? 0) with false. cbn match. cbn [Delta AtStep]. split; [done|]. split; [apply Hw; tauto|].
    split; [|done]. intros (s & Hs & He). by apply (Hc s Hs).
  - rewrite (proj2 (Z.ltb_lt 0 _)) by lia. cbn [Delta AtStep]. split; [done|].
    split; [apply Hw; tauto|]. split; [rewrite Hw2, Hw by tauto; lia|]. split; [done|]. by exists s.
Qed.

Lemma journey_money_witness :
  let steps := Steps (BuildJourney demo_row demo_history (Some demo_reversal)) in
  let taken := has_step steps CodeIssuerApproved ∨ has_step steps CodeNoResponse ∨
               (has_step steps CodeReversalQueued ∧ has_step steps CodeIssuerDeclined) in
  match Money_ (BuildJourney demo_row demo_history (Some demo_reversal)) with
  | [] => moneySign (Type_ demo_row) = 0 ∨ ¬ taken
  | [d] => taken ∧ Delta d = moneySign (Type_ demo_row) * tAmount demo_row ∧
           ¬ has_step steps CodeReversalConfirmed ∧ ∃ s, s ∈ steps ∧ Seq s = AtStep d
  | [d; back] => taken ∧ Delta d = moneySign (Type_ demo_row) * tAmount demo_row ∧ Delta d + Delta back = 0 ∧
           (∃ s, s ∈ steps ∧ Seq s = AtStep d) ∧
           ∃ s, s ∈ steps ∧ Code s = CodeReversalConfirmed ∧ Seq s = AtStep back
  | _ => False
  end.
Proof. apply (journey_money demo_row demo_history (Some demo_reversal)). split; [discriminate|reflexivity]. Defined.
