(* ===== verification/Prog.v ===== *)
(** * Prog: the gateway's request code as programs over its environment

    The services of the gateway (purchase, advtxn, saf, rotation) are sequential code that calls
    the database, the issuer link, the clock and the event hub.  Each request is a [prog]: a tree
    whose nodes are those calls.  The same tree is executed alone (with any outcome of every call,
    [run]) and, interleaved with others over one database, in Idempotency.v.

    A database call either takes effect and answers ([Done]), fails without effect ([Lost]), or
    takes effect while its answer is lost ([AckLost]: the connection broke after the commit, the
    context ran out); the caller sees an error in the last two. *)

From S2P Require Import Prelude Digits Codec Mux KeyStore Mac Calendar Store.
Local Open Scope Z_scope.

(** ** Queries: the repository calls of Store.v and KeyStore.v *)

(** The transaction of [saf.ReversalQueuer.Queue] (saf/reversal.go), after its payload is built. *)
Definition queue_reversal (now : time) (t : TranLogRow) (reasonCode payload : string) : dbcall () := λ db,
  match update_tran (ID t) (λ r, String.eqb (Status r) (Status t))
          (λ r, set_reason (set_state r statusReversalPending) reasonCode) db with
  | (O, _) => (Err [ErrNotReversible], db)
  | (_, db1) =>
      let db2 := add_history db1 (ID t) (mkTransition (Status t) statusReversalPending now) in
      match insert_saf now (ID t) mtiReversalAdvice payload db2 with
      | (Ok _, db3) => (Ok (), db3)
      | (Err e, _) => (Err e, db)
      end
  end.

Inductive query : Type → Type :=
  | QInsert (row : TranLogRow) : query Z
  | QInsertCompletion (row : TranLogRow) (preAuthRRN : string) : query Z
  | QUpdateStatus (id : Z) (status rc ac : string) : query ()
  | QUpdateStatusFrom (id : Z) (from status rc ac : string) : query ()
  | QUpdateAmounts (id : Z) (approved : option Z) (balance : option Money) : query ()
  | QUpdateLateResponse (rrn rc : string) : query ()
  | QRecordStateTransition (id : Z) (from to : string) : query ()
  | QGet (rrn : string) : query TranLogRow
  | QReleaseCompletion (preAuthRRN completionRRN : string) : query ()
  | QFindOrphans (sentBefore : time) (limit : nat) : query (list TranLogRow)
  | QMarkTimedOut (id : Z) : query bool
  | QReserve (key route hash : string) : query reserved
  | QAttachRRN (key route : string) (token : Z) (rrn : string) : query ()
  | QReclaim (key route hash : string) (staleAfter : duration) : query (option Z)
  | QStore (key route hash : string) (status : Z) (body : string) : query ()
  | QRelease (key route : string) (token : Z) : query ()
  | QQueueReversal (t : TranLogRow) (reason payload : string) : query ()
  | QInsertSaf (tranID : Z) (mti payload : string) : query Z
  | QClaimDue (limit : nat) (lease : duration) : query (list SafRow)
  | QMarkInFlight (id attempts : Z) (next : time) (err : string) : query ()
  | QMarkAcked (id : Z) : query ()
  | QMarkDead (id : Z) (err : string) : query ()
  | QUpdatePayload (id : Z) (payload : string) : query ()
  | QFindReversal (tranID : Z) : query SafRow
  | QTranRRN (id : Z) : query string
  | QMerchant (tid : string) : query Merchant
  | QRecordEvent (severity easy technical : string) : query ().

Definition exec_query {A} (q : query A) (now : time) : dbcall A :=
  match q in query A return dbcall A with
  | QInsert row => insertTranLog now row
  | QInsertCompletion row rrn => InsertCompletion now row rrn
  | QUpdateStatus id st rc ac => UpdateStatus now id st rc ac
  | QUpdateStatusFrom id from st rc ac => UpdateStatusFrom now id from st rc ac
  | QUpdateAmounts id a b => UpdateAmounts id a b
  | QUpdateLateResponse rrn rc => UpdateLateResponse now rrn rc
  | QRecordStateTransition id from to => RecordStateTransition now id from to
  | QGet rrn => GetTran rrn
  | QReleaseCompletion p c => ReleaseCompletion p c
  | QFindOrphans before limit => FindOrphans before limit
  | QMarkTimedOut id => MarkTimedOut now id
  | QReserve key route hash => Reserve now key route hash
  | QAttachRRN key route token rrn => AttachRRN key route token rrn
  | QReclaim key route hash stale => Reclaim now key route hash stale
  | QStore key route hash status body => StoreResponse now key route hash status body
  | QRelease key route token => Release key route token
  | QQueueReversal t reason payload => queue_reversal now t reason payload
  | QInsertSaf id mti payload => insert_saf now id mti payload
  | QClaimDue limit lease => ClaimDue now limit lease
  | QMarkInFlight id n next err => MarkInFlight id n next err
  | QMarkAcked id => MarkAcked now id
  | QMarkDead id err => MarkDead id err
  | QUpdatePayload id payload => UpdatePayload id payload
  | QFindReversal id => FindReversal id
  | QTranRRN id => TranRRN id
  | QMerchant tid => GetMerchant tid
  | QRecordEvent _ _ _ => λ db, (Ok (), db)
  end.

(** ** Events *)

(** [purchase.Transaction] and [advtxn.Transaction]: what a request answers and the hub is told. *)
Record Transaction := mkTransaction {
  x_RRN : string; x_STAN : string; x_Type : string; x_Status : string; x_ResponseCode : string;
  x_ResponseLabel : option string; x_Amount : Money; x_MaskedPAN : string; x_TerminalID : string;
  x_MerchantName : string; x_LatencyMs : option Z; x_CreatedAt : time; x_ReversalReason : string;
  x_AuthCode : string; x_BusinessDate : string; x_TraceID : string
}.

Record AdvTransaction := mkAdvTransaction {
  y_RRN : string; y_STAN : string; y_Type : string; y_Status : string; y_ResponseCode : string;
  y_Amount : Money; y_ApprovedAmount : option Money; y_Balance : option Money; y_MaskedPAN : string;
  y_TerminalID : string; y_MerchantName : string; y_AuthCode : string; y_OriginalRRN : string;
  y_BusinessDate : string; y_CreatedAt : time; y_ResponseLabel : option string;
  y_LatencyMs : option Z; y_TraceID : string
}.

(** The two methods of the hub, the first at either transaction type. *)
Inductive broadcast :=
  | BroadcastTransaction (event : string) (txn : Transaction)
  | BroadcastAdvTransaction (event : string) (txn : AdvTransaction)
  | BroadcastNetworkEvent (severity easyText technicalText : string).

Inductive event : Type → Type :=
  | EDb {A} (q : query A) : event (result error A)
  | ESend (mti : string) (fields : fieldmap) : event (result error fieldmap)
  | ENextSTAN : event (option string)
  | EIsSignedOn : event bool
  | ENow : event time
  | ERand (bound : Z) : event Z                 (* the jitter of a backoff *)
  | ENonce : event (option string)              (* rand.Reader for one sealing *)
  | EActiveZAK : event string
  | EFallbackKeys : event (option (list KeyRow))
  | EFlag : event bool                          (* a hook of the chaos lab *)
  | EBroadcast (b : broadcast) : event ().

(** ** Programs *)

Inductive prog (A : Type) : Type :=
  | Ret (a : A)
  | Vis {R : Type} (e : event R) (k : R → prog A).
Arguments Ret {A} a.
Arguments Vis {A R} e k.

Fixpoint pbind {A B} (f : A → prog B) (p : prog A) : prog B :=
  match p with
  | Ret a => f a
  | Vis e k => Vis e (λ r, pbind f (k r))
  end.

#[export] Instance prog_ret : MRet prog := @Ret.
#[export] Instance prog_bind : MBind prog := λ A B f p, pbind f p.

Definition trigger {R} (e : event R) : prog R := Vis e Ret.

(** Go's [(T, error)] with the usual early return on an error. *)
Definition progE (A : Type) : Type := prog (result error A).

Definition retE {A} (a : A) : progE A := Ret (Ok a).
Definition failE {A} (e : error) : progE A := Ret (Err e).
Definition bindE {A B} (p : progE A) (f : A → progE B) : progE B :=
  pbind (λ r, match r with Ok a => f a | Err e => Ret (Err e) end) p.

Declare Scope prog_scope.
Delimit Scope prog_scope with prog.
Notation "x <-! p ; k" := (bindE p (λ x, k)) (at level 100, p at next level, right associativity) : prog_scope.
Notation "p ;;! k" := (bindE p (λ _, k)) (at level 100, right associativity) : prog_scope.
Notation "x <-- p ; k" := (pbind (λ x, k) p) (at level 100, p at next level, right associativity) : prog_scope.

Definition db {A} (q : query A) : progE A := trigger (EDb q).

(** ** Execution *)

Inductive fate := Done | Lost | AckLost.

#[export] Instance fate_eq_dec : EqDecision fate.
Proof. solve_decision. Defined.

(** What the environment decides at one event. *)
Record choice := mkChoice {
  c_fate : fate;
  c_resp : result error fieldmap;     (* how a Send ends *)
  c_flag : bool;                      (* link up, signed on, hook *)
  c_tick : duration;                  (* time since the previous event *)
  c_rand : Z;
  c_nonce : option string
}.

Record World := mkWorld {
  w_db : DB; w_keys : KeyTable; w_zak : string; now : time; stan_counter : Z;
  sends_of : list (string * fieldmap);            (* what went out on the link *)
  answers : list (result error fieldmap);         (* and how each send ended *)
  told : list broadcast
}.

Definition lost {A} : result error A := Err [ErrDatabase].

Definition exec_db {A} (q : query A) (f : fate) (now : time) (db : DB) : result error A * DB :=
  match f with
  | Done => exec_query q now db
  | Lost => (lost, db)
  | AckLost => (lost, (exec_query q now db).2)
  end.

Definition with_db (w : World) (d : DB) : World :=
  mkWorld d (w_keys w) (w_zak w) (now w) (stan_counter w) (sends_of w) (answers w) (told w).

Definition tick (c : choice) (w : World) : World :=
  mkWorld (w_db w) (w_keys w) (w_zak w) (now w + Z.max 0 (c_tick c)) (stan_counter w) (sends_of w) (answers w) (told w).

(** One event, after the clock moved. *)
Definition exec {R} (e : event R) (c : choice) (w : World) : R * World :=
  match e in event R return R * World with
  | EDb q => let '(r, d) := exec_db q (c_fate c) (now w) (w_db w) in (r, with_db w d)
  | ESend mti fields =>
      (c_resp c, mkWorld (w_db w) (w_keys w) (w_zak w) (now w) (stan_counter w)
                         (sends_of w ++ [(mti, fields)]) (answers w ++ [c_resp c]) (told w))
  | ENextSTAN =>
      if c_flag c then
        let '(n, stan) := NextSTAN (stan_counter w) in
        (Some stan, mkWorld (w_db w) (w_keys w) (w_zak w) (now w) n (sends_of w) (answers w) (told w))
      else (None, w)
  | EIsSignedOn => (c_flag c, w)
  | ENow => (now w, w)
  | ERand bound => (if (0 <=? c_rand c) && (c_rand c <? bound) then c_rand c else 0, w)
  | ENonce => (match c_nonce c with
               | Some n => if (slen n =? 12)%nat then Some n else None
               | None => None
               end, w)
  | EActiveZAK => (w_zak w, w)
  | EFallbackKeys =>
      (match c_fate c with
       | Done => Some (FallbackKeys (now w) "ZAK" "" dualKeyWindow (w_keys w))
       | _ => None
       end, w)
  | EFlag => (c_flag c, w)
  | EBroadcast b =>
      ((), mkWorld (w_db w) (w_keys w) (w_zak w) (now w) (stan_counter w) (sends_of w) (answers w) (told w ++ [b]))
  end.

(** The quiet environment: everything works, the link is up, nobody answers. *)
Definition quiet : choice := mkChoice Done (Err [ErrOther "deadline exceeded"]) true 0 0 (Some "000000000000").

(** Alone: the environment's choices in turn, then quiet ones. *)
Fixpoint run {A} (p : prog A) (cs : list choice) (w : World) : A * World :=
  match p with
  | Ret a => (a, w)
  | Vis e k =>
      let '(c, cs) := match cs with c :: cs => (c, cs) | [] => (quiet, []) end in
      let '(r, w) := exec e c (tick c w) in
      run (k r) cs w
  end.

(** ** Reasoning about every outcome: weakest preconditions over a ghost state *)

(** A protocol: what an event may do in a ghost state [S], and the states it may lead to. *)
Section wp.
Context {S : Type} (allowed : ∀ R, event R → S → Prop) (next : ∀ R, event R → S → R → S → Prop).

Fixpoint wp {A} (p : prog A) (Q : A → S → Prop) (s : S) : Prop :=
  match p with
  | Ret a => Q a s
  | Vis e k => allowed _ e s ∧ ∀ r s', next _ e s r s' → wp (k r) Q s'
  end.

Lemma wp_mono {A} (p : prog A) (Q Q' : A → S → Prop) s :
  (∀ a s, Q a s → Q' a s) → wp p Q s → wp p Q' s.
Proof.
  intros HQ. revert s. induction p as [a|R e k IH]; intros s; cbn [wp]; [apply HQ|].
  intros [Ha Hk]. split; [done|]. intros r s' Hn. apply IH, Hk, Hn.
Qed.

Lemma wp_pbind {A B} (f : A → prog B) (p : prog A) (Q : B → S → Prop) s :
  wp p (λ a s, wp (f a) Q s) s → wp (pbind f p) Q s.
Proof.
  revert s. induction p as [a|R e k IH]; intros s; cbn [wp pbind]; [done|].
  intros [Ha Hk]. split; [done|]. intros r s' Hn. apply IH, Hk, Hn.
Qed.

Lemma wp_bindE {A B} (p : progE A) (f : A → progE B) (Q : result error B → S → Prop) s :
  wp p (λ r s, match r with Ok a => wp (f a) Q s | Err e => Q (Err e) s end) s → wp (bindE p f) Q s.
Proof. intros H. apply wp_pbind. eapply wp_mono; [|exact H]. intros [a|e] s'; done. Qed.
End wp.

Lemma run_pbind {A B} (f : A → prog B) (p : prog A) cs w :
  ∃ cs', run (pbind f p) cs w = (let '(a, w') := run p cs w in run (f a) cs' w').
Proof.
  revert cs w. induction p as [a|R e k IH]; intros cs w; cbn [run pbind].
  - by exists cs.
  - destruct cs as [|c cs].
    + destruct (exec e quiet (tick quiet w)) as [r w']. apply IH.
    + destruct (exec e c (tick c w)) as [r w']. apply IH.
Qed.

(** *** Every run of a program, stopped anywhere *)

Definition by_exec {R} (e : event R) (w : World) (r : R) (w' : World) : Prop :=
  ∃ c, exec e c (tick c w) = (r, w').

(** What outlives the request: the database, what was sent, and how each send ended. *)
Definition visible (w : World) : DB * list (string * fieldmap) * list (result error fieldmap) :=
  (w_db w, sends_of w, answers w).

(** Only the first [n] events happen: the gateway stops there. *)
Fixpoint crash {A} (n : nat) (p : prog A) (cs : list choice) (w : World) : World :=
  match n, p with
  | S n, Vis e k =>
      let '(c, cs) := match cs with c :: cs => (c, cs) | [] => (quiet, []) end in
      let '(r, w) := exec e c (tick c w) in
      crash n (k r) cs w
  | _, _ => w
  end.

Section runs.
(** [I] holds wherever the run stops, [Q] when it returns. *)
Context (I : DB * list (string * fieldmap) * list (result error fieldmap) → Prop).

Fixpoint runs {A} (p : prog A) (Q : A → World → Prop) (w : World) : Prop :=
  I (visible w) ∧
  match p with
  | Ret a => Q a w
  | Vis e k => ∀ r w', by_exec e w r w' → runs (k r) Q w'
  end.

Lemma runs_here {A} (p : prog A) Q w : runs p Q w → I (visible w).
Proof. destruct p; cbn; tauto. Qed.

Lemma runs_run {A} (p : prog A) Q w cs : runs p Q w → Q (run p cs w).1 (run p cs w).2.
Proof.
  revert cs w. induction p as [a|R e k IH]; intros cs w; cbn [runs run]; [tauto|].
  intros [_ H]. destruct cs as [|c cs].
  - destruct (exec e quiet (tick quiet w)) as [r w'] eqn:E. apply IH, H. by exists quiet.
  - destruct (exec e c (tick c w)) as [r w'] eqn:E. apply IH, H. by exists c.
Qed.

Lemma runs_crash {A} (p : prog A) Q w n cs : runs p Q w → I (visible (crash n p cs w)).
Proof.
  revert p cs w. induction n as [|n IH]; intros p cs w H; [by apply runs_here in H|].
  destruct p as [a|R e k]; [by apply runs_here in H|]. destruct H as [_ H]. cbn [crash]. destruct cs as [|c cs].
  - destruct (exec e quiet (tick quiet w)) as [r w'] eqn:E. apply IH, H. by exists quiet.
  - destruct (exec e c (tick c w)) as [r w'] eqn:E. apply IH, H. by exists c.
Qed.

Lemma runs_mono {A} (p : prog A) (Q Q' : A → World → Prop) w :
  (∀ a w, I (visible w) → Q a w → Q' a w) → runs p Q w → runs p Q' w.
Proof.
  intros HQ. revert w. induction p as [a|R e k IH]; intros w; cbn [runs]; [intuition|].
  intros [Hi H]. split; [done|]. intros r w' Hw. by apply IH, H.
Qed.

Lemma runs_pbind {A B} (f : A → prog B) (p : prog A) (Q : B → World → Prop) w :
  runs p (λ a, runs (f a) Q) w → runs (pbind f p) Q w.
Proof.
  revert w. induction p as [a|R e k IH]; intros w; cbn [runs pbind]; [tauto|].
  intros [Hi H]. split; [done|]. intros r w' Hw. by apply IH, H.
Qed.

Lemma runs_bindE {A B} (p : progE A) (f : A → progE B) (Q : result error B → World → Prop) w :
  runs p (λ r w, match r with Ok a => runs (f a) Q w | Err e => Q (Err e) w end) w → runs (bindE p f) Q w.
Proof.
  intros H. apply runs_pbind. eapply runs_mono; [|exact H]. intros [a|e] s' Hi; [done|]. by split.
Qed.

Lemma runs_Ret {A} (a : A) (Q : A → World → Prop) w : I (visible w) → Q a w → runs (Ret a) Q w.
Proof. by split. Qed.

(** The world later, with another database. *)
Definition later (w : World) (n : time) (d : DB) : World :=
  mkWorld d (w_keys w) (w_zak w) n (stan_counter w) (sends_of w) (answers w) (told w).

Lemma runs_vis {R A} (e : event R) (k : R → prog A) Q w :
  I (visible w) →
  (∀ c, let '(r, w') := exec e c (later w (now w + Z.max 0 (c_tick c)) (w_db w)) in runs (k r) Q w') →
  runs (Vis e k) Q w.
Proof.
  intros Hi H. split; [done|]. intros r w' [c Hc]. specialize (H c).
  change (later w _ (w_db w)) with (tick c w) in H. by rewrite Hc in H.
Qed.

Lemma runs_db {A B} (q : query A) (k : result error A → prog B) Q w :
  I (visible w) →
  (∀ f n, now w ≤ n → let '(r, d) := exec_db q f n (w_db w) in runs (k r) Q (later w n d)) →
  runs (Vis (EDb q) k) Q w.
Proof.
  intros Hi H. apply runs_vis; [done|]. intros c. cbn [exec w_db later now].
  specialize (H (c_fate c) (now w + Z.max 0 (c_tick c)) ltac:(lia)).
  by destruct (exec_db q (c_fate c) _ (w_db w)) as [r d].
Qed.
End runs.

Definition anywhere (v : DB * list (string * fieldmap) * list (result error fieldmap)) : Prop := True.

(** The three fates of a database call. *)
Lemma exec_db_cases {A} (q : query A) f n d (P : result error A → DB → Prop) :
  P lost d → (∀ r d', exec_query q n d = (r, d') → P r d' ∧ P lost d') →
  let '(r, d') := exec_db q f n d in P r d'.
Proof.
  intros HL HE. destruct (exec_query q n d) as [r d'] eqn:E. destruct (HE r d' eq_refl).
  destruct f; cbn [exec_db]; rewrite ?E; done.
Qed.
