(* ===== verification/Idempotency.v ===== *)
(** * Idempotency: a request is sent at most once per idempotency key

    [gateway-go/internal/purchase/idempotency.go] over the idempotency_record of Store.v.  The
    second half runs any number of requests concurrently over one database, every call of every
    request being one step, in any order and with any outcome, and shows what the reservation
    protocol guarantees. *)

From S2P Require Import Prelude Digits Codec Mux KeyStore Mac Calendar Store Journey Prog.
Local Open Scope Z_scope.
Local Open Scope prog_scope.

Definition requestTimeout : duration := 30 * Second.
Definition persistTimeout : duration := 10 * Second.
Definition staleAfter : duration := requestTimeout + persistTimeout + 20 * Second.

(** ** The reservation a create call holds *)

(** [reservation]: the key and the token that fences it; the RRN it attached is the state of
    [hprog] ("" before). *)
Record reservation := mkReservation { h_key : string; h_route : string; h_token : Z }.

Definition hprog (A : Type) : Type := string → prog (result error A * string).

Definition hret {A} (a : A) : hprog A := λ rrn, Ret (Ok a, rrn).
Definition hfail {A} (e : error) : hprog A := λ rrn, Ret (Err e, rrn).
Definition hlift {A} (p : progE A) : hprog A := λ rrn, r <-- p; Ret (r, rrn).
Definition hbind {A B} (p : hprog A) (f : A → hprog B) : hprog B := λ rrn,
  pbind (λ r : result error A * string, match r with
                    | (Ok a, rrn) => f a rrn
                    | (Err e, rrn) => Ret (Err e, rrn)
                    end) (p rrn).

Notation "x <-* p ; k" := (hbind p (λ x, k)) (at level 100, p at next level, right associativity) : prog_scope.

(** The package function [AttachRRN]: [held] is the reservation of the context, if any. *)
Definition attach_rrn (held : option reservation) (rrn : string) : hprog () := λ attached,
  match held with
  | None => Ret (Ok (), attached)
  | Some h =>
      r <-- db (QAttachRRN (h_key h) (h_route h) (h_token h) rrn);
      match r with
      | Ok _ => Ret (Ok (), rrn)
      | Err e => Ret (Err e, attached)
      end
  end.

Definition afterSend {A} (r : result error A) : result error A :=
  match r with Ok a => Ok a | Err e => Err (errors_Join [ErrAfterSend] e) end.

Record idemKey := mkIdemKey { k_key : string; k_route : string; k_hash : string; k_status : Z }.

Section idempotent.
(** The response and its JSON encoding. *)
Context {T : Type} (Marshal : T → string) (Unmarshal : string → option T).

(** [Recover]: the transaction of an RRN, and whether its status is final. *)
Definition Recover : Type := string → progE (T * bool).

Definition storeResponse (k : idemKey) (response : T) : progE () :=
  db (QStore (k_key k) (k_route k) (k_hash k) (k_status k) (Marshal response)).

Definition answerFromLog (k : idemKey) (rrn : string) (fromLog : Recover) : progE T :=
  txn <-! fromLog rrn;
  if negb txn.2 then retE txn.1
  else storeResponse k txn.1 ;;! retE txn.1.

(** A token to go on with, or the answer. *)
Definition takeOverStale (k : idemKey) (rrn : string) (fromLog : option Recover) : progE (T + Z) :=
  if negb (String.eqb rrn "") then
    match fromLog with
    | None => failE [ErrIdempotencyInProgress]
    | Some f => answer <-! answerFromLog k rrn f; retE (inl answer)
    end
  else
    token <-! db (QReclaim (k_key k) (k_route k) (k_hash k) staleAfter);
    match token with
    | None => failE [ErrIdempotencyInProgress]
    | Some token => retE (inr token)
    end.

Definition begin_ (k : idemKey) (fromLog : option Recover) : progE (T + Z) :=
  r <-! db (QReserve (k_key k) (k_route k) (k_hash k));
  match r with
  | InProgress rrn reservedAt =>
      now <-- trigger ENow;
      if staleAfter <? Sub now reservedAt then takeOverStale k rrn fromLog
      else failE [ErrIdempotencyInProgress]
  | Holds token => retE (inr token)
  | Replay stored =>
      match Unmarshal (r_body stored) with
      | Some answer => retE (inl answer)
      | None => failE [ErrOther "decode stored response"]
      end
  end.

Definition failed (k : idemKey) (token : Z) (sentRRN : string) (fromLog : option Recover) (err : error) : progE T :=
  if errors_Is err ErrReservationLost then failE err
  else if negb (errors_Is err ErrAfterSend) then
    r <-- db (QRelease (k_key k) (k_route k) token);
    match r with
    | Err releaseErr => failE (errors_Join err releaseErr)
    | Ok _ => failE err
    end
  else
    match fromLog with
    | None => failE err
    | Some f =>
        if String.eqb sentRRN "" then failE err
        else
          r <-- answerFromLog k sentRRN f;
          match r with
          | Err answerErr => failE (errors_Join err answerErr)
          | Ok answer => retE answer
          end
    end.

Definition Idempotent (k : idemKey) (create : option reservation → hprog T) (fromLog : option Recover) : progE T :=
  r <-! begin_ k fromLog;
  match r with
  | inl answer => retE answer
  | inr token =>
      created <-- create (Some (mkReservation (k_key k) (k_route k) token)) "";
      match created with
      | (Err e, rrn) => failed k token rrn fromLog e
      | (Ok result, _) =>
          r <-- storeResponse k result;
          match afterSend r with
          | Err e => failE e
          | Ok _ => retE result
          end
      end
  end.

(** ** The protocol of a reservation *)

Inductive phase :=
  | NoKey
  | Holding (token : Z)                       (* reserved *)
  | Attached (token : Z)                      (* its RRN is on the key: it may send *)
  | SentOut (token : Z) (msg : string * fieldmap)
  | Unsure (token : Z)                        (* AttachRRN failed: it must not send *)
  | Over.                                     (* it gave the key back *)

Definition holds_token (s : phase) : option Z :=
  match s with
  | Holding t | Attached t | SentOut t _ | Unsure t => Some t
  | NoKey | Over => None
  end.

Definition may_release (s : phase) (t : Z) : Prop := s = Holding t ∨ s = Attached t ∨ s = Unsure t.

Definition allowed_db (key route : string) {A} (q : query A) (s : phase) : Prop :=
  match q with
  | QReserve k r _ | QReclaim k r _ _ => k = key ∧ r = route ∧ s = NoKey
  | QAttachRRN k r t rrn => k = key ∧ r = route ∧ s = Holding t ∧ rrn ≠ ""
  | QRelease k r t => k = key ∧ r = route ∧ may_release s t
  | QStore k r _ _ _ => k = key ∧ r = route
  | _ => True
  end.

(** Code that creates no transaction under a key (route "", the SAF worker) sends freely. *)
Definition allowed (key route : string) (R : Type) (e : event R) (s : phase) : Prop :=
  match e with
  | EDb q => allowed_db key route q s
  | ESend m f => route = "" ∨ (∃ t, s = Attached t) ∨ (∃ t, s = SentOut t (m, f))
  | _ => True
  end.

Definition next_db {A} (q : query A) (s : phase) : result error A → phase :=
  match q in query A return result error A → phase with
  | QReserve _ _ _ => λ r, match r with Ok (Holds t) => Holding t | _ => s end
  | QReclaim _ _ _ _ => λ r, match r with Ok (Some t) => Holding t | _ => s end
  | QAttachRRN _ _ t _ => λ r, match r with Ok _ => Attached t | Err _ => Unsure t end
  | QRelease _ _ _ => λ _, Over
  | _ => λ _, s
  end.

Definition next_phase {R} (e : event R) (s : phase) : R → phase :=
  match e in event R return R → phase with
  | EDb q => next_db q s
  | ESend m f => λ _, match s with
                      | Attached t | SentOut t _ => SentOut t (m, f)
                      | s => s
                      end
  | _ => λ _, s
  end.

Definition nextp (R : Type) (e : event R) (s : phase) (r : R) (s' : phase) : Prop := s' = next_phase e s r.

(** A request keeps the protocol from phase [s] on. *)
Definition keeps {A} (key route : string) (p : prog A) (Q : A → phase → Prop) (s : phase) : Prop :=
  wp (allowed key route) nextp p Q s.

(** A create call may fail before the send in any phase it can give the key back from; once sent,
    its error says so. *)
Definition create_post (t : Z) (r : result error T * string) (s : phase) : Prop :=
  match r.1 with
  | Ok _ => True
  | Err e => errors_Is e ErrReservationLost = true ∨ errors_Is e ErrAfterSend = true ∨ may_release s t
  end.

(** Code that only reads the log keeps any phase. *)
Definition reads_only {A} (key route : string) (p : prog A) : Prop :=
  ∀ s, keeps key route p (λ _ s', s' = s) s.

Lemma answerFromLog_keeps k rrn f s :
  (∀ rrn, reads_only (k_key k) (k_route k) (f rrn)) →
  keeps (k_key k) (k_route k) (answerFromLog k rrn f) (λ _ _, True) s.
Proof.
  intros Hf. unfold answerFromLog. apply wp_bindE. eapply wp_mono; [|apply Hf].
  intros [[txn final]|e] s' ->; [|done]. destruct final; cbn; [|done].
  split; [done|]. intros [?|?] s' ->; done.
Qed.

Lemma Idempotent_keeps k create fromLog :
  (∀ t, keeps (k_key k) (k_route k)
          (create (Some (mkReservation (k_key k) (k_route k) t)) "") (create_post t) (Holding t)) →
  (∀ f rrn, fromLog = Some f → reads_only (k_key k) (k_route k) (f rrn)) →
  keeps (k_key k) (k_route k) (Idempotent k create fromLog) (λ _ _, True) NoKey.
Proof.
  intros Hc Hf.
  assert (Hgo : ∀ t, keeps (k_key k) (k_route k)
    (created <-- create (Some (mkReservation (k_key k) (k_route k) t)) "";
      match created with
      | (Err e, rrn) => failed k t rrn fromLog e
      | (Ok result, _) =>
          r <-- storeResponse k result;
          match afterSend r with
          | Err e => failE e
          | Ok _ => retE result
          end
      end) (λ _ _, True) (Holding t)).
  { intros t. apply wp_pbind. eapply wp_mono; [|apply Hc]. intros [[res|e] rrn] s Hpost.
    - cbn. split; [done|]. intros [?|?] s' _; done.
    - unfold failed. cbn [create_post fst] in Hpost.
      destruct (errors_Is e ErrReservationLost) eqn:E1; [done|].
      destruct (errors_Is e ErrAfterSend) eqn:E2; cbn [negb].
      + destruct fromLog as [f|]; [|done]. destruct (String.eqb rrn ""); [done|].
        apply wp_pbind. eapply wp_mono; [|apply answerFromLog_keeps; intros r; by apply Hf].
        intros [?|?] s' _; done.
      + destruct Hpost as [?|[?|Hr]]; [done|done|]. cbn. split; [done|]. intros [?|?] s' _; done. }
  unfold Idempotent. apply wp_bindE. unfold begin_. apply wp_bindE. cbn. split; [done|].
  intros [[t|stored|rrn at0]|e] s' ->; cbn; [apply Hgo|by destruct (Unmarshal _)| |done].
  split; [done|]. intros now s' ->. destruct (staleAfter <? Sub now at0); [|done].
  unfold takeOverStale. destruct (String.eqb rrn ""); cbn [negb].
  - cbn. split; [done|]. intros [[t|]|e] s' ->; cbn; [apply Hgo|done|done].
  - destruct fromLog as [f|]; [|done]. apply wp_bindE.
    eapply wp_mono; [|apply answerFromLog_keeps; intros r; by apply Hf]. intros [?|?] s' _; done.
Qed.
End idempotent.

(** *** Composing programs that only read *)

Definition touches_idem {A} (q : query A) : bool :=
  match q with
  | QReserve _ _ _ | QAttachRRN _ _ _ _ | QReclaim _ _ _ _ | QStore _ _ _ _ _ | QRelease _ _ _ => true
  | _ => false
  end.

Lemma reads_Ret {A} key route (a : A) : reads_only key route (Ret a).
Proof. intros s. done. Qed.

Definition no_phase {R} (e : event R) : bool :=
  match e with ESend _ _ => false | EDb _ => false | _ => true end.

Lemma reads_trigger {R} key route (e : event R) : no_phase e = true → reads_only key route (trigger e).
Proof. intros He s. destruct e; try discriminate He; (split; [done|]); by intros r s' ->. Qed.

Lemma reads_db {A} key route (q : query A) : touches_idem q = false → reads_only key route (db q).
Proof.
  intros Hq s. destruct q; try discriminate Hq; (split; [done|]); by intros r s' ->.
Qed.

Lemma reads_pbind {A B} key route (f : A → prog B) (p : prog A) :
  reads_only key route p → (∀ a, reads_only key route (f a)) → reads_only key route (pbind f p).
Proof.
  intros Hp Hf s. apply wp_pbind. eapply wp_mono; [|apply Hp]. intros a s' ->. apply Hf.
Qed.

Lemma reads_bindE {A B} key route (p : progE A) (f : A → progE B) :
  reads_only key route p → (∀ a, reads_only key route (f a)) → reads_only key route (bindE p f).
Proof. intros Hp Hf. apply reads_pbind; [done|]. intros [a|e]; [apply Hf|apply reads_Ret]. Qed.

#[export] Hint Resolve reads_Ret reads_pbind reads_bindE : reads.
#[export] Hint Extern 1 (reads_only _ _ (trigger _)) => apply reads_trigger; reflexivity : reads.
#[export] Hint Extern 1 (reads_only _ _ (db _)) => apply reads_db; reflexivity : reads.
#[export] Hint Extern 2 (reads_only _ _ (match ?x with _ => _ end)) => destruct x : reads.
#[export] Hint Extern 3 (reads_only _ _ (retE _)) => apply reads_Ret : reads.
#[export] Hint Extern 3 (reads_only _ _ (failE _)) => apply reads_Ret : reads.

(** Sequencing in a create call. *)
Lemma keeps_hbind {A B} key route (p : hprog A) (f : A → hprog B) rrn Q s :
  keeps key route (p rrn) (λ r s', match r with
                                   | (Ok a, rrn) => keeps key route (f a rrn) Q s'
                                   | (Err e, rrn) => Q (Err e, rrn) s'
                                   end) s →
  keeps key route (hbind p f rrn) Q s.
Proof.
  intros Hp. unfold hbind. apply wp_pbind. eapply wp_mono; [|exact Hp].
  intros [[a|e] rrn'] s' Hs; exact Hs.
Qed.

Lemma keeps_hlift {A B} key route (p : progE A) (f : A → hprog B) rrn Q s :
  reads_only key route p →
  (∀ a, keeps key route (f a rrn) Q s) → (∀ e, Q (Err e, rrn) s) →
  keeps key route (hbind (hlift p) f rrn) Q s.
Proof.
  intros Hp Hf He. apply keeps_hbind. unfold hlift. apply wp_pbind. eapply wp_mono; [|apply Hp].
  intros [a|e] s' ->; [apply Hf|apply He].
Qed.

(** ** Requests running concurrently *)

(** A request, the key it names, and (for the proof only) its phase. *)
Record thread := mkThread {
  t_res : Type; t_prog : prog t_res; t_key : string * string; t_phase : phase }.

Record Pool := mkPool {
  threads : gmap nat thread;
  world : World;
  sent_log : list (nat * (string * fieldmap))     (* which request sent what *)
}.

Definition log_event {R} (i : nat) (e : event R) (log : list (nat * (string * fieldmap))) :=
  match e with ESend m f => log ++ [(i, (m, f))] | _ => log end.

(** One scheduling decision: request [i] makes its next call, with the outcome [c]. *)
Definition pool_step (p : Pool) (ic : nat * choice) : Pool :=
  let '(i, c) := ic in
  match threads p !! i with
  | Some (mkThread A (Vis e k) key s) =>
      let '(r, w) := exec e c (tick c (world p)) in
      mkPool (<[i := mkThread A (k r) key (next_phase e s r)]> (threads p)) w (log_event i e (sent_log p))
  | _ => p
  end.

Definition pool_run (sched : list (nat * choice)) (p : Pool) : Pool := fold_left pool_step sched p.

Definition thread_ok (t : thread) : Prop :=
  keeps (t_key t).1 (t_key t).2 (t_prog t) (λ _ _, True) (t_phase t).

(** What holds of key [k] when it was free at [T0]. *)
Record pool_inv (k : string * string) (T0 : time) (p : Pool) : Prop := {
  pi_ok i t : threads p !! i = Some t → thread_ok t;
  pi_now : T0 ≤ now (world p);
  pi_token i t n : threads p !! i = Some t → holds_token (t_phase t) = Some n → n < next_token (w_db (world p));
  pi_distinct i j ti tj n : threads p !! i = Some ti → threads p !! j = Some tj →
    holds_token (t_phase ti) = Some n → holds_token (t_phase tj) = Some n → i = j;
  pi_created r : idem (w_db (world p)) !! k = Some r → T0 ≤ i_created r;
  pi_attached i t n : threads p !! i = Some t → t_key t = k →
    (t_phase t = Attached n ∨ ∃ msg, t_phase t = SentOut n msg) →
    ∃ r, idem (w_db (world p)) !! k = Some r ∧ i_token r = Some n ∧ i_rrn r ≠ "";
  pi_log i msg : (i, msg) ∈ sent_log p → ∀ t, threads p !! i = Some t → t_key t = k →
    ∃ n, t_phase t = SentOut n msg
}.

(** How a call may change the reservations. *)
Record idem_change (k : string * string) (T0 now : time) (s s' : phase) (key : string * string)
    (d d' : DB) : Prop := {
  ic_token : next_token d ≤ next_token d';
  ic_new n : holds_token s' = Some n → holds_token s = Some n ∨ (n = next_token d ∧ n < next_token d');
  ic_created r' : idem d' !! k = Some r' → T0 ≤ i_created r' ∨ ∃ r, idem d !! k = Some r ∧ i_created r' = i_created r;
  (* another request's attached row survives *)
  ic_others r n : idem d !! k = Some r → i_token r = Some n → i_rrn r ≠ "" → holds_token s ≠ Some n →
    T0 ≤ i_created r → now ≤ T0 + idempotencyTTL →
    ∃ r', idem d' !! k = Some r' ∧ i_token r' = Some n ∧ i_rrn r' ≠ "";
  (* and so does its own, unless it gives the key back *)
  ic_own n : key = k → (s' = Attached n ∨ ∃ msg, s' = SentOut n msg) →
    (∃ r', idem d' !! k = Some r' ∧ i_token r' = Some n ∧ i_rrn r' ≠ "") ∨
    ((s = Attached n ∨ ∃ msg, s = SentOut n msg) ∧
     (∀ r, idem d !! k = Some r → i_token r = Some n → i_rrn r ≠ "" → T0 ≤ i_created r → now ≤ T0 + idempotencyTTL →
      ∃ r', idem d' !! k = Some r' ∧ i_token r' = Some n ∧ i_rrn r' ≠ ""))
}.

(** A call that leaves reservations alone. *)
Lemma idem_change_same k T0 now s key d d' :
  idem d' = idem d → next_token d' = next_token d → idem_change k T0 now s s key d d'.
Proof.
  intros Hi Ht. split; rewrite ?Hi, ?Ht.
  - done.
  - by left.
  - intros r Hr. right. eauto.
  - intros r n Hr Hn Hrrn _ _ _. by exists r.
  - intros n _ Hs. right. split; [done|]. intros r Hr Hn Hrrn _ _. by exists r.
Qed.

Lemma update_tran_idem id wh f d :
  idem (update_tran id wh f d).2 = idem d ∧ next_token (update_tran id wh f d).2 = next_token d.
Proof. unfold update_tran. repeat case_match; done. Qed.

Lemma update_saf_idem id f d :
  idem (update_saf id f d) = idem d ∧ next_token (update_saf id f d) = next_token d.
Proof. unfold update_saf. case_match; done. Qed.

Ltac split_updates :=
  repeat match goal with
  | |- context [update_tran ?id ?wh ?f ?d] =>
      let H := fresh "Hu" in
      pose proof (update_tran_idem id wh f d) as [? ?];
      destruct (update_tran id wh f d) as [[|?] ?] eqn:H
  | |- context [update_saf ?id ?f ?d] =>
      pose proof (update_saf_idem id f d) as [? ?]; generalize dependent (update_saf id f d); intros
  end.

Lemma insert_tran_idem now row d :
  idem (insertTranLog now row d).2 = idem d ∧ next_token (insertTranLog now row d).2 = next_token d.
Proof. unfold insertTranLog. repeat case_match; done. Qed.

Lemma insert_saf_idem now id mti payload d :
  idem (insert_saf now id mti payload d).2 = idem d ∧ next_token (insert_saf now id mti payload d).2 = next_token d.
Proof. unfold insert_saf. repeat case_match; done. Qed.

Lemma query_keeps_idem {A} (q : query A) now d :
  touches_idem q = false →
  idem (exec_query q now d).2 = idem d ∧ next_token (exec_query q now d).2 = next_token d.
Proof.
  destruct q; intros Hq; try discriminate Hq; cbn [exec_query]; try done.
  - apply insert_tran_idem.
  - unfold InsertCompletion. destruct (existsb _ _); [|done].
    pose proof (insert_tran_idem now row
      (set_tran d ((λ r, if completable preAuthRRN r then set_completed r (RRN row) else r) <$> tran d))) as [H1 H2].
    destruct (insertTranLog _ _ _) as [[?|?] ?]; cbn in *; done.
  - unfold UpdateStatus. case_match; [apply update_tran_idem|by case_match].
  - unfold UpdateStatusFrom. case_match; [|repeat case_match; done].
    split_updates; cbn in *; done.
  - unfold UpdateAmounts. apply update_tran_idem.
  - unfold RecordStateTransition. by case_match.
  - unfold GetTran. by case_match.
  - unfold MarkTimedOut. split_updates; cbn in *; done.
  - unfold queue_reversal. split_updates; [done|]. cbn [snd] in *.
    match goal with |- context [insert_saf ?n ?i ?m ?p ?dd] =>
      pose proof (insert_saf_idem n i m p dd) as [Hi Hn]; destruct (insert_saf n i m p dd) as [[?|?] ?] end;
      cbn in *; [|done]. split; congruence.
  - apply insert_saf_idem.
  - unfold MarkInFlight. apply update_saf_idem.
  - unfold MarkAcked. destruct (saf d !! id); [|done]. cbn [snd]. unfold finishOnAck.
    pose proof (update_saf_idem id (ack now) d) as [H1 H2].
    repeat case_if; cbn; split_updates; cbn in *; split; congruence.
  - unfold MarkDead. apply update_saf_idem.
  - unfold UpdatePayload. apply update_saf_idem.
  - unfold FindReversal. by case_match.
  - unfold TranRRN. by repeat case_match.
  - unfold GetMerchant. by case_match.
Qed.

(** The calls that touch reservations rewrite or drop the row of their own key only. *)
Lemma idem_change_row k T0 now s s' key d d' (o : option IdemRow) :
  idem d' = partial_alter (λ _, o) key (idem d) →
  next_token d ≤ next_token d' →
  (∀ n, holds_token s' = Some n → holds_token s = Some n ∨ (n = next_token d ∧ n < next_token d')) →
  (key = k → ∀ r', o = Some r' → T0 ≤ i_created r' ∨ ∃ r, idem d !! k = Some r ∧ i_created r' = i_created r) →
  (key = k → ∀ r n, idem d !! k = Some r → i_token r = Some n → i_rrn r ≠ "" → holds_token s ≠ Some n →
     T0 ≤ i_created r → now ≤ T0 + idempotencyTTL →
     ∃ r', o = Some r' ∧ i_token r' = Some n ∧ i_rrn r' ≠ "") →
  (key = k → ∀ n, (s' = Attached n ∨ ∃ msg, s' = SentOut n msg) →
     (∃ r', o = Some r' ∧ i_token r' = Some n ∧ i_rrn r' ≠ "") ∨
     ((s = Attached n ∨ ∃ msg, s = SentOut n msg) ∧
      (∀ r, idem d !! k = Some r → i_token r = Some n → i_rrn r ≠ "" → T0 ≤ i_created r → now ≤ T0 + idempotencyTTL →
       ∃ r', o = Some r' ∧ i_token r' = Some n ∧ i_rrn r' ≠ ""))) →
  idem_change k T0 now s s' key d d'.
Proof.
  intros Hd Ht Hnew Hc Ho Hown. destruct (decide (key = k)) as [<-|Hne].
  - assert (Hl : idem d' !! key = o) by (rewrite Hd; apply lookup_partial_alter_eq).
    split; rewrite ?Hl; eauto.
  - assert (Hl : idem d' !! k = idem d !! k) by (rewrite Hd; by apply lookup_partial_alter_ne).
    split; rewrite ?Hl; [done|done|eauto|eauto|done].
Qed.

Lemma upsert_partial_alter d key route r :
  idem (upsert_idem d key route r 0) = partial_alter (λ _, Some r) (key, route) (idem d).
Proof. done. Qed.

(** Giving up a phase without a change of the table. *)
Lemma idem_change_drop k T0 now s s' key d :
  (holds_token s' = holds_token s ∨ holds_token s' = None) →
  (∀ n, (s' = Attached n ∨ ∃ msg, s' = SentOut n msg) → s = s') →
  idem_change k T0 now s s' key d d.
Proof.
  intros Hh Ha. split; [done| | | |].
  - intros n Hn. left. destruct Hh; congruence.
  - intros r Hr. right. eauto.
  - intros r n Hr Hn Hrrn _ _ _. by exists r.
  - intros n _ Hs. right. rewrite (Ha _ Hs). split; [done|]. intros r Hr Hn Hrrn _ _. by exists r.
Qed.

Lemma reserve_change k T0 now key route hash d f :
  T0 ≤ now →
  idem_change k T0 now NoKey (next_db (QReserve key route hash) NoKey (exec_db (QReserve key route hash) f now d).1)
    (key, route) d (exec_db (QReserve key route hash) f now d).2.
Proof.
  intros HT. destruct (fate_eq_dec f Lost) as [->|Hf];
    [by apply idem_change_drop; [left|intros n [?|[? ?]]]|].
  assert (Hstale : ∀ r, (key, route) = k → idem d !! k = Some r → T0 ≤ i_created r → now ≤ T0 + idempotencyTTL →
            i_created r <? now - idempotencyTTL = false) by (intros; apply Z.ltb_ge; lia).
  assert (Hfresh : ∀ s', s' = Holding (next_token d) ∨ s' = NoKey →
    (∀ r, (key, route) = k → idem d !! k = Some r → i_created r <? now - idempotencyTTL = true) →
    idem_change k T0 now NoKey s' (key, route) d
      (upsert_idem d key route (mkIdem hash pendingStatus "null" now "" (Some (next_token d))) 1)).
  { intros s' Hs Hold. eapply idem_change_row; [done|cbn; lia| | | |].
    - intros n Hn. right. cbn [next_token upsert_idem]. destruct Hs as [-> | ->]; cbn in Hn; [|done].
      injection Hn as <-. lia.
    - intros _ r' [= <-]. by left.
    - intros Hk r n Hr _ _ _ Hc Hn. specialize (Hstale r Hk Hr Hc Hn). by rewrite (Hold r Hk Hr) in Hstale.
    - intros _ n [->|[msg ->]]; by destruct Hs. }
  assert (Hsame : idem_change k T0 now NoKey NoKey (key, route) d d)
    by (apply idem_change_drop; [by left|done]).
  destruct (idem d !! (key, route)) as [r|] eqn:E.
  - destruct (i_created r <? now - idempotencyTTL) eqn:Eage.
    + destruct f; [|done|]; cbn [exec_db exec_query]; unfold Reserve; rewrite E, Eage; cbn [fst snd next_db];
        [apply Hfresh; [by left|]|apply Hfresh; [by right|]]; intros r' <- Hr; congruence.
    + destruct f; [|done|]; cbn [exec_db exec_query]; unfold Reserve; rewrite E, Eage;
        repeat case_if; done.
  - destruct f; [|done|]; cbn [exec_db exec_query]; unfold Reserve; rewrite E; cbn [fst snd next_db];
      [apply Hfresh; [by left|]|apply Hfresh; [by right|]]; intros r' <- Hr; congruence.
Qed.

Lemma reclaim_change k T0 now key route hash stale d f :
  T0 ≤ now →
  idem_change k T0 now NoKey
    (next_db (QReclaim key route hash stale) NoKey (exec_db (QReclaim key route hash stale) f now d).1)
    (key, route) d (exec_db (QReclaim key route hash stale) f now d).2.
Proof.
  intros HT.
  assert (Hsame : idem_change k T0 now NoKey NoKey (key, route) d d)
    by (apply idem_change_drop; [by left|done]).
  destruct (fate_eq_dec f Lost) as [->|Hf]; [exact Hsame|].
  assert (Hfresh : ∀ s' r, s' = Holding (next_token d) ∨ s' = NoKey →
    idem d !! (key, route) = Some r → i_rrn r = "" →
    idem_change k T0 now NoKey s' (key, route) d
      (upsert_idem d key route
         (mkIdem (i_hash r) (i_status r) (i_body r) now (i_rrn r) (Some (next_token d))) 1)).
  { intros s' r Hs Hr Hrrn. eapply idem_change_row; [done|cbn; lia| | | |].
    - intros n Hn. right. cbn [next_token upsert_idem]. destruct Hs as [-> | ->]; cbn in Hn; [|done].
      injection Hn as <-. lia.
    - intros _ r' [= <-]. by left.
    - intros <- r2 n Hr2 _ Hrrn2. congruence.
    - intros _ n [->|[msg ->]]; by destruct Hs. }
  destruct f; [|done|]; cbn [exec_db exec_query]; unfold Reclaim;
    (destruct (idem d !! (key, route)) as [r|] eqn:E; [|exact Hsame]);
    (case_if; [|exact Hsame]);
    apply andb_true_iff in Hb as [Hb _]; apply andb_true_iff in Hb as [_ Hrrn];
    apply String.eqb_eq in Hrrn; cbn [fst snd next_db]; apply Hfresh; auto.
Qed.

Lemma attach_change k T0 now key route t rrn d f :
  rrn ≠ "" → T0 ≤ now →
  let q := QAttachRRN key route t rrn in
  idem_change k T0 now (Holding t) (next_db q (Holding t) (exec_db q f now d).1) (key, route) d (exec_db q f now d).2.
Proof.
  intros Hrrn HT q.
  assert (Hsame : idem_change k T0 now (Holding t) (Unsure t) (key, route) d d).
  { apply idem_change_drop; [by left|]. by intros n [?|[? ?]]. }
  assert (Hset : ∀ s' r, s' = Attached t ∨ s' = Unsure t → idem d !! (key, route) = Some r → i_token r = Some t →
    idem_change k T0 now (Holding t) s' (key, route) d
      (upsert_idem d key route (mkIdem (i_hash r) (i_status r) (i_body r) (i_created r) rrn (i_token r)) 0)).
  { intros s' r Hs Hr Ht. eapply idem_change_row; [done|cbn; lia| | | |].
    - intros n Hn. left. by destruct Hs as [-> | ->].
    - intros <- r' [= <-]. right. by exists r.
    - intros <- r2 n Hr2 Hn _ _ _ _. eexists. split; [done|]. cbn. split; [congruence|done].
    - intros _ n [->|[msg ->]]; destruct Hs as [Hs|Hs]; inversion Hs; subst. left. by eexists. }
  subst q. destruct f; cbn [exec_db exec_query]; [|done|]; unfold AttachRRN;
    (destruct (idem d !! (key, route)) as [r|] eqn:E; [|exact Hsame]);
    (destruct (holds t r) eqn:Hh; [|exact Hsame]);
    unfold holds in Hh; apply andb_true_iff in Hh as [_ Hh]; (destruct (i_token r) as [t'|] eqn:Et; [|done]);
    apply Z.eqb_eq in Hh as ->; rewrite <- Et; cbn [fst snd next_db]; apply Hset; auto.
Qed.

Lemma release_change k T0 now key route t s d f :
  may_release s t →
  let q := QRelease key route t in
  idem_change k T0 now s (next_db q s (exec_db q f now d).1) (key, route) d (exec_db q f now d).2.
Proof.
  intros Hs q.
  assert (Hsame : idem_change k T0 now s Over (key, route) d d)
    by (apply idem_change_drop; [by right|by intros n [?|[? ?]]]).
  assert (Hdel : ∀ r, idem d !! (key, route) = Some r → i_token r = Some t →
    idem_change k T0 now s Over (key, route) d (set_idem d (delete (key, route) (idem d)))).
  { intros r Hr Ht. eapply (idem_change_row _ _ _ _ _ _ _ _ None); [done|cbn; lia|done|done| |].
    - intros <- r2 n Hr2 Hn _ Hne _ _. exfalso. apply Hne. assert (n = t) as -> by congruence.
      by destruct Hs as [->|[->| ->]].
    - by intros _ n [?|[? ?]]. }
  subst q. destruct f; cbn [exec_db exec_query]; [|done|]; unfold Release;
    (destruct (idem d !! (key, route)) as [r|] eqn:E; [|exact Hsame]);
    (destruct (holds t r) eqn:Hh; [|exact Hsame]);
    unfold holds in Hh; apply andb_true_iff in Hh as [_ Hh]; (destruct (i_token r) as [t'|] eqn:Et; [|done]);
    apply Z.eqb_eq in Hh as ->; by apply (Hdel r).
Qed.

Lemma store_change k T0 now key route hash status body s d f :
  T0 ≤ now →
  let q := QStore key route hash status body in
  idem_change k T0 now s (next_db q s (exec_db q f now d).1) (key, route) d (exec_db q f now d).2.
Proof.
  intros HT q.
  assert (Hsame : idem_change k T0 now s s (key, route) d d) by (apply idem_change_drop; auto).
  assert (Hup : idem_change k T0 now s s (key, route) d (StoreResponse now key route hash status body d).2).
  { unfold StoreResponse. destruct (idem d !! (key, route)) as [r|] eqn:E; cbn [snd];
      (eapply idem_change_row; [done|cbn; lia|by left| | |]).
    - intros <- r' [= <-]. right. by exists r.
    - intros <- r2 n Hr2 Hn Hrrn _ _ _. eexists. split; [done|]. cbn. split; congruence.
    - intros <- n Hs. right. split; [done|]. intros r2 Hr2 Hn Hrrn _ _. eexists. split; [done|]. cbn. split; congruence.
    - intros _ r' [= <-]. by left.
    - intros <- r2 n Hr2. congruence.
    - intros <- n Hs. right. split; [done|]. intros r2 Hr2. congruence. }
  subst q. destruct f; done.
Qed.

Lemma exec_db_change {A} (q : query A) k T0 now key route s d f :
  T0 ≤ now → allowed_db key route q s →
  idem_change k T0 now s (next_db q s (exec_db q f now d).1) (key, route) d (exec_db q f now d).2.
Proof.
  intros HT Ha. destruct (touches_idem q) eqn:Et.
  - destruct q; try discriminate Et; cbn [allowed_db] in Ha.
    + destruct Ha as (-> & -> & ->). by apply reserve_change.
    + destruct Ha as (-> & -> & -> & ?). by apply attach_change.
    + destruct Ha as (-> & -> & ->). by apply reclaim_change.
    + destruct Ha as (-> & ->). by apply store_change.
    + destruct Ha as (-> & -> & ?). by apply release_change.
  - assert (Hs : next_db q s (exec_db q f now d).1 = s) by (by destruct q). rewrite Hs.
    destruct (query_keeps_idem q now d Et) as [H1 H2].
    destruct f; cbn [exec_db snd]; [|by apply idem_change_same|];
      [destruct (exec_query q now d) as [r d'] eqn:E; by apply idem_change_same|by apply idem_change_same].
Qed.

Lemma idem_change_send k T0 now s t msg key d :
  (s = Attached t ∨ ∃ msg', s = SentOut t msg') → idem_change k T0 now s (SentOut t msg) key d d.
Proof.
  intros Hs. split; [done| | | |].
  - intros n Hn. left. by destruct Hs as [->|[? ->]].
  - intros r Hr. right. eauto.
  - intros r n Hr Hn Hrrn _ _ _. by exists r.
  - intros n _ [[=]|[msg' [= -> ->]]]. right. split; [destruct Hs as [->|[? ->]]; eauto|].
    intros r Hr Hn Hrrn _ _. by exists r.
Qed.

Lemma exec_change {R} (e : event R) (c : choice) (w : World) k T0 key route s :
  T0 ≤ now w → allowed key route R e s →
  let '(r, w') := exec e c (tick c w) in
  now w' = now w + Z.max 0 (c_tick c) ∧
  idem_change k T0 (now w') s (next_phase e s r) (key, route) (w_db w) (w_db w').
Proof.
  intros HT Ha. assert (Hsame : ∀ n, idem_change k T0 n s s (key, route) (w_db w) (w_db w)).
  { intros n. apply idem_change_drop; auto. }
  destruct e; cbn [exec]; try (split; [done|apply Hsame]).
  - cbn [allowed] in Ha. pose proof (exec_db_change q k T0 (now (tick c w)) key route s (w_db w) (c_fate c)) as H.
    cbn [w_db tick]. destruct (exec_db q (c_fate c) (now (tick c w)) (w_db w)) as [r d]. split; [done|].
    apply H; [cbn; lia|done].
  - split; [done|]. cbn [next_phase w_db tick now]. cbn [allowed] in Ha.
    destruct s as [| |t|t msg| |]; try apply Hsame; [apply idem_change_send; eauto|].
    apply idem_change_send; eauto.
  - destruct (c_flag c); [|split; [done|apply Hsame]].
    destruct (NextSTAN _) as [n stan]. split; [done|apply Hsame].
Qed.

(** A thread takes a step in its protocol. *)
Lemma thread_step {A R} (e : event R) (k : R → prog A) key s r :
  thread_ok (mkThread A (Vis e k) key s) →
  allowed key.1 key.2 R e s ∧ thread_ok (mkThread A (k r) key (next_phase e s r)).
Proof. intros [Ha Hk]. split; [exact Ha|]. by apply Hk. Qed.

(** What was sent stays sent, and one message per reservation. *)
Lemma next_phase_sent {R} (e : event R) key route s r n msg :
  route ≠ "" → allowed key route R e s → s = SentOut n msg → next_phase e s r = SentOut n msg.
Proof.
  intros Hr Ha ->. destruct e; try done; cbn in Ha |- *.
  - destruct q; try done; cbn in Ha |- *.
    + by destruct Ha as (_ & _ & ?).
    + by destruct Ha as (_ & _ & ? & _).
    + by destruct Ha as (_ & _ & ?).
    + by destruct Ha as (_ & _ & [?|[?|?]]).
  - by destruct Ha as [?|[[? [=]]|[? [= _ <-]]]].
Qed.

Lemma next_phase_logs {R} (e : event R) key route s r i log msg :
  route ≠ "" → allowed key route R e s → (i, msg) ∈ log_event i e log →
  (i, msg) ∈ log ∨ ∃ n, next_phase e s r = SentOut n msg.
Proof.
  intros Hr Ha. destruct e; cbn [log_event]; try (by left).
  rewrite elem_of_app, list_elem_of_singleton. intros [?|[= ->]]; [by left|]. right.
  cbn in Ha |- *. destruct Ha as [?|[[t ->]|[t ->]]]; [done|eauto|eauto].
Qed.

Lemma log_event_others {R} (e : event R) i j msg log :
  i ≠ j → (j, msg) ∈ log_event i e log → (j, msg) ∈ log.
Proof.
  intros Hij. destruct e; cbn [log_event]; try done.
  rewrite elem_of_app, list_elem_of_singleton. intros [?|[= ? _]]; [done|congruence].
Qed.

Lemma sent_holds s n : (s = Attached n ∨ ∃ msg, s = SentOut n msg) → holds_token s = Some n.
Proof. by intros [->|[msg ->]]. Qed.

Lemma pool_step_inv k T0 p ic :
  k.2 ≠ "" → pool_inv k T0 p → now (world (pool_step p ic)) ≤ T0 + idempotencyTTL → pool_inv k T0 (pool_step p ic).
Proof.
  intros Hroute Hinv. destruct ic as [i c]. unfold pool_step.
  destruct (threads p !! i) as [[A [a|R e kk] key s]|] eqn:Ei; try done.
  pose proof (exec_change e c (world p) k T0 key.1 key.2 s (pi_now _ _ _ Hinv)) as Hch.
  destruct (exec e c (tick c (world p))) as [r w] eqn:Ee. cbn [world]. intros Hnow.
  destruct (thread_step e kk key s r (pi_ok _ _ _ Hinv i _ Ei)) as [Ha Hok].
  destruct (Hch Ha) as [Hw Hc]. clear Hch. rewrite <- surjective_pairing in Hc.
  set (s' := next_phase e s r) in *.
  assert (Htok : ∀ j t n, threads p !! j = Some t → holds_token (t_phase t) = Some n → n < next_token (w_db (world p)))
    by apply (pi_token _ _ _ Hinv).
  assert (Hdiff : ∀ j t n, i ≠ j → threads p !! j = Some t → holds_token (t_phase t) = Some n → holds_token s' ≠ Some n).
  { intros j t n Hij Hj Hn Hs'. destruct (ic_new _ _ _ _ _ _ _ _ Hc n Hs') as [Hs|[-> _]].
    - apply Hij. exact (pi_distinct _ _ _ Hinv i j _ _ n Ei Hj Hs Hn).
    - specialize (Htok j t _ Hj Hn). lia. }
  split; cbn [threads world sent_log].
  - intros j t. destruct (decide (i = j)) as [<-|Hij].
    + rewrite lookup_insert_eq. by intros [= <-].
    + rewrite lookup_insert_ne by done. apply (pi_ok _ _ _ Hinv).
  - pose proof (pi_now _ _ _ Hinv). lia.
  - pose proof (ic_token _ _ _ _ _ _ _ _ Hc) as Hle.
    intros j t n. destruct (decide (i = j)) as [<-|Hij].
    + rewrite lookup_insert_eq. intros [= <-]; cbn [t_phase]; intros Hn.
      destruct (ic_new _ _ _ _ _ _ _ _ Hc n Hn) as [Hs|[-> ?]]; [|done]. specialize (Htok _ _ n Ei Hs). lia.
    + rewrite lookup_insert_ne by done. intros Hj Hn. specialize (Htok j t n Hj Hn). lia.
  - intros j1 j2 t1 t2 n. destruct (decide (i = j1)) as [<-|H1], (decide (i = j2)) as [<-|H2]; [done|..].
    + rewrite lookup_insert_eq, lookup_insert_ne by done. intros [= <-] Hj2 Hn1 Hn2. exfalso. by eapply Hdiff.
    + rewrite lookup_insert_eq, lookup_insert_ne by done. intros Hj1 [= <-] Hn1 Hn2. exfalso. by eapply Hdiff.
    + rewrite !lookup_insert_ne by done. apply (pi_distinct _ _ _ Hinv).
  - intros r' Hr'. destruct (ic_created _ _ _ _ _ _ _ _ Hc r' Hr') as [?|(r0 & Hr0 & ->)]; [done|].
    exact (pi_created _ _ _ Hinv r0 Hr0).
  - intros j t n. destruct (decide (i = j)) as [<-|Hij].
    + rewrite lookup_insert_eq. intros [= <-] Hk Hs'. cbn [t_key t_phase] in *.
      destruct (ic_own _ _ _ _ _ _ _ _ Hc n Hk Hs') as [?|[Hs Hkeep]]; [done|].
      destruct (pi_attached _ _ _ Hinv i _ n Ei Hk Hs) as (r0 & Hr0 & ? & ?).
      apply (Hkeep r0); [done..|exact (pi_created _ _ _ Hinv r0 Hr0)|lia].
    + rewrite lookup_insert_ne by done. intros Hj Hk Hs.
      destruct (pi_attached _ _ _ Hinv j t n Hj Hk Hs) as (r0 & Hr0 & ? & ?).
      apply (ic_others _ _ _ _ _ _ _ _ Hc r0 n); try done; [|exact (pi_created _ _ _ Hinv r0 Hr0)].
      intros Hsi. apply Hij. exact (pi_distinct _ _ _ Hinv i j _ _ n Ei Hj Hsi (sent_holds _ _ Hs)).
  - intros j msg. destruct (decide (i = j)) as [<-|Hij].
    + intros Hlog t. rewrite lookup_insert_eq. intros [= <-] Hk. cbn [t_key t_phase] in *.
      assert (Hr2 : key.2 ≠ "") by congruence.
      destruct (next_phase_logs e key.1 key.2 s r i _ msg Hr2 Ha Hlog) as [Hold|?]; [|done].
      destruct (pi_log _ _ _ Hinv i msg Hold _ Ei Hk) as [n Hn]. exists n.
      by eapply next_phase_sent.
    + intros Hlog t. rewrite lookup_insert_ne by done. apply (pi_log _ _ _ Hinv).
      by eapply log_event_others.
Qed.

Lemma exec_now {R} (e : event R) c w : now (exec e c w).2 = now w.
Proof.
  destruct e; cbn [exec]; try done.
  - by destruct (exec_db _ _ _ _).
  - destruct (c_flag c); [|done]. by destruct (NextSTAN _).
Qed.

Lemma pool_step_now p ic : now (world p) ≤ now (world (pool_step p ic)).
Proof.
  destruct ic as [i c]. unfold pool_step.
  destruct (threads p !! i) as [[A [a|R e kk] key s]|]; [lia| |lia].
  pose proof (exec_now e c (tick c (world p))) as H. destruct (exec e c _) as [r w]. cbn in *. lia.
Qed.

Lemma pool_run_now sched p : now (world p) ≤ now (world (pool_run sched p)).
Proof.
  revert p. induction sched as [|ic sched IH]; intros p; [cbn; lia|].
  specialize (IH (pool_step p ic)). pose proof (pool_step_now p ic). cbn. unfold pool_run in *. lia.
Qed.

Lemma pool_run_inv k T0 sched p :
  k.2 ≠ "" → pool_inv k T0 p → now (world (pool_run sched p)) ≤ T0 + idempotencyTTL → pool_inv k T0 (pool_run sched p).
Proof.
  intros Hk. revert p. induction sched as [|ic sched IH]; intros p Hinv Hnow; [done|].
  cbn in *. apply IH; [|done]. apply pool_step_inv; [done..|].
  pose proof (pool_run_now sched (pool_step p ic)). unfold pool_run in *. lia.
Qed.

(** Requests keep their keys. *)
Lemma pool_run_key sched p i t :
  threads p !! i = Some t → ∃ t', threads (pool_run sched p) !! i = Some t' ∧ t_key t' = t_key t.
Proof.
  revert p t. induction sched as [|[j c] sched IH]; intros p t Hi; [eauto|].
  cbn [pool_run fold_left]. destruct (threads p !! j) as [[A [a|R e kk] key s]|] eqn:Ej.
  1,3: assert (pool_step p (j, c) = p) as -> by (unfold pool_step; by rewrite Ej); by apply IH.
  destruct (exec e c (tick c (world p))) as [r w] eqn:Ee.
  assert (pool_step p (j, c) = mkPool (<[j:=mkThread A (kk r) key (next_phase e s r)]> (threads p)) w
                                 (log_event j e (sent_log p))) as ->
    by (unfold pool_step; by rewrite Ej, Ee).
  destruct (decide (i = j)) as [->|Hij].
  - assert (t = mkThread A (Vis e kk) key s) as -> by congruence.
    destruct (IH (mkPool (<[j:=mkThread A (kk r) key (next_phase e s r)]> (threads p)) w
                    (log_event j e (sent_log p))) (mkThread A (kk r) key (next_phase e s r)))
      as (t' & Ht' & Hk'); [apply lookup_insert_eq|]. by exists t'.
  - apply IH. cbn [threads]. by rewrite lookup_insert_ne.
Qed.

(** A pool of requests that start at [T0]. *)
Definition starting (p : Pool) : Prop :=
  sent_log p = [] ∧ ∀ i t, threads p !! i = Some t → thread_ok t ∧ t_phase t = NoKey.

Lemma starting_inv k p : starting p → idem (w_db (world p)) !! k = None → pool_inv k (now (world p)) p.
Proof.
  intros [Hlog Hth] Hk. split.
  - intros i t Hi. by destruct (Hth i t Hi).
  - lia.
  - intros i t n Hi. destruct (Hth i t Hi) as [_ ->]. done.
  - intros i j ti tj n Hi _. destruct (Hth i ti Hi) as [_ ->]. done.
  - congruence.
  - intros i t n Hi _. destruct (Hth i t Hi) as [_ ->]. by intros [?|[? ?]].
  - intros i msg. rewrite Hlog. by intros ?%not_elem_of_nil.
Qed.

(** Within a day, only one request sends under a key, and only one message. *)
Lemma sent_once k sched p i j ti tj mi mj :
  k.2 ≠ "" → starting p → idem (w_db (world p)) !! k = None →
  now (world (pool_run sched p)) ≤ now (world p) + idempotencyTTL →
  threads p !! i = Some ti → threads p !! j = Some tj → t_key ti = k → t_key tj = k →
  (i, mi) ∈ sent_log (pool_run sched p) → (j, mj) ∈ sent_log (pool_run sched p) →
  i = j ∧ mi = mj.
Proof.
  intros Hr Hs Hk Hnow Hi Hj Hki Hkj Hmi Hmj.
  pose proof (pool_run_inv k _ sched p Hr (starting_inv k p Hs Hk) Hnow) as Hinv.
  destruct (pool_run_key sched p i ti Hi) as (ti' & Hi' & Hki').
  destruct (pool_run_key sched p j tj Hj) as (tj' & Hj' & Hkj').
  rewrite Hki in Hki'. rewrite Hkj in Hkj'.
  destruct (pi_log _ _ _ Hinv i mi Hmi _ Hi' Hki') as [ni Hni].
  destruct (pi_log _ _ _ Hinv j mj Hmj _ Hj' Hkj') as [nj Hnj].
  destruct (pi_attached _ _ _ Hinv i _ ni Hi' Hki' (or_intror (ex_intro _ _ Hni))) as (ri & Hri & Hti & _).
  destruct (pi_attached _ _ _ Hinv j _ nj Hj' Hkj' (or_intror (ex_intro _ _ Hnj))) as (rj & Hrj & Htj & _).
  assert (ni = nj) as -> by congruence.
  assert (i = j) as -> by (eapply (pi_distinct _ _ _ Hinv); [done..| |]; rewrite ?Hni, ?Hnj; done).
  split; [done|]. congruence.
Qed.
