(* ===== verification/Advice.v ===== *)
(** * Advice: what the store-and-forward queue holds, and how it gets there

    [gateway-go/internal/saf]: advice.go, payload.go, lookup.go and reversal.go.  The 0420 of a
    reversal is built from the tran_log row it undoes and enqueued in the transaction that moves the
    row to REVERSAL_PENDING. *)

From S2P Require Import Prelude Digits Codec Mux Aes KeyStore Mac Calendar Store Journey Prog Idempotency.
Local Open Scope Z_scope.
Local Open Scope prog_scope.

(** ** advice.go *)

Definition acquirerID : string := "970499".
Definition posConditionCode : string := "00".
Definition mtiPurchase : string := "0200".
Definition forwardingInstitutionID : string := "00000000000".

(** [Asia/Ho_Chi_Minh]. *)
Definition terminalLocation : duration := hcm.

(** [fmt.Sprintf("%0ns", s)]. *)
Fixpoint repeat_char (n : nat) (c : ascii) : string :=
  match n with O => "" | S n => String c (repeat_char n c) end.
Definition Sprintf0s (w : nat) (s : string) : string := repeat_char (w - slen s) "0"%char +:+ s.

Record advice := mkAdvice { Fields : fieldmap; CardToken_ : string }.

Definition originalDE15 (original : TranLogRow) : string :=
  if IsZero (BusinessDate original) then format_MMDD UTC (default zero_time (SentAt original))
  else MMDD (BusinessDate original).

(** DE 90: the original's MTI, STAN, DE 7, acquirer and forwarding institution. *)
Definition originalData (mti stan de7 : string) : string :=
  mti +:+ stan +:+ de7 +:+ Sprintf0s 11 acquirerID +:+ forwardingInstitutionID.

Definition reversalAdvice (original : TranLogRow) (reasonCode : string) : result error advice :=
  match SentAt original with
  | None => Err [errNeverSent]
  | Some sent =>
      if String.eqb (NetworkSTAN original) "" then Err [errNeverSent]
      else
        let originalMTI := if String.eqb (MTI original) "" then mtiPurchase else MTI original in
        Ok (mkAdvice
          (list_to_map
            [(3, ProcessingCode original);
             (4, Sprintf0d 12 (tAmount original));
             (12, format_hhmmss terminalLocation sent);
             (13, format_MMDD terminalLocation sent);
             (15, originalDE15 original);
             (22, POSEntryMode original);
             (25, posConditionCode);
             (32, acquirerID);
             (37, RRN original);
             (39, reasonCode);
             (41, TerminalID original);
             (42, MerchantID original);
             (49, tCurrency original);
             (90, originalData originalMTI (NetworkSTAN original) (format_DE7 UTC sent))])
          (CardToken original))
  end.

(** ** payload.go *)

(** ASCII text.  [encoding/json] replaces bytes that are no UTF-8, so it is not faithful to every
    Go string; every value of an advice is ASCII. *)
Definition ascii_text (s : string) : bool := str_forall (λ c, Z_of_ascii c <? 128) s.
Definition ascii_advice (a : advice) : Prop :=
  ascii_text (CardToken_ a) = true ∧ map_Forall (λ _ v, ascii_text v = true) (Fields a).

(** [encoding/json] on an advice, as the queue uses it: ASCII content is read back. *)
Class AdviceJSON := {
  Marshal : advice → string;
  Unmarshal : string → option advice;
  Unmarshal_Marshal a : ascii_advice a → Unmarshal (Marshal a) = Some a;
  Marshal_nonempty a : Marshal a ≠ ""
}.

Section queuer.
Context {J : AdviceJSON} (encKey : string).

Definition encodePayload (nonce : option string) (key : string) (adv : advice) : result error string :=
  let plain := Marshal adv in
  if String.eqb key "" then Ok plain
  else match EncryptBytes nonce key plain with
       | Ok sealed => Ok sealed
       | Err _ => Err [ErrOther "seal saf payload"]
       end.

Definition decodePayload (key payload : string) : result error advice :=
  if String.eqb payload "" then Ok (mkAdvice ∅ "")
  else
    plain ← (if String.eqb key "" then Ok payload
             else match DecryptBytes key payload with
                  | Ok plain => Ok plain
                  | Err _ => Err [ErrOther "decrypt saf payload"]
                  end);
    match Unmarshal plain with
    | Some adv => Ok adv
    | None => Err [ErrOther "decode saf payload"]
    end.

(** The nonce is drawn only when there is a key. *)
Definition seal (adv : advice) : progE string :=
  if String.eqb encKey "" then Ret (encodePayload None encKey adv)
  else nonce <-- trigger ENonce; Ret (encodePayload nonce encKey adv).

(** ** reversal.go *)

Definition liftE {A} (r : result error A) : progE A := Ret r.

(** The transaction of [Queue] is [queue_reversal] of Prog.v. *)
Definition Queue (txn : TranLogRow) (reasonCode : string) : progE () :=
  adv <-! liftE (reversalAdvice txn reasonCode);
  payload <-! seal adv;
  db (QQueueReversal txn reasonCode payload).

Definition notStoredInAdvice (n : Z) : bool := existsb (Z.eqb n) [2; 35; 52; 64; 128].

Definition stored_fields (sent : fieldmap) : fieldmap :=
  filter (λ kv, notStoredInAdvice kv.1 = false) sent.

Definition QueueAdvice (tranID : Z) (mti : string) (sent : fieldmap) : progE () :=
  payload <-! seal (mkAdvice (stored_fields sent) "");
  db (QInsertSaf tranID mti payload) ;;! retE ().

(** ** lookup.go *)

Definition ReversalLookup_Reversal (tranID : Z) : progE (option Reversal) :=
  row <-- db (QFindReversal tranID);
  match row with
  | Err e => if errors_Is e ErrNotFound then retE None else failE e
  | Ok row =>
      adv <-! liftE (decodePayload encKey (Payload row));
      retE (Some (mkReversal (s_status row) (Attempts row) (s_created row) (AckedAt row) (Fields adv)))
  end.
End queuer.

(** ** Payloads are read back *)

Lemma payload_roundtrip {J : AdviceJSON} key adv nonce payload :
  ascii_advice adv → (∀ n, nonce = Some n → slen n = 12%nat) →
  encodePayload nonce key adv = Ok payload → decodePayload key payload = Ok adv.
Proof.
  intros Ha Hn. unfold encodePayload, decodePayload. destruct (String.eqb key "") eqn:Ek.
  - intros [= <-]. destruct (String.eqb (Marshal adv) "") eqn:Em.
    { apply String.eqb_eq in Em. by destruct (Marshal_nonempty adv). }
    bind_step. by rewrite Unmarshal_Marshal by done.
  - destruct (EncryptBytes nonce key (Marshal adv)) as [ct|e] eqn:Ee; [|done]. intros [= <-].
    assert (Hct : ct ≠ "").
    { intros ->. unfold EncryptBytes in Ee. destruct (newGCM key) as [gcm|]; [|done]. bind_step.
      cbn [mbind result_bind] in Ee. destruct nonce as [n|]; [|done]. injection Ee as Ee.
      specialize (Hn n eq_refl). by destruct n. }
    apply String.eqb_neq in Hct. rewrite Hct.
    apply DecryptBytes_EncryptBytes in Ee; [|done]. rewrite Ee. bind_step. by rewrite Unmarshal_Marshal by done.
Qed.

Lemma seal_runs {J : AdviceJSON} I key adv w (Q : result error string → World → Prop) :
  I (visible w) →
  (∀ n r, now w ≤ n → (∀ payload, r = Ok payload → ascii_advice adv → decodePayload key payload = Ok adv) → Q r (later w n (w_db w))) →
  runs I (seal key adv) Q w.
Proof.
  intros Hi HQ. unfold seal. destruct (String.eqb key "") eqn:Ek.
  - apply runs_Ret; [done|]. destruct w. apply (HQ now); [cbn; lia|]. intros payload Hp Ha.
    eapply payload_roundtrip; [done| |exact Hp]. done.
  - apply runs_vis; [done|]. intros c. cbn [exec]. apply runs_Ret; [done|].
    apply HQ; [lia|]. intros payload Hp Ha. eapply payload_roundtrip; [done| |exact Hp].
    intros n Hn. destruct (c_nonce c) as [s|]; [|done]. destruct (slen s =? 12)%nat eqn:El; [|done].
    injection Hn as <-. by apply Nat.eqb_eq.
Qed.

Lemma str_forall_digit_ascii s : str_forall is_digit s = true → ascii_text s = true.
Proof.
  unfold ascii_text. induction s as [|c s IH]; [done|]. cbn. intros [Hc Hs]%andb_true_iff. rewrite (IH Hs), andb_true_r.
  assert (Hall : ∀ c, implb (is_digit c) (Z_of_ascii c <? 128) = true)
    by (apply ascii_cases; vm_compute; reflexivity).
  specialize (Hall c). by rewrite Hc in Hall.
Qed.

Lemma ascii_text_app a b : ascii_text (a +:+ b) = ascii_text a && ascii_text b.
Proof. apply str_forall_app. Qed.

Lemma ascii_Sprintf0d w n : (0 < w)%nat → 0 ≤ n < 10 ^ Z.of_nat w → ascii_text (Sprintf0d w n) = true.
Proof. intros Hw Hn. rewrite Sprintf0d_dec by done. apply str_forall_digit_ascii, dec_digits. Qed.

Lemma clock_parts l t : 0 ≤ Minute_of l t < 60 ∧ 0 ≤ Second_of l t < 60.
Proof.
  unfold Minute_of, Second_of. set (c := local_clock l t).
  pose proof (Z.mod_pos_bound c Hour ltac:(reflexivity)). pose proof (Z.mod_pos_bound c Minute ltac:(reflexivity)).
  split; (split; [apply Z.div_pos; [lia|reflexivity]|apply Z.div_lt_upper_bound; [reflexivity|]]).
  - change (Minute * 60) with Hour. lia.
  - change (Second * 60) with Minute. lia.
Qed.

Lemma ascii_DE7 l t : ascii_text (format_DE7 l t) = true.
Proof.
  unfold format_DE7, format_MMDD, format_hhmmss, civil. pose proof (civil_spec (local_day l t)) as Hc.
  destruct (civil_of_days (local_day l t)) as [[y m] d]. destruct Hc as (_ & Hm & Hd).
  pose proof (Hour_range l t). pose proof (clock_parts l t).
  rewrite !ascii_text_app, !ascii_Sprintf0d by (cbn; lia). done.
Qed.

Lemma ascii_MMDD l t : ascii_text (format_MMDD l t) = true.
Proof.
  pose proof (ascii_DE7 l t) as H. unfold format_DE7 in H. rewrite ascii_text_app in H. by apply andb_true_iff in H as [H _].
Qed.

Lemma ascii_hhmmss l t : ascii_text (format_hhmmss l t) = true.
Proof.
  pose proof (ascii_DE7 l t) as H. unfold format_DE7 in H. rewrite ascii_text_app in H. by apply andb_true_iff in H as [_ H].
Qed.

(** The row's own texts are ASCII, and its amount has the twelve digits of DE 4. *)
Definition ascii_row (t : TranLogRow) (reason : string) : bool :=
  forallb ascii_text [ProcessingCode t; POSEntryMode t; RRN t; reason; TerminalID t; MerchantID t; tCurrency t; MTI t;
                      NetworkSTAN t; CardToken t]
  && (0 <=? tAmount t) && (tAmount t <? 10 ^ 12).

Lemma reversalAdvice_ascii t reason adv :
  ascii_row t reason = true → reversalAdvice t reason = Ok adv → ascii_advice adv.
Proof.
  unfold ascii_row, reversalAdvice. intros [[Ht H0%Z.leb_le]%andb_true_iff H1%Z.ltb_lt]%andb_true_iff.
  cbn [forallb] in Ht. rewrite !andb_true_iff in Ht. destruct Ht as (? & ? & ? & ? & ? & ? & ? & ? & ? & ? & _).
  destruct (SentAt t) as [sent|]; [|done]. destruct (String.eqb _ _); [done|]. intros [= <-].
  split; [done|]. cbn [Fields].
  repeat (apply map_Forall_insert_2); try done; try (apply ascii_MMDD || apply ascii_hhmmss).
  - by apply ascii_Sprintf0d; [lia|].
  - unfold originalDE15, MMDD. destruct (IsZero _); apply ascii_MMDD.
  - unfold originalData. rewrite !ascii_text_app, ascii_DE7. destruct (String.eqb (MTI t) _);
      rewrite ?andb_true_iff; by split_and!.
Qed.

(** ** What enqueueing does to the database *)

Definition queued_row (n : time) (id tranID : Z) (mti payload : string) : SafRow :=
  mkSaf id tranID mti payload sPending 0 20 n "" n None.

(** The database after a reversal of the row [row] was queued. *)
Record reversal_queued (n : time) (t row : TranLogRow) (reason payload : string) (d d' : DB) : Prop := {
  rq_row : tran d !! ID t = Some row;
  rq_from : Status row = Status t;
  rq_tran : tran d' = <[ID t := set_reason (set_state row statusReversalPending) reason]> (tran d);
  rq_history : history d' = history d ++ [(ID t, mkTransition (Status t) statusReversalPending n)];
  rq_saf : saf d' = <[next_saf d := queued_row n (next_saf d) (ID t) mtiReversalAdvice payload]> (saf d);
  rq_next : next_saf d' = next_saf d + 1;
  rq_idem : idem d' = idem d
}.

Lemma queue_reversal_spec n t reason payload d r d' :
  queue_reversal n t reason payload d = (r, d') →
  (r = Ok () ∧ ∃ row, reversal_queued n t row reason payload d d') ∨
  (r = Err [ErrNotReversible] ∧ d' = d ∧ ∀ row, tran d !! ID t = Some row → Status row ≠ Status t).
Proof.
  unfold queue_reversal, update_tran. destruct (tran d !! ID t) as [row|] eqn:E.
  2: { intros [= <- <-]. right. by split_and!. }
  destruct (String.eqb (Status row) (Status t)) eqn:Es.
  2: { intros [= <- <-]. apply String.eqb_neq in Es. right. split_and!; [done|done|]. by intros ? [= ->]. }
  apply String.eqb_eq in Es. unfold insert_saf. cbn [tran add_history set_tran].
  rewrite lookup_insert_eq. cbn. intros [= <- <-]. left. split; [done|]. exists row.
  by split.
Qed.

Lemma insert_saf_spec n tranID mti payload d r d' :
  insert_saf n tranID mti payload d = (r, d') →
  (∃ row, r = Ok (next_saf d) ∧ tran d !! tranID = Some row ∧ mti ∈ ["0120"; "0220"; "0420"] ∧
     tran d' = tran d ∧ saf d' = <[next_saf d := queued_row n (next_saf d) tranID mti payload]> (saf d) ∧
     next_saf d' = next_saf d + 1 ∧ history d' = history d ∧ idem d' = idem d) ∨
  (r = Err [ErrDatabase] ∧ d' = d).
Proof.
  unfold insert_saf. destruct (tran d !! tranID) as [row|] eqn:E; [|intros [= <- <-]; by right].
  destruct (existsb (String.eqb mti) ["0120"; "0220"; "0420"]) eqn:Em; [|intros [= <- <-]; by right].
  intros [= <- <-]. left. exists row. split_and!; try done.
  apply existsb_exists in Em as (x & Hx & He). apply String.eqb_eq in He as ->.
  apply list_elem_of_In. exact Hx.
Qed.

(** ** The interface of the queue *)

(** What [purchase], [advtxn] and the sweeper rely on: a call either leaves the database alone and
    fails, or has queued the advice (even if it reports a failure). *)
Class SAFQueuer := {
  q_Queue : TranLogRow → string → progE ();
  q_QueueAdvice : Z → string → fieldmap → progE ();
  q_Queue_runs I t reason w (Q : result error () → World → Prop) :
    I (visible w) →
    (∀ e n, now w ≤ n → Q (Err e) (later w n (w_db w))) →
    (∀ n payload row d, now w ≤ n → reversal_queued n t row reason payload (w_db w) d →
       I (visible (later w n d)) ∧ ∀ r, Q r (later w n d)) →
    runs I (q_Queue t reason) Q w;
  q_QueueAdvice_runs I tranID mti sent w (Q : result error () → World → Prop) :
    I (visible w) →
    (∀ e n, now w ≤ n → Q (Err e) (later w n (w_db w))) →
    (∀ n payload id d, now w ≤ n → insert_saf n tranID mti payload (w_db w) = (Ok id, d) →
       I (visible (later w n d)) ∧ ∀ r, Q r (later w n d)) →
    runs I (q_QueueAdvice tranID mti sent) Q w;
  q_Queue_reads key route t reason : reads_only key route (q_Queue t reason);
  q_QueueAdvice_reads key route tranID mti sent : reads_only key route (q_QueueAdvice tranID mti sent)
}.

Section saf_queuer.
Context {J : AdviceJSON} (encKey : string).

Lemma Queue_runs I t reason w (Q : result error () → World → Prop) :
  I (visible w) →
  (∀ e n, now w ≤ n → Q (Err e) (later w n (w_db w))) →
  (∀ n payload row d adv, now w ≤ n → reversalAdvice t reason = Ok adv →
     (ascii_advice adv → decodePayload encKey payload = Ok adv) →
     reversal_queued n t row reason payload (w_db w) d → I (visible (later w n d)) ∧ ∀ r, Q r (later w n d)) →
  runs I (Queue encKey t reason) Q w.
Proof.
  intros Hi HE HQ. unfold Queue, liftE. destruct (reversalAdvice t reason) as [adv|e] eqn:Ea.
  2: { apply runs_Ret; [done|]. destruct w. apply (HE e now). cbn; lia. }
  apply runs_bindE, runs_Ret; [done|]. apply runs_bindE, seal_runs; [done|]. intros n r Hn Hr.
  destruct r as [payload|e]; [|by apply HE]. specialize (Hr payload eq_refl).
  apply runs_db; [done|]. intros f n' Hn'. cbn [later now] in Hn'.
  apply (exec_db_cases (QQueueReversal t reason payload) f n' (w_db w)
           (λ r d, runs I (Ret r) Q (later w n' d))).
  - apply runs_Ret; [done|]. apply HE. lia.
  - intros r d Hq. cbn [exec_query] in Hq.
    destruct (queue_reversal_spec _ _ _ _ _ _ _ Hq) as [(-> & row & Hd)|(-> & -> & _)].
    + destruct (HQ n' payload row d adv) as [Hi' HQ']; [lia|done|exact Hr|exact Hd|].
      split; by apply runs_Ret.
    + split; (apply runs_Ret; [done|apply HE; lia]).
Qed.

Lemma QueueAdvice_runs I tranID mti sent w (Q : result error () → World → Prop) :
  I (visible w) →
  (∀ e n, now w ≤ n → Q (Err e) (later w n (w_db w))) →
  (∀ n payload id d, now w ≤ n →
     (ascii_advice (mkAdvice (stored_fields sent) "") → decodePayload encKey payload = Ok (mkAdvice (stored_fields sent) "")) →
     insert_saf n tranID mti payload (w_db w) = (Ok id, d) → I (visible (later w n d)) ∧ ∀ r, Q r (later w n d)) →
  runs I (QueueAdvice encKey tranID mti sent) Q w.
Proof.
  intros Hi HE HQ. unfold QueueAdvice. apply runs_bindE, seal_runs; [done|]. intros n r Hn Hr.
  destruct r as [payload|e]; [|by apply HE]. specialize (Hr payload eq_refl).
  apply runs_bindE, runs_db; [done|]. intros f n' Hn'. cbn [later now] in Hn'.
  apply (exec_db_cases (QInsertSaf tranID mti payload) f n' (w_db w)
    (λ r d, runs I (Ret r) (λ r w, match r with Ok _ => runs I (retE ()) Q w | Err e => Q (Err e) w end) (later w n' d))).
  - apply runs_Ret; [done|]. apply HE. lia.
  - intros r d Hq. cbn [exec_query] in Hq.
    destruct (insert_saf_spec _ _ _ _ _ _ _ Hq) as [(row & -> & _)|(-> & ->)].
    + destruct (HQ n' payload (next_saf (w_db w)) d) as [Hi' HQ']; [lia|exact Hr|exact Hq|].
      split; (apply runs_Ret; [done|]); [apply runs_Ret; [done|]|]; exact (HQ' _).
    + split; (apply runs_Ret; [done|apply HE; lia]).
Qed.

Lemma seal_reads key route adv : reads_only key route (seal encKey adv).
Proof.
  intros s. unfold seal. destruct (String.eqb encKey ""); [done|]. split; [done|]. by intros r s' ->.
Qed.

#[export] Instance saf_queuer : SAFQueuer.
Proof.
  refine {| q_Queue := Queue encKey; q_QueueAdvice := QueueAdvice encKey |}.
  - intros I t reason w Q Hi HE HQ. apply Queue_runs; [exact Hi|exact HE|]. intros. by eapply HQ.
  - intros I tranID mti sent w Q Hi HE HQ. apply QueueAdvice_runs; [exact Hi|exact HE|]. intros. by eapply HQ.
  - intros key route t reason s. unfold Queue, liftE. destruct (reversalAdvice t reason); [|done].
    apply wp_bindE. cbn. apply wp_bindE. eapply wp_mono; [|apply seal_reads].
    intros [payload|e] s' ->; [|done]. split; [done|]. by intros r s' ->.
  - intros key route tranID mti sent s. unfold QueueAdvice. apply wp_bindE.
    eapply wp_mono; [|apply seal_reads]. intros [payload|e] s' ->; [|done].
    split; [done|]. by intros [?|?] s' ->.
Defined.
End saf_queuer.

(** ** What a reversal says *)

Definition card_data : list Z := [2; 14; 35; 52; 64; 128].

(** The advice names the original and repeats its terms, and holds no card data. *)
Definition reverses (t : TranLogRow) (reason : string) (adv : advice) : Prop :=
  ∃ sent, SentAt t = Some sent ∧ NetworkSTAN t ≠ "" ∧
    Fields adv !! 90 = Some (originalData (if String.eqb (MTI t) "" then mtiPurchase else MTI t)
                               (NetworkSTAN t) (format_DE7 UTC sent)) ∧
    Fields adv !! 37 = Some (RRN t) ∧ Fields adv !! 4 = Some (Sprintf0d 12 (tAmount t)) ∧
    Fields adv !! 49 = Some (tCurrency t) ∧ Fields adv !! 39 = Some reason ∧
    Fields adv !! 41 = Some (TerminalID t) ∧ CardToken_ adv = CardToken t ∧
    Forall (λ n, Fields adv !! n = None) card_data ∧
    Fields adv !! 11 = None ∧ Fields adv !! 7 = None.

Lemma reversalAdvice_reverses t reason adv : reversalAdvice t reason = Ok adv → reverses t reason adv.
Proof.
  unfold reversalAdvice. destruct (SentAt t) as [sent|] eqn:Es; [|done].
  destruct (String.eqb (NetworkSTAN t) "") eqn:En; [done|]. apply String.eqb_neq in En.
  intros [= <-]. exists sent. cbn [Fields CardToken_ list_to_map foldr fst snd]. split_and!; try done.
  repeat constructor.
Qed.

Lemma never_sent_errNeverSent t reason :
  SentAt t = None ∨ NetworkSTAN t = "" → reversalAdvice t reason = Err [errNeverSent].
Proof.
  unfold reversalAdvice. intros [-> | ->]; [done|]. by destruct (SentAt t).
Qed.

Lemma stored_fields_lookup sent n :
  stored_fields sent !! n = if notStoredInAdvice n then None else sent !! n.
Proof.
  unfold stored_fields. destruct (notStoredInAdvice n) eqn:E.
  - apply map_lookup_filter_None_2. right. intros v _ H. change (notStoredInAdvice n = false) in H. congruence.
  - destruct (sent !! n) as [v|] eqn:Ev.
    + by apply map_lookup_filter_Some_2.
    + apply map_lookup_filter_None_2. by left.
Qed.

(** C13. Queueing a reversal is atomic and complete.  Whatever the environment does to its calls,
    and wherever the gateway stops, [Queue] has changed nothing, or has moved the row it read to
    REVERSAL_PENDING, recorded the move and enqueued one 0420; and it reports success only in the
    second case.  When the row's own texts are ASCII, as those the gateway writes are, the payload of the
    0420 reads back as an advice naming the original message (DE 90 and DE 37), for its amount, currency
    and terminal, and holding neither card data nor a network identity. *)
Theorem reversal_queued_atomically (J : AdviceJSON) encKey t reason cs n w :
  let all_done d := ∃ at_ row payload adv,
    reversal_queued at_ t row reason payload (w_db w) d ∧
    reverses t reason adv ∧ (ascii_row t reason = true → decodePayload encKey payload = Ok adv) in
  let stopped := crash n (Queue encKey t reason) cs w in
  let '(r, w') := run (Queue encKey t reason) cs w in
  (w_db stopped = w_db w ∨ all_done (w_db stopped)) ∧
  ((is_ok r = false ∧ w_db w' = w_db w) ∨ all_done (w_db w')).
Proof.
  intros all_done stopped.
  assert (H : runs (λ v, v.1.1 = w_db w ∨ all_done v.1.1) (Queue encKey t reason)
                (λ r w', (is_ok r = false ∧ w_db w' = w_db w) ∨ all_done (w_db w')) w).
  { apply Queue_runs; [by left|intros e m _; by left|].
    intros m payload row d adv _ Ha Hd Hq. assert (Hall : all_done d).
    { exists m, row, payload, adv. split; [exact Hq|]. split; [by apply reversalAdvice_reverses|].
      intros Ht. by apply Hd, (reversalAdvice_ascii t reason). }
    split; [by right|]. intros r. by right. }
  pose proof (runs_run _ _ _ _ cs H) as Hrun. pose proof (runs_crash _ _ _ _ n cs H) as Hstop.
  destruct (run _ cs w) as [r w']. by split.
Qed.

(** ** An instance of [AdviceJSON], to evaluate with: the bits of the pair's code *)

Fixpoint bits_of_pos (p : positive) : string :=
  match p with
  | xH => "1"
  | xO p => String "o" (bits_of_pos p)
  | xI p => String "i" (bits_of_pos p)
  end.

Fixpoint pos_of_bits (s : string) : option positive :=
  match s with
  | "1" => Some xH
  | String "o" s => xO <$> pos_of_bits s
  | String "i" s => xI <$> pos_of_bits s
  | _ => None
  end.

Lemma pos_of_bits_of p : pos_of_bits (bits_of_pos p) = Some p.
Proof. induction p as [p IH|p IH|]; cbn; [by rewrite IH..|done]. Qed.

Definition demo_json : AdviceJSON.
Proof.
  refine {|
    Marshal a := bits_of_pos (encode (map_to_list (Fields a), CardToken_ a));
    Unmarshal s := p ← pos_of_bits s; x ← decode p; Some (mkAdvice (list_to_map (fst x)) (snd x))
  |}.
  - intros [f c] _. cbn. rewrite pos_of_bits_of. cbn. rewrite decode_encode. cbn. by rewrite list_to_map_to_list.
  - intros [f c]. cbn. by destruct (encode _).
Defined.

Definition demo_sent_row : TranLogRow :=
  mkTran 1 "626407000123" "PURCHASE" statusSent 150000 "704" "970400******0018" "TERM0001" "MERCHANT0000001" ""
    "000123" "" "" 0 "" None "0200" "000000" "052" (Some 0) None "tok-1" None None "" "" "" "" 0.
Definition demo_sent_world : World :=
  mkWorld (mkDB {[ 1 := demo_sent_row ]} 2 [] ∅ 1 ∅ 1 ∅ ∅) (mkKeyTable [] 1) "" 0 0 [] [] [].

Lemma reversal_queued_atomically_witness :
  ascii_row demo_sent_row "68" = true ∧
  let q := @Queue demo_json "" demo_sent_row "68" in
  let all_done d := ∃ at_ row payload adv,
    reversal_queued at_ demo_sent_row row "68" payload (w_db demo_sent_world) d ∧
    reverses demo_sent_row "68" adv ∧
    (ascii_row demo_sent_row "68" = true → @decodePayload demo_json "" payload = Ok adv) in
  let '(r, w') := run q [] demo_sent_world in
  (w_db (crash 0 q [] demo_sent_world) = w_db demo_sent_world ∨ all_done (w_db (crash 0 q [] demo_sent_world))) ∧
  ((is_ok r = false ∧ w_db w' = w_db demo_sent_world) ∨ all_done (w_db w')).
Proof.
  split; [vm_compute; reflexivity|]. exact (reversal_queued_atomically demo_json "" demo_sent_row "68" [] 0 demo_sent_world).
Defined.
