(* ===== verification/Purchase.v ===== *)
(** * Purchase: sending a 0200 and living with its outcome

    [gateway-go/internal/purchase/service.go] and cardtokens.go.  A request is a program over the
    environment of Prog.v, run under the idempotency reservation of Idempotency.v; the queue of
    reversals is used through [SAFQueuer], the HSM and the calendar through their classes. *)

From S2P Require Import Prelude Digits Codec Mux KeyStore Mac Calendar Mask Store Journey Prog Idempotency Advice.
Local Open Scope Z_scope.
Local Open Scope prog_scope.

(** ** Constants and data *)

Definition purchaseRoute : string := "purchases".
Definition cancelRoute : string := "cancellations".
Definition tranTypePurchase : string := "PURCHASE".
Definition rcLinkDown : string := "91".
Definition reasonTimeout : string := "68".
Definition reasonCancellation : string := "17".
Definition reasonMacFailure : string := "06".
Definition rcMacFailure : string := "96".
Definition rcFormatError : string := "30".
Definition responseMTI : string := "0210".
Definition eventCreated : string := "transaction.created".
Definition eventUpdated : string := "transaction.updated".
Definition statusCreatedHTTP : Z := 201.
Definition statusAcceptedHTTP : Z := 202.
Definition noStan : string := "000000".

Definition entryModeToDE22 : gmap string string :=
  {[ "CHIP_PIN" := "051"; "CHIP_NO_PIN" := "052"; "MANUAL_PIN" := "011"; "MANUAL_NO_PIN" := "012" ]}.

(** A Go map read: the zero value when the key is missing. *)
Definition get {K} `{Countable K} (m : gmap K string) (k : K) : string := default "" (m !! k).

Record CardFixture := mkCard {
  PAN : string; ExpiryYYMM : string; cBalance : Z; cCurrency : string; CardRef : string }.

Definition CardTokenRegistry : Type := gmap string CardFixture.
Definition Resolve (r : CardTokenRegistry) (token : string) : option CardFixture := r !! token.
Definition PAN_of (r : CardTokenRegistry) (token : string) : option string := PAN <$> r !! token.

(** [DefaultCardTokens]: the cards of cards_gen.go. *)
Definition DefaultCardTokens : CardTokenRegistry := list_to_map [
  ("tok_normal", mkCard "9704360000004417" "2811" 5000000 "704" "crd_normal0001");
  ("tok_low", mkCard "9704360000009021" "2903" 80000 "704" "crd_lowbal0002");
  ("tok_blocked", mkCard "9704360000003310" "2707" 2000000 "704" "crd_blockd0003");
  ("tok_expired", mkCard "9704360000007765" "2608" 1500000 "704" "crd_expird0004");
  ("tok_limit", mkCard "9704360000001208" "2912" 50000000 "704" "crd_limit00005");
  ("tok_second", mkCard "9704360000005540" "3006" 200000000 "704" "crd_second0006")].

Record PurchaseRequest := mkPurchase {
  p_TerminalID : string; p_CardToken : string; p_EntryMode : string; EncryptedPinBlock : string;
  EMVData : string; p_Amount : Money }.

Definition ResponseLabel (rc : string) : option string :=
  if String.eqb rc "" then None else Some (EasyTextForRC rc).

Definition ResponseCodeOf (resp : fieldmap) : string :=
  let rc := get resp 39 in if String.eqb rc "" then rcFormatError else rc.

Definition transactionFromRow (row : TranLogRow) : Transaction :=
  mkTransaction (RRN row) (NetworkSTAN row) (Type_ row) (Status row) (ResponseCode row)
    (ResponseLabel (ResponseCode row)) (mkMoney (tAmount row) (tCurrency row)) (MaskedPAN row)
    (TerminalID row) (MerchantName row) (LatencyMs row) (CreatedAt row)
    (ReversalReasonOf (ReversalReasonCode row)) (AuthCode row) (Format (BusinessDate row)) (TraceID row).

Definition with_outcome (t : Transaction) (status rc ac : string) : Transaction :=
  mkTransaction (x_RRN t) (x_STAN t) (x_Type t) status rc (x_ResponseLabel t) (x_Amount t) (x_MaskedPAN t)
    (x_TerminalID t) (x_MerchantName t) (x_LatencyMs t) (x_CreatedAt t) (x_ReversalReason t) ac
    (x_BusinessDate t) (x_TraceID t).
Definition with_label (t : Transaction) (label : option string) (latency : option Z) : Transaction :=
  mkTransaction (x_RRN t) (x_STAN t) (x_Type t) (x_Status t) (x_ResponseCode t) label (x_Amount t)
    (x_MaskedPAN t) (x_TerminalID t) (x_MerchantName t) latency (x_CreatedAt t) (x_ReversalReason t)
    (x_AuthCode t) (x_BusinessDate t) (x_TraceID t).

(** Only a link known to be down before the write guarantees that nothing left. *)
Definition SendFailureStatus (sendErr : error) : string * string :=
  if errors_Is sendErr ErrNotSignedOn then (statusDeclined, rcLinkDown) else (statusTimedOut, "").

Definition reversalReasonFor (status : string) (macFailed : bool) : string :=
  if String.eqb status statusTimedOut then reasonTimeout
  else if macFailed then reasonMacFailure else "".

(** A pure event, in the program of a request. *)
Definition heff {R} (e : event R) : hprog R := hlift (r <-- trigger e; retE r).

(** [int(d.Milliseconds())]. *)
Definition Milliseconds (d : duration) : Z := Z.quot d 1000000.

Definition merge_created (row : TranLogRow) (id : Z) (created : time) : TranLogRow :=
  with_extra row id (MerchantName row) created (LateResponseCode row) (LateResponseAt row)
    (ApprovedAmount row) (Balance row) (ReversalReasonCode row) (CompletedBy row) (BusinessDate row).

Section service.
Context {H : Module_} {C : Calendar} {SQ : SAFQueuer}.
Context (cardTokens : CardTokenRegistry).
(** [encoding/json] on the service's types, and the hex of a SHA-256. *)
Context (marshal_txn : Transaction → string) (unmarshal_txn : string → option Transaction)
        (marshal_req : PurchaseRequest → string) (sha256Hex : string → string).
(** [obs.TraceID(ctx)]. *)
Context (traceID : string).

(** [MACVerifier.Verify] of mac.go, reading the ZAK and the fallback keys when it needs them. *)
Definition verify (mti : string) (resp : fieldmap) : prog bool :=
  match macFieldOf resp with
  | None => Ret false
  | Some (macHex, macField) =>
      match Pack mti (delete macField resp) with
      | Err _ => Ret false
      | Ok packed =>
          zak <-- trigger EActiveZAK;
          if macMatches packed macHex zak then Ret true
          else
            keys <-- trigger EFallbackKeys;
            Ret (macMatchesAny (default [] keys) packed macHex)
      end
  end.

Definition attach (mti : string) (fields : fieldmap) : progE fieldmap :=
  zak <-- trigger EActiveZAK;
  match attachMAC zak mti fields with
  | Ok fields => retE fields
  | Err _ => failE [ErrOther "compute outgoing MAC"]
  end.

Definition resolveCardAndMerchant (req : PurchaseRequest) : progE (CardFixture * Merchant) :=
  match Resolve cardTokens (p_CardToken req) with
  | None => failE [ErrUnknownCardToken]
  | Some card =>
      merchant <-! db (QMerchant (p_TerminalID req));
      retE (card, merchant)
  end.

Definition baseTransaction (req : PurchaseRequest) (merchant : Merchant) (rrn stan maskedPAN : string)
    (now : time) : Transaction :=
  mkTransaction rrn stan tranTypePurchase "" "" None (p_Amount req) maskedPAN (p_TerminalID req)
    (Name merchant) None now "" "" (Format (Current now)) traceID.

Definition declinedTransaction (req : PurchaseRequest) (merchant : Merchant) (maskedPAN responseCode : string)
    (now : time) : Transaction :=
  let txn := baseTransaction req merchant (BuildRRN now noStan) noStan maskedPAN now in
  with_label (with_outcome txn statusDeclined responseCode "") (ResponseLabel responseCode) None.

Definition linkDownRow (txn : Transaction) (req : PurchaseRequest) (merchant : Merchant) : TranLogRow :=
  mkTran 0 (x_RRN txn) tranTypePurchase statusDeclined (Amount (p_Amount req)) (Currency (p_Amount req))
    (x_MaskedPAN txn) (p_TerminalID req) (MID merchant) "" "" (x_ResponseCode txn) "" zero_time "" None
    "0200" "" "" None None "" None None "" (x_TraceID txn) "" "" (Current (x_CreatedAt txn)).

Definition recordLinkDown (txn : Transaction) (req : PurchaseRequest) (merchant : Merchant) : progE () :=
  db (QInsert (linkDownRow txn req merchant)) ;;! retE ().

Definition purchaseFields (req : PurchaseRequest) (card : CardFixture) (merchant : Merchant)
    (rrn stan : string) (now businessDate : time) : fieldmap :=
  list_to_map
    [(2, PAN card);
     (3, "000000");
     (4, Sprintf0d 12 (Amount (p_Amount req)));
     (7, format_DE7 UTC now);
     (11, stan);
     (12, format_hhmmss terminalLocation now);
     (13, format_MMDD terminalLocation now);
     (14, ExpiryYYMM card);
     (15, MMDD businessDate);
     (22, get entryModeToDE22 (p_EntryMode req));
     (32, acquirerID);
     (37, rrn);
     (41, p_TerminalID req);
     (42, MID merchant);
     (49, Currency (p_Amount req))].

Definition purchaseRow (req : PurchaseRequest) (merchant : Merchant) (rrn stan maskedPAN : string)
    (fields : fieldmap) (now businessDate : time) : TranLogRow :=
  mkTran 0 rrn tranTypePurchase statusCreated (Amount (p_Amount req)) (Currency (p_Amount req)) maskedPAN
    (p_TerminalID req) (MID merchant) "" stan "" "" zero_time "" None "0200" (get fields 3) (get fields 22)
    (Some now) None (p_CardToken req) None None "" traceID "" "" businessDate.

Definition sendDuplicateIfActive (fields : fieldmap) : prog () :=
  hook <-- trigger EFlag;
  if (hook : bool) then (u <-- trigger (ESend "0200" fields); Ret tt) else Ret tt.

Definition mapSendOutcome (txn : Transaction) (sent : result error fieldmap) : prog (Transaction * bool) :=
  match sent with
  | Err sendErr =>
      let '(status, rc) := SendFailureStatus sendErr in
      Ret (with_outcome txn status rc (x_AuthCode txn), false)
  | Ok resp =>
      let rc := ResponseCodeOf resp in
      let txn := with_outcome txn (if String.eqb rc "00" then statusApproved else statusDeclined) rc (get resp 38) in
      good <-- verify responseMTI resp;
      if (good : bool) then Ret (txn, false)
      else Ret (with_outcome txn statusDeclined rcMacFailure (x_AuthCode txn), true)
  end.

(** The status the row now holds, and the error of recording it. *)
Definition recordStatus (id : Z) (txn : Transaction) : prog (string * option error) :=
  r <-- db (QUpdateStatusFrom id statusSent (x_Status txn) (x_ResponseCode txn) (x_AuthCode txn));
  match r with
  | Err e => Ret (statusSent, Some e)
  | Ok _ =>
      r <-- db (QRecordStateTransition id statusSent (x_Status txn));
      match r with
      | Err e => Ret (x_Status txn, Some e)
      | Ok _ => Ret (x_Status txn, None)
      end
  end.

Definition answer_with {A} (a : A) (e : option error) : progE A :=
  match e with None => retE a | Some e => failE e end.

Definition is_moved (e : option error) : bool :=
  match e with Some e => errors_Is e ErrStateMoved | None => false end.

Definition finalizeSendResult (row : TranLogRow) (txn : Transaction) (macFailed : bool) : progE Transaction :=
  rec <-- recordStatus (ID row) txn;
  let '(current, recordErr) := rec in
  if is_moved recordErr then failE (default [] recordErr)
  else
    let reason := reversalReasonFor (x_Status txn) macFailed in
    if String.eqb reason "" then answer_with txn recordErr
    else
      r <-- q_Queue (set_state row current) reason;
      match r with
      | Err e => failE (errors_Join (default [] recordErr) e)
      | Ok _ =>
          answer_with (if String.eqb (x_Status txn) statusTimedOut
                       then with_outcome txn statusReversalPending (x_ResponseCode txn) (x_AuthCode txn)
                       else txn) recordErr
      end.

(** Everything after the write, on the detached context. *)
Definition settleOutcome (txn : Transaction) (row : TranLogRow) (latencyMs : Z) (sent : result error fieldmap)
    : progE Transaction :=
  out <-- mapSendOutcome txn sent;
  let '(txn, macFailed) := out in
  let txn := with_label txn (ResponseLabel (x_ResponseCode txn)) (if is_ok sent then Some latencyMs else None) in
  finalizeSendResult row txn macFailed.

Definition settleSend (txn : Transaction) (row : TranLogRow) (latencyMs : Z) (sent : result error fieldmap)
    : progE Transaction :=
  r <-- settleOutcome txn row latencyMs sent; Ret (afterSend r).

(** From SENT, the last step before the write, to the answer. *)
Definition markAndSend (id : Z) (fields : fieldmap) (settle : Z → result error fieldmap → progE Transaction)
    : hprog Transaction :=
  u <-* hlift (db (QUpdateStatus id statusSent "" ""));
  u <-* hlift (db (QRecordStateTransition id statusCreated statusSent));
  u <-* hlift (u <-- sendDuplicateIfActive fields; retE ());
  sendStart <-* heff ENow;
  sent <-* heff (ESend "0200" fields);
  returned <-* heff ENow;
  hlift (settle (Milliseconds (Sub returned sendStart)) sent).

Definition sendPurchase (held : option reservation) (req : PurchaseRequest) (card : CardFixture)
    (merchant : Merchant) (maskedPAN stan : string) : hprog Transaction :=
  now <-* heff ENow;
  let rrn := BuildRRN now stan in
  let businessDate := Current now in
  let fields := purchaseFields req card merchant rrn stan now businessDate in
  let row := purchaseRow req merchant rrn stan maskedPAN fields now businessDate in
  id <-* hlift (db (QInsert row));
  fields <-* hlift (attach "0200" fields);
  u <-* attach_rrn held rrn;
  markAndSend id fields
    (settleSend (baseTransaction req merchant rrn stan maskedPAN now) (merge_created row id now)).

Definition createPurchase (req : PurchaseRequest) (held : option reservation) : hprog Transaction :=
  cm <-* hlift (resolveCardAndMerchant req);
  let '(card, merchant) := cm in
  let maskedPAN := MaskPAN (PAN card) in
  stan <-* heff ENextSTAN;
  up <-* heff EIsSignedOn;
  match up, stan with
  | true, Some stan =>
      txn <-* sendPurchase held req card merchant maskedPAN stan;
      u <-* heff (EBroadcast (BroadcastTransaction eventCreated txn));
      hret txn
  | _, _ =>
      now <-* heff ENow;
      let txn := declinedTransaction req merchant maskedPAN rcLinkDown now in
      u <-* hlift (recordLinkDown txn req merchant);
      u <-* heff (EBroadcast (BroadcastTransaction eventCreated txn));
      hret txn
  end.

Definition fromLog (rrn : string) : progE (Transaction * bool) :=
  row <-! db (QGet rrn);
  retE (transactionFromRow row,
        negb (String.eqb (Status row) statusCreated) && negb (String.eqb (Status row) statusSent)).

Definition hashRequest (req : PurchaseRequest) : string := sha256Hex (marshal_req req).

Definition CreatePurchase (req : PurchaseRequest) (idempotencyKey : string) : progE Transaction :=
  Idempotent marshal_txn unmarshal_txn
    (mkIdemKey idempotencyKey purchaseRoute (hashRequest req) statusCreatedHTTP)
    (createPurchase req) (Some fromLog).

Definition cancelPurchase (rrn : string) : progE Transaction :=
  row <-! db (QGet rrn);
  if negb (String.eqb (Type_ row) tranTypePurchase) || negb (String.eqb (Status row) statusApproved)
  then failE [ErrNotReversible]
  else
    q_Queue row reasonCancellation ;;!
    let txn := transactionFromRow (set_reason (set_state row statusReversalPending) reasonCancellation) in
    u <-- trigger (EBroadcast (BroadcastTransaction eventUpdated txn));
    retE txn.

Definition CancelPurchase (rrn idempotencyKey : string) : progE Transaction :=
  Idempotent marshal_txn unmarshal_txn
    (mkIdemKey idempotencyKey cancelRoute (sha256Hex rrn) statusAcceptedHTTP)
    (λ _, hlift (cancelPurchase rrn)) None.

Definition BroadcastUpdate (rrn : string) : progE () :=
  row <-! db (QGet rrn);
  u <-- trigger (EBroadcast (BroadcastTransaction eventUpdated (transactionFromRow row)));
  retE ().

Definition RecordLateResponse (rrn responseCode : string) : progE () :=
  row <-! db (QGet rrn);
  if String.eqb (Status row) statusSent then retE ()
  else
    db (QUpdateLateResponse rrn responseCode) ;;!
    let easy := "A response arrived too late for a transaction" in
    let technical := "late 0210 for RRN " +:+ rrn +:+ ", RC " +:+ responseCode in
    db (QRecordEvent "WARN" easy technical) ;;!
    u <-- trigger (EBroadcast (BroadcastNetworkEvent "WARN" easy technical));
    BroadcastUpdate rrn.
End service.

(** ** A purchase keeps the protocol of its reservation *)

Lemma hlift_reads {A} key route (p : progE A) rrn (Q : result error A * string → phase → Prop) s :
  reads_only key route p → (∀ r, Q (r, rrn) s) → keeps key route (hlift p rrn) Q s.
Proof.
  intros Hp HQ. unfold hlift. apply wp_pbind. eapply wp_mono; [|apply Hp]. intros r s' ->. apply HQ.
Qed.

Lemma attach_rrn_keeps key route t rrn attached (Q : result error () * string → phase → Prop) :
  rrn ≠ "" → Q (Ok (), rrn) (Attached t) → (∀ e, Q (Err e, attached) (Unsure t)) →
  keeps key route (attach_rrn (Some (mkReservation key route t)) rrn attached) Q (Holding t).
Proof.
  intros Hr HO HE. unfold attach_rrn. split; [done|]. intros [[]|e] s' ->; cbn; [done|apply HE].
Qed.

(** A send under the reservation. *)
Lemma send_keeps {A} key route t m f (k : result error fieldmap → prog A) Q s :
  s = Attached t ∨ s = SentOut t (m, f) →
  (∀ r, keeps key route (k r) Q (SentOut t (m, f))) → keeps key route (Vis (ESend m f) k) Q s.
Proof.
  intros Hs Hk. split.
  - right. destruct Hs as [->| ->]; [by left; eexists|by right; eexists].
  - intros r s' ->. cbn. destruct Hs as [->| ->]; apply Hk.
Qed.

Lemma keeps_heff {A R} key route (e : event R) (f : R → hprog A) rrn Q s :
  no_phase e = true → (∀ r, keeps key route (f r rrn) Q s) → keeps key route (hbind (heff e) f rrn) Q s.
Proof.
  intros He Hf. destruct e; try discriminate He; (split; [done|]); intros r s' ->; apply Hf.
Qed.

Lemma keeps_heff_send {A} key route t m fields (f : result error fieldmap → hprog A) rrn Q s :
  s = Attached t ∨ s = SentOut t (m, fields) →
  (∀ r, keeps key route (f r rrn) Q (SentOut t (m, fields))) →
  keeps key route (hbind (heff (ESend m fields)) f rrn) Q s.
Proof. intros Hs Hf. by apply (send_keeps key route t m fields). Qed.

Lemma BuildRRN_nonempty now stan : BuildRRN now stan ≠ "".
Proof.
  unfold BuildRRN. intros H. apply (f_equal String.length) in H. rewrite !slen_app in H.
  pose proof (Hour_range UTC now). pose proof (YearDay_range UTC now).
  rewrite !Sprintf0d_dec, !slen_dec in H by (cbn; lia). cbn in H. lia.
Qed.

Section keeps.
Context {H : Module_} {C : Calendar} {SQ : SAFQueuer} (cardTokens : CardTokenRegistry)
        (marshal_txn : Transaction → string) (unmarshal_txn : string → option Transaction)
        (marshal_req : PurchaseRequest → string) (sha256Hex : string → string) (traceID : string)
        (key route : string).

Lemma verify_reads mti resp : reads_only key route (verify mti resp).
Proof. unfold verify. eauto 8 with reads. Qed.

Lemma attach_reads mti fields : reads_only key route (attach mti fields).
Proof. unfold attach. eauto 6 with reads. Qed.

Lemma resolve_reads req : reads_only key route (resolveCardAndMerchant cardTokens req).
Proof. unfold resolveCardAndMerchant. eauto 6 with reads. Qed.

Lemma recordStatus_reads id txn : reads_only key route (recordStatus id txn).
Proof. unfold recordStatus. eauto 8 with reads. Qed.

Lemma answer_with_reads {A} (a : A) e : reads_only key route (answer_with a e).
Proof. unfold answer_with. eauto with reads. Qed.

Lemma finalize_reads row txn macFailed : reads_only key route (finalizeSendResult row txn macFailed).
Proof.
  unfold finalizeSendResult. apply reads_pbind; [apply recordStatus_reads|]. intros [current e].
  destruct (is_moved e); [apply reads_Ret|]. destruct (String.eqb _ ""); [apply answer_with_reads|].
  apply reads_pbind; [apply q_Queue_reads|]. intros [[]|e']; [apply answer_with_reads|apply reads_Ret].
Qed.

Lemma settle_reads txn row latency sent : reads_only key route (settleOutcome txn row latency sent).
Proof.
  unfold settleOutcome. apply reads_pbind.
  - unfold mapSendOutcome. destruct sent as [resp|e].
    + apply reads_pbind; [apply verify_reads|]. intros []; apply reads_Ret.
    + destruct (SendFailureStatus e). apply reads_Ret.
  - intros [txn' macFailed]. apply finalize_reads.
Qed.

(** Once sent, an error says so. *)
Lemma settle_keeps txn row latency sent t s attached :
  keeps key route (hlift (settleSend txn row latency sent) attached) (create_post t) s.
Proof.
  unfold hlift. apply wp_pbind. unfold settleSend. apply wp_pbind.
  eapply wp_mono; [|apply settle_reads]. intros [a|e] s' ->; cbn; [done|]. by right; left.
Qed.

Lemma fail_early {T} t e s rrn : may_release s t → create_post (T:=T) t (Err e, rrn) s.
Proof. by right; right. Qed.

Lemma markAndSend_keeps id fields settle t attached :
  (∀ latency sent s attached, keeps key route (hlift (settle latency sent) attached) (create_post t) s) →
  keeps key route (markAndSend id fields settle attached) (create_post t) (Attached t).
Proof.
  intros Hsettle. unfold markAndSend.
  apply keeps_hlift; [eauto with reads| |intros e; apply fail_early; by right; left]. intros _.
  apply keeps_hlift; [eauto with reads| |intros e; apply fail_early; by right; left]. intros _.
  apply keeps_hbind. unfold hlift. apply wp_pbind, wp_pbind.
  assert (Hdup : keeps key route (sendDuplicateIfActive fields)
                   (λ _ s, s = Attached t ∨ s = SentOut t ("0200", fields)) (Attached t)).
  { split; [done|]. intros [] s ->; [|by left]. apply (send_keeps _ _ t); [by left|]. intros r. by right. }
  eapply wp_mono; [|exact Hdup]. clear Hdup. intros u s Hs. unfold retE. cbn [wp].
  apply keeps_heff; [done|]. intros start. apply (keeps_heff_send _ _ t); [exact Hs|]. intros sent.
  apply keeps_heff; [done|]. intros returned. apply Hsettle.
Qed.

Lemma sendPurchase_keeps req card merchant maskedPAN stan t :
  keeps key route
    (sendPurchase traceID (Some (mkReservation key route t)) req card merchant maskedPAN stan "")
    (create_post t) (Holding t).
Proof.
  unfold sendPurchase. apply keeps_heff; [done|]. intros now.
  apply keeps_hlift; [eauto with reads| |intros e; apply fail_early; by left]. intros id.
  apply keeps_hlift; [apply attach_reads| |intros e; apply fail_early; by left]. intros fields.
  apply keeps_hbind, attach_rrn_keeps; [apply BuildRRN_nonempty| |intros e; apply fail_early; by right; right].
  apply markAndSend_keeps. intros latency sent s attached. apply settle_keeps.
Qed.

Lemma createPurchase_keeps req t :
  keeps key route (createPurchase cardTokens traceID req (Some (mkReservation key route t)) "")
    (create_post t) (Holding t).
Proof.
  unfold createPurchase. apply keeps_hlift; [apply resolve_reads| |intros e; apply fail_early; by left].
  intros [card merchant]. apply keeps_heff; [done|]. intros stan. apply keeps_heff; [done|]. intros up.
  assert (Hdown : keeps key route (hbind (heff ENow) (λ now,
      let txn := declinedTransaction traceID req merchant (MaskPAN (PAN card)) rcLinkDown now in
      hbind (hlift (recordLinkDown txn req merchant)) (λ _,
      hbind (heff (EBroadcast (BroadcastTransaction eventCreated txn))) (λ _, hret txn))) "")
    (create_post t) (Holding t)).
  { apply keeps_heff; [done|]. intros now. apply keeps_hlift; [|intros _|intros e; apply fail_early; by left].
    - unfold recordLinkDown. eauto with reads.
    - by apply keeps_heff. }
  destruct up; [|done]. destruct stan as [stan|]; [|done].
  apply keeps_hbind. eapply wp_mono; [|apply sendPurchase_keeps].
  intros [[txn|e] rrn] s Hs; [|exact Hs]. by apply keeps_heff.
Qed.

Lemma fromLog_reads rrn : reads_only key route (fromLog rrn).
Proof. unfold fromLog. eauto with reads. Qed.

Lemma cancelPurchase_keeps rrn t attached :
  keeps key route (hlift (cancelPurchase rrn) attached) (create_post t) (Holding t).
Proof.
  apply hlift_reads; [|intros [a|e]; [done|by right; right; left]].
  unfold cancelPurchase. apply reads_bindE; [by apply reads_db|]. intros row.
  destruct (_ || _); [apply reads_Ret|]. apply reads_bindE; [apply q_Queue_reads|]. intros _.
  eauto with reads.
Qed.
End keeps.

Lemma CreatePurchase_keeps {H : Module_} {C : Calendar} {SQ : SAFQueuer} cardTokens marshal_txn unmarshal_txn
    marshal_req sha256Hex traceID req key :
  keeps key purchaseRoute
    (CreatePurchase cardTokens marshal_txn unmarshal_txn marshal_req sha256Hex traceID req key) (λ _ _, True) NoKey.
Proof.
  apply (Idempotent_keeps _ _ (mkIdemKey key purchaseRoute _ _)).
  - intros t. apply createPurchase_keeps.
  - intros f rrn [= <-]. apply fromLog_reads.
Qed.

Lemma CancelPurchase_keeps {SQ : SAFQueuer} marshal_txn unmarshal_txn sha256Hex rrn key :
  keeps key cancelRoute (CancelPurchase marshal_txn unmarshal_txn sha256Hex rrn key) (λ _ _, True) NoKey.
Proof.
  apply (Idempotent_keeps _ _ (mkIdemKey key cancelRoute _ _)).
  - intros t. apply cancelPurchase_keeps.
  - done.
Qed.
