(* ===== verification/Stage.v ===== *)
(** * Stage: following one request through its send, whatever fails

    The row of a request from its insertion to its outcome, what has been sent meanwhile, and when the
    two together leave nothing for anybody to remember: the invariant of Outcome.v (purchases) and
    AdvOutcome.v (the other transactions). *)

From S2P Require Import Prelude Digits Codec Mux KeyStore Mac Calendar Mask Store Journey Prog Idempotency Advice Purchase.
Local Open Scope Z_scope.
Local Open Scope prog_scope.

(** ** Steps that touch nothing that outlives the request *)

Record quietly (w w' : World) : Prop := {
  qt_visible : visible w' = visible w;
  qt_zak : w_zak w' = w_zak w;
  qt_keys : w_keys w' = w_keys w
}.

Lemma quietly_refl w : quietly w w.
Proof. done. Qed.

Lemma quietly_trans w1 w2 w3 : quietly w1 w2 → quietly w2 w3 → quietly w1 w3.
Proof. intros [] []. split; congruence. Qed.

Lemma exec_quietly {R} (e : event R) c w :
  no_phase e = true → quietly w (exec e c (tick c w)).2.
Proof.
  intros He. destruct e; try discriminate He; cbn [exec]; try done.
  destruct (c_flag c); [|done]. by destruct (NextSTAN _).
Qed.

Section steps.
Context (I : DB * list (string * fieldmap) * list (result error fieldmap) → Prop).

Lemma runs_quiet {R A} (e : event R) (k : R → prog A) Q w :
  no_phase e = true → I (visible w) → (∀ r w', quietly w w' → runs I (k r) Q w') → runs I (Vis e k) Q w.
Proof.
  intros He Hi Hk. apply runs_vis; [done|]. intros c. pose proof (exec_quietly e c w He) as Hq.
  change (later w _ (w_db w)) with (tick c w). destruct (exec e c (tick c w)) as [r w']. by apply Hk.
Qed.

Lemma runs_hbind {A B} (p : hprog A) (f : A → hprog B) rrn Q w :
  runs I (p rrn) (λ r w, match r with
                         | (Ok a, rrn) => runs I (f a rrn) Q w
                         | (Err e, rrn) => Q (Err e, rrn) w
                         end) w →
  runs I (hbind p f rrn) Q w.
Proof.
  intros Hp. unfold hbind. apply runs_pbind. eapply runs_mono; [|exact Hp].
  intros [[a|e] rrn'] s' Hi Hs; [exact Hs|by apply runs_Ret].
Qed.

Lemma runs_heff_quiet {R A} (e : event R) (f : R → hprog A) rrn Q w :
  no_phase e = true → I (visible w) → (∀ r w', quietly w w' → runs I (f r rrn) Q w') →
  runs I (hbind (heff e) f rrn) Q w.
Proof. intros He Hi Hk. by apply runs_quiet. Qed.

Lemma runs_hlift {A B} (p : progE A) (f : A → hprog B) rrn Q w :
  runs I p (λ r w, match r with Ok a => runs I (f a rrn) Q w | Err e => Q (Err e, rrn) w end) w →
  runs I (hbind (hlift p) f rrn) Q w.
Proof.
  intros Hp. apply runs_hbind. unfold hlift. apply runs_pbind. eapply runs_mono; [|exact Hp].
  intros [a|e] w' Hi H; by apply runs_Ret.
Qed.

Lemma runs_send {A} m fields (k : result error fieldmap → prog A) Q w :
  I (visible w) →
  (∀ r w', visible w' = (w_db w, sends_of w ++ [(m, fields)], answers w ++ [r]) →
     w_zak w' = w_zak w → w_keys w' = w_keys w → runs I (k r) Q w') →
  runs I (Vis (ESend m fields) k) Q w.
Proof. intros Hi Hk. apply runs_vis; [done|]. intros c. by apply Hk. Qed.

(** A response the verifier accepts, with the keys the gateway holds. *)
Definition authentic {H : Module_} (zak : string) (keys : KeyTable) (mti : string) (resp : fieldmap) : Prop :=
  ∃ t, Verify (live_verifier zak t keys) mti resp = true.

Lemma verify_runs {H : Module_} mti resp (Q : bool → World → Prop) w :
  I (visible w) →
  (∀ b w', quietly w w' → (b = true → authentic (w_zak w) (w_keys w) mti resp) → Q b w') →
  runs I (verify mti resp) Q w.
Proof.
  intros Hi HQ. unfold verify.
  destruct (macFieldOf resp) as [[macHex macField]|] eqn:Em; [|by apply runs_Ret, HQ].
  destruct (Pack mti (delete macField resp)) as [packed|] eqn:Ep; [|by apply runs_Ret, HQ].
  apply runs_vis; [done|]. intros c. cbn [exec later w_zak].
  destruct (macMatches packed macHex (w_zak w)) eqn:Ez.
  { apply runs_Ret; [done|]. apply HQ; [done|]. intros _. exists 0. unfold Verify.
    rewrite Em, Ep. cbn [zakSource live_verifier]. by rewrite Ez. }
  apply runs_vis; [done|]. intros c'. cbn [exec later w_keys now]. apply runs_Ret; [done|].
  apply HQ; [done|]. destruct (c_fate c'); try done. cbn [default]. intros Hb.
  eexists. unfold Verify. rewrite Em, Ep. cbn [zakSource live_verifier]. rewrite Ez. exact Hb.
Qed.
End steps.

(** ** Covered outcomes *)

(** One kind of request: its type and MTI, the MTI of its answer, the response codes that approve
    it, and whether the duplicate hook applies to it. *)
Record flow := mkFlow {
  f_type : string; f_mti : string; f_answer : string; f_approves : string → bool; f_twice : bool }.

(** The row [r] records the message [fields]: what is built from the one names the other. *)
Definition records (f : flow) (r : TranLogRow) (fields : fieldmap) : Prop :=
  ∃ sent, SentAt r = Some sent ∧ fields !! 7 = Some (format_DE7 UTC sent) ∧
    fields !! 11 = Some (NetworkSTAN r) ∧
    fields !! 37 = Some (if String.eqb (f_type f) "COMPLETION" then OriginalRRN r else RRN r) ∧
    (f_type f ≠ "BALANCE" → fields !! 4 = Some (Sprintf0d 12 (tAmount r))) ∧
    MTI r = f_mti f ∧ Type_ r = f_type f.

(** The sweeper finds the row, whenever it looks for requests sent before [t]. *)
Definition will_be_swept (d : DB) (r : TranLogRow) : Prop :=
  merchants d !! MerchantID r ≠ None ∧
  ∀ t, (∀ sent, SentAt r = Some sent → sent < t) → is_orphan d t r = true.

(** An advice of the row waits in the queue. *)
Definition in_queue (d : DB) (id : Z) (mti : string) : Prop :=
  ∃ sid s, saf d !! sid = Some s ∧ TranID s = id ∧ s_mti s = mti ∧ s_status s = sPending.
Definition reversal_in_queue (d : DB) (id : Z) : Prop := in_queue d id mtiReversalAdvice.

(** What the last send was answered with. *)
Definition last_answer (ans : list (result error fieldmap)) : option (result error fieldmap) := last ans.

(** The multiplexer refused the message: it was not written. *)
Definition refused (a : result error fieldmap) : bool :=
  match a with Err e => errors_Is e ErrNotSignedOn | Ok _ => false end.

Section covered.
Context {H : Module_} (f : flow) (zak : string) (keys : KeyTable).
(** What was answered before the request. *)
Context (ans0 : list (result error fieldmap)).

(** The row has the outcome of an authentic answer, or every send of the request was refused. *)
Definition settled (r : TranLogRow) (ans : list (result error fieldmap)) : Prop :=
  (∃ resp, last_answer ans = Some (Ok resp) ∧ authentic zak keys (f_answer f) resp ∧
     ResponseCode r = ResponseCodeOf resp ∧
     Status r = if f_approves f (ResponseCodeOf resp) then statusApproved else statusDeclined) ∨
  (∃ own, ans = ans0 ++ own ∧ own ≠ [] ∧ Forall (λ a, refused a = true) own ∧
     Status r = statusDeclined ∧ ResponseCode r = rcLinkDown).

(** The duplicate hook's copy was not refused, and the message after it was: the row says that
    nothing left. *)
Definition copy_lost (r : TranLogRow) (ans : list (result error fieldmap)) : Prop :=
  f_twice f = true ∧
  ∃ copy again, ans = ans0 ++ [copy; again] ∧ refused copy = false ∧ refused again = true ∧
    Status r = statusDeclined ∧ ResponseCode r = rcLinkDown.

(** The issuer did not answer, or not authentically, and the row says so. *)
Definition unresolved (r : TranLogRow) (ans : list (result error fieldmap)) : Prop :=
  (Status r = statusTimedOut ∧ ∃ e, last_answer ans = Some (Err e) ∧ refused (Err e) = false) ∨
  (Status r = statusDeclined ∧ ResponseCode r = rcMacFailure ∧ ∃ resp, last_answer ans = Some (Ok resp)).

(** The row of the message is settled by an authentic answer, or its reversal is queued, or a
    completion's repeat is, or the sweeper will find it.  A balance inquiry is never reversed: it
    stays unresolved, with nothing queued for it.  The one gap is a duplicate's. *)
Definition covered (d : DB) (id : Z) (fields : fieldmap) (ans : list (result error fieldmap)) : Prop :=
  ∃ r, tran d !! id = Some r ∧ records f r fields ∧
    (will_be_swept d r ∨
     (f_type f ≠ "BALANCE" ∧ Status r = statusReversalPending ∧ reversal_in_queue d id) ∨
     settled r ans ∨
     (f_type f = "COMPLETION" ∧ Status r = statusTimedOut ∧ in_queue d id (f_mti f)) ∨
     (f_type f = "BALANCE" ∧ unresolved r ans ∧ has_saf d id = false) ∨
     copy_lost r ans).

Lemma covered_same d d' id fields ans :
  tran d' = tran d → saf d' = saf d → merchants d' = merchants d →
  covered d id fields ans → covered d' id fields ans.
Proof.
  intros Ht Hs Hm (r & Hr & Hrec & Hc). exists r. rewrite Ht. split; [done|]. split; [done|].
  unfold reversal_in_queue, in_queue in *. rewrite Hs.
  unfold has_saf. rewrite Hs. destruct Hc as [[Hmer Hsw]|Hc]; [left|by right].
  split; [by rewrite Hm|]. intros t Hlt. specialize (Hsw t Hlt). unfold is_orphan, has_saf in *. by rewrite Hs.
Qed.
End covered.

(** Foreign keys and identities of the tables. *)
Record db_ok (d : DB) : Prop := {
  ok_saf sid s : saf d !! sid = Some s → TranID s < next_tran d;
  ok_next sid s : saf d !! sid = Some s → sid < next_saf d
}.

Lemma has_saf_true d id : has_saf d id = true ↔ ∃ sid s, saf d !! sid = Some s ∧ TranID s = id.
Proof.
  unfold has_saf. rewrite existsb_exists. split.
  - intros ([sid s] & Hin & He). apply Z.eqb_eq in He. exists sid, s. split; [|done].
    apply list_elem_of_In, elem_of_map_to_list in Hin. exact Hin.
  - intros (sid & s & Hs & He). exists (sid, s). split; [|by apply Z.eqb_eq].
    apply list_elem_of_In, elem_of_map_to_list. exact Hs.
Qed.

(** ** The row on its way *)

(** Row [id] of the request is in state [st], and nothing is queued for it. *)
Record at_stage (f : flow) (id : Z) (fields : fieldmap) (st rc : string) (d : DB) : Prop := {
  st_row : ∃ r, tran d !! id = Some r ∧ ID r = id ∧ Status r = st ∧ ResponseCode r = rc ∧
             records f r fields ∧ CompletedBy r = "" ∧ merchants d !! MerchantID r ≠ None;
  st_saf : has_saf d id = false
}.

Section stage.
Context (f : flow) (id : Z) (fields : fieldmap).

Abbreviation at_stage := (at_stage f id fields).

Lemma stage_swept st rc d ans {H : Module_} zak keys ans0 :
  at_stage st rc d →
  st = statusSent ∨
  (st = statusTimedOut ∧ (f_type f = "BALANCE" → ∃ e, last_answer ans = Some (Err e) ∧ refused (Err e) = false)) ∨
  (st = statusDeclined ∧ rc = rcMacFailure ∧ f_type f ≠ "COMPLETION" ∧ ∃ resp, last_answer ans = Some (Ok resp)) →
  covered f zak keys ans0 d id fields ans.
Proof.
  intros [(r & Hr & Hid & Hst & Hrc & Hrec & Hcb & Hm) Hs] Hcase. exists r. split; [done|]. split; [done|].
  destruct (decide (f_type f = "BALANCE" ∧ st ≠ statusSent)) as [[Hb Hn]|Hb].
  { do 4 right; left. split; [done|]. split; [|done].
    destruct Hcase as [->|[[-> He]|(-> & -> & _ & Ha)]]; [done|left; split; [done|by apply He]|by right]. }
  left. split; [done|]. intros t Ht. destruct Hrec as (sent & Hsent & _ & _ & _ & _ & _ & Hty). specialize (Ht sent Hsent).
  unfold is_orphan. rewrite Hsent, Hid, Hs, Hst, Hrc, Hty. rewrite (proj2 (Z.ltb_lt sent t)) by done.
  destruct Hcase as [->|[[-> _]|(-> & -> & Hc & _)]]; [done|..];
    (rewrite (proj2 (String.eqb_neq (f_type f) "BALANCE")) by (intros E; by apply Hb)); [done|].
  by rewrite (proj2 (String.eqb_neq _ _) Hc).
Qed.

Lemma stage_settled st rc d ans {H : Module_} zak keys ans0 :
  at_stage st rc d →
  (∀ r, Status r = st → ResponseCode r = rc → settled f zak keys ans0 r ans ∨ copy_lost f ans0 r ans) →
  covered f zak keys ans0 d id fields ans.
Proof.
  intros [(r & Hr & Hid & Hst & Hrc & Hrec & Hcb & Hm) Hs] Hcase. exists r. split; [done|]. split; [done|].
  destruct (Hcase r Hst Hrc); [by do 2 right; left|by do 5 right].
Qed.

(** A call on the row moves its state and nothing else of it. *)
Lemma stage_update st rc d st' rc' ac n :
  at_stage st rc d →
  at_stage st' rc' (update_tran id (λ _, true) (λ r, rewrite_row r st' rc' ac (Some n)) d).2.
Proof.
  intros [(r & Hr & Hid & Hst & Hrc & Hrec & Hcb & Hm) Hs]. unfold update_tran. rewrite Hr. split; [|exact Hs].
  exists (rewrite_row r st' rc' ac (Some n)). cbn. rewrite lookup_insert_eq. split_and!; try done.
Qed.

Lemma stage_UpdateStatus st rc d st' rc' ac n r d' :
  at_stage st rc d → valid_state st' = true →
  UpdateStatus n id st' rc' ac d = (r, d') → r = Ok () ∧ at_stage st' rc' d'.
Proof.
  intros Hs Hv. unfold UpdateStatus. rewrite Hv. intros [= <- <-]. split; [done|]. by apply (stage_update st rc).
Qed.

Lemma stage_UpdateStatusFrom st rc d st' rc' ac n r d' :
  at_stage st rc d → valid_state st' = true →
  UpdateStatusFrom n id st st' rc' ac d = (r, d') → r = Ok () ∧ at_stage st' rc' d'.
Proof.
  intros Hs Hv. unfold UpdateStatusFrom. rewrite Hv.
  pose proof (stage_update st rc d st' rc' ac n Hs) as Hs'.
  destruct (st_row _ _ _ _ _ _ Hs) as (row & Hr & Hid & Hst & _).
  unfold update_tran in *. rewrite Hr in *. cbn in Hs'. rewrite (proj2 (String.eqb_eq _ _) Hst).
  intros [= <- <-]. by split.
Qed.

Lemma stage_RecordStateTransition st rc d from to n r d' :
  at_stage st rc d → RecordStateTransition n id from to d = (r, d') → r = Ok () ∧ at_stage st rc d'.
Proof.
  intros Hs. destruct (st_row _ _ _ _ _ _ Hs) as (row & Hr & _). unfold RecordStateTransition. rewrite Hr.
  intros [= <- <-]. split; [done|]. destruct Hs. by split.
Qed.

Lemma stage_UpdateAmounts st rc d approved balance r d' :
  at_stage st rc d → UpdateAmounts id approved balance d = (r, d') → r = Ok () ∧ at_stage st rc d'.
Proof.
  intros [(row & Hr & Hid & Hst & Hrc & Hrec & Hcb & Hm) Hs]. unfold UpdateAmounts, update_tran. rewrite Hr.
  intros [= <- <-]. split; [done|]. split; [|exact Hs].
  exists (set_amounts row approved balance). cbn. rewrite lookup_insert_eq. by split_and!.
Qed.

(** Releasing a claim leaves a row nobody claimed alone. *)
Lemma stage_ReleaseCompletion st rc d preAuth completion r d' :
  at_stage st rc d → ReleaseCompletion preAuth completion d = (r, d') → r = Ok () ∧ at_stage st rc d'.
Proof.
  intros [(row & Hr & Hid & Hst & Hrc & Hrec & Hcb & Hm) Hs]. unfold ReleaseCompletion. intros [= <- <-].
  split; [done|]. split; [|exact Hs]. exists row. cbn [set_tran tran merchants].
  rewrite lookup_fmap, Hr. cbn. rewrite Hcb. cbn. by rewrite Bool.andb_false_r.
Qed.

(** A queued reversal covers it. *)
Lemma stage_queued st rc d ans t row reason payload n d' {H : Module_} zak keys ans0 :
  f_type f ≠ "BALANCE" → at_stage st rc d → ID t = id → reversal_queued n t row reason payload d d' →
  covered f zak keys ans0 d' id fields ans.
Proof.
  intros Hnb [(r & Hr & Hid & Hst & Hrc & Hrec & Hcb & Hm) Hs] Ht Hq. destruct Hq as [Hrow Hfrom Htran _ Hsaf _ _].
  exists (set_reason (set_state row statusReversalPending) reason).
  assert (row = r) as -> by (rewrite <- Ht in Hr; congruence).
  rewrite Htran, Ht, lookup_insert_eq. split; [done|]. split.
  { destruct Hrec as (sent & Hrec). by exists sent. }
  right; left. split; [done|]. split; [done|]. exists (next_saf d), (queued_row n (next_saf d) (ID t) mtiReversalAdvice payload).
  rewrite Hsaf, lookup_insert_eq. by split_and!.
Qed.

(** A row still SENT is swept, whatever is queued for it. *)
Lemma stage_sent_queued rc d ans payload n sid d' {H : Module_} zak keys ans0 :
  at_stage statusSent rc d → insert_saf n id (f_mti f) payload d = (Ok sid, d') →
  covered f zak keys ans0 d' id fields ans.
Proof.
  intros [(r & Hr & Hid & Hst & Hrc & Hrec & Hcb & Hm) Hs]. unfold insert_saf. rewrite Hr.
  destruct (existsb _ _); [|done]. intros [= <- <-].
  exists r. split; [done|]. split; [done|]. left. split; [done|]. intros t Ht.
  destruct Hrec as (sent & Hsent & _). specialize (Ht sent Hsent).
  unfold is_orphan. rewrite Hsent, Hst. by rewrite (proj2 (Z.ltb_lt sent t)).
Qed.

(** So does the queued repeat of a completion that timed out. *)
Lemma stage_repeated rc d ans payload n sid d' {H : Module_} zak keys ans0 :
  at_stage statusTimedOut rc d → f_type f = "COMPLETION" → insert_saf n id (f_mti f) payload d = (Ok sid, d') →
  covered f zak keys ans0 d' id fields ans.
Proof.
  intros [(r & Hr & Hid & Hst & Hrc & Hrec & Hcb & Hm) Hs] Hty. unfold insert_saf. rewrite Hr.
  destruct (existsb _ _); [|done]. intros [= <- <-].
  exists r. split; [done|]. split; [done|]. do 3 right; left. split; [done|]. split; [done|].
  exists (next_saf d), (queued_row n (next_saf d) id (f_mti f) payload). cbn. rewrite lookup_insert_eq. by split_and!.
Qed.
End stage.

Lemma stage_same f id fields st rc d d' :
  tran d' = tran d → saf d' = saf d → merchants d' = merchants d →
  at_stage f id fields st rc d → at_stage f id fields st rc d'.
Proof. intros Ht Hs Hm [Hr Hq]. split; [|by unfold has_saf in *; rewrite Hs]. by rewrite Ht, Hm. Qed.

(** Elements that name no request may be added to the message. *)
Lemma records_fields f r fields fields' :
  (∀ n, n = 7 ∨ n = 11 ∨ n = 37 ∨ n = 4 → fields' !! n = fields !! n) → records f r fields → records f r fields'.
Proof. intros Hf (sent & Hrec). exists sent. rewrite !Hf by tauto. exact Hrec. Qed.

Lemma stage_fields f id fields st rc d n v :
  n ≠ 7 → n ≠ 11 → n ≠ 37 → n ≠ 4 → at_stage f id fields st rc d → at_stage f id (<[n := v]> fields) st rc d.
Proof.
  intros H7 H11 H37 H4 [(r & Hr & Hid & Hst & Hrc & Hrec & Hrest) Hq]. split; [|exact Hq].
  exists r. split_and!; try done; try apply Hrest. eapply records_fields; [|exact Hrec].
  intros m Hm. apply lookup_insert_ne. by intros ->; destruct Hm as [?|[?|[?|?]]].
Qed.

(** A new row, of a request whose message it records. *)
Lemma stage_insert f fields n row d id d' :
  db_ok d → merchants d !! MerchantID row ≠ None →
  records f row fields → insertTranLog n row d = (Ok id, d') →
  at_stage f id fields (Status row) (ResponseCode row) d'.
Proof.
  intros Hok Hm Hrec. unfold insertTranLog. destruct (terminals d !! _); [|done].
  destruct (valid_state (Status row)); [|done]. intros [= <- <-]. split.
  - exists (inserted n (next_tran d) row). cbn [tran]. rewrite lookup_insert_eq. by split_and!.
  - destruct (has_saf _ _) eqn:E; [|done]. apply has_saf_true in E as (sid & sr & Hs & Ht). cbn in Hs.
    pose proof (ok_saf d Hok sid sr Hs). lia.
Qed.

(** ** The request as a whole *)

Section follow.
Context {H : Module_} (f : flow).
Context (zak : string) (keys : KeyTable) (sends0 : list (string * fieldmap)) (ans0 : list (result error fieldmap)).

(** The message went out once, or twice when the duplicate hook is on. *)
Definition sent_as (fields : fieldmap) (s : list (string * fieldmap)) (a : list (result error fieldmap)) : Prop :=
  (∃ r, s = sends0 ++ [(f_mti f, fields)] ∧ a = ans0 ++ [r]) ∨
  (f_twice f = true ∧ ∃ r1 r2, s = sends0 ++ [(f_mti f, fields); (f_mti f, fields)] ∧ a = ans0 ++ [r1; r2]).

(** Nothing was sent, or what was sent is covered. *)
Definition safe (v : DB * list (string * fieldmap) * list (result error fieldmap)) : Prop :=
  (v.1.2 = sends0 ∧ v.2 = ans0) ∨
  ∃ id fields, sent_as fields v.1.2 v.2 ∧ covered f zak keys ans0 v.1.1 id fields v.2.

(** *** Before the send *)

(** Nothing was sent yet, and the keys are the ones the gateway holds. *)
Record unsent (w : World) : Prop := {
  un_sends : sends_of w = sends0; un_ans : answers w = ans0; un_zak : w_zak w = zak; un_keys : w_keys w = keys
}.

Lemma unsent_safe w : unsent w → safe (visible w).
Proof. intros []. by left. Qed.

Lemma unsent_later w n d : unsent w → unsent (later w n d).
Proof. intros []. by split. Qed.

Lemma unsent_quietly w w' : unsent w → quietly w w' → unsent w' ∧ w_db w' = w_db w.
Proof.
  intros [Hs Ha Hz Hk] [Hv Hz' Hk']. unfold visible in Hv. injection Hv as Hd Hss Haa. split; [split; congruence|done].
Qed.

(** A database call before the send: it only has to be followed. *)
Lemma runs_db_unsent {A B} (q : query A) (k : result error A → prog B) Q w :
  unsent w →
  (∀ n, runs safe (k lost) Q (later w n (w_db w))) →
  (∀ n r d, exec_query q n (w_db w) = (r, d) →
     runs safe (k r) Q (later w n d) ∧ runs safe (k lost) Q (later w n d)) →
  runs safe (Vis (EDb q) k) Q w.
Proof.
  intros Hu HL HE. apply runs_db; [by apply unsent_safe|]. intros g n _.
  apply (exec_db_cases q g n (w_db w) (λ r d, runs safe (k r) Q (later w n d))); [apply HL|]. intros r d Hq. by apply HE.
Qed.

(** One whose outcome is only passed on. *)
Lemma db_unsent {A} (q : query A) (Q : result error A → World → Prop) w :
  unsent w → (∀ e n d, Q (Err e) (later w n d)) →
  (∀ n a d, exec_query q n (w_db w) = (Ok a, d) → Q (Ok a) (later w n d)) →
  runs safe (db q) Q w.
Proof.
  intros Hu HE HQ.
  assert (Hret : ∀ r n d, Q r (later w n d) → runs safe (Ret r) Q (later w n d))
    by (intros r n d Hr; apply runs_Ret; [by apply unsent_safe, unsent_later|done]).
  apply runs_db_unsent; [done|intros n; by apply Hret, HE|]. intros n [a|e] d Hq; split; apply Hret; eauto.
Qed.

Lemma hdb_unsent {A B} (q : query A) (g : A → hprog B) rrn (Q : result error B * string → World → Prop) w :
  unsent w →
  (∀ e w', unsent w' → Q (Err e, rrn) w') →
  (∀ n a d, exec_query q n (w_db w) = (Ok a, d) → runs safe (g a rrn) Q (later w n d)) →
  runs safe (hbind (hlift (db q)) g rrn) Q w.
Proof.
  intros Hu HE Hk. apply runs_hlift, db_unsent; [done| |exact Hk]. intros e n d. by apply HE, unsent_later.
Qed.

Lemma heff_unsent {R A} (e : event R) (g : R → hprog A) rrn Q w :
  no_phase e = true → unsent w → (∀ r w', unsent w' → w_db w' = w_db w → runs safe (g r rrn) Q w') →
  runs safe (hbind (heff e) g rrn) Q w.
Proof.
  intros He Hu Hk. apply runs_heff_quiet; [done|by apply unsent_safe|]. intros r w' Hq.
  destruct (unsent_quietly w w' Hu Hq). by apply Hk.
Qed.

Lemma heff_safe {R A} (e : event R) (g : R → hprog A) rrn Q w :
  no_phase e = true → safe (visible w) → (∀ r w', safe (visible w') → runs safe (g r rrn) Q w') →
  runs safe (hbind (heff e) g rrn) Q w.
Proof.
  intros He Hs Hk. apply runs_heff_quiet; [done|done|]. intros r w' [Hv _ _]. apply Hk. by rewrite Hv.
Qed.

Lemma AttachRRN_rows key route token rrn d :
  let d' := (AttachRRN key route token rrn d).2 in tran d' = tran d ∧ saf d' = saf d ∧ merchants d' = merchants d.
Proof. cbn zeta. unfold AttachRRN. repeat case_match; done. Qed.

Lemma attach_rrn_runs held rrn attached (Q : result error () * string → World → Prop) w :
  unsent w →
  (∀ r n d, tran d = tran (w_db w) → saf d = saf (w_db w) → merchants d = merchants (w_db w) →
     Q r (later w n d)) →
  runs safe (attach_rrn held rrn attached) Q w.
Proof.
  intros Hu HQ. unfold attach_rrn. destruct held as [h|].
  2: { apply runs_Ret; [by apply unsent_safe|]. destruct w. by apply HQ. }
  assert (Hret : ∀ (r : result error ()) n d, tran d = tran (w_db w) → saf d = saf (w_db w) →
    merchants d = merchants (w_db w) →
    runs safe (match r with Ok _ => Ret (Ok (), rrn) | Err e => Ret (Err e, attached) end) Q (later w n d)).
  { intros [[]|e] n d Ht Hs Hm; (apply runs_Ret; [by apply unsent_safe, unsent_later|by apply HQ]). }
  apply runs_db_unsent; [done|intros n; by apply (Hret lost)|].
  intros n r d Hq. cbn [exec_query] in Hq.
  pose proof (AttachRRN_rows (h_key h) (h_route h) (h_token h) rrn (w_db w)) as Hrows.
  rewrite Hq in Hrows. destruct Hrows as (Ht & Hs & Hm). split; [by apply Hret|by apply (Hret lost)].
Qed.

(** *** After the send *)

Section one.
Context (id : Z) (fields : fieldmap).

Abbreviation at_stage := (at_stage f id fields).
Abbreviation covered := (covered f zak keys ans0).

(** A state the row may be moved to after the send. *)
Definition decided (st rc : string) (ans : list (result error fieldmap)) : Prop :=
  valid_state st = true ∧
  ((st = statusTimedOut ∧ (f_type f = "BALANCE" → ∃ e, last_answer ans = Some (Err e) ∧ refused (Err e) = false)) ∨
   (st = statusDeclined ∧ rc = rcMacFailure ∧ f_type f ≠ "COMPLETION" ∧ ∃ resp, last_answer ans = Some (Ok resp)) ∨
   ∀ r, Status r = st → ResponseCode r = rc → settled f zak keys ans0 r ans ∨ copy_lost f ans0 r ans).

(** After the send, whatever stage the row is at. *)
Record after_send (st rc : string) (w : World) : Prop := {
  as_stage : at_stage st rc (w_db w);
  as_sent : sent_as fields (sends_of w) (answers w);
  as_decided : st = statusSent ∨ decided st rc (answers w)
}.

Lemma after_send_covered st rc w : after_send st rc w → covered (w_db w) id fields (answers w).
Proof.
  intros [Hs _ [-> |[_ [Hd|[Hd|Hd]]]]].
  - eapply stage_swept; [exact Hs|by left].
  - eapply stage_swept; [exact Hs|]. by right; left.
  - eapply stage_swept; [exact Hs|]. by right; right.
  - by eapply stage_settled.
Qed.

Lemma after_send_safe st rc w : after_send st rc w → safe (visible w).
Proof. intros Ha. right. exists id, fields. split; [apply Ha|]. by eapply after_send_covered. Qed.

Lemma after_send_quietly st rc w w' :
  after_send st rc w → quietly w w' → after_send st rc w' ∧ answers w' = answers w.
Proof.
  intros Ha [Hv _ _]. unfold visible in Hv. injection Hv as Hd Hs Haa. destruct Ha.
  split; [split; by rewrite ?Hd, ?Hs, ?Haa|done].
Qed.

(** The send itself. *)
Lemma sent_stage rc w w' r s a :
  at_stage statusSent rc (w_db w) →
  visible w' = (w_db w, s, a ++ [r]) → sent_as fields s (a ++ [r]) →
  after_send statusSent rc w' ∧ last_answer (answers w') = Some r.
Proof.
  intros Hst Hv Hsent. unfold visible in Hv. injection Hv as Hd Hss Haa.
  split; [|by rewrite Haa; apply last_snoc]. split; rewrite ?Hd, ?Hss, ?Haa; [done|done|by left].
Qed.

(** Once the last send was refused. *)
Lemma refused_last s ans e r :
  sent_as fields s ans → last_answer ans = Some (Err e) → refused (Err e) = true →
  Status r = statusDeclined → ResponseCode r = rcLinkDown →
  settled f zak keys ans0 r ans ∨ copy_lost f ans0 r ans.
Proof.
  intros [(a & _ & ->)|(Ht & a & b & _ & ->)] Hl He Hst Hrc; unfold last_answer in Hl.
  - rewrite last_snoc in Hl. injection Hl as ->. left; right. exists [Err e].
    split; [done|]. split; [done|]. split; [by constructor|done].
  - rewrite last_app in Hl. cbn in Hl. injection Hl as ->. destruct (refused a) eqn:Ea.
    + left; right. exists [a; Err e]. split; [done|]. split; [done|]. split; [by repeat constructor|done].
    + right. split; [done|]. by exists a, (Err e).
Qed.

Lemma queue_after_send {SQ : SAFQueuer} st rc t reason w (Q : result error () → World → Prop) :
  f_type f ≠ "BALANCE" → ID t = id → after_send st rc w → (∀ r w', safe (visible w') → Q r w') → runs safe (q_Queue t reason) Q w.
Proof.
  intros Hnb Ht Ha HQ. pose proof (after_send_safe _ _ _ Ha) as Hs. destruct Ha as [Hst Hsent _].
  apply q_Queue_runs; [done| |].
  - intros e n _. by apply HQ.
  - intros n payload row d _ Hq.
    assert (Hd : safe (visible (later w n d))).
    { right. exists id, fields. split; [done|]. by apply (stage_queued _ _ _ st rc (w_db w) _ t row reason payload n). }
    split; [done|]. intros r. by apply HQ.
Qed.

(** The same for the repeat of a completion that timed out. *)
Lemma advice_after_send {SQ : SAFQueuer} st rc sent w (Q : result error () → World → Prop) :
  f_type f = "COMPLETION" → st = statusSent ∨ st = statusTimedOut →
  after_send st rc w → (∀ r w', safe (visible w') → Q r w') → runs safe (q_QueueAdvice id (f_mti f) sent) Q w.
Proof.
  intros Hty Hst Ha HQ. pose proof (after_send_safe _ _ _ Ha) as Hs. destruct Ha as [Hstage Hsent _].
  apply q_QueueAdvice_runs; [done| |].
  - intros e n _. by apply HQ.
  - intros n payload sid d _ Hq.
    assert (Hd : safe (visible (later w n d))).
    { right. exists id, fields. split; [done|]. cbn. destruct Hst as [->| ->].
      - by apply (stage_sent_queued _ _ _ rc (w_db w) _ payload n sid).
      - by apply (stage_repeated _ _ _ rc (w_db w) _ payload n sid). }
    split; [done|]. intros r. by apply HQ.
Qed.

(** A call that leaves the row where it is. *)
Lemma db_after_send {A B} (q : query A) (k : result error A → prog B) st rc w (Q : B → World → Prop) :
  after_send st rc w → (∀ n r d, exec_query q n (w_db w) = (r, d) → at_stage st rc d) →
  (∀ r w', after_send st rc w' → answers w' = answers w → runs safe (k r) Q w') →
  runs safe (Vis (EDb q) k) Q w.
Proof.
  intros Ha Hq HQ. pose proof (after_send_safe _ _ _ Ha) as Hs. destruct Ha as [Hst Hsent Hd].
  apply runs_db; [done|]. intros g n _.
  apply (exec_db_cases _ g n (w_db w) (λ r d, runs safe (k r) Q (later w n d))); [by apply HQ|].
  intros r d Hr. apply Hq in Hr. split; by apply HQ.
Qed.

(** Recording the outcome: the row stays SENT, or moves to it, whatever the call reports. *)
Lemma UpdateStatusFrom_runs {B} st rc ac rc0 (k : result error () → prog B) w (Q : B → World → Prop) :
  after_send statusSent rc0 w → decided st rc (answers w) →
  (∀ e st' rc' w', st' = statusSent ∨ st' = st → after_send st' rc' w' → answers w' = answers w →
     runs safe (k (Err e)) Q w') →
  (∀ w', after_send st rc w' → answers w' = answers w → runs safe (k (Ok ())) Q w') →
  runs safe (Vis (EDb (QUpdateStatusFrom id statusSent st rc ac)) k) Q w.
Proof.
  intros Ha Hd HE HO. pose proof (after_send_safe _ _ _ Ha) as Hs.
  apply runs_db; [done|]. intros g n _.
  apply (exec_db_cases _ g n (w_db w) (λ r d, runs safe (k r) Q (later w n d))).
  - eapply HE; [by left| |done]. destruct Ha. by split.
  - intros r d Hr. cbn [exec_query] in Hr. destruct Ha as [Hst Hsent _].
    apply (stage_UpdateStatusFrom _ _ _ _ _ _ _ _ _ _ _ _ Hst (proj1 Hd)) in Hr as [-> Hst'].
    assert (Ha : after_send st rc (later w n d)) by (split; [done|done|by right]).
    split; [by apply HO|]. eapply HE; [by right|exact Ha|done].
Qed.
End one.
End follow.

(** ** Around the send: calls that touch neither rows nor queue *)

Definition calm_query {A} (q : query A) : bool :=
  match q with
  | QReserve _ _ _ | QReclaim _ _ _ _ | QStore _ _ _ _ _ | QRelease _ _ _ | QAttachRRN _ _ _ _
  | QGet _ | QMerchant _ => true
  | _ => false
  end.

Definition calm_event {R} (e : event R) : bool :=
  match e with EDb q => calm_query q | ESend _ _ => false | _ => true end.

Record same_rows (d d' : DB) : Prop := {
  sr_tran : tran d' = tran d; sr_saf : saf d' = saf d; sr_merchants : merchants d' = merchants d;
  sr_next : next_tran d' = next_tran d; sr_next_saf : next_saf d' = next_saf d }.

Lemma calm_query_rows {A} (q : query A) n d : calm_query q = true → same_rows d (exec_query q n d).2.
Proof.
  intros Hq. destruct q; try discriminate Hq; cbn [exec_query];
    unfold Reserve, Reclaim, StoreResponse, Release, AttachRRN, GetTran, GetMerchant; repeat case_match; done.
Qed.

(** Every call of the program is calm. *)
Fixpoint calm {A} (p : prog A) : Prop :=
  match p with
  | Ret _ => True
  | Vis e k => calm_event e = true ∧ ∀ r, calm (k r)
  end.

Lemma calm_pbind {A B} (f : A → prog B) (p : prog A) : calm p → (∀ a, calm (f a)) → calm (pbind f p).
Proof.
  intros Hp Hf. induction p as [a|R e k IH]; [apply Hf|]. destruct Hp as [He Hk]. split; [done|].
  intros r. by apply IH.
Qed.

Lemma calm_bindE {A B} (p : progE A) (f : A → progE B) : calm p → (∀ a, calm (f a)) → calm (bindE p f).
Proof. intros Hp Hf. by apply calm_pbind; [|intros [?|?]]. Qed.

(** What holds across calm calls. *)
Definition unmoved (w w' : World) : Prop :=
  same_rows (w_db w) (w_db w') ∧ sends_of w' = sends_of w ∧ answers w' = answers w ∧
  w_zak w' = w_zak w ∧ w_keys w' = w_keys w.

Lemma same_rows_refl d : same_rows d d.
Proof. done. Qed.

Lemma same_rows_trans d1 d2 d3 : same_rows d1 d2 → same_rows d2 d3 → same_rows d1 d3.
Proof. intros [] []. split; congruence. Qed.

Lemma unmoved_trans w1 w2 w3 : unmoved w1 w2 → unmoved w2 w3 → unmoved w1 w3.
Proof.
  intros (H1 & H2 & H3 & H4 & H5) (H1' & H2' & H3' & H4' & H5').
  split; [by eapply same_rows_trans|]. split_and!; congruence.
Qed.

Lemma calm_exec {R} (e : event R) c w : calm_event e = true → unmoved w (exec e c (tick c w)).2.
Proof.
  intros He. destruct e; cbn [exec]; try (split; [apply same_rows_refl|done]); try discriminate He.
  - cbn [calm_event] in He. pose proof (calm_query_rows q (now (tick c w)) (w_db w) He) as Hr.
    cbn [w_db tick]. unfold exec_db. destruct (c_fate c); [|split; [apply same_rows_refl|done]|].
    + destruct (exec_query q (now (tick c w)) (w_db w)) as [r d]. by split.
    + by split.
  - destruct (c_flag c); [|split; [apply same_rows_refl|done]].
    destruct (NextSTAN _). by split; [apply same_rows_refl|].
Qed.

Lemma calm_runs {A} I (p : prog A) w :
  calm p → (∀ w', unmoved w w' → I (visible w')) → runs I p (λ _ w', unmoved w w') w.
Proof.
  intros Hc HI. assert (Hu : unmoved w w) by (split; [apply same_rows_refl|done]).
  generalize dependent Hu. generalize w at 2 4 as w1. induction p as [a|R e k IH]; intros w1 Hu.
  - apply runs_Ret; [by apply HI|done].
  - destruct Hc as [He Hk]. split; [by apply HI|]. intros r w2 [c Hc]. apply IH; [done|].
    eapply unmoved_trans; [exact Hu|]. pose proof (calm_exec e c w1 He) as H. by rewrite Hc in H.
Qed.

Section idempotent_calm.
Context {T : Type} (Marshal : T → string) (Unmarshal : string → option T).

Lemma answerFromLog_calm k rrn (f : Recover) : (∀ rrn, calm (f rrn)) → calm (answerFromLog Marshal k rrn f).
Proof.
  intros Hf. apply calm_bindE; [apply Hf|]. intros [t []]; cbn; [|done]. split; [done|]. by intros [?|?].
Qed.

Lemma begin_calm k fromLog :
  (∀ f rrn, fromLog = Some f → calm (f rrn)) → calm (begin_ Marshal Unmarshal k fromLog).
Proof.
  intros Hf. split; [done|]. intros [[t|stored|rrn at0]|e]; cbn; [done|by destruct (Unmarshal _)| |done].
  split; [done|]. intros now. destruct (staleAfter <? _); [|done].
  unfold takeOverStale. destruct (String.eqb rrn ""); cbn [negb].
  - split; [done|]. by intros [[?|]|?].
  - destruct fromLog as [f|]; [|done]. apply calm_bindE; [|done]. apply answerFromLog_calm. intros r. by apply Hf.
Qed.

Lemma failed_calm k token rrn fromLog err :
  (∀ f rrn, fromLog = Some f → calm (f rrn)) → calm (failed Marshal k token rrn fromLog err).
Proof.
  intros Hf. unfold failed. destruct (errors_Is err ErrReservationLost); [done|].
  destruct (negb _); [split; [done|]; by intros [?|?]|].
  destruct fromLog as [f|]; [|done]. destruct (String.eqb rrn ""); [done|].
  apply calm_pbind; [|by intros [?|?]]. apply answerFromLog_calm. intros r. by apply Hf.
Qed.
End idempotent_calm.

(** What is safe stays safe over calm calls. *)
Section calm_safe.
Context {H : Module_} (f : flow).
Context (zak : string) (keys : KeyTable) (sends0 : list (string * fieldmap)) (ans0 : list (result error fieldmap)).

Abbreviation safe := (safe f zak keys sends0 ans0).
Abbreviation unsent := (unsent zak keys sends0 ans0).

Lemma safe_unmoved w w' : unmoved w w' → safe (visible w) → safe (visible w').
Proof.
  intros Hu [[Hs Ha]|(id & fields & Hs & Hc)].
  - left. destruct Hu as (_ & Hs' & Ha' & _). cbn in *. split; congruence.
  - right. exists id, fields. destruct Hu as ([] & Hs' & Ha' & _). cbn in *. rewrite Hs', Ha'. split; [done|].
    by apply (covered_same _ _ _ _ (w_db w)).
Qed.

Lemma unsent_unmoved w w' : unmoved w w' → unsent w → db_ok (w_db w) → unsent w' ∧ db_ok (w_db w').
Proof.
  intros ([Ht Hs Hm Hn Hns] & Hss & Haa & Hz & Hk) [] [Hok1 Hok2]. split; [split; congruence|].
  split; rewrite ?Hs, ?Hn, ?Hns; done.
Qed.

Lemma calm_safe {A} (p : prog A) w : calm p → safe (visible w) → runs safe p (λ _ w', safe (visible w')) w.
Proof.
  intros Hc Hs. eapply runs_mono; [|apply calm_runs; [exact Hc|]].
  - intros _ w2 Hs2 _. exact Hs2.
  - intros w2 Hw. by eapply safe_unmoved.
Qed.

(** An entry point is safe when its request is. *)
Lemma Idempotent_safe {T} (Marshal : T → string) (Unmarshal : string → option T) k
    (create : option reservation → hprog T) (fromLog : Recover) w :
  (∀ rrn, calm (fromLog rrn)) →
  (∀ held w, unsent w → db_ok (w_db w) → runs safe (create held "") (λ _ w', safe (visible w')) w) →
  unsent w → db_ok (w_db w) →
  runs safe (Idempotent Marshal Unmarshal k create (Some fromLog)) (λ _ w', safe (visible w')) w.
Proof.
  intros Hf Hcreate Hu Hok. unfold Idempotent. apply runs_bindE. eapply runs_mono; [|apply calm_runs].
  2: { apply begin_calm. intros g rrn [= <-]. apply Hf. }
  2: { intros w1 Hw. destruct (unsent_unmoved _ _ Hw Hu Hok). by eapply unsent_safe. }
  intros [[answer|token]|e] w1 Hs1 Hw; [by apply runs_Ret| |exact Hs1].
  destruct (unsent_unmoved _ _ Hw Hu Hok) as [Hu1 Hok1].
  apply runs_pbind. eapply runs_mono; [|by apply Hcreate]. intros [[t|e] rrn] w2 _ Hs2; apply calm_safe; try done.
  - split; [done|]. by intros [?|?].
  - apply failed_calm. intros g r [= <-]. apply Hf.
Qed.
End calm_safe.
