(* ===== verification/Outcome.v ===== *)
(** * Outcome: no purchase that may have reached the issuer is forgotten

    What is left in the database by a [CreatePurchase] of Purchase.v that is stopped at any point,
    or whose database calls fail at any point, and how the sweeper of saf/sweeper.go finds it. *)

From S2P Require Import Prelude Digits Codec Mux KeyStore Mac Calendar Mask Store Journey Prog Idempotency Advice Purchase.
From S2P Require Import Stage.
Local Open Scope Z_scope.
Local Open Scope prog_scope.

(** The 0200 of a purchase. *)
Definition purchase_flow : flow := mkFlow tranTypePurchase "0200" responseMTI (λ rc, String.eqb rc "00") true.

(** ** Following a purchase through its sends *)

Section follow.
Context {H : Module_} {C : Calendar} {SQ : SAFQueuer} (traceID : string).
Context (zak : string) (keys : KeyTable) (sends0 : list (string * fieldmap)) (ans0 : list (result error fieldmap)).

Abbreviation safe := (safe purchase_flow zak keys sends0 ans0).
Abbreviation unsent := (unsent zak keys sends0 ans0).
Abbreviation after_send := (after_send purchase_flow zak keys sends0 ans0).
Abbreviation at_stage := (at_stage purchase_flow).
Abbreviation decided := (decided purchase_flow zak keys ans0).

Lemma mapSendOutcome_runs id fields txn sent rc w (Q : Transaction * bool → World → Prop) :
  last_answer (answers w) = Some sent → w_zak w = zak → w_keys w = keys →
  after_send id fields statusSent rc w →
  (∀ txn' b w', after_send id fields statusSent rc w' → decided (x_Status txn') (x_ResponseCode txn') (answers w') → Q (txn', b) w') →
  runs safe (mapSendOutcome txn sent) Q w.
Proof.
  intros Hlast Hz Hk Ha HQ. pose proof (after_send_safe _ _ _ _ _ _ _ _ _ _ Ha) as Hs.
  destruct sent as [resp|e]; cbn [mapSendOutcome].
  - apply runs_pbind, verify_runs; [done|]. intros b w' [Hv Hz' Hk'] Hb.
    assert (Ha' : after_send id fields statusSent rc w').
    { by eapply after_send_quietly. }
    assert (Hs' : safe (visible w')) by (by rewrite Hv).
    assert (Hl' : last_answer (answers w') = Some (Ok resp)).
    { unfold visible in Hv. injection Hv as Hd Hss Haa. by rewrite Haa. }
    destruct b; (apply runs_Ret; [done|]); apply HQ; try done.
    + split; [by destruct (String.eqb (ResponseCodeOf resp) "00")|]. right; right. cbn.
      intros r Hst Hrc. left; left. exists resp. rewrite Hst, Hrc, <- Hz, <- Hk. split_and!; [done|by apply Hb|done|done].
    + split; [done|]. right; left. split_and!; [done|done|done|by exists resp].
  - unfold SendFailureStatus. destruct (errors_Is e ErrNotSignedOn) eqn:He; (apply runs_Ret; [done|]); apply HQ; try done.
    + split; [done|]. right; right. intros r Hst Hrc. eapply refused_last; [apply Ha|exact Hlast|exact He|done|done].
    + split; [done|]. by left.
Qed.

Lemma recordStatus_runs id fields txn rc w (Q : string * option error → World → Prop) :
  after_send id fields statusSent rc w → decided (x_Status txn) (x_ResponseCode txn) (answers w) →
  (∀ r st' rc' w', after_send id fields st' rc' w' → Q r w') →
  runs safe (recordStatus id txn) Q w.
Proof.
  intros Ha Hd HQ. eapply UpdateStatusFrom_runs; [exact Ha|exact Hd| |].
  - intros e st' rc' w' _ Ha' _. apply runs_Ret; [by eapply after_send_safe|by eapply HQ].
  - intros w' Ha' _. eapply db_after_send; [exact Ha'| |].
    + intros n r d Hr. by eapply stage_RecordStateTransition in Hr as [_ Hr]; [|apply Ha'].
    + intros [[]|e] w2 Ha2 _; (apply runs_Ret; [by eapply after_send_safe|by eapply HQ]).
Qed.

Lemma settle_runs id fields txn row latency sent rc w attached (Q : result error Transaction * string → World → Prop) :
  ID row = id → last_answer (answers w) = Some sent → w_zak w = zak → w_keys w = keys →
  after_send id fields statusSent rc w → (∀ r w', safe (visible w') → Q r w') →
  runs safe (hlift (settleSend txn row latency sent) attached) Q w.
Proof.
  intros Hid Hl Hz Hk Ha HQ. apply runs_pbind. unfold settleSend. apply runs_pbind. unfold settleOutcome. apply runs_pbind.
  eapply mapSendOutcome_runs; [done..|]. intros txn' b w' Ha' Hd. unfold finalizeSendResult.
  assert (Hdone : ∀ r w, safe (visible w) → runs safe (Ret r) (λ a, runs safe (Ret (afterSend a))
            (λ a, runs safe (Ret (a, attached)) Q)) w).
  { intros r w1 Hs1. apply runs_Ret, runs_Ret, runs_Ret; [done..|by apply HQ]. }
  apply runs_pbind. rewrite Hid. eapply recordStatus_runs; [done..|].
  intros [current err] st' rc' w'' Ha''. pose proof (after_send_safe _ _ _ _ _ _ _ _ _ _ Ha'') as Hs.
  destruct (is_moved err); [by apply Hdone|].
  destruct (String.eqb (reversalReasonFor _ b) "").
  { unfold answer_with. destruct err; by apply Hdone. }
  apply runs_pbind. eapply queue_after_send; [done| |exact Ha''|]; [done|].
  intros r w1 Hs1. destruct r as [[]|e]; [|by apply Hdone]. unfold answer_with. destruct err; by apply Hdone.
Qed.

(** ** Before the send *)

Lemma GetMerchant_known tid d m d' :
  GetMerchant tid d = (Ok m, d') → d' = d ∧ merchants d !! MID m ≠ None.
Proof.
  unfold GetMerchant. destruct (terminals d !! tid) as [mid|]; cbn; [|done].
  destruct (merchants d !! mid) as [name|] eqn:E; cbn; [|done]. intros [= <- <-]. split; [done|]. cbn. by rewrite E.
Qed.

Lemma insert_stage req merchant rrn stan maskedPAN card now n d id d' :
  db_ok d → merchants d !! MID merchant ≠ None →
  let fields := purchaseFields req card merchant rrn stan now (Current now) in
  insertTranLog n (purchaseRow traceID req merchant rrn stan maskedPAN fields now (Current now)) d = (Ok id, d') →
  at_stage id fields statusCreated "" d'.
Proof.
  intros Hok Hm fields Hq. eapply stage_insert in Hq; [exact Hq|done|done|].
  exists now. unfold fields, purchaseFields. cbn [list_to_map foldr fst snd]. by split_and!.
Qed.

(** The message goes out; [duplicate] says what went before. *)
Lemma send_runs {A} id fields rc attached (f : Z → result error fieldmap → hprog A) Q w w1 a :
  at_stage id fields statusSent rc (w_db w) → w_zak w1 = zak → w_keys w1 = keys → safe (visible w1) →
  w_db w1 = w_db w → answers w1 = a → (∀ r, sent_as purchase_flow sends0 ans0 fields (sends_of w1 ++ [("0200", fields)]) (a ++ [r])) →
  (∀ latency sent w', last_answer (answers w') = Some sent → w_zak w' = zak → w_keys w' = keys →
     after_send id fields statusSent rc w' → runs safe (f latency sent attached) Q w') →
  runs safe (hbind (heff ENow) (λ start, hbind (heff (ESend "0200" fields)) (λ sent,
             hbind (heff ENow) (λ stop, f (Milliseconds (Sub stop start)) sent))) attached) Q w1.
Proof.
  intros Hst Hz Hk Hsafe Hd Ha Hsent Hf.
  apply runs_heff_quiet; [done|done|]. intros start w2 [Hv2 Hz2 Hk2].
  apply runs_send; [by rewrite Hv2|]. intros r w3 Hv3 Hz3 Hk3.
  unfold visible in Hv2. injection Hv2 as Hd2 Hs2 Ha2. rewrite Hd2, Hs2, Ha2, Ha, Hd in Hv3.
  destruct (sent_stage _ zak keys sends0 ans0 id fields rc w w3 r _ a Hst Hv3 (Hsent r)) as [Has Hl].
  apply runs_heff_quiet; [done|by apply after_send_safe in Has|]. intros stop w4 Hq4.
  destruct (after_send_quietly _ _ _ _ _ _ _ _ _ _ _ Has Hq4) as [Has4 Ha4]. destruct Hq4 as [_ Hz4 Hk4].
  apply Hf; [by rewrite Ha4|congruence..|done].
Qed.

Lemma markAndSend_runs id fields settle attached Q w :
  unsent w → at_stage id fields statusCreated "" (w_db w) →
  (∀ e rrn w', unsent w' → Q (Err e, rrn) w') →
  (∀ latency sent rc w', last_answer (answers w') = Some sent → w_zak w' = zak → w_keys w' = keys →
     after_send id fields statusSent rc w' →
     runs safe (hlift (settle latency sent) attached) Q w') →
  runs safe (markAndSend id fields settle attached) Q w.
Proof.
  intros Hu Hst HE Hsettle. unfold markAndSend.
  apply hdb_unsent; [done|intros; by apply HE|]. intros n1 [] d1 Hq1. cbn [exec_query] in Hq1.
  apply (stage_UpdateStatus _ _ _ _ _ _ _ _ _ _ _ _ Hst) in Hq1 as [_ Hst1]; [|done].
  pose proof (unsent_later _ _ _ _ w n1 d1 Hu) as Hu1.
  apply hdb_unsent; [done|intros; by apply HE|]. intros n2 [] d2 Hq2. cbn [exec_query] in Hq2.
  apply (stage_RecordStateTransition _ _ _ _ _ _ _ _ _ _ _ Hst1) in Hq2 as [_ Hst2].
  pose proof (unsent_later _ _ _ _ _ n2 d2 Hu1) as Hu2. set (w2 := later (later w n1 d1) n2 d2) in *.
  apply runs_hlift, runs_pbind. unfold sendDuplicateIfActive.
  apply runs_quiet; [done|by apply unsent_safe|]. intros hook w3 Hq3.
  destruct (unsent_quietly _ _ _ _ w2 w3 Hu2 Hq3) as [Hu3 Hd3]. destruct Hu3 as [Hs3 Ha3 Hz3 Hk3] eqn:E. clear E Hq3.
  destruct hook.
  - apply runs_send; [by apply unsent_safe|]. intros r1 w4 Hv4 Hz4 Hk4.
    rewrite Hd3, Hs3, Ha3 in Hv4.
    destruct (sent_stage _ zak keys sends0 ans0 id fields "" w2 w4 r1 _ _ Hst2 Hv4) as [Has4 _]; [left; by exists r1|].
    pose proof (after_send_safe _ _ _ _ _ _ _ _ _ _ Has4) as Hsafe4.
    unfold visible in Hv4. injection Hv4 as Hd4 Hs4 Ha4.
    apply runs_Ret, runs_Ret; [done..|].
    eapply (send_runs id fields "" attached (λ l s, hlift (settle l s)) Q w2);
      [done|congruence|congruence|done|done|exact Ha4| |intros; by eapply Hsettle].
    intros r. rewrite Hs4, <- !app_assoc. right. split; [done|]. by exists r1, r.
  - apply runs_Ret, runs_Ret; [by apply unsent_safe..|].
    eapply (send_runs id fields "" attached (λ l s, hlift (settle l s)) Q w2);
      [done|done|done|by apply unsent_safe|done|exact Ha3| |intros; by eapply Hsettle].
    intros r. rewrite Hs3. left. by exists r.
Qed.

Lemma sendPurchase_runs held req card merchant maskedPAN stan w (Q : result error Transaction * string → World → Prop) :
  unsent w → db_ok (w_db w) → merchants (w_db w) !! MID merchant ≠ None →
  (∀ r w', safe (visible w') → Q r w') →
  runs safe (sendPurchase traceID held req card merchant maskedPAN stan "") Q w.
Proof.
  intros Hu Hok Hm HQ. assert (HE : ∀ e rrn w', unsent w' → Q (Err e, rrn) w') by (intros; by apply HQ, unsent_safe).
  unfold sendPurchase. apply heff_unsent; [done|done|]. intros now w1 Hu1 Hd1.
  apply hdb_unsent; [done|intros; by apply HE|]. intros n1 id d2 Hq2. rewrite Hd1 in Hq2.
  apply (insert_stage _ _ _ _ _ card) in Hq2; [|done|done].
  set (fields := purchaseFields _ _ _ _ _ _ _) in *. pose proof (unsent_later _ _ _ _ w1 n1 d2 Hu1) as Hu2.
  apply runs_hlift. unfold attach. apply runs_quiet; [done|by apply unsent_safe|].
  intros z w3 Hq3. destruct (unsent_quietly _ _ _ _ _ _ Hu2 Hq3) as [Hu3 Hd3].
  destruct (attachMAC z "0200" fields) as [fields'|] eqn:Ea; (apply runs_Ret; [by apply unsent_safe|]); [|by apply HE].
  assert (Hst3 : at_stage id fields' statusCreated "" (w_db w3)).
  { rewrite Hd3. unfold attachMAC in Ea. invert_ok. by apply stage_fields. }
  apply runs_hbind, attach_rrn_runs; [done|]. intros [[[]|e] rrn] n d Ht Hs Hmm; [|by apply HE, unsent_later].
  apply markAndSend_runs; [by apply unsent_later|by eapply stage_same|done|].
  intros latency sent rc w4 Hl Hz Hk Has. by eapply settle_runs.
Qed.
End follow.

Lemma fromLog_calm rrn : calm (fromLog rrn).
Proof. split; [done|]. by intros [?|?]. Qed.

Section create.
Context {H : Module_} {C : Calendar} {SQ : SAFQueuer} (cardTokens : CardTokenRegistry).
Context (marshal_txn : Transaction → string) (unmarshal_txn : string → option Transaction)
        (marshal_req : PurchaseRequest → string) (sha256Hex : string → string) (traceID : string).
Context (zak : string) (keys : KeyTable) (sends0 : list (string * fieldmap)) (ans0 : list (result error fieldmap)).

Abbreviation safe := (safe purchase_flow zak keys sends0 ans0).
Abbreviation unsent := (unsent zak keys sends0 ans0).

Lemma resolve_runs req w (Q : result error (CardFixture * Merchant) → World → Prop) :
  unsent w → (∀ e w', unsent w' → Q (Err e) w') →
  (∀ card merchant n, merchants (w_db w) !! MID merchant ≠ None → Q (Ok (card, merchant)) (later w n (w_db w))) →
  runs safe (resolveCardAndMerchant cardTokens req) Q w.
Proof.
  intros Hu HE HQ. unfold resolveCardAndMerchant.
  destruct (Resolve cardTokens (p_CardToken req)) as [card|];
    [|apply runs_Ret; [by apply unsent_safe|by apply HE]].
  apply runs_bindE, db_unsent; [done|intros e n d; by apply HE, unsent_later|].
  intros n merchant d Hq. cbn [exec_query] in Hq. destruct (GetMerchant_known _ _ _ _ Hq) as [-> Hm].
  apply runs_Ret; [by apply unsent_safe, unsent_later|by apply HQ].
Qed.

Lemma createPurchase_runs held req w (Q : result error Transaction * string → World → Prop) :
  unsent w → db_ok (w_db w) → (∀ r w', safe (visible w') → Q r w') →
  runs safe (createPurchase cardTokens traceID req held "") Q w.
Proof.
  intros Hu Hok HQ. assert (HE : ∀ e rrn w', unsent w' → Q (Err e, rrn) w') by (intros; by apply HQ, unsent_safe).
  unfold createPurchase. apply runs_hlift, resolve_runs; [done|intros; by apply HE|].
  intros card merchant n Hm.
  apply heff_unsent; [done|by apply unsent_later|]. intros stan w1 Hu1 Hd1.
  apply heff_unsent; [done|done|]. intros up w2 Hu2 Hd2.
  assert (Hdb : w_db w2 = w_db w) by (by rewrite Hd2, Hd1). clear Hd1 Hd2 Hu1.
  assert (Hdown : runs safe (hbind (heff ENow) (λ now,
      let txn := declinedTransaction traceID req merchant (MaskPAN (PAN card)) rcLinkDown now in
      hbind (hlift (recordLinkDown txn req merchant)) (λ _,
      hbind (heff (EBroadcast (BroadcastTransaction eventCreated txn))) (λ _, hret txn))) "") Q w2).
  { apply heff_unsent; [done|done|]. intros now w3 Hu3 _. cbn zeta.
    apply runs_hlift. unfold recordLinkDown. apply runs_bindE, db_unsent; [done|intros; by apply HE, unsent_later|].
    intros n4 id d _. apply runs_Ret; [by apply unsent_safe, unsent_later|].
    apply heff_safe; [done|by apply unsent_safe, unsent_later|]. intros r w5 Hs. apply runs_Ret; [done|by apply HQ]. }
  destruct up; [|exact Hdown]. destruct stan as [stan|]; [|exact Hdown].
  apply runs_hbind, sendPurchase_runs; [done|by rewrite Hdb|by rewrite Hdb|].
  intros [[txn|e] rrn] w3 Hs; [|by apply HQ].
  apply heff_safe; [done|done|]. intros r w4 Hs4. apply runs_Ret; [done|by apply HQ].
Qed.

Lemma CreatePurchase_runs req key w :
  unsent w → db_ok (w_db w) →
  runs safe (CreatePurchase cardTokens marshal_txn unmarshal_txn marshal_req sha256Hex traceID req key)
    (λ _ w', safe (visible w')) w.
Proof.
  intros Hu Hok. apply Idempotent_safe; [apply fromLog_calm| |done|done]. intros held w1 Hu1 Hok1.
  by apply createPurchase_runs.
Qed.
End create.

(** C5. A 0200 that may be at the issuer is never forgotten.  Whatever fails or is lost during a
    [CreatePurchase], and wherever the gateway stops, either nothing was sent, or the message's row
    is in tran_log under the RRN, STAN, DE 7 and amount that were sent and: it carries the outcome
    of an authentic 0210 (APPROVED for RC 00, DECLINED otherwise), or every send of it was refused
    before the write (DECLINED, RC 91), or a 0420 for it is in the queue and it is REVERSAL_PENDING,
    or [FindOrphans] will find it.  The one exception is the chaos duplicate: the message goes out
    twice when its hook is on, and when the copy is not refused and the message after it is, the row is
    DECLINED with RC 91 and nothing is owed for the copy ([copy_lost]; [demo_copy_lost] shows it). *)
Theorem no_purchase_is_forgotten {H : Module_} {C : Calendar} {SQ : SAFQueuer} cardTokens marshal_txn
    unmarshal_txn marshal_req sha256Hex traceID req key n cs w :
  db_ok (w_db w) →
  let stopped := crash n (CreatePurchase cardTokens marshal_txn unmarshal_txn marshal_req sha256Hex traceID req key) cs w in
  (sends_of stopped = sends_of w) ∨
  ∃ id fields, sent_as purchase_flow (sends_of w) (answers w) fields (sends_of stopped) (answers stopped) ∧
    covered purchase_flow (w_zak w) (w_keys w) (answers w) (w_db stopped) id fields (answers stopped).
Proof.
  intros Hok stopped.
  pose proof (runs_crash _ _ _ w n cs (CreatePurchase_runs cardTokens marshal_txn unmarshal_txn marshal_req
    sha256Hex traceID (w_zak w) (w_keys w) (sends_of w) (answers w) req key w ltac:(by split) Hok)) as Hs.
  destruct Hs as [[Hs _]|(id & fields & Hs)]; [by left|]. right. by exists id, fields.
Qed.

(** ** A gateway to evaluate *)

Definition demo_module : Module_ := JCEModule demo_lmk.
Definition demo_calendar : Calendar := ClockCalendar_calendar default_calendar.
Definition demo_queuer : SAFQueuer := @saf_queuer demo_json "".

Definition demo_db : DB :=
  mkDB ∅ 1 [] ∅ 1 ∅ 1 {[ "MERCHANT0000001" := mkMerchantRow "Pho 24" "5812" ]} {[ "TERM0001" := "MERCHANT0000001" ]}.

Definition demo_world : World :=
  mkWorld demo_db empty_table vector_zak (Date (2026, 9, 21) 0 + 7 * Hour) 122 [] [] [].

Definition demo_cards : CardTokenRegistry :=
  {[ "tok-1" := mkCard "9704000000000018" "2812" 5000000 "704" "ref-1" ]}.

Definition demo_request : PurchaseRequest :=
  mkPurchase "TERM0001" "tok-1" "CHIP_NO_PIN" "" "" (mkMoney 150000 "704").

(** A stand-in for the JSON of a transaction: none is ever read back in the runs below. *)
Definition demo_purchase (key : string) : progE Transaction :=
  @CreatePurchase demo_module demo_calendar demo_queuer demo_cards x_RRN (λ _, None) p_CardToken id "" demo_request key.

(** The issuer answers every send with [resp]. *)
Definition answering (resp : fieldmap) : choice := mkChoice Done (Ok resp) true 0 0 (c_nonce quiet).

Lemma demo_db_ok : db_ok demo_db.
Proof. split; intros sid s Hs; discriminate Hs. Qed.

(** Nobody answers (and the hook is on): the caller sees REVERSAL_PENDING, the row is, and a 0420 is
    queued. *)
Example demo_timeout :
  let '(r, w) := run (demo_purchase "key-1") [] demo_world in
  (match r with Ok t => Some (x_Status t) | Err _ => None end, (λ r, (Status r, RRN r, ReversalReasonCode r)) <$> (map_to_list (tran (w_db w))).*2,
   (λ s, (TranID s, s_mti s, s_status s)) <$> (map_to_list (saf (w_db w))).*2, length (sends_of w))
  = (Some "REVERSAL_PENDING", [("REVERSAL_PENDING", "626407000123", "68")], [(1, "0420", "PENDING")], 2%nat).
Proof. vm_compute. reflexivity. Qed.

(** The duplicate's copy goes unanswered and the message after it is refused: the row is DECLINED, and
    nothing reverses the copy. *)
Definition refusing : choice := mkChoice Done (Err [ErrNotSignedOn]) true 0 0 (c_nonce quiet).

Example demo_copy_lost :
  let w := (run (demo_purchase "key-1") (repeat quiet 13 ++ [refusing]) demo_world).2 in
  (answers w, (λ r, (Status r, ResponseCode r)) <$> (map_to_list (tran (w_db w))).*2, saf (w_db w))
  = ([Err [ErrOther "deadline exceeded"]; Err [ErrNotSignedOn]], [("DECLINED", "91")], ∅).
Proof. vm_compute. reflexivity. Qed.

Lemma no_purchase_is_forgotten_witness :
  let stopped := crash 14 (demo_purchase "key-1") [] demo_world in
  db_ok demo_db ∧
  ((sends_of stopped = []) ∨
   ∃ id fields, sent_as purchase_flow [] [] fields (sends_of stopped) (answers stopped) ∧
     @covered demo_module purchase_flow vector_zak empty_table [] (w_db stopped) id fields (answers stopped)).
Proof.
  split; [exact demo_db_ok|].
  exact (@no_purchase_is_forgotten demo_module demo_calendar demo_queuer demo_cards x_RRN (λ _, None) p_CardToken id ""
           demo_request "key-1" 14 [] demo_world demo_db_ok).
Defined.
