(* ===== verification/AdvTxn.v ===== *)
(** * AdvTxn: pre-authorizations, completions, refunds and balance inquiries

    [gateway-go/internal/advtxn]: service.go, preauth.go, completion.go, refund.go and balance.go.
    Same environment, reservation and queue as Purchase.v. *)

From S2P Require Import Prelude Digits Codec Mux KeyStore Mac Calendar Mask Store Journey Prog Idempotency Advice.
From S2P Require Import Purchase.
Local Open Scope Z_scope.
Local Open Scope prog_scope.

(** ** Constants and requests *)

Definition rcPartialApproval : string := "10".
Definition noSTAN : string := "000000".
Definition tranTypePreAuth : string := "PREAUTH".
Definition tranTypeCompletion : string := "COMPLETION".
Definition tranTypeRefund : string := "REFUND".
Definition tranTypeBalance : string := "BALANCE".
Definition routePreAuth : string := "pre-authorizations".
Definition routeCompletion : string := "completions".
Definition routeRefund : string := "refunds".
Definition routeBalance : string := "balance-inquiries".
Definition StatusCreated : Z := 201.

Record CardPresentData := mkCardPresent {
  a_TerminalID : string; a_CardToken : string; a_EntryMode : string; a_PinBlock : string; a_EMVData : string }.

Record PreAuthRequest := mkPreAuth { card_present : CardPresentData; a_Amount : Money }.
Definition RefundRequest : Type := PreAuthRequest.
Record CompletionRequest := mkCompletion { c_Amount : Money }.
Record BalanceInquiryRequest := mkBalance { b_card : CardPresentData }.

(** What is hashed for the idempotency key. *)
Inductive hashed :=
  | HPreAuth (r : PreAuthRequest)
  | HCompletion (originalRRN : string) (r : CompletionRequest)
  | HBalance (r : BalanceInquiryRequest).

Record sendParams := mkParams {
  mti : string; txnType : string; route : string; fields : fieldmap; rrn : string; stan : string;
  linkUp : bool; sentAt : time; maskedPAN : string; cardToken : string; posEntryMode : string;
  terminalID : string; requestedAmt : Money; originalRRN : string; businessDate : time }.

Definition with_params (p : sendParams) (f : fieldmap) (date : time) : sendParams :=
  mkParams (mti p) (txnType p) (route p) f (rrn p) (stan p) (linkUp p) (sentAt p) (maskedPAN p) (cardToken p)
    (posEntryMode p) (terminalID p) (requestedAmt p) (originalRRN p) date.

(** ** Responses *)

Definition parseDE4 (de4 : string) : option Z := if String.eqb de4 "" then None else ParseInt de4.

Definition parseDE54 (de54 : string) : option Money :=
  if negb (slen de54 =? 16)%nat then None
  else
    amt ← ParseInt (str_slice 4 16 de54);
    Some (mkMoney amt (str_slice 0 3 de54)).

Definition blank (txnType : string) (amount : Money) (status rc ac : string) (approved balance : option Money)
    : AdvTransaction :=
  mkAdvTransaction "" "" txnType status rc amount approved balance "" "" "" ac "" "" zero_time None None "".

Definition mapResponseToTransaction (txnType : string) (requestedAmount : Money) (resp : fieldmap) : AdvTransaction :=
  let rc := ResponseCodeOf resp in
  let status := if String.eqb rc "00" then statusApproved
                else if String.eqb rc rcPartialApproval then statusApproved
                else statusDeclined in
  let approved := if String.eqb rc rcPartialApproval then
                    amt ← parseDE4 (get resp 4); Some (mkMoney amt (Currency requestedAmount))
                  else None in
  let balance := if String.eqb (get resp 54) "" then None else parseDE54 (get resp 54) in
  blank txnType requestedAmount status rc (get resp 38) approved balance.

(** The function digit plus one: 0100 -> 0110. *)
Definition responseMTI (mti : string) : string :=
  match mti with
  | String a (String b (String c rest)) =>
      String a (String b (String (ascii_of_Z ((Z_of_ascii c + 1) mod 256)) rest))
  | mti => mti
  end.

Definition set_outcome (t : AdvTransaction) (status : string) : AdvTransaction :=
  mkAdvTransaction (y_RRN t) (y_STAN t) (y_Type t) status (y_ResponseCode t) (y_Amount t) (y_ApprovedAmount t)
    (y_Balance t) (y_MaskedPAN t) (y_TerminalID t) (y_MerchantName t) (y_AuthCode t) (y_OriginalRRN t)
    (y_BusinessDate t) (y_CreatedAt t) (y_ResponseLabel t) (y_LatencyMs t) (y_TraceID t).
Definition set_latency (t : AdvTransaction) (latency : option Z) : AdvTransaction :=
  mkAdvTransaction (y_RRN t) (y_STAN t) (y_Type t) (y_Status t) (y_ResponseCode t) (y_Amount t)
    (y_ApprovedAmount t) (y_Balance t) (y_MaskedPAN t) (y_TerminalID t) (y_MerchantName t) (y_AuthCode t)
    (y_OriginalRRN t) (y_BusinessDate t) (y_CreatedAt t) (y_ResponseLabel t) latency (y_TraceID t).

(** [errors.Join] of two errors that may be nil. *)
Definition Join (a b : option error) : option error :=
  match a, b with
  | None, b => b
  | a, None => a
  | Some a, Some b => Some (errors_Join a b)
  end.

Definition error_of {A} (r : result error A) : option error := match r with Ok _ => None | Err e => Some e end.

(** Run [h] on the error of [p]. *)
Definition hcatch {A} (p : hprog A) (h : error → hprog A) : hprog A := λ rrn,
  pbind (λ r : result error A * string, match r with
                                        | (Ok a, rrn) => Ret (Ok a, rrn)
                                        | (Err e, rrn) => h e rrn
                                        end) (p rrn).

Section service.
Context {H : Module_} {C : Calendar} {SQ : SAFQueuer}.
Context (cardTokens : CardTokenRegistry).
Context (marshal_txn : AdvTransaction → string) (unmarshal_txn : string → option AdvTransaction)
        (hashRequest : hashed → string) (traceID : string).

(** ** service.go *)

Definition nextSTAN : prog (string * bool) :=
  stan <-- trigger ENextSTAN;
  match stan with
  | None => Ret (noSTAN, false)
  | Some stan =>
      up <-- trigger EIsSignedOn;
      Ret (if (up : bool) then (stan, true) else (noSTAN, false))
  end.

(** DE 15, the merchant's DE 42 where the message carries it, and the MAC: the code writes them into
    the map [p.fields] refers to. *)
Definition finalizeFields (p : sendParams) : progE (Merchant * fieldmap) :=
  let f := <[15 := MMDD (businessDate p)]> (fields p) in
  merchant <-! db (QMerchant (terminalID p));
  let f := match f !! 42 with Some _ => <[42 := MID merchant]> f | None => f end in
  f <-! attach (mti p) f;
  retE (merchant, f).

Definition describe (txn : AdvTransaction) (p : sendParams) (merchant : Merchant) : prog AdvTransaction :=
  now <-- trigger ENow;
  Ret (mkAdvTransaction (rrn p) (stan p) (y_Type txn) (y_Status txn) (y_ResponseCode txn) (y_Amount txn)
         (y_ApprovedAmount txn) (y_Balance txn) (maskedPAN p) (terminalID p) (Name merchant) (y_AuthCode txn)
         (originalRRN p) (Format (businessDate p)) now (ResponseLabel (y_ResponseCode txn)) (y_LatencyMs txn) traceID).

Definition linkDownRow (p : sendParams) (merchant : Merchant) : TranLogRow :=
  mkTran 0 (rrn p) (txnType p) statusDeclined (Amount (requestedAmt p)) (Currency (requestedAmt p)) (maskedPAN p)
    (terminalID p) (MID merchant) "" "" rcLinkDown "" zero_time "" None (mti p) "" "" None None "" None None
    (originalRRN p) traceID "" "" (businessDate p).

Definition recordLinkDown (p : sendParams) (merchant : Merchant) : progE AdvTransaction :=
  txn <-- describe (blank (txnType p) (requestedAmt p) statusDeclined rcLinkDown "" None None) p merchant;
  db (QInsert (linkDownRow p merchant)) ;;! retE txn.

Definition sentRow (p : sendParams) (merchant : Merchant) : TranLogRow :=
  mkTran 0 (rrn p) (txnType p) statusCreated (Amount (requestedAmt p)) (Currency (requestedAmt p)) (maskedPAN p)
    (terminalID p) (MID merchant) "" (stan p) "" "" zero_time "" None (mti p) (get (fields p) 3) (posEntryMode p)
    (Some (sentAt p)) None (cardToken p) None None (originalRRN p) traceID "" "" (businessDate p).

(** A completion claims its pre-authorization in the same transaction. *)
Definition insert_ (p : sendParams) (row : TranLogRow) : progE Z :=
  if negb (String.eqb (txnType p) tranTypeCompletion) then db (QInsert row)
  else db (QInsertCompletion row (originalRRN p)).

Definition transition (id : Z) (from to responseCode authCode : string) : progE () :=
  db (QUpdateStatus id to responseCode authCode) ;;!
  db (QRecordStateTransition id from to).

Definition markSending (held : option reservation) (id : Z) (p : sendParams) : hprog () :=
  u <-* attach_rrn held (rrn p);
  hlift (transition id statusCreated statusSent "" "").

Definition releaseClaim (p : sendParams) : progE () :=
  if negb (String.eqb (txnType p) tranTypeCompletion) then retE ()
  else db (QReleaseCompletion (originalRRN p) (rrn p)).

Definition outcome (p : sendParams) (sent : result error fieldmap) : prog (AdvTransaction * bool) :=
  match sent with
  | Err sendErr =>
      let '(status, rc) := SendFailureStatus sendErr in
      Ret (blank (txnType p) (requestedAmt p) status rc "" None None, false)
  | Ok resp =>
      good <-- verify (responseMTI (mti p)) resp;
      if (good : bool) then Ret (mapResponseToTransaction (txnType p) (requestedAmt p) resp, false)
      else if String.eqb (txnType p) tranTypeCompletion then
        Ret (blank (txnType p) (requestedAmt p) statusTimedOut "" "" None None, true)
      else Ret (blank (txnType p) (requestedAmt p) statusDeclined rcMacFailure "" None None, true)
  end.

Definition recordStatus (id : Z) (txn : AdvTransaction) : prog (string * option error) :=
  r <-- db (QUpdateStatusFrom id statusSent (y_Status txn) (y_ResponseCode txn) (y_AuthCode txn));
  match r with
  | Err e => Ret (statusSent, Some e)
  | Ok _ =>
      r <-- db (QRecordStateTransition id statusSent (y_Status txn));
      Ret (y_Status txn, error_of r)
  end.

Definition recordAmounts (id : Z) (txn : AdvTransaction) : progE () :=
  match y_ApprovedAmount txn, y_Balance txn with
  | None, None => retE ()
  | approved, balance => db (QUpdateAmounts id (Amount <$> approved) balance)
  end.

Definition reversalReason (status : string) (macFailed : bool) : string :=
  if String.eqb status statusTimedOut then reasonTimeout
  else if macFailed then reasonMacFailure else "".

Definition reverseIfOwed (row : TranLogRow) (txn : AdvTransaction) (macFailed : bool) (recordErr : option error)
    : progE AdvTransaction :=
  let reason := reversalReason (y_Status txn) macFailed in
  if String.eqb reason "" then answer_with txn recordErr
  else
    r <-- q_Queue row reason;
    match r with
    | Err e => failE (default [] (Join recordErr (Some e)))
    | Ok _ => answer_with (if String.eqb (y_Status txn) statusTimedOut then set_outcome txn statusReversalPending else txn)
                recordErr
    end.

(** Everything still owed, by the kind of transaction. *)
Definition deliverOwed (p : sendParams) (row : TranLogRow) (current : string) (txn : AdvTransaction) (macFailed : bool)
    (recordErr : option error) : progE AdvTransaction :=
  if String.eqb (txnType p) tranTypeBalance then answer_with txn recordErr
  else if String.eqb (y_Status txn) statusDeclined && negb macFailed then
    r <-- releaseClaim p; answer_with txn (Join recordErr (error_of r))
  else if String.eqb (txnType p) tranTypeCompletion && String.eqb (y_Status txn) statusTimedOut then
    r <-- q_QueueAdvice (ID row) (mti p) (fields p);
    match r with
    | Err e => failE (default [] (Join recordErr (Some e)))
    | Ok _ => answer_with txn recordErr
    end
  else reverseIfOwed (set_state row current) txn macFailed recordErr.

Definition finalize (p : sendParams) (row : TranLogRow) (txn : AdvTransaction) (macFailed : bool)
    : progE AdvTransaction :=
  rec <-- recordStatus (ID row) txn;
  let '(current, recordErr) := rec in
  if is_moved recordErr then failE (default [] recordErr)
  else
    r <-- recordAmounts (ID row) txn;
    deliverOwed p row current txn macFailed (Join recordErr (error_of r)).

Definition settleSend (p : sendParams) (merchant : Merchant) (row : TranLogRow) (latencyMs : Z)
    (sent : result error fieldmap) : progE AdvTransaction :=
  out <-- outcome p sent;
  let '(txn, macFailed) := out in
  txn <-- describe txn p merchant;
  r <-- finalize p row (set_latency txn (if is_ok sent then Some latencyMs else None)) macFailed;
  Ret (afterSend r).

Definition sendAndRecord (held : option reservation) (p : sendParams) (merchant : Merchant) : hprog AdvTransaction :=
  let row := sentRow p merchant in
  id <-* hlift (insert_ p row);
  u <-* hcatch (markSending held id p)
          (λ err, hlift (r <-- releaseClaim p; Ret (Err (default [] (Join (Some err) (error_of r))))));
  sendStart <-* heff ENow;
  sent <-* heff (ESend (mti p) (fields p));
  returned <-* heff ENow;
  hlift (settleSend p merchant (set_ID row id) (Milliseconds (Sub returned sendStart)) sent).

Definition send (held : option reservation) (p : sendParams) : hprog AdvTransaction :=
  let p := with_params p (fields p) (Current (sentAt p)) in
  mf <-* hlift (finalizeFields p);
  let '(merchant, f) := mf in
  let p := with_params p f (businessDate p) in
  txn <-* (if negb (linkUp p) then hlift (recordLinkDown p merchant) else sendAndRecord held p merchant);
  u <-* heff (EBroadcast (BroadcastAdvTransaction eventCreated txn));
  hret txn.

Definition fromLog (rrn : string) : progE (AdvTransaction * bool) :=
  row <-! db (QGet rrn);
  retE (mkAdvTransaction (RRN row) (NetworkSTAN row) (Type_ row) (Status row) (ResponseCode row)
          (mkMoney (tAmount row) (tCurrency row)) ((λ a, mkMoney a (tCurrency row)) <$> ApprovedAmount row) (Balance row)
          (MaskedPAN row) (TerminalID row) (MerchantName row) (AuthCode row) (OriginalRRN row) (Format (BusinessDate row))
          (CreatedAt row) (ResponseLabel (ResponseCode row)) (LatencyMs row) (TraceID row),
        negb (String.eqb (Status row) statusCreated) && negb (String.eqb (Status row) statusSent)).

Definition idempotent (route key : string) (req : hashed) (create : option reservation → hprog AdvTransaction)
    : progE AdvTransaction :=
  Idempotent marshal_txn unmarshal_txn (mkIdemKey key route (hashRequest req) StatusCreated) create (Some fromLog).

(** ** preauth.go, refund.go, balance.go, completion.go *)

(** The three requests made with a card present. *)
Definition withCard (card : CardPresentData) (k : CardFixture → string → string → bool → time → string → hprog AdvTransaction)
    : hprog AdvTransaction :=
  match Resolve cardTokens (a_CardToken card) with
  | None => hfail [ErrUnknownCardToken]
  | Some c =>
      su <-* hlift (r <-- nextSTAN; retE r);
      let '(stan, linkUp) := su in
      now <-* heff ENow;
      k c (MaskPAN (PAN c)) stan linkUp now (BuildRRN now stan)
  end.

Definition cardFields (c : CardFixture) (card : CardPresentData) (code stan rrn : string) (now : time) : fieldmap :=
  list_to_map
    [(2, PAN c); (3, code); (7, format_DE7 UTC now); (11, stan); (14, ExpiryYYMM c);
     (22, get entryModeToDE22 (a_EntryMode card)); (32, acquirerID); (37, rrn); (41, a_TerminalID card); (42, "")].

Definition with_amount (f : fieldmap) (m : Money) : fieldmap :=
  <[4 := Sprintf0d 12 (Amount m)]> (<[49 := Currency m]> f).

Definition createPreAuth (req : PreAuthRequest) (held : option reservation) : hprog AdvTransaction :=
  withCard (card_present req) (λ c masked stan linkUp now rrn,
    let f := <[25 := "06"]> (with_amount (cardFields c (card_present req) "000000" stan rrn now) (a_Amount req)) in
    send held (mkParams "0100" tranTypePreAuth routePreAuth f rrn stan linkUp now masked
                 (a_CardToken (card_present req)) (get f 22) (a_TerminalID (card_present req)) (a_Amount req) "" zero_time)).

Definition createRefund (req : RefundRequest) (held : option reservation) : hprog AdvTransaction :=
  withCard (card_present req) (λ c masked stan linkUp now rrn,
    let f := with_amount (cardFields c (card_present req) "200000" stan rrn now) (a_Amount req) in
    send held (mkParams "0200" tranTypeRefund routeRefund f rrn stan linkUp now masked
                 (a_CardToken (card_present req)) (get f 22) (a_TerminalID (card_present req)) (a_Amount req) "" zero_time)).

Definition createBalanceInquiry (req : BalanceInquiryRequest) (held : option reservation) : hprog AdvTransaction :=
  withCard (b_card req) (λ c masked stan linkUp now rrn,
    let f := cardFields c (b_card req) "310000" stan rrn now in
    send held (mkParams "0200" tranTypeBalance routeBalance f rrn stan linkUp now masked
                 (a_CardToken (b_card req)) (get f 22) (a_TerminalID (b_card req)) (mkMoney 0 (cCurrency c)) "" zero_time)).

Definition completionFields (original : string) (preAuth : TranLogRow) (req : CompletionRequest) (stan : string)
    (now : time) : fieldmap :=
  list_to_map
    [(3, "000000"); (4, Sprintf0d 12 (Amount (c_Amount req))); (7, format_DE7 UTC now); (11, stan); (32, acquirerID);
     (37, original); (41, TerminalID preAuth); (42, ""); (49, Currency (c_Amount req))].

Definition completionParams (original : string) (preAuth : TranLogRow) (req : CompletionRequest) (stan : string)
    (linkUp : bool) (now : time) : sendParams :=
  mkParams "0220" tranTypeCompletion routeCompletion (completionFields original preAuth req stan now)
    (BuildRRN now stan) stan linkUp now (MaskedPAN preAuth) (CardToken preAuth) (POSEntryMode preAuth)
    (TerminalID preAuth) (c_Amount req) original zero_time.

Definition createCompletion (original : string) (req : CompletionRequest) (held : option reservation)
    : hprog AdvTransaction :=
  preAuth <-* hlift (db (QGet original));
  if negb (String.eqb (Type_ preAuth) tranTypePreAuth) || negb (String.eqb (Status preAuth) statusApproved)
     || negb (String.eqb (CompletedBy preAuth) "")
  then hfail [ErrNotCompletable]
  else if tAmount preAuth <? Amount (c_Amount req) then hfail [ErrExceedsHold]
  else
    su <-* hlift (r <-- nextSTAN; retE r);
    let '(stan, linkUp) := su in
    now <-* heff ENow;
    send held (completionParams original preAuth req stan linkUp now).

Definition CreatePreAuth (req : PreAuthRequest) (key : string) : progE AdvTransaction :=
  idempotent routePreAuth key (HPreAuth req) (createPreAuth req).
Definition CreateRefund (req : RefundRequest) (key : string) : progE AdvTransaction :=
  idempotent routeRefund key (HPreAuth req) (createRefund req).
Definition CreateBalanceInquiry (req : BalanceInquiryRequest) (key : string) : progE AdvTransaction :=
  idempotent routeBalance key (HBalance req) (createBalanceInquiry req).
Definition CreateCompletion (original : string) (req : CompletionRequest) (key : string) : progE AdvTransaction :=
  idempotent routeCompletion key (HCompletion original req) (createCompletion original req).
End service.

(** ** Every flow keeps the protocol of its reservation *)

Section keeps.
Context {H : Module_} {C : Calendar} {SQ : SAFQueuer} (cardTokens : CardTokenRegistry)
        (marshal_txn : AdvTransaction → string) (unmarshal_txn : string → option AdvTransaction)
        (hashRequest : hashed → string) (traceID : string) (key route_ : string).

Abbreviation reads := (reads_only key route_).

Lemma nextSTAN_reads : reads nextSTAN.
Proof. unfold nextSTAN. eauto 8 with reads. Qed.

Lemma finalizeFields_reads p : reads (finalizeFields p).
Proof.
  unfold finalizeFields. apply reads_bindE; [by apply reads_db|]. intros merchant.
  apply reads_bindE; [apply attach_reads|]. intros f. apply reads_Ret.
Qed.

Lemma describe_reads txn p merchant : reads (describe traceID txn p merchant).
Proof. unfold describe. eauto with reads. Qed.

Lemma recordLinkDown_reads p merchant : reads (recordLinkDown traceID p merchant).
Proof.
  unfold recordLinkDown. apply reads_pbind; [apply describe_reads|]. intros txn. eauto with reads.
Qed.

Lemma releaseClaim_reads p : reads (releaseClaim p).
Proof. unfold releaseClaim. eauto with reads. Qed.

Lemma insert_reads p row : reads (insert_ p row).
Proof. unfold insert_. eauto with reads. Qed.

Lemma deliverOwed_reads p row current txn macFailed e : reads (deliverOwed p row current txn macFailed e).
Proof.
  unfold deliverOwed, reverseIfOwed. repeat case_if;
    first [apply answer_with_reads|apply reads_pbind; [apply releaseClaim_reads|intros r; apply answer_with_reads]|
           apply reads_pbind; [first [apply q_Queue_reads|apply q_QueueAdvice_reads]|
                               intros [[]|e']; first [apply answer_with_reads|apply reads_Ret]]].
Qed.

Lemma adv_finalize_reads p row txn macFailed : reads (finalize p row txn macFailed).
Proof.
  unfold finalize. apply reads_pbind.
  - unfold recordStatus. eauto 8 with reads.
  - intros [current e]. destruct (is_moved e); [apply reads_Ret|].
    apply reads_pbind; [|intros r; apply deliverOwed_reads].
    unfold recordAmounts. repeat case_match; eauto with reads.
Qed.

Lemma settleSend_keeps p merchant row latency sent t s attached :
  keeps key route_ (hlift (settleSend traceID p merchant row latency sent) attached) (create_post t) s.
Proof.
  unfold hlift. apply wp_pbind. unfold settleSend. apply wp_pbind.
  assert (Hout : reads (outcome p sent)).
  { unfold outcome. destruct sent as [resp|e]; [|destruct (SendFailureStatus e); apply reads_Ret].
    apply reads_pbind; [apply verify_reads|]. intros []; [apply reads_Ret|]. case_if; apply reads_Ret. }
  eapply wp_mono; [|apply Hout]. intros [txn b] ? ->. apply wp_pbind.
  eapply wp_mono; [|apply describe_reads]. intros txn' ? ->. apply wp_pbind.
  eapply wp_mono; [|apply adv_finalize_reads]. intros [a|e] ? ->; cbn; [done|]. by right; left.
Qed.

(** The send's failures before the write leave a reservation that can be given back. *)
Lemma markSending_keeps held id p t (Q : result error () * string → phase → Prop) :
  held = Some (mkReservation key route_ t) → rrn p ≠ "" →
  Q (Ok (), rrn p) (Attached t) →
  (∀ e rrn s, may_release s t → Q (Err e, rrn) s) →
  keeps key route_ (hcatch (markSending held id p)
    (λ err, hlift (r <-- releaseClaim p; Ret (Err (default [] (Join (Some err) (error_of r)))))) "") Q (Holding t).
Proof.
  intros -> Hrrn HO HE. unfold hcatch. apply wp_pbind.
  assert (Hrel : ∀ err rrn s, may_release s t →
    keeps key route_ (hlift (r <-- releaseClaim p; Ret (Err (default [] (Join (Some err) (error_of r))))) rrn) Q s).
  { intros err rrn0 s Hs. unfold hlift. apply wp_pbind, wp_pbind.
    eapply wp_mono; [|apply releaseClaim_reads]. intros r ? ->. cbn. by apply HE. }
  unfold markSending. apply keeps_hbind, attach_rrn_keeps; [done| |intros e; apply Hrel; by right; right].
  unfold hlift. apply wp_pbind. unfold transition.
  eapply wp_mono; [|apply reads_bindE; [by apply reads_db|intros; by apply reads_db]].
  intros [[]|e] s' ->; [exact HO|]. apply Hrel. by right; left.
Qed.

Lemma sendAndRecord_keeps p merchant t :
  rrn p ≠ "" →
  keeps key route_ (sendAndRecord traceID (Some (mkReservation key route_ t)) p merchant "") (create_post t) (Holding t).
Proof.
  intros Hr. unfold sendAndRecord.
  apply keeps_hlift; [apply insert_reads| |intros e; apply fail_early; by left]. intros id.
  apply keeps_hbind, markSending_keeps; [done|done| |intros e rrn s Hs; by apply fail_early].
  apply keeps_heff; [done|]. intros start. apply (keeps_heff_send _ _ t); [by left|]. intros sent.
  apply keeps_heff; [done|]. intros stop. apply settleSend_keeps.
Qed.

Lemma send_keeps_adv p t :
  rrn p ≠ "" →
  keeps key route_ (send traceID (Some (mkReservation key route_ t)) p "") (create_post t) (Holding t).
Proof.
  intros Hr. unfold send. apply keeps_hlift; [apply finalizeFields_reads| |intros e; apply fail_early; by left].
  intros [merchant f]. apply keeps_hbind.
  assert (Hb : ∀ (txn : AdvTransaction) rrn s, keeps key route_
    (hbind (heff (EBroadcast (BroadcastAdvTransaction eventCreated txn))) (λ _, hret txn) rrn) (create_post t) s)
    by (intros; by apply keeps_heff).
  cbn [linkUp with_params]. destruct (negb (linkUp p)).
  - apply hlift_reads; [apply recordLinkDown_reads|]. intros [txn|e]; [apply Hb|apply fail_early; by left].
  - eapply wp_mono; [|by apply sendAndRecord_keeps]. intros [[txn|e] rrn'] s Hs; [apply Hb|exact Hs].
Qed.

Lemma withCard_keeps card k t :
  (∀ c masked stan up now rrn, rrn ≠ "" →
     keeps key route_ (k c masked stan up now rrn "") (create_post t) (Holding t)) →
  keeps key route_ (withCard cardTokens card k "") (create_post t) (Holding t).
Proof.
  intros Hk. unfold withCard. destruct (Resolve cardTokens (a_CardToken card)) as [c|];
    [|apply fail_early; by left].
  apply keeps_hlift; [apply reads_pbind; [apply nextSTAN_reads|intros; apply reads_Ret]| |intros e; apply fail_early; by left].
  intros [stan up]. apply keeps_heff; [done|]. intros now. apply Hk, BuildRRN_nonempty.
Qed.

Lemma createCompletion_keeps original req t :
  keeps key route_ (createCompletion traceID original req (Some (mkReservation key route_ t)) "") (create_post t) (Holding t).
Proof.
  unfold createCompletion. apply keeps_hlift; [by apply reads_db| |intros e; apply fail_early; by left].
  intros preAuth. repeat (case_if; [apply fail_early; by left|]).
  apply keeps_hlift; [apply reads_pbind; [apply nextSTAN_reads|intros; apply reads_Ret]| |intros e; apply fail_early; by left].
  intros [stan up]. apply keeps_heff; [done|]. intros now. apply send_keeps_adv, BuildRRN_nonempty.
Qed.

Lemma adv_fromLog_reads rrn : reads (fromLog rrn).
Proof. unfold fromLog. eauto with reads. Qed.
End keeps.

(** The four entry points, as one. *)
Inductive adv_request :=
  | APreAuth (r : PreAuthRequest) | ARefund (r : RefundRequest)
  | ABalance (r : BalanceInquiryRequest) | ACompletion (original : string) (r : CompletionRequest).

Definition adv_route (r : adv_request) : string :=
  match r with
  | APreAuth _ => routePreAuth | ARefund _ => routeRefund
  | ABalance _ => routeBalance | ACompletion _ _ => routeCompletion
  end.

Section create.
Context {H : Module_} {C : Calendar} {SQ : SAFQueuer} (cardTokens : CardTokenRegistry)
        (marshal_txn : AdvTransaction → string) (unmarshal_txn : string → option AdvTransaction)
        (hashRequest : hashed → string) (traceID : string).

Definition Create (r : adv_request) (key : string) : progE AdvTransaction :=
  match r with
  | APreAuth r => CreatePreAuth cardTokens marshal_txn unmarshal_txn hashRequest traceID r key
  | ARefund r => CreateRefund cardTokens marshal_txn unmarshal_txn hashRequest traceID r key
  | ABalance r => CreateBalanceInquiry cardTokens marshal_txn unmarshal_txn hashRequest traceID r key
  | ACompletion original r => CreateCompletion marshal_txn unmarshal_txn hashRequest traceID original r key
  end.

Lemma Create_keeps r key :
  keeps key (adv_route r) (Create r key) (λ _ _, True) NoKey.
Proof.
  destruct r; unfold Create, CreatePreAuth, CreateRefund, CreateBalanceInquiry, CreateCompletion, idempotent;
    (apply (Idempotent_keeps _ _ (mkIdemKey key _ _ _)); [|intros f rrn [= <-]; apply adv_fromLog_reads]); intros t;
    unfold createPreAuth, createRefund, createBalanceInquiry;
    first [apply createCompletion_keeps|apply withCard_keeps; intros; by apply send_keeps_adv].
Qed.
End create.
