(* ===== verification/AdvOutcome.v ===== *)
(** * AdvOutcome: no pre-authorization, completion or refund that may have reached the issuer is forgotten

    What Outcome.v shows of purchases, for the transactions of AdvTxn.v: a pre-authorization or refund
    of unknown outcome is reversed, a completion repeated, a balance inquiry owes nothing. *)

From S2P Require Import Prelude Digits Codec Mux KeyStore Mac Calendar Mask Store Journey Prog Idempotency Advice Purchase.
From S2P Require Import Stage Outcome AdvTxn.
Local Open Scope Z_scope.
Local Open Scope prog_scope.

Definition adv_flow (txnType mti : string) : flow :=
  mkFlow txnType mti (responseMTI mti) (λ rc, String.eqb rc "00" || String.eqb rc rcPartialApproval) false.

(** What a request puts in its message is what its row says of it. *)
Definition named (p : sendParams) (f : fieldmap) : Prop :=
  f !! 7 = Some (format_DE7 UTC (sentAt p)) ∧ f !! 11 = Some (stan p) ∧
  f !! 37 = Some (if String.eqb (txnType p) tranTypeCompletion then originalRRN p else rrn p) ∧
  (txnType p ≠ tranTypeBalance → f !! 4 = Some (Sprintf0d 12 (Amount (requestedAmt p)))).

Section hcatch.
Context (I : DB * list (string * fieldmap) * list (result error fieldmap) → Prop).

Lemma runs_hcatch {A} (p : hprog A) (h : error → hprog A) rrn Q w :
  runs I (p rrn) (λ r w, match r with
                         | (Ok a, rrn) => Q (Ok a, rrn) w
                         | (Err e, rrn) => runs I (h e rrn) Q w
                         end) w →
  runs I (hcatch p h rrn) Q w.
Proof.
  intros Hp. unfold hcatch. apply runs_pbind. eapply runs_mono; [|exact Hp].
  intros [[a|e] rrn'] s' Hi Hs; [by apply runs_Ret|exact Hs].
Qed.
End hcatch.

(** ** After the send *)

Section follow.
Context {H : Module_} {C : Calendar} {SQ : SAFQueuer} (traceID : string) (p : sendParams).
Context (zak : string) (keys : KeyTable) (sends0 : list (string * fieldmap)) (ans0 : list (result error fieldmap)).

Abbreviation flow_ := (adv_flow (txnType p) (mti p)).
Abbreviation safe := (safe flow_ zak keys sends0 ans0).
Abbreviation unsent := (unsent zak keys sends0 ans0).
Abbreviation after_send := (after_send flow_ zak keys sends0 ans0).
Abbreviation at_stage := (at_stage flow_).
Abbreviation decided := (decided flow_ zak keys ans0).

Lemma outcome_runs id fields sent rc w (Q : AdvTransaction * bool → World → Prop) :
  last_answer (answers w) = Some sent → w_zak w = zak → w_keys w = keys →
  after_send id fields statusSent rc w →
  (∀ txn b w', after_send id fields statusSent rc w' → decided (y_Status txn) (y_ResponseCode txn) (answers w') →
     Q (txn, b) w') →
  runs safe (outcome p sent) Q w.
Proof.
  intros Hlast Hz Hk Ha HQ. pose proof (after_send_safe _ _ _ _ _ _ _ _ _ _ Ha) as Hs.
  destruct sent as [resp|e]; cbn [outcome].
  - apply runs_pbind, verify_runs; [done|]. intros b w' Hq Hb.
    destruct (after_send_quietly _ _ _ _ _ _ _ _ _ _ _ Ha Hq) as [Ha' Hans].
    pose proof (after_send_safe _ _ _ _ _ _ _ _ _ _ Ha') as Hs'. rewrite <- Hans in Hlast.
    destruct b; [|destruct (String.eqb (txnType p) tranTypeCompletion) eqn:Hc]; (apply runs_Ret; [done|]);
      apply HQ; try done; (split; [|]).
    + cbn. by repeat case_if.
    + right; right. intros r Hst Hrc. left; left. exists resp. rewrite Hst, Hrc, <- Hz, <- Hk.
      split_and!; [done|by apply Hb|done|]. cbn. by repeat case_if.
    + done.
    + left. split; [done|]. apply String.eqb_eq in Hc. cbn. by rewrite Hc.
    + done.
    + right; left. split_and!; [done|done| |by exists resp]. by apply String.eqb_neq in Hc.
  - unfold SendFailureStatus. destruct (errors_Is e ErrNotSignedOn) eqn:He; (apply runs_Ret; [done|]); apply HQ; try done.
    + split; [done|]. right; right. intros r Hst Hrc. eapply refused_last; [apply Ha|exact Hlast|exact He|done|done].
    + split; [done|]. left. split; [done|]. by exists e.
Qed.

Lemma recordStatus_after id fields txn rc w (Q : string * option error → World → Prop) :
  after_send id fields statusSent rc w → decided (y_Status txn) (y_ResponseCode txn) (answers w) →
  (∀ r st' rc' w', st' = statusSent ∨ st' = y_Status txn → after_send id fields st' rc' w' → Q r w') →
  runs safe (recordStatus id txn) Q w.
Proof.
  intros Ha Hd HQ. eapply UpdateStatusFrom_runs; [exact Ha|exact Hd| |].
  - intros e st' rc' w' Hst Ha' _. apply runs_Ret; [by eapply after_send_safe|by eapply HQ].
  - intros w' Ha' _. eapply db_after_send; [exact Ha'| |].
    + intros n r d Hr. by eapply stage_RecordStateTransition in Hr as [_ Hr]; [|apply Ha'].
    + intros r w2 Ha2 _. apply runs_Ret; [by eapply after_send_safe|]. eapply HQ; [by right|done].
Qed.

Lemma recordAmounts_after id fields txn st rc w (Q : result error () → World → Prop) :
  after_send id fields st rc w → (∀ r w', after_send id fields st rc w' → Q r w') →
  runs safe (recordAmounts id txn) Q w.
Proof.
  intros Ha HQ. pose proof (after_send_safe _ _ _ _ _ _ _ _ _ _ Ha) as Hs.
  assert (Hu : ∀ a b, runs safe (db (QUpdateAmounts id a b)) Q w).
  { intros a b. eapply db_after_send; [exact Ha| |].
    - intros n r d Hr. by eapply stage_UpdateAmounts in Hr as [_ Hr]; [|apply Ha].
    - intros r w2 Ha2 _. apply runs_Ret; [by eapply after_send_safe|by apply HQ]. }
  unfold recordAmounts. destruct (y_ApprovedAmount txn), (y_Balance txn); try apply Hu.
  apply runs_Ret; [done|by apply HQ].
Qed.

Lemma releaseClaim_after id fields st rc w (Q : result error () → World → Prop) :
  after_send id fields st rc w → (∀ r w', safe (visible w') → Q r w') → runs safe (releaseClaim p) Q w.
Proof.
  intros Ha HQ. pose proof (after_send_safe _ _ _ _ _ _ _ _ _ _ Ha) as Hs. unfold releaseClaim.
  case_if; [apply runs_Ret; [done|by apply HQ]|]. eapply db_after_send; [exact Ha| |].
  - intros n r d Hr. by eapply stage_ReleaseCompletion in Hr as [_ Hr]; [|apply Ha].
  - intros r w2 Ha2 _. apply after_send_safe in Ha2. apply runs_Ret; [done|by apply HQ].
Qed.

Lemma answer_with_safe txn err w (Q : result error AdvTransaction → World → Prop) :
  safe (visible w) → (∀ r w', safe (visible w') → Q r w') → runs safe (answer_with txn err) Q w.
Proof. intros Hs HQ. unfold answer_with. destruct err; (apply runs_Ret; [done|by apply HQ]). Qed.

Lemma deliverOwed_runs row fields txn b current err st rc w (Q : result error AdvTransaction → World → Prop) :
  st = statusSent ∨ st = y_Status txn → after_send (ID row) fields st rc w →
  (∀ r w', safe (visible w') → Q r w') →
  runs safe (deliverOwed p row current txn b err) Q w.
Proof.
  intros Hst Ha HQ. pose proof (after_send_safe _ _ _ _ _ _ _ _ _ _ Ha) as Hs. unfold deliverOwed.
  destruct (String.eqb_spec (txnType p) tranTypeBalance) as [|Hnb]; [by apply answer_with_safe|]. case_if.
  { apply runs_pbind. eapply releaseClaim_after; [exact Ha|]. intros r w' Hs'. by apply answer_with_safe. }
  destruct (String.eqb (txnType p) tranTypeCompletion && String.eqb (y_Status txn) statusTimedOut) eqn:Hc.
  - apply andb_true_iff in Hc as [Hty Hto]. apply String.eqb_eq in Hty, Hto. apply runs_pbind.
    eapply (advice_after_send flow_); [exact Hty| |exact Ha|]; [by rewrite <- Hto|].
    intros [[]|e] w' Hs'; [by apply answer_with_safe|]. apply runs_Ret; [done|by apply HQ].
  - unfold reverseIfOwed. case_if; [by apply answer_with_safe|]. apply runs_pbind.
    eapply queue_after_send; [exact Hnb| |exact Ha|]; [done|].
    intros [[]|e] w' Hs'; [by apply answer_with_safe|]. apply runs_Ret; [done|by apply HQ].
Qed.

Lemma settle_after merchant row fields latency sent rc w attached (Q : result error AdvTransaction * string → World → Prop) :
  last_answer (answers w) = Some sent → w_zak w = zak → w_keys w = keys →
  after_send (ID row) fields statusSent rc w → (∀ r w', safe (visible w') → Q r w') →
  runs safe (hlift (settleSend traceID p merchant row latency sent) attached) Q w.
Proof.
  intros Hl Hz Hk Ha HQ. apply runs_pbind. unfold settleSend. apply runs_pbind.
  eapply outcome_runs; [done..|]. intros txn b w1 Ha1 Hd1. apply runs_pbind. unfold describe.
  apply runs_quiet; [done|by eapply after_send_safe|]. intros n w2 Hq.
  destruct (after_send_quietly _ _ _ _ _ _ _ _ _ _ _ Ha1 Hq) as [Ha2 Hans]. rewrite <- Hans in Hd1. clear Hq Ha1 Hans.
  apply runs_Ret; [by eapply after_send_safe|]. apply runs_pbind. unfold finalize. apply runs_pbind.
  set (txn' := set_latency _ _).
  assert (Hdone : ∀ r w, safe (visible w) → runs safe (Ret (afterSend r)) (λ a, runs safe (Ret (a, attached)) Q) w).
  { intros r w3 Hs3. apply runs_Ret, runs_Ret; [done..|by apply HQ]. }
  eapply (recordStatus_after _ _ txn'); [done..|]. intros [current err] st' rc' w3 Hst Ha3.
  destruct (is_moved err); [apply after_send_safe in Ha3; by apply runs_Ret, Hdone|].
  apply runs_pbind. eapply recordAmounts_after; [exact Ha3|]. intros r w4 Ha4.
  eapply deliverOwed_runs; [exact Hst|exact Ha4|]. intros r' w5 Hs5. by apply Hdone.
Qed.
End follow.

(** ** Before the send *)

Section before.
Context {H : Module_} {C : Calendar} {SQ : SAFQueuer} (traceID : string) (p : sendParams).
Context (zak : string) (keys : KeyTable) (sends0 : list (string * fieldmap)) (ans0 : list (result error fieldmap)).

Abbreviation flow_ := (adv_flow (txnType p) (mti p)).
Abbreviation safe := (safe flow_ zak keys sends0 ans0).
Abbreviation unsent := (unsent zak keys sends0 ans0).
Abbreviation after_send := (after_send flow_ zak keys sends0 ans0).
Abbreviation at_stage := (at_stage flow_).

Lemma insert_after merchant n d id d' :
  db_ok d → merchants d !! MID merchant ≠ None → named p (fields p) →
  (if negb (String.eqb (txnType p) tranTypeCompletion) then insertTranLog n (sentRow traceID p merchant) d
   else InsertCompletion n (sentRow traceID p merchant) (originalRRN p) d) = (Ok id, d') →
  at_stage id (fields p) statusCreated "" d'.
Proof.
  intros Hok Hm (H7 & H11 & H37 & H4) Hq.
  assert (Hrec : records flow_ (sentRow traceID p merchant) (fields p)) by (exists (sentAt p); by split_and!).
  destruct (negb _); [by eapply stage_insert in Hq|]. unfold InsertCompletion in Hq.
  destruct (existsb _ _); [|done].
  destruct (insertTranLog n _ (set_tran d _)) as [[id'|e] d2] eqn:E; [|done]. injection Hq as <- <-.
  eapply stage_insert in E; [exact E| |exact Hm|exact Hrec]. destruct Hok. by split.
Qed.

Lemma insert_runs merchant (Q : result error Z → World → Prop) w :
  unsent w → db_ok (w_db w) → merchants (w_db w) !! MID merchant ≠ None → named p (fields p) →
  (∀ e w', unsent w' → Q (Err e) w') →
  (∀ id w', unsent w' → at_stage id (fields p) statusCreated "" (w_db w') → Q (Ok id) w') →
  runs safe (insert_ p (sentRow traceID p merchant)) Q w.
Proof.
  intros Hu Hok Hm Hn HE HQ. pose proof (insert_after merchant) as Hi. unfold insert_.
  destruct (negb _); (apply db_unsent; [done|intros e n d; by apply HE, unsent_later|]);
    intros n a d Hq; (apply HQ; [by apply unsent_later|]); by eapply Hi.
Qed.

Lemma markSending_runs held id attached (Q : result error () * string → World → Prop) w :
  unsent w → at_stage id (fields p) statusCreated "" (w_db w) →
  (∀ e rrn w', unsent w' → Q (Err e, rrn) w') →
  (∀ rrn w', unsent w' → at_stage id (fields p) statusSent "" (w_db w') → Q (Ok (), rrn) w') →
  runs safe (markSending held id p attached) Q w.
Proof.
  intros Hu Hst HE HQ. unfold markSending. apply runs_hbind, attach_rrn_runs; [done|].
  intros [[[]|e] rrn0] n d Ht Hs Hm; [|by apply HE, unsent_later]. pose proof (unsent_later _ _ _ _ w n d Hu) as Hu1.
  assert (Hst1 : at_stage id (fields p) statusCreated "" d) by (by eapply stage_same).
  unfold hlift. apply runs_pbind. unfold transition. apply runs_bindE, db_unsent; [done| |].
  { intros e n1 d1. apply runs_Ret; [by apply unsent_safe, unsent_later|by apply HE, unsent_later]. }
  intros n1 [] d1 Hq1. cbn [exec_query] in Hq1.
  eapply stage_UpdateStatus in Hq1 as [_ Hst2]; [|exact Hst1|done].
  pose proof (unsent_later _ _ _ _ _ n1 d1 Hu1) as Hu2. apply db_unsent; [done| |].
  { intros e n2 d2. apply runs_Ret; [by apply unsent_safe, unsent_later|by apply HE, unsent_later]. }
  intros n2 [] d2 Hq2. cbn [exec_query] in Hq2.
  eapply stage_RecordStateTransition in Hq2 as [_ Hst3]; [|exact Hst2].
  apply runs_Ret; [by apply unsent_safe, unsent_later|by apply HQ, Hst3; apply unsent_later].
Qed.

Lemma releaseClaim_before w (Q : result error () → World → Prop) :
  unsent w → (∀ r w', unsent w' → Q r w') → runs safe (releaseClaim p) Q w.
Proof.
  intros Hu HQ. unfold releaseClaim. case_if; [apply runs_Ret; [by apply unsent_safe|by apply HQ]|].
  apply db_unsent; [done|intros e n d|intros n a d _]; by apply HQ, unsent_later.
Qed.

Lemma sendAndRecord_runs held merchant w (Q : result error AdvTransaction * string → World → Prop) :
  unsent w → db_ok (w_db w) → merchants (w_db w) !! MID merchant ≠ None → named p (fields p) →
  (∀ r w', safe (visible w') → Q r w') →
  runs safe (sendAndRecord traceID held p merchant "") Q w.
Proof.
  intros Hu Hok Hm Hn HQ. assert (HE : ∀ r w', unsent w' → Q r w') by (intros; by apply HQ, unsent_safe).
  unfold sendAndRecord. apply runs_hlift, insert_runs; [done|done|done|done|by intros; apply HE|].
  intros id w1 Hu1 Hst1. apply runs_hbind, runs_hcatch, markSending_runs; [done|done| |].
  { intros e rrn0 w2 Hu2. unfold hlift. apply runs_pbind, runs_pbind, releaseClaim_before; [done|].
    intros r w3 Hu3. apply runs_Ret; [by apply unsent_safe|]. apply runs_Ret; [by apply unsent_safe|]. by apply HE. }
  intros rrn0 w2 Hu2 Hst2. apply heff_unsent; [done|done|]. intros start w3 Hu3 Hd3.
  apply runs_send; [by apply unsent_safe|]. intros r w4 Hv4 Hz4 Hk4. destruct Hu3 as [Hs3 Ha3 Hz3 Hk3].
  rewrite Hd3, Hs3, Ha3 in Hv4.
  destruct (sent_stage flow_ zak keys sends0 ans0 id (fields p) "" w2 w4 r _ _ Hst2 Hv4) as [Has4 Hl4]; [left; by exists r|].
  apply runs_heff_quiet; [done|by eapply after_send_safe|]. intros stop w5 Hq5.
  destruct (after_send_quietly _ _ _ _ _ _ _ _ _ _ _ Has4 Hq5) as [Has5 Ha5]. destruct Hq5 as [_ Hz5 Hk5].
  eapply (settle_after _ _ _ _ _ _ merchant (set_ID (sentRow traceID p merchant) id)); [by rewrite Ha5|congruence..|exact Has5|done].
Qed.
End before.

(** ** The entry points *)

Section create.
Context {H : Module_} {C : Calendar} {SQ : SAFQueuer} (cardTokens : CardTokenRegistry).
Context (marshal_txn : AdvTransaction → string) (unmarshal_txn : string → option AdvTransaction)
        (hashRequest : hashed → string) (traceID : string).
Context (zak : string) (keys : KeyTable) (sends0 : list (string * fieldmap)) (ans0 : list (result error fieldmap)).

Abbreviation unsent := (unsent zak keys sends0 ans0).

(** What [finalizeFields] leaves of the message. *)
Lemma finalizeFields_runs p w (Q : result error (Merchant * fieldmap) → World → Prop) :
  let safe := safe (adv_flow (txnType p) (mti p)) zak keys sends0 ans0 in
  unsent w → (∀ e w', unsent w' → Q (Err e) w') →
  (∀ merchant f w', unsent w' → w_db w' = w_db w → merchants (w_db w) !! MID merchant ≠ None →
     (∀ n, n ≠ 15 → n ≠ 42 → n ≠ 64 → f !! n = fields p !! n) → Q (Ok (merchant, f)) w') →
  runs safe (finalizeFields p) Q w.
Proof.
  intros safe Hu HE HQ. unfold finalizeFields. apply runs_bindE, db_unsent; [done|intros; by apply HE, unsent_later|].
  intros n merchant d Hq. cbn [exec_query] in Hq. apply GetMerchant_known in Hq as [-> Hm].
  pose proof (unsent_later _ _ _ _ w n (w_db w) Hu) as Hu1. apply runs_bindE. unfold attach.
  apply runs_quiet; [done|by apply unsent_safe|]. intros z w2 Hq.
  destruct (unsent_quietly _ _ _ _ _ _ Hu1 Hq) as [Hu2 Hd2]. clear Hq.
  match goal with |- context [attachMAC z (mti p) ?f0] => set (f := f0) end.
  destruct (attachMAC z (mti p) f) as [f'|e] eqn:Ea; (apply runs_Ret; [by apply unsent_safe|]); [|by apply HE].
  apply runs_Ret; [by apply unsent_safe|]. apply HQ; [done|done|done|]. intros k H15 H42 H64.
  unfold attachMAC in Ea. invert_ok. rewrite lookup_insert_ne by done. unfold f.
  case_match; by rewrite ?lookup_insert_ne by done.
Qed.

Lemma adv_send_runs p held w (Q : result error AdvTransaction * string → World → Prop) :
  let safe := safe (adv_flow (txnType p) (mti p)) zak keys sends0 ans0 in
  unsent w → db_ok (w_db w) → named p (fields p) → (∀ r w', safe (visible w') → Q r w') →
  runs safe (send traceID held p "") Q w.
Proof.
  intros safe Hu Hok Hn HQ. assert (HE : ∀ r w', unsent w' → Q r w') by (intros; by apply HQ, unsent_safe).
  unfold send. apply runs_hlift, (finalizeFields_runs (with_params p _ _)); [done|intros; by apply HE|].
  intros merchant f w1 Hu1 Hd1 Hm Hf. rewrite <- Hd1 in Hok, Hm. apply runs_hbind.
  assert (Hb : ∀ (r : result error AdvTransaction * string) w, safe (visible w) →
    match r with
    | (Ok txn, rrn) => runs safe (hbind (heff (EBroadcast (BroadcastAdvTransaction eventCreated txn)))
                                        (λ _, hret txn) rrn) Q w
    | (Err e, rrn) => Q (Err e, rrn) w
    end).
  { intros [[txn|e] rrn0] w2 Hs; [|by apply HQ]. apply heff_safe; [done|done|]. intros _ w3 Hs3.
    apply runs_Ret; [done|by apply HQ]. }
  cbn [linkUp with_params]. destruct (negb (linkUp p)).
  - unfold hlift. apply runs_pbind. unfold recordLinkDown, describe.
    apply runs_pbind, runs_pbind, runs_quiet; [done|by apply unsent_safe|]. intros now w2 Hq.
    destruct (unsent_quietly _ _ _ _ _ _ Hu1 Hq) as [Hu2 _]. apply runs_Ret; [by apply unsent_safe|].
    apply runs_Ret; [by apply unsent_safe|]. apply runs_bindE, db_unsent; [done| |].
    + intros e n d. apply runs_Ret; [by apply unsent_safe, unsent_later|]. by apply HE, unsent_later.
    + intros n a d _. apply runs_Ret; [by apply unsent_safe, unsent_later|].
      apply runs_Ret; [by apply unsent_safe, unsent_later|]. by apply (Hb (Ok _, _)), unsent_safe, unsent_later.
  - match goal with |- runs _ (sendAndRecord _ _ ?q _ _) _ _ =>
      apply (sendAndRecord_runs traceID q zak keys sends0 ans0); [done|done|done| |exact Hb] end.
    destruct Hn as (H7 & H11 & H37 & H4). unfold named. cbn [fields with_params sentAt stan txnType originalRRN rrn requestedAmt].
    rewrite !Hf by done. by split_and!.
Qed.

(** *** The four requests *)

Definition adv_type (r : adv_request) : string :=
  match r with
  | APreAuth _ => tranTypePreAuth | ARefund _ => tranTypeRefund
  | ABalance _ => tranTypeBalance | ACompletion _ _ => tranTypeCompletion
  end.

Definition adv_mti (r : adv_request) : string :=
  match r with APreAuth _ => "0100" | ARefund _ | ABalance _ => "0200" | ACompletion _ _ => "0220" end.

Section request.
Context (typ mti_ : string).

Abbreviation safe := (safe (adv_flow typ mti_) zak keys sends0 ans0).

Lemma stan_now_runs {A} (k : string → bool → time → hprog A) w (Q : result error A * string → World → Prop) :
  unsent w → db_ok (w_db w) →
  (∀ stan up now w', unsent w' → w_db w' = w_db w → runs safe (k stan up now "") Q w') →
  runs safe (hbind (hlift (r <-- nextSTAN; retE r)) (λ su, let '(stan, up) := su in
             hbind (heff ENow) (λ now, k stan up now)) "") Q w.
Proof.
  intros Hu Hok Hk. apply runs_hlift, runs_pbind. unfold nextSTAN.
  assert (Hgo : ∀ s up w1, unsent w1 → w_db w1 = w_db w →
    runs safe (retE (s, up)) (λ r w, match r with
      | Ok (s, up) => runs safe (hbind (heff ENow) (λ now, k s up now) "") Q w
      | Err e => Q (Err e, "") w
      end) w1).
  { intros s up w1 Hu1 Hd1. apply runs_Ret; [by apply unsent_safe|]. apply heff_unsent; [done|done|].
    intros now w2 Hu2 Hd2. apply Hk; [done|congruence]. }
  apply runs_quiet; [done|by apply unsent_safe|]. intros [s|] w1 Hq; destruct (unsent_quietly _ _ _ _ _ _ Hu Hq) as [Hu1 Hd1].
  - apply runs_quiet; [done|by apply unsent_safe|]. intros [] w2 Hq2;
      destruct (unsent_quietly _ _ _ _ _ _ Hu1 Hq2) as [Hu2 Hd2];
      (apply runs_Ret; [by apply unsent_safe|]); apply Hgo; congruence.
  - apply runs_Ret; [by apply unsent_safe|]. by apply Hgo.
Qed.

Lemma withCard_runs card k w (Q : result error AdvTransaction * string → World → Prop) :
  unsent w → db_ok (w_db w) → (∀ r w', safe (visible w') → Q r w') →
  (∀ c masked stan up now rrn w', unsent w' → db_ok (w_db w') → runs safe (k c masked stan up now rrn "") Q w') →
  runs safe (withCard cardTokens card k "") Q w.
Proof.
  intros Hu Hok HQ Hk. unfold withCard. destruct (Resolve cardTokens (a_CardToken card)) as [c|].
  - apply (stan_now_runs (λ stan up now, k c (MaskPAN (PAN c)) stan up now (BuildRRN now stan))); [done|done|].
    intros stan up now w' Hu' Hd. apply Hk; [done|by rewrite Hd].
  - apply runs_Ret; [by apply unsent_safe|]. by apply HQ, unsent_safe.
Qed.

End request.

Lemma create_runs req held w (Q : result error AdvTransaction * string → World → Prop) :
  unsent w → db_ok (w_db w) → (∀ r w', safe (adv_flow (adv_type req) (adv_mti req)) zak keys sends0 ans0 (visible w') → Q r w') →
  runs (safe (adv_flow (adv_type req) (adv_mti req)) zak keys sends0 ans0) (match req with
             | APreAuth r => createPreAuth cardTokens traceID r held
             | ARefund r => createRefund cardTokens traceID r held
             | ABalance r => createBalanceInquiry cardTokens traceID r held
             | ACompletion original r => createCompletion traceID original r held
             end "") Q w.
Proof.
  intros Hu Hok HQ. destruct req as [r|r|r|original r].
  1-3: unfold createPreAuth, createRefund, createBalanceInquiry; (apply withCard_runs; [done..|]);
    intros c masked stan up now rrn w' Hu' Hok'; (apply (adv_send_runs (mkParams _ _ _ _ _ _ _ _ _ _ _ _ _ _ _)); [done..| |done]);
    by split_and!.
  unfold createCompletion. apply hdb_unsent; [done|intros; by apply HQ, unsent_safe|].
  intros n preAuth d Hq. pose proof (unsent_later _ _ _ _ w n d Hu) as Hu1.
  assert (Hd : d = w_db w) by (cbn [exec_query] in Hq; unfold GetTran in Hq; by repeat case_match; simplify_eq).
  rewrite <- Hd in Hok.
  repeat (case_if; [apply runs_Ret; [by apply unsent_safe|by apply HQ, unsent_safe]|]).
  apply (stan_now_runs _ _ (λ stan up now, send traceID held _)); [done|done|].
  intros stan up now w' Hu' Hd'. apply (adv_send_runs (completionParams original preAuth r stan up now)); [done|by rewrite Hd'| |done].
  by split_and!.
Qed.

Lemma adv_fromLog_calm rrn : calm (fromLog rrn).
Proof. split; [done|]. by intros [?|?]. Qed.

Lemma Create_runs req key w :
  let safe := safe (adv_flow (adv_type req) (adv_mti req)) zak keys sends0 ans0 in
  unsent w → db_ok (w_db w) →
  runs safe (Create cardTokens marshal_txn unmarshal_txn hashRequest traceID req key) (λ _ w', safe (visible w')) w.
Proof.
  intros safe Hu Hok. pose proof (create_runs req) as Hc. destruct req; (apply Idempotent_safe;
    [apply adv_fromLog_calm|intros held w1 Hu1 Hok1; by apply (Hc held)|done|done]).
Qed.
End create.

(** C6. An advanced transaction that may be at the issuer is never forgotten.  Whatever fails or is
    lost during a [CreatePreAuth], [CreateRefund], [CreateCompletion] or [CreateBalanceInquiry], and
    wherever the gateway stops, either nothing was sent, or exactly one message was, and its row is in
    tran_log under the DE 37, STAN, DE 7 and amount that were sent and: it carries the outcome of an
    authentic response (APPROVED for RC 00 and the partial approval 10, DECLINED otherwise), or the
    send was refused before the write (DECLINED, RC 91), or a 0420 for it is in the queue and it is
    REVERSAL_PENDING, or it is a TIMED_OUT completion whose 0220 is in the queue to be repeated, or
    [FindOrphans] will find it.  A balance inquiry holds no money and is not reversed: one that got no
    answer is TIMED_OUT, one whose answer is not authentic is DECLINED with RC 96, and nothing is
    queued for it. *)
Theorem no_advanced_txn_is_forgotten {H : Module_} {C : Calendar} {SQ : SAFQueuer} cardTokens marshal_txn
    unmarshal_txn hashRequest traceID req key n cs w :
  db_ok (w_db w) →
  let stopped := crash n (Create cardTokens marshal_txn unmarshal_txn hashRequest traceID req key) cs w in
  (sends_of stopped = sends_of w) ∨
  ∃ id fields, sends_of stopped = sends_of w ++ [(adv_mti req, fields)] ∧
    covered (adv_flow (adv_type req) (adv_mti req)) (w_zak w) (w_keys w) (answers w) (w_db stopped) id fields (answers stopped).
Proof.
  intros Hok stopped.
  pose proof (runs_crash _ _ _ w n cs (Create_runs cardTokens marshal_txn unmarshal_txn hashRequest traceID
    (w_zak w) (w_keys w) (sends_of w) (answers w) req key w ltac:(by split) Hok)) as Hs.
  destruct Hs as [[Hs _]|(id & fields & [(r & Hs & _)|[? _]] & Hc)]; [by left| |done]. right. by exists id, fields.
Qed.

(** ** A pre-authorization and its completion *)

Definition demo_create (req : adv_request) (key : string) : progE AdvTransaction :=
  @Create demo_module demo_calendar demo_queuer demo_cards y_RRN (λ _, None) (λ _, "") "" req key.

Definition demo_hold : adv_request :=
  APreAuth (mkPreAuth (mkCardPresent "TERM0001" "tok-1" "CHIP_NO_PIN" "" "") (mkMoney 150000 "704")).

(** What the issuer answers, MACed under the ZAK. *)
Definition demo_approval (mti : string) : fieldmap :=
  match @attachMAC demo_module vector_zak mti {[ 7 := "0921000000"; 11 := "000124"; 38 := "A1B2C3"; 39 := "00" ]} with
  | Ok f => f
  | Err _ => ∅
  end.

Definition demo_held : World := (run (demo_create demo_hold "hold-1") (repeat (answering (demo_approval "0110")) 20) demo_world).2.

Definition demo_hold_rrn : string := "626407000123".
Definition demo_capture : adv_request := ACompletion demo_hold_rrn (mkCompletion (mkMoney 150000 "704")).

Example demo_hold_approved :
  (λ r, (Status r, RRN r, CompletedBy r)) <$> (map_to_list (tran (w_db demo_held))).*2 = [("APPROVED", demo_hold_rrn, "")].
Proof. vm_compute. reflexivity. Qed.

Lemma demo_held_ok : db_ok (w_db demo_held).
Proof. split; intros sid s; vm_compute; discriminate. Qed.

(** Unanswered, the completion is covered by its repeat. *)
Lemma no_advanced_txn_is_forgotten_witness :
  let stopped := crash 40 (demo_create demo_capture "capture-1") [] demo_held in
  length (sends_of stopped) = 2%nat ∧
  ((sends_of stopped = sends_of demo_held) ∨
   ∃ id fields, sends_of stopped = sends_of demo_held ++ [("0220", fields)] ∧
     @covered demo_module (adv_flow "COMPLETION" "0220") vector_zak empty_table (answers demo_held) (w_db stopped) id fields (answers stopped)).
Proof.
  split; [vm_compute; reflexivity|].
  exact (@no_advanced_txn_is_forgotten demo_module demo_calendar demo_queuer demo_cards y_RRN (λ _, None) (λ _, "") ""
           demo_capture "capture-1" 40 [] demo_held demo_held_ok).
Defined.
