(* ===== verification/Saf.v ===== *)
(** * Saf: delivering advices until the issuer has recorded them, and sweeping up orphans

    [gateway-go/internal/saf]: worker.go and sweeper.go. *)

From S2P Require Import Prelude Digits Codec Net Mux KeyStore Mac Calendar Mask Store Journey Prog Idempotency Advice.
From S2P Require Import Purchase Stage Outcome.
Local Open Scope Z_scope.
Local Open Scope prog_scope.

(** ** worker.go *)

Definition claimBatchSize : nat := 50.
Definition acknowledged : string := "00".
Definition issuerNotSignedOn : string := "91".
Definition sendTimeout : duration := 30 * Second.
Definition claimLease : duration := 2 * sendTimeout.

(** [err.Error()]: the texts of the chain. *)
Definition sentinel_text (s : sentinel) : string :=
  match s with
  | errNoLiveLink => "no live issuer link to allocate a STAN on"
  | ErrNotSignedOn => "link is not signed on"
  | errNeverSent => "transaction was never sent to the issuer"
  | ErrDatabase => "database error"
  | ErrOther text => text
  | _ => "error"
  end.
Fixpoint Error (e : error) : string :=
  match e with
  | [] => ""
  | [s] => sentinel_text s
  | s :: e => sentinel_text s +:+ ": " +:+ Error e
  end.

Definition Quote (s : string) : string := String "034"%char (s +:+ String "034"%char "").

(** The answer to an advice. *)
Definition responseMTI (mti : string) : string := str_take 2 mti +:+ "30".

Definition not_acknowledged (mti rc : string) : error :=
  [ErrOther (str_take 3 mti +:+ "0 not acknowledged: DE 39 " +:+ Quote rc)].

Definition with_fields (a : advice) (f : fieldmap) : advice := mkAdvice f (CardToken_ a).

Section worker.
Context {H : Module_} {J : AdviceJSON} (cards : CardTokenRegistry) (encKey : string) (backoff : Backoff).

(** [backoff.Delay]: [Net.Delay] with the draw asked of the environment. *)
Definition delay (attempt : Z) : prog duration :=
  let c := ceiling backoff attempt in
  if c <=? 0 then Ret 0 else trigger (ERand c).

Definition waitForLink (row : SafRow) (why : error) : progE () :=
  now <-- trigger ENow;
  d <-- delay (Z.max (Attempts row) 1);
  db (QMarkInFlight (s_id row) (Attempts row) (now + d) (Error why)).

Definition retryLater (row : SafRow) (sendErr : error) : progE () :=
  let attempts := Attempts row + 1 in
  if MaxAttempts row <=? attempts then db (QMarkDead (s_id row) (Error sendErr))
  else
    now <-- trigger ENow;
    d <-- delay attempts;
    db (QMarkInFlight (s_id row) attempts (now + d) (Error sendErr)).

(** The worker's port is the announcer of cmd/gateway/main.go: once an acknowledgement is committed, the
    hub is told of the transaction; a failed announcement is only logged. *)
Definition announceAck (id : Z) : prog () :=
  pbind (λ _, Ret ()) (rrn <-! db (QTranRRN id); BroadcastUpdate rrn).

Definition MarkAckedAnnounced (id : Z) : progE () :=
  db (QMarkAcked id) ;;! (u <-- announceAck id; retE ()).

Definition settle (row : SafRow) (mti : string) (resp : fieldmap) : progE () :=
  let rc := get resp 39 in
  if String.eqb rc issuerNotSignedOn then waitForLink row (not_acknowledged mti issuerNotSignedOn)
  else if negb (String.eqb rc acknowledged) then retryLater row (not_acknowledged mti rc)
  else
    let respMTI := responseMTI mti in
    good <-- verify respMTI resp;
    if (good : bool) then MarkAckedAnnounced (s_id row)
    else retryLater row [ErrOther (respMTI +:+ " MAC verification failed")].

Definition assignNetworkIdentity (id : Z) (adv : advice) : progE advice :=
  if negb (String.eqb (get (Fields adv) 11) "") then retE adv
  else
    stan <-- trigger ENextSTAN;
    match stan with
    | None => failE [errNoLiveLink]
    | Some stan =>
        now <-- trigger ENow;
        let adv := with_fields adv (<[7 := format_DE7 UTC now]> (<[11 := stan]> (Fields adv))) in
        payload <-! seal encKey adv;
        db (QUpdatePayload id payload) ;;!
        retE adv
    end.

(** DE 128 when a field above 64 sets the secondary bitmap. *)
Definition macField (f : fieldmap) : Z :=
  if existsb (λ n, 64 <? n) (keys f) then 128 else 64.

Definition HasPrefix (s prefix : string) : bool := String.eqb (str_take (slen prefix) s) prefix.

Definition frameWith (zak mti : string) (adv : advice) : result error fieldmap :=
  let field := macField (Fields adv) in
  match (if HasPrefix mti "022" then Some (Fields adv)
         else pan ← PAN_of cards (CardToken_ adv); Some (<[2 := pan]> (Fields adv))) with
  | None => Err [ErrOther ("unknown card token " +:+ Quote (CardToken_ adv) +:+ ": cannot build DE 2")]
  | Some f =>
      match Pack mti f with
      | Err _ => Err [ErrOther "pack for MAC"]
      | Ok packed =>
          match ComputeMAC packed zak with
          | Err _ => Err [ErrOther "compute MAC"]
          | Ok mac => Ok (<[field := ToUpper (EncodeToString mac)]> f)
          end
      end
  end.

(** The ZAK is read per send. *)
Definition frame (mti : string) (adv : advice) : progE fieldmap :=
  zak <-- trigger EActiveZAK; Ret (frameWith zak mti adv).

(** The first send is the original MTI; with a STAN assigned it is an x21 repeat. *)
Definition attemptMTI (row : SafRow) (adv : advice) : string :=
  if negb (String.eqb (get (Fields adv) 11) "") then str_take 3 (s_mti row) +:+ "1" else s_mti row.

Definition sendFrame (row : SafRow) (mti : string) (f : fieldmap) : progE () :=
  resp <-- trigger (ESend mti f);
  match resp with
  | Err e => if errors_Is e ErrNotSignedOn then waitForLink row e else retryLater row e
  | Ok resp => settle row mti resp
  end.

Definition deliverRow (row : SafRow) : progE () :=
  match decodePayload encKey (Payload row) with
  | Err e => failE e
  | Ok adv =>
      let mti := attemptMTI row adv in
      identified <-- assignNetworkIdentity (s_id row) adv;
      match identified with
      | Err e => if errors_Is e errNoLiveLink then waitForLink row e else failE e
      | Ok adv =>
          f <-- frame mti adv;
          match f with
          | Err e => db (QMarkDead (s_id row) (Error e))
          | Ok f => sendFrame row mti f
          end
      end
  end.

Fixpoint deliverAll (rows : list SafRow) : prog () :=
  match rows with
  | [] => Ret ()
  | row :: rows => pbind (λ _, deliverAll rows) (deliverRow row)
  end.

(** An error is logged and the row comes back when its lease runs out. *)
Definition deliverOnce : prog () :=
  due <-- db (QClaimDue claimBatchSize claimLease);
  match due with
  | Err _ => Ret ()
  | Ok due => deliverAll due
  end.
End worker.

(** ** sweeper.go *)

Definition sweepBatch : nat := 50.
Definition mtiCompletion : string := "0220".

Definition completionAdvice (row : TranLogRow) : fieldmap :=
  list_to_map
    [(15, originalDE15 row);
     (3, ProcessingCode row);
     (4, Sprintf0d 12 (tAmount row));
     (7, format_DE7 UTC (default zero_time (SentAt row)));
     (11, NetworkSTAN row);
     (32, acquirerID);
     (37, OriginalRRN row);
     (41, TerminalID row);
     (42, MerchantID row);
     (49, tCurrency row)].

Section sweeper.
Context {SQ : SAFQueuer} (age : duration).

(** What a TIMED_OUT row is owed. *)
Definition owe (row : TranLogRow) : progE () :=
  if String.eqb (Type_ row) "BALANCE" then retE ()
  else if String.eqb (Type_ row) "COMPLETION" then
    if String.eqb (OriginalRRN row) "" then retE ()
    else q_QueueAdvice (ID row) mtiCompletion (completionAdvice row)
  else q_Queue row reasonTimeout.

Definition followUp (row : TranLogRow) : progE () :=
  if String.eqb (Status row) statusDeclined then q_Queue row reasonMacFailure
  else if negb (String.eqb (Status row) statusTimedOut) then
    moved <-! db (QMarkTimedOut (ID row));
    if (moved : bool) then owe (set_state row statusTimedOut) else retE ()
  else owe row.

(** Every orphan is attempted; their errors are joined. *)
Fixpoint followAll (rows : list TranLogRow) (errs : error) : progE () :=
  match rows with
  | [] => match errs with [] => retE () | _ => failE errs end
  | row :: rows =>
      pbind (λ r : result error (), followAll rows (match r with Ok _ => errs | Err e => errors_Join errs e end))
            (followUp row)
  end.

Definition SweepOnce : progE () :=
  now <-- trigger ENow;
  orphans <-! db (QFindOrphans (now - age) sweepBatch);
  followAll orphans [].
End sweeper.

(** ** What one delivery does *)

Lemma NextSTAN_text c :
  0 ≤ c → c + 1 < 2 ^ 63 → (NextSTAN c).2 ≠ "" ∧ ascii_text (NextSTAN c).2 = true.
Proof.
  intros H0 H1. rewrite NextSTAN_eq by done. cbn [snd]. split.
  - intros He. apply (f_equal String.length) in He. by rewrite slen_dec in He.
  - apply str_forall_digit_ascii, dec_digits.
Qed.

(** The queue row [r], whatever else happened to the database. *)
Definition queue_row (d : DB) (id : Z) (r : SafRow) : Prop := saf d !! id = Some r.

Lemma update_saf_row d id r f : queue_row d id r → queue_row (update_saf id f d) id (f r).
Proof. unfold queue_row, update_saf. intros ->. apply lookup_insert_eq. Qed.

Lemma update_tran_saf id wh f d : saf (update_tran id wh f d).2 = saf d.
Proof. unfold update_tran. repeat case_match; done. Qed.

Lemma MarkAcked_row d id r n : queue_row d id r → queue_row (MarkAcked n id d).2 id (ack n r).
Proof.
  intros Hr. unfold MarkAcked. rewrite Hr. cbn [snd]. apply (update_saf_row d id r (ack n)) in Hr.
  assert (Hfin : ∀ tran_id from to f, queue_row (finishOnAck n tran_id from to f (update_saf id (ack n) d)) id (ack n r)).
  { intros tran_id from to f. unfold finishOnAck.
    pose proof (update_tran_saf tran_id (λ r, String.eqb (Status r) from) f (update_saf id (ack n) d)) as Hs.
    destruct (update_tran _ _ _ _) as [[|m] d']; [done|]. cbn [snd] in Hs. unfold queue_row. cbn. by rewrite Hs. }
  repeat case_if; auto.
Qed.

(** ** The loops of the worker and the sweeper *)

(** [true] is a tick and [false] the end of the context, which alone ends the loop. *)
Fixpoint ticking (round : prog ()) (ticks : list bool) : prog bool :=
  match ticks with
  | [] => Ret false                                   (* still running *)
  | false :: _ => Ret true
  | true :: ticks => pbind (λ _, ticking round ticks) round
  end.

Definition Worker_Run {H : Module_} {J : AdviceJSON} (cards : CardTokenRegistry) (encKey : string) (backoff : Backoff)
    (ticks : list bool) : prog bool := ticking (deliverOnce cards encKey backoff) ticks.

(** An error of a sweep is logged and the next tick tries again. *)
Definition Sweeper_Run {SQ : SAFQueuer} (age : duration) (ticks : list bool) : prog bool :=
  ticking (pbind (λ _, Ret ()) (SweepOnce age)) ticks.

Lemma ticking_runs I round ticks w :
  (∀ w, I (visible w) → runs I round (λ _ w', I (visible w')) w) → I (visible w) →
  runs I (ticking round ticks) (λ over w', I (visible w') ∧ over = existsb negb ticks) w.
Proof.
  intros Hr. revert w. induction ticks as [|[] ticks IH]; intros w Hi; cbn [ticking existsb negb orb]; [by apply runs_Ret| |by apply runs_Ret].
  apply runs_pbind. eapply runs_mono; [|by apply Hr]. intros u w' _ Hi'. by apply IH.
Qed.

(** A query that only reads. *)
Lemma runs_read I {A B} (q : query A) (k : result error A → prog B) Q w :
  (∀ n d, (exec_query q n d).2 = d) → I (visible w) → (∀ r w', quietly w w' → runs I (k r) Q w') →
  runs I (Vis (EDb q) k) Q w.
Proof.
  intros Hq Hi Hk. apply runs_db; [done|]. intros f n _.
  apply (exec_db_cases q f n (w_db w) (λ r d, runs I (k r) Q (later w n d))); [by apply Hk|].
  intros r d He. specialize (Hq n (w_db w)). rewrite He in Hq. cbn in Hq. subst d. split; by apply Hk.
Qed.

(** The announcement changes nothing but what the hub was told. *)
Lemma announceAck_runs I {A} id (k : () → prog A) Q w :
  I (visible w) → (∀ w', quietly w w' → runs I (k ()) Q w') → runs I (pbind k (announceAck id)) Q w.
Proof.
  intros Hi Hk. unfold announceAck. apply runs_pbind, runs_pbind, runs_bindE. apply runs_read; [|done|].
  { intros n d. cbn [exec_query]. unfold TranRRN. by repeat case_match. }
  intros [rrn|e] w1 Hq1; (apply runs_Ret; [by destruct Hq1 as [-> _ _]|]).
  2: { apply runs_Ret; [by destruct Hq1 as [-> _ _]|]. by apply Hk. }
  unfold BroadcastUpdate. apply runs_bindE, runs_read; [|by destruct Hq1 as [-> _ _]|].
  { intros n d. cbn [exec_query]. unfold GetTran. by case_match. }
  intros [row|e] w2 Hq2; pose proof (quietly_trans _ _ _ Hq1 Hq2) as Hq; pose proof (qt_visible _ _ Hq) as Hv;
    (apply runs_Ret; [by rewrite Hv|]).
  2: { apply runs_Ret; [by rewrite Hv|]. by apply Hk. }
  apply runs_quiet; [done|by rewrite Hv|]. intros u w3 Hq3. pose proof (quietly_trans _ _ _ Hq Hq3) as [Hv3 Hz3 Hk3].
  repeat (apply runs_Ret; [by rewrite Hv3|]). by apply Hk.
Qed.

(** The issuer's answers that are the link's, not the advice's. *)
Definition link_refused (r : result error fieldmap) : bool :=
  match r with
  | Err e => errors_Is e ErrNotSignedOn
  | Ok resp => String.eqb (get resp 39) issuerNotSignedOn
  end.

Section delivery.
Context {H : Module_} {J : AdviceJSON} (cards : CardTokenRegistry) (encKey : string) (backoff : Backoff).
Context (zak : string) (keys : KeyTable) (sends0 : list (string * fieldmap)) (ans0 : list (result error fieldmap)).
Context (row : SafRow) (adv : advice).

Abbreviation id := (s_id row).
Abbreviation mti := (attemptMTI row adv).

(** The same advice, with the network identity it keeps for good. *)
Definition identified (adv' : advice) : Prop :=
  (get (Fields adv) 11 ≠ "" ∧ adv' = adv) ∨
  (get (Fields adv) 11 = "" ∧ get (Fields adv') 11 ≠ "" ∧ CardToken_ adv' = CardToken_ adv ∧
   ∀ n, n ≠ 7 → n ≠ 11 → Fields adv' !! n = Fields adv !! n).

Definition of_row (r : SafRow) : Prop :=
  TranID r = TranID row ∧ s_mti r = s_mti row ∧ MaxAttempts r = MaxAttempts row.

(** What a frame adds to its advice. *)
Definition frame_of (adv' : advice) (f : fieldmap) : Prop :=
  ∀ n, n ≠ 2 → n ≠ 64 → n ≠ 128 → f !! n = Fields adv' !! n.

(** What the row says after the answer [resp]. *)
Definition verdict (resp : result error fieldmap) (r : SafRow) : Prop :=
  (s_status r = s_status row ∧ Attempts r = Attempts row) ∨
  (s_status r = sInFlight ∧ Attempts r = if link_refused resp then Attempts row else Attempts row + 1) ∨
  (s_status r = sDead ∧ Attempts r = Attempts row ∧ link_refused resp = false ∧ MaxAttempts row ≤ Attempts row + 1) ∨
  (s_status r = sAcked ∧ Attempts r = Attempts row ∧ ∃ fs, resp = Ok fs ∧ get fs 39 = acknowledged ∧ authentic zak keys (responseMTI mti) fs).

Inductive delivered : DB * list (string * fieldmap) * list (result error fieldmap) → Prop :=
  | D_unsent d r :
      queue_row d id r → of_row r → Attempts r = Attempts row →
      (s_status r = s_status row ∨ s_status r = sInFlight ∨
       (s_status r = sDead ∧ ∃ adv' e, identified adv' ∧ frameWith cards zak mti adv' = Err e)) →
      delivered (d, sends0, ans0)
  | D_sent d r adv' f resp :
      queue_row d id r → of_row r → identified adv' → decodePayload encKey (Payload r) = Ok adv' →
      frame_of adv' f → verdict resp r →
      delivered (d, sends0 ++ [(mti, f)], ans0 ++ [resp]).

Lemma delivered_cases d s a :
  delivered (d, s, a) →
  (s = sends0 ∧ a = ans0 ∧ ∃ r, queue_row d id r ∧ Attempts r = Attempts row ∧
     (s_status r = s_status row ∨ s_status r = sInFlight ∨
      (s_status r = sDead ∧ ∃ adv' e, identified adv' ∧ frameWith cards zak mti adv' = Err e))) ∨
  (∃ r adv' f resp, s = sends0 ++ [(mti, f)] ∧ a = ans0 ++ [resp] ∧ queue_row d id r ∧ identified adv' ∧
     decodePayload encKey (Payload r) = Ok adv' ∧ frame_of adv' f ∧ verdict resp r).
Proof.
  inversion 1; [left|right]; [split_and!; [done..|]|]; eexists; [by split_and!|].
  eexists _, _, _. by split_and!.
Qed.

Abbreviation runs_to := (λ p w, runs delivered p (λ _ w', delivered (visible w')) w).

(** One call on the row. *)
Lemma queue_call (q : query ()) (g : time → SafRow → SafRow) r w :
  (∀ n d, queue_row d id r → queue_row (exec_query q n d).2 id (g n r)) →
  queue_row (w_db w) id r → delivered (visible w) →
  (∀ n d, queue_row d id (g n r) → delivered (d, sends_of w, answers w)) →
  runs_to (db q) w.
Proof.
  intros Hg Hr Hi Hd. apply runs_db; [done|]. intros f n _.
  apply (exec_db_cases q f n (w_db w) (λ r d, runs delivered (Ret r) (λ _ w', delivered (visible w')) (later w n d))).
  - by apply runs_Ret.
  - intros a d Hq. specialize (Hg n (w_db w) Hr). rewrite Hq in Hg.
    split; (apply runs_Ret; by eapply Hd).
Qed.

Lemma reschedule_call attempts at_ e r w :
  queue_row (w_db w) id r → delivered (visible w) →
  (∀ d at_, queue_row d id (reschedule r sInFlight attempts at_ (Error e)) → delivered (d, sends_of w, answers w)) →
  runs_to (db (QMarkInFlight id attempts at_ (Error e))) w.
Proof.
  intros Hr Hi Hd. apply (queue_call _ (λ _ r, reschedule r sInFlight attempts at_ (Error e)) r); [|done|done|].
  - intros n d Hq. exact (update_saf_row d id r (λ r, reschedule r sInFlight attempts at_ (Error e)) Hq).
  - intros n d Hq. by eapply Hd.
Qed.

Lemma delivered_quietly w w' : quietly w w' → delivered (visible w) → delivered (visible w').
Proof. intros [-> _ _]. done. Qed.

Lemma delay_runs {A} attempt (k : duration → prog A) (Q : A → World → Prop) w :
  delivered (visible w) → (∀ d w', quietly w w' → runs delivered (k d) Q w') →
  runs delivered (pbind k (delay backoff attempt)) Q w.
Proof.
  intros Hi Hk. unfold delay. destruct (_ <=? 0); [apply Hk, quietly_refl|].
  apply runs_quiet; [done|done|]. intros r w' Hq. by apply Hk.
Qed.

(** Waiting, then rescheduling with [attempts]. *)
Lemma later_call attempts n e r w :
  queue_row (w_db w) id r → delivered (visible w) →
  (∀ d at_, queue_row d id (reschedule r sInFlight n at_ (Error e)) → delivered (d, sends_of w, answers w)) →
  runs_to (now <-- trigger ENow; d <-- delay backoff attempts; db (QMarkInFlight id n (now + d) (Error e))) w.
Proof.
  intros Hr Hi Hd. apply runs_quiet; [done|done|]. intros now w1 Hq1.
  apply delay_runs; [by eapply delivered_quietly|]. intros dl w2 Hq2.
  assert (Hq : quietly w w2) by (by eapply quietly_trans).
  pose proof (delivered_quietly _ _ Hq Hi) as Hi2. destruct Hq as [Hv _ _].
  unfold visible in Hv. injection Hv as Hd2 Hs2 Ha2.
  apply (reschedule_call _ _ _ r); [by rewrite Hd2|done|]. rewrite Hs2, Ha2. exact Hd.
Qed.

(** The row after the send, and what the verdict may still change. *)
Record sent_row (adv' : advice) (f : fieldmap) (resp : result error fieldmap) (r : SafRow) (w : World) : Prop := {
  sn_row : queue_row (w_db w) id r; sn_of : of_row r; sn_id : identified adv';
  sn_payload : decodePayload encKey (Payload r) = Ok adv'; sn_frame : frame_of adv' f;
  sn_status : s_status r = s_status row; sn_attempts : Attempts r = Attempts row;
  sn_sends : sends_of w = sends0 ++ [(mti, f)]; sn_ans : answers w = ans0 ++ [resp]
}.

Lemma sent_row_delivered adv' f resp r w : sent_row adv' f resp r w → delivered (visible w).
Proof.
  intros []. unfold visible. rewrite sn_sends0, sn_ans0. eapply D_sent; [done..|]. by left.
Qed.

(** A verdict that keeps the payload. *)
Lemma sent_row_judged adv' f resp r w r' d :
  sent_row adv' f resp r w → queue_row d id r' → TranID r' = TranID r → s_mti r' = s_mti r →
  MaxAttempts r' = MaxAttempts r → Payload r' = Payload r → verdict resp r' →
  delivered (d, sends_of w, answers w).
Proof.
  intros [] Hq Ht Hm Hmax Hp Hv. rewrite sn_sends0, sn_ans0. destruct sn_of0 as (? & ? & ?).
  eapply D_sent; [exact Hq|split_and!; congruence|done|by rewrite Hp|done|done].
Qed.

Lemma waitForLink_runs adv' f resp r why w :
  sent_row adv' f resp r w → link_refused resp = true → runs_to (waitForLink backoff row why) w.
Proof.
  intros Hs Hl. unfold waitForLink. apply (later_call _ _ why r); [by destruct Hs|by eapply sent_row_delivered|].
  intros d at_ Hd. eapply sent_row_judged; [exact Hs|exact Hd|done..|].
  right; left. by rewrite Hl.
Qed.

Lemma retryLater_runs adv' f resp r why w :
  sent_row adv' f resp r w → link_refused resp = false → runs_to (retryLater backoff row why) w.
Proof.
  intros Hs Hl. unfold retryLater. pose proof (sent_row_delivered _ _ _ _ _ Hs) as Hi.
  destruct (MaxAttempts row <=? Attempts row + 1) eqn:Em.
  - apply Z.leb_le in Em.
    apply (queue_call _ (λ _ r, reschedule r sDead (Attempts r) (NextRetryAt r) (Error why)) r);
      [|by destruct Hs|done|].
    + intros n d Hq. exact (update_saf_row d id r (λ r, reschedule r sDead (Attempts r) (NextRetryAt r) (Error why)) Hq).
    + intros n d Hd. eapply sent_row_judged; [exact Hs|exact Hd|done..|]. right; right; left.
      destruct Hs. by split_and!.
  - apply (later_call _ _ why r); [by destruct Hs|done|].
    intros d at_ Hd. eapply sent_row_judged; [exact Hs|exact Hd|done..|].
    right; left. by rewrite Hl.
Qed.

Lemma sent_row_quietly adv' f resp r w w' : quietly w w' → sent_row adv' f resp r w → sent_row adv' f resp r w'.
Proof.
  intros [Hv _ _] []. unfold visible in Hv. injection Hv as Hd Hs Ha. split; by rewrite ?Hd, ?Hs, ?Ha.
Qed.

Lemma settle_delivery adv' f resp r w :
  w_zak w = zak → w_keys w = keys →
  sent_row adv' f (Ok resp) r w → runs_to (settle backoff row mti resp) w.
Proof.
  intros Hz Hk Hs. unfold settle. destruct (String.eqb (get resp 39) issuerNotSignedOn) eqn:E91.
  { by eapply waitForLink_runs. }
  destruct (String.eqb (get resp 39) acknowledged) eqn:E00; cbn [negb]; [|by eapply retryLater_runs].
  apply runs_pbind, verify_runs; [by eapply sent_row_delivered|]. intros b w' Hq Hb.
  pose proof (sent_row_quietly _ _ _ _ _ _ Hq Hs) as Hs'. destruct b; [|by eapply retryLater_runs].
  apply runs_bindE.
  eapply runs_mono; [|apply (queue_call _ (λ n r, ack n r) r)];
    [|intros n d Hd; by apply MarkAcked_row|by destruct Hs'|by eapply sent_row_delivered|].
  - intros [u|e] w2 Hi2 Hd2; [|done]. apply announceAck_runs; [done|]. intros w3 [Hv3 _ _].
    by apply runs_Ret; rewrite Hv3.
  - intros n d Hd. eapply sent_row_judged; [exact Hs'|exact Hd|done..|].
    right; right; right. split; [done|]. split; [by destruct Hs'|]. exists resp. apply String.eqb_eq in E00.
    split_and!; [done|done|]. rewrite <- Hz, <- Hk. by apply Hb.
Qed.

Lemma frameWith_frame_of adv' f : frameWith cards zak mti adv' = Ok f → frame_of adv' f.
Proof.
  unfold frameWith, frame_of. set (base := if HasPrefix mti "022" then _ else _).
  destruct base as [f0|] eqn:Eb; [|done]. destruct (Pack mti f0) as [packed|]; [|done].
  destruct (ComputeMAC packed zak) as [mac|]; [|done]. intros [= <-] n H2 H64 H128.
  unfold macField. rewrite lookup_insert_ne by (case_if; congruence).
  unfold base in Eb. destruct (HasPrefix mti "022"); [by injection Eb as <-|].
  destruct (PAN_of cards (CardToken_ adv')); [|done]. injection Eb as <-. by rewrite lookup_insert_ne.
Qed.
(** Before the send. *)
Record unsent_row (r : SafRow) (w : World) : Prop := {
  us_row : queue_row (w_db w) id r; us_of : of_row r;
  us_status : s_status r = s_status row; us_attempts : Attempts r = Attempts row;
  us_sends : sends_of w = sends0; us_ans : answers w = ans0; us_zak : w_zak w = zak; us_keys : w_keys w = keys
}.

Lemma unsent_row_delivered r w : unsent_row r w → delivered (visible w).
Proof. intros []. unfold visible. rewrite us_sends0, us_ans0. eapply D_unsent; [done..|]. by left. Qed.

Lemma unsent_row_later r r' w n d :
  unsent_row r w → queue_row d id r' → of_row r' → s_status r' = s_status r → Attempts r' = Attempts r →
  unsent_row r' (later w n d).
Proof. intros [] Hq Ho Hs Ha. split; try done; cbn; congruence. Qed.

Lemma unsent_row_quietly r w w' : quietly w w' → unsent_row r w → unsent_row r w'.
Proof.
  intros [Hv Hz Hk] []. unfold visible in Hv. injection Hv as Hd Hs Ha. split; rewrite ?Hd, ?Hs, ?Ha; congruence.
Qed.

Lemma unsent_wait r why w : unsent_row r w → runs_to (waitForLink backoff row why) w.
Proof.
  intros Hu. unfold waitForLink. apply (later_call _ _ why r); [by destruct Hu|by eapply unsent_row_delivered|].
  intros d at_ Hd. destruct Hu. rewrite us_sends0, us_ans0. eapply D_unsent; [exact Hd|done|done|]. by right; left.
Qed.

Lemma sendFrame_runs adv' f r w :
  unsent_row r w → identified adv' → decodePayload encKey (Payload r) = Ok adv' → frame_of adv' f →
  runs_to (sendFrame backoff row mti f) w.
Proof.
  intros Hu Hid Hdec Hf. unfold sendFrame. apply runs_send; [by eapply unsent_row_delivered|].
  intros resp w' Hv Hz Hk. destruct Hu. unfold visible in Hv. injection Hv as Hd Hs Ha.
  assert (Hsent : sent_row adv' f resp r w') by (split; rewrite ?Hd, ?Hs, ?Ha; first [done|congruence]).
  destruct resp as [resp|e].
  - eapply settle_delivery; [congruence|congruence|exact Hsent].
  - destruct (errors_Is e ErrNotSignedOn) eqn:Ee; [by eapply waitForLink_runs|by eapply retryLater_runs].
Qed.

Lemma frame_runs adv' r w :
  unsent_row r w → identified adv' → decodePayload encKey (Payload r) = Ok adv' →
  runs_to (f <-- frame cards mti adv';
           match f with
           | Err e => db (QMarkDead id (Error e))
           | Ok f => sendFrame backoff row mti f
           end) w.
Proof.
  intros Hu Hid Hdec. unfold frame. apply runs_vis; [by eapply unsent_row_delivered|]. intros c.
  cbn [exec later w_zak pbind]. fold (later w (now w + Z.max 0 (c_tick c)) (w_db w)).
  assert (Hu' : unsent_row r (later w (now w + Z.max 0 (c_tick c)) (w_db w)))
    by (eapply unsent_row_later; [exact Hu|..]; by destruct Hu).
  rewrite (us_zak _ _ Hu). destruct (frameWith cards zak mti adv') as [f|e] eqn:Ef.
  - eapply sendFrame_runs; [exact Hu'|done|done|]. by eapply frameWith_frame_of.
  - apply (queue_call _ (λ _ r, reschedule r sDead (Attempts r) (NextRetryAt r) (Error e)) r);
      [|by destruct Hu'|by eapply unsent_row_delivered|].
    + intros n d Hq. exact (update_saf_row d id r (λ r, reschedule r sDead (Attempts r) (NextRetryAt r) (Error e)) Hq).
    + intros n d Hd. pose proof (us_sends _ _ Hu') as Hs. pose proof (us_ans _ _ Hu') as Ha.
      rewrite Hs, Ha. eapply D_unsent; [exact Hd|by destruct Hu|by destruct Hu|]. right; right. split; [done|].
      by exists adv', e.
Qed.

Lemma assign_runs w (Q : result error advice → World → Prop) :
  unsent_row row w → decodePayload encKey (Payload row) = Ok adv →
  (get (Fields adv) 11 = "" → ascii_advice adv) → 0 ≤ stan_counter w → stan_counter w + 1 < 2 ^ 63 →
  (∀ e r w', unsent_row r w' → Q (Err e) w') →
  (∀ adv' r w', unsent_row r w' → identified adv' → decodePayload encKey (Payload r) = Ok adv' → Q (Ok adv') w') →
  runs delivered (assignNetworkIdentity encKey id adv) Q w.
Proof.
  intros Hu Hdec Hascii Hc0 Hc1 HE HQ. unfold assignNetworkIdentity.
  destruct (String.eqb (get (Fields adv) 11) "") eqn:E11; cbn [negb].
  2: { apply runs_Ret; [by eapply unsent_row_delivered|]. apply String.eqb_neq in E11. eapply HQ; [done|by left|done]. }
  apply String.eqb_eq in E11. apply runs_vis; [by eapply unsent_row_delivered|]. intros c. cbn [exec later stan_counter].
  destruct (NextSTAN_text (stan_counter w) Hc0 Hc1) as [Hs1 Hs2].
  destruct (NextSTAN (stan_counter w)) as [m stan]. cbn [snd] in Hs1, Hs2.
  destruct (c_flag c); [|apply runs_Ret; [by eapply (unsent_row_delivered row); destruct Hu|apply (HE _ row); by destruct Hu]].
  apply runs_quiet; [done|by eapply (unsent_row_delivered row); destruct Hu|]. intros now w1 Hq1.
  assert (Hu1 : unsent_row row w1) by (eapply unsent_row_quietly; [exact Hq1|]; by destruct Hu).
  set (adv' := with_fields adv _).
  assert (Hid : identified adv').
  { right. split; [done|]. split; [|split; [done|]].
    - unfold get, adv'. cbn. rewrite lookup_insert_ne, lookup_insert_eq by done. exact Hs1.
    - intros n H7 H11. unfold adv'. cbn. by rewrite !lookup_insert_ne. }
  assert (Hascii' : ascii_advice adv').
  { destruct (Hascii E11) as [Ht Hf]. split; [exact Ht|]. cbn.
    by apply map_Forall_insert_2; [apply ascii_DE7|apply map_Forall_insert_2]. }
  apply runs_bindE, seal_runs; [by eapply unsent_row_delivered|]. intros n r Hn Hr.
  assert (Hu2 : unsent_row row (later w1 n (w_db w1))) by (eapply unsent_row_later; [exact Hu1|..]; by destruct Hu1).
  destruct r as [payload|e]; [|by eapply HE]. specialize (Hr payload eq_refl Hascii').
  apply runs_bindE, runs_db; [by eapply unsent_row_delivered|]. intros f n' _.
  apply (exec_db_cases _ f n' (w_db w1) (λ r d, runs delivered (Ret r) (λ r w, match r with
    | Ok _ => runs delivered (retE adv') Q w | Err e => Q (Err e) w end) (later w1 n' d))).
  - assert (Hu3 : unsent_row row (later w1 n' (w_db w1))) by (eapply unsent_row_later; [exact Hu1|..]; by destruct Hu1).
    apply runs_Ret; [by eapply unsent_row_delivered|by eapply HE].
  - intros r d Hq. cbn [exec_query] in Hq. unfold UpdatePayload in Hq. injection Hq as <- <-.
    assert (Hu3 : unsent_row (set_payload payload row) (later w1 n' (update_saf id (set_payload payload) (w_db w1)))).
    { eapply unsent_row_later; [exact Hu1|by apply update_saf_row; destruct Hu1|by destruct Hu1|done|done]. }
    pose proof (unsent_row_delivered _ _ Hu3) as Hi3.
    split; (apply runs_Ret; [exact Hi3|]); [apply runs_Ret; [exact Hi3|]; by eapply HQ|by eapply HE].
Qed.

Lemma deliverRow_runs w :
  unsent_row row w → decodePayload encKey (Payload row) = Ok adv →
  (get (Fields adv) 11 = "" → ascii_advice adv) → 0 ≤ stan_counter w → stan_counter w + 1 < 2 ^ 63 →
  runs_to (deliverRow cards encKey backoff row) w.
Proof.
  intros Hu Hdec Hascii Hc0 Hc1. unfold deliverRow. rewrite Hdec.
  apply runs_pbind, assign_runs; [done..| |].
  - intros e r w' Hu'. destruct (errors_Is e errNoLiveLink); [by eapply unsent_wait|].
    apply runs_Ret; by eapply unsent_row_delivered.
  - intros adv' r w' Hu' Hid Hdec'. by eapply frame_runs.
Qed.
End delivery.

(** A claimed row, and a STAN counter that has not run out. *)
Definition claimed (w : World) (row : SafRow) : Prop :=
  queue_row (w_db w) (s_id row) row ∧ 0 ≤ stan_counter w ∧ stan_counter w + 1 < 2 ^ 63.

Lemma deliverRow_delivered {H : Module_} {J : AdviceJSON} cards encKey backoff row adv n cs w :
  claimed w row → decodePayload encKey (Payload row) = Ok adv → (get (Fields adv) 11 = "" → ascii_advice adv) →
  delivered cards encKey (w_zak w) (w_keys w) (sends_of w) (answers w) row adv
    (visible (crash n (deliverRow cards encKey backoff row) cs w)).
Proof.
  intros (Hq & Hc0 & Hc1) Hdec Hascii.
  eapply runs_crash, deliverRow_runs; [|exact Hdec|done..]. by split.
Qed.

(** The row a run leaves is the one the run describes. *)
Lemma queue_row_eq d id r r' : queue_row d id r → queue_row d id r' → r = r'.
Proof. unfold queue_row. congruence. Qed.

Lemma snoc_sent {A} (l : list A) x : l ++ [x] ≠ l.
Proof. intros H. apply (f_equal length) in H. rewrite length_app in H. cbn in H. lia. Qed.

(** C9. An advice is acknowledged by the issuer alone.  Whatever happens to a delivery, and wherever
    it stops, the queue row becomes ACKED only when the delivery's one send was answered with DE 39
    "00" under a MAC that verifies with the gateway's keys, as the response MTI of what was sent. *)
Theorem advice_acked_only_by_issuer {H : Module_} {J : AdviceJSON} cards encKey backoff row adv n cs w r :
  claimed w row → decodePayload encKey (Payload row) = Ok adv → ascii_advice adv → s_status row ≠ sAcked →
  let stopped := crash n (deliverRow cards encKey backoff row) cs w in
  queue_row (w_db stopped) (s_id row) r → s_status r = sAcked →
  ∃ f resp, sends_of stopped = sends_of w ++ [(attemptMTI row adv, f)] ∧ answers stopped = answers w ++ [Ok resp] ∧
    get resp 39 = acknowledged ∧ authentic (w_zak w) (w_keys w) (responseMTI (attemptMTI row adv)) resp.
Proof.
  intros Hc Hdec Hascii Hno stopped Hr Hack.
  destruct (delivered_cases _ _ _ _ _ _ _ _ _ _ _
    (deliverRow_delivered cards encKey backoff row adv n cs w Hc Hdec (λ _, Hascii)))
    as [(_ & _ & r' & Hq & _ & Hst)|(r' & adv' & f & resp & Hs & Ha & Hq & _ & _ & _ & Hv)];
    pose proof (queue_row_eq _ _ _ _ Hq Hr); subst r'.
  - rewrite Hack in Hst. destruct Hst as [Hst|[Hst|[Hst _]]]; [by rewrite Hst in Hno|done|done].
  - unfold verdict in Hv. rewrite Hack in Hv.
    destruct Hv as [[Hv _]|[[Hv _]|[[Hv _]|(_ & _ & fs & -> & H00 & Hauth)]]]; [by rewrite Hv in Hno|done|done|].
    exists f, fs. by split_and!.
Qed.

(** C11. A repeat is the same message.  When a delivery sent a frame and the row is claimed again,
    however the first one ended, the next frame goes out as the x21 repeat of its MTI and agrees
    with the first on every data element but the PAN and the MAC: STAN and DE 7 included. *)
Theorem repeat_is_same_message {H : Module_} {J : AdviceJSON} cards encKey backoff row adv n cs w m f r row' n' cs' w' m' f' :
  claimed w row → decodePayload encKey (Payload row) = Ok adv → ascii_advice adv →
  let stopped := crash n (deliverRow cards encKey backoff row) cs w in
  sends_of stopped = sends_of w ++ [(m, f)] → queue_row (w_db stopped) (s_id row) r →
  claimed w' row' → Payload row' = Payload r → s_mti row' = s_mti row →
  let stopped' := crash n' (deliverRow cards encKey backoff row') cs' w' in
  sends_of stopped' = sends_of w' ++ [(m', f')] →
  m' = str_take 3 (s_mti row) +:+ "1" ∧ get f 11 ≠ "" ∧
  ∀ e, e ≠ 2 → e ≠ 64 → e ≠ 128 → f' !! e = f !! e.
Proof.
  intros Hc Hdec Hascii stopped Hs Hr Hc' Hpay Hmti stopped' Hs'.
  destruct (delivered_cases _ _ _ _ _ _ _ _ _ _ _
    (deliverRow_delivered cards encKey backoff row adv n cs w Hc Hdec (λ _, Hascii)))
    as [(Hs1 & _)|(r1 & adv1 & f1 & resp & Hs1 & _ & Hq & Hid & Hdec1 & Hf1 & _)]; fold stopped in Hs1;
    rewrite Hs in Hs1; [by apply snoc_sent in Hs1|].
  apply app_inv_head in Hs1. injection Hs1 as -> ->. pose proof (queue_row_eq _ _ _ _ Hq Hr). subst r1.
  assert (H11 : get (Fields adv1) 11 ≠ "") by (by destruct Hid as [[? ->]|(_ & ? & _)]).
  destruct (delivered_cases _ _ _ _ _ _ _ _ _ _ _
    (deliverRow_delivered cards encKey backoff row' adv1 n' cs' w' Hc' ltac:(by rewrite Hpay) ltac:(done)))
    as [(Hs2 & _)|(r2 & adv2 & f2 & resp' & Hs2 & _ & _ & Hid' & _ & Hf2 & _)]; fold stopped' in Hs2;
    rewrite Hs' in Hs2; [by apply snoc_sent in Hs2|].
  apply app_inv_head in Hs2. injection Hs2 as -> ->.
  destruct Hid' as [[_ ->]|(He & _)]; [|done]. split; [|split].
  - unfold attemptMTI. apply String.eqb_neq in H11. by rewrite H11, Hmti.
  - unfold get in *. by rewrite Hf1.
  - intros e H2 H64 H128. by rewrite Hf1, Hf2.
Qed.

(** C21. An outage never dead-letters an advice.  A delivery counts an attempt only for a send the
    issuer's side did not refuse as a link matter, and gives the row up only when such an attempt
    was the last allowed one, or when the advice can never be framed. *)
Theorem outage_never_dead_letters {H : Module_} {J : AdviceJSON} cards encKey backoff row adv n cs w r :
  claimed w row → decodePayload encKey (Payload row) = Ok adv → ascii_advice adv →
  let stopped := crash n (deliverRow cards encKey backoff row) cs w in
  queue_row (w_db stopped) (s_id row) r →
  let counted := ∃ resp, answers stopped = answers w ++ [resp] ∧ link_refused resp = false in
  (Attempts r = Attempts row ∨ (Attempts r = Attempts row + 1 ∧ counted)) ∧
  (s_status r = sDead → s_status row ≠ sDead →
   (MaxAttempts row ≤ Attempts row + 1 ∧ counted) ∨
   ∃ adv' e, identified adv adv' ∧ frameWith cards (w_zak w) (attemptMTI row adv) adv' = Err e).
Proof.
  intros Hc Hdec Hascii stopped Hr counted.
  destruct (delivered_cases _ _ _ _ _ _ _ _ _ _ _
    (deliverRow_delivered cards encKey backoff row adv n cs w Hc Hdec (λ _, Hascii)))
    as [(_ & _ & r' & Hq & Hatt & Hst)|(r' & adv' & f & resp & _ & Ha & Hq & _ & _ & _ & Hv)];
    pose proof (queue_row_eq _ _ _ _ Hq Hr); subst r'.
  - split; [by left|]. intros Hdead Hno.
    destruct Hst as [Hst|[Hst|[_ Hst]]]; [congruence|by rewrite Hst in Hdead|by right].
  - assert (Hcount : link_refused resp = false → counted) by (intros; by exists resp).
    destruct Hv as [[Hs Hat]|[[Hs Hat]|[(Hs & Hat & Hl & Hmax)|(Hs & Hat & _)]]].
    + split; [by left|]. intros Hdead. congruence.
    + split; [|by rewrite Hs]. destruct (link_refused resp); [by left|right; auto].
    + split; [by left|]. intros; left; auto.
    + split; [by left|]. by rewrite Hs.
Qed.

(** ** The sweeper *)

Definition owes_nothing (row : TranLogRow) : bool :=
  String.eqb (Type_ row) "BALANCE" || (String.eqb (Type_ row) "COMPLETION" && String.eqb (OriginalRRN row) "").

(** What an orphan ends as. *)
Definition followed (d : DB) (row : TranLogRow) : Prop :=
  (∃ r, tran d !! ID row = Some r ∧ Status r = statusReversalPending ∧ reversal_in_queue d (ID row)) ∨
  (Type_ row = "COMPLETION" ∧ ∃ sid s, saf d !! sid = Some s ∧ TranID s = ID row ∧ s_mti s = mtiCompletion) ∨
  (owes_nothing row = true ∧ ∃ r, tran d !! ID row = Some r ∧ Status r = statusTimedOut).

Definition orphaned (before : time) (d : DB) (row : TranLogRow) : Prop :=
  ∃ r, tran d !! ID row = Some r ∧ is_orphan d before r = true ∧ merchants d !! MerchantID r ≠ None.

(** A row the sweeper read, and the row of the table it is. *)
Definition swept (before : time) (d : DB) (row : TranLogRow) : Prop :=
  ∃ r name, tran d !! ID row = Some r ∧ ID r = ID row ∧ row = set_name r name ∧ has_saf d (ID row) = false ∧
    is_orphan d before r = true ∧ merchants d !! MerchantID r ≠ None.

Lemma swept_orphaned before d row : swept before d row → orphaned before d row.
Proof. intros (r & name & Hr & _ & _ & _ & Ho & Hm). by exists r. Qed.

Section sweep.
Context {SQ : SAFQueuer} (before : time) (row : TranLogRow).

Definition swept_well (v : DB * list (string * fieldmap) * list (result error fieldmap)) : Prop :=
  orphaned before v.1.1 row ∨ followed v.1.1 row.

(** A TIMED_OUT row, or the DECLINED one of a bad MAC, gets its reversal. *)
Lemma queue_follows t reason w :
  ID t = ID row → orphaned before (w_db w) row →
  runs swept_well (q_Queue t reason) (λ r w', swept_well (visible w') ∧ (is_ok r = true → followed (w_db w') row)) w.
Proof.
  intros Hid Ho. apply q_Queue_runs; [by left| |].
  - intros e n _. split; [by left|done].
  - intros n payload r d _ [_ _ Htran _ Hsaf _ _].
    assert (Hf : followed d row).
    { left. exists (set_reason (set_state r statusReversalPending) reason). rewrite Htran, <- Hid, lookup_insert_eq.
      split; [done|]. split; [done|]. exists (next_saf (w_db w)), (queued_row n (next_saf (w_db w)) (ID t) mtiReversalAdvice payload).
      rewrite Hsaf, lookup_insert_eq. by split_and!. }
    split; [by right|]. intros res. by split; [right|].
Qed.

Lemma advice_follows sent w :
  Type_ row = "COMPLETION" → orphaned before (w_db w) row →
  runs swept_well (q_QueueAdvice (ID row) mtiCompletion sent)
    (λ r w', swept_well (visible w') ∧ (is_ok r = true → followed (w_db w') row)) w.
Proof.
  intros Hty Ho. apply q_QueueAdvice_runs; [by left| |].
  - intros e n _. split; [by left|done].
  - intros n payload sid d _ Hq.
    destruct (insert_saf_spec _ _ _ _ _ _ _ Hq) as [(r & [= ->] & _ & _ & _ & Hs & _)|[? _]]; [|done].
    assert (Hf : followed d row).
    { right; left. split; [done|]. exists (next_saf (w_db w)), (queued_row n (next_saf (w_db w)) (ID row) mtiCompletion payload).
      rewrite Hs, lookup_insert_eq. by split_and!. }
    split; [by right|]. intros res. by split; [right|].
Qed.

Lemma owe_follows t w :
  ID t = ID row → Type_ t = Type_ row → OriginalRRN t = OriginalRRN row →
  (if owes_nothing row then followed (w_db w) row else orphaned before (w_db w) row) →
  runs swept_well (owe t) (λ r w', swept_well (visible w') ∧ (is_ok r = true → followed (w_db w') row)) w.
Proof.
  intros Hid Hty Hor Hst. unfold owe, owes_nothing in *. rewrite Hid, Hty, Hor.
  destruct (String.eqb (Type_ row) "BALANCE"); cbn [orb] in Hst.
  { apply runs_Ret; [by right|]. by split; [right|]. }
  destruct (String.eqb (Type_ row) "COMPLETION") eqn:Ec; cbn [andb] in Hst; [|by apply queue_follows].
  apply String.eqb_eq in Ec. destruct (String.eqb (OriginalRRN row) ""); [|by apply advice_follows].
  apply runs_Ret; [by right|]. by split; [right|].
Qed.

(** [MarkTimedOut] keeps a SENT row an orphan, or ends what owes nothing. *)
Lemma MarkTimedOut_swept n d b d' :
  swept before d row → Status row = statusSent → MarkTimedOut n (ID row) d = (Ok b, d') →
  b = true ∧ if owes_nothing row then (followed d' row ∧ orphaned before d row) else orphaned before d' row.
Proof.
  intros Hsw Hst. pose proof (swept_orphaned _ _ _ Hsw) as Hor.
  destruct Hsw as (r & name & Hr & Hid & Hrow & Hno & Ho & Hm).
  assert (Hst' : Status r = statusSent) by (by rewrite Hrow in Hst).
  unfold MarkTimedOut, update_tran. rewrite Hr, Hst'. cbn [String.eqb]. change (String.eqb statusSent statusSent) with true.
  cbn match. intros [= <- <-]. split; [done|].
  destruct (owes_nothing row) eqn:Eo.
  - split; [|done]. right; right. split; [done|]. exists (set_state r statusTimedOut). cbn.
    by rewrite lookup_insert_eq.
  - exists (set_state r statusTimedOut). cbn. rewrite lookup_insert_eq. split; [done|]. split; [|done].
    unfold is_orphan in *. change (SentAt (set_state r statusTimedOut)) with (SentAt r).
    apply andb_true_iff in Ho as [Hsent _]. rewrite Hsent. cbn [andb].
    change (Status (set_state r statusTimedOut)) with statusTimedOut.
    change (ID (set_state r statusTimedOut)) with (ID r). rewrite Hid.
    change (Type_ (set_state r statusTimedOut)) with (Type_ r).
    unfold has_saf in *. cbn [saf add_history set_tran]. rewrite Hno.
    unfold owes_nothing in Eo. apply orb_false_iff in Eo as [Eb _].
    replace (Type_ row) with (Type_ r) in Eb by (by rewrite Hrow). rewrite Eb. done.
Qed.

Lemma followUp_runs w :
  swept before (w_db w) row →
  runs swept_well (followUp row) (λ r w', swept_well (visible w') ∧ (is_ok r = true → followed (w_db w') row)) w.
Proof.
  intros Hsw. pose proof (swept_orphaned _ _ _ Hsw) as Hor. unfold followUp.
  destruct (String.eqb (Status row) statusDeclined) eqn:Ed; [by apply queue_follows|].
  destruct (String.eqb (Status row) statusTimedOut) eqn:Et; cbn [negb].
  - apply owe_follows; [done..|]. destruct (owes_nothing row) eqn:Eo; [|done].
    right; right. split; [done|]. destruct Hsw as (r & name & Hr & _ & Hrow & _). exists r. split; [done|].
    apply String.eqb_eq in Et. by rewrite Hrow in Et.
  - assert (Hst : Status row = statusSent).
    { destruct Hsw as (r & name & Hr & _ & Hrow & _ & Ho & _). rewrite Hrow in Ed, Et |- *. cbn in Ed, Et |- *.
      unfold is_orphan in Ho. rewrite Ed, Et in Ho. cbn [andb orb] in Ho. rewrite !orb_false_r in Ho.
      apply andb_true_iff in Ho as [_ Ho]. by apply String.eqb_eq. }
    apply runs_bindE, runs_db; [by left|]. intros f n _.
    apply (exec_db_cases _ f n (w_db w) (λ r d, runs swept_well (Ret r) (λ r w, match r with
      | Ok moved => runs swept_well (if (moved : bool) then owe (set_state row statusTimedOut) else retE ())
                      (λ r w', swept_well (visible w') ∧ (is_ok r = true → followed (w_db w') row)) w
      | Err e => swept_well (visible w) ∧ (is_ok (@Err error () e) = true → followed (w_db w) row)
      end) (later w n d))).
    + apply runs_Ret; [by left|]. by split; [left|].
    + intros r d Hq. cbn [exec_query] in Hq.
      assert (∃ b, r = Ok b) as [b ->] by (unfold MarkTimedOut in Hq; repeat case_match; simplify_eq; eauto).
      destruct (MarkTimedOut_swept n (w_db w) b d Hsw Hst Hq) as [-> Hd].
      assert (Hwell : swept_well (visible (later w n d))).
      { destruct (owes_nothing row); [right; apply Hd|by left]. }
      split; (apply runs_Ret; [done|]); [|done].
      apply owe_follows; [done..|]. destruct (owes_nothing row); [apply Hd|done].
Qed.
End sweep.

(** C14. Sweeping up loses nothing.  Whatever happens to [followUp] on a row that [FindOrphans] gave,
    and wherever it stops, the row is still an orphan for the next sweep or it has been followed up:
    REVERSAL_PENDING with its 0420 in the queue, a completion with its 0220 in the queue, or TIMED_OUT
    for what owes nothing; and it is followed up whenever [followUp] reports success. *)
Theorem sweep_loses_nothing {SQ : SAFQueuer} before row n cs w :
  swept before (w_db w) row →
  let stopped := crash n (followUp row) cs w in
  let '(r, w') := run (followUp row) cs w in
  (orphaned before (w_db stopped) row ∨ followed (w_db stopped) row) ∧
  (is_ok r = true → followed (w_db w') row).
Proof.
  intros Hsw stopped. pose proof (followUp_runs before row w Hsw) as H.
  pose proof (runs_run _ _ _ _ cs H) as Hrun. pose proof (runs_crash _ _ _ _ n cs H) as Hstop.
  destruct (run (followUp row) cs w) as [r w']. split; [exact Hstop|]. by apply Hrun.
Qed.

(** ** Witnesses: the reversal of Outcome's demo, delivered *)

Definition demo_queued : World := (run (demo_purchase "key-1") [] demo_world).2.
Definition no_row : SafRow := mkSaf 0 0 "" "" "" 0 0 0 "" 0 None.
Definition demo_row : SafRow := default no_row (saf (w_db demo_queued) !! 1).
Definition no_advice : advice := mkAdvice ∅ "".
Definition demo_adv : advice :=
  match @decodePayload demo_json "" (Payload demo_row) with Ok a => a | Err _ => no_advice end.
Definition demo_backoff : Backoff := mkBackoff Second (5 * Minute).
Definition demo_deliver (row : SafRow) : progE () := @deliverRow demo_module demo_json demo_cards "" demo_backoff row.

(** The issuer's 0430, MACed under the ZAK. *)
Definition demo_0430 : fieldmap :=
  match @attachMAC demo_module vector_zak "0430" {[ 7 := "0921000000"; 11 := "000124"; 39 := "00" ]} with
  | Ok f => f
  | Err _ => ∅
  end.
Definition demo_acked : World := crash 20 (demo_deliver demo_row) (repeat (answering demo_0430) 20) demo_queued.
Definition demo_unanswered : World := crash 20 (demo_deliver demo_row) [] demo_queued.

Lemma demo_claimed : claimed demo_queued demo_row.
Proof. split; [vm_compute; reflexivity|split; vm_compute; [discriminate|reflexivity]]. Qed.

Lemma demo_decoded : @decodePayload demo_json "" (Payload demo_row) = Ok demo_adv.
Proof. vm_compute. reflexivity. Qed.

Lemma demo_ascii : ascii_advice demo_adv.
Proof. split; [vm_compute; reflexivity|]. apply (bool_decide_unpack _). vm_compute. exact I. Qed.

Definition demo_acked_row : SafRow := default no_row (saf (w_db demo_acked) !! 1).
Definition demo_unanswered_row : SafRow := default no_row (saf (w_db demo_unanswered) !! 1).
Definition last_sent (w : World) : string * fieldmap := default ("", ∅) (last (sends_of w)).
Definition demo_again : World := crash 20 (demo_deliver demo_unanswered_row) [] demo_unanswered.

Lemma advice_acked_only_by_issuer_witness :
  s_status demo_acked_row = sAcked ∧
  ∃ f resp, sends_of demo_acked = sends_of demo_queued ++ [(attemptMTI demo_row demo_adv, f)] ∧
    answers demo_acked = answers demo_queued ++ [Ok resp] ∧ get resp 39 = acknowledged ∧
    @authentic demo_module (w_zak demo_queued) (w_keys demo_queued) (responseMTI (attemptMTI demo_row demo_adv)) resp.
Proof.
  split; [vm_compute; reflexivity|].
  apply (@advice_acked_only_by_issuer demo_module demo_json demo_cards "" demo_backoff demo_row demo_adv 20
           (repeat (answering demo_0430) 20) demo_queued demo_acked_row demo_claimed demo_decoded demo_ascii).
  - vm_compute. discriminate.
  - vm_compute. reflexivity.
  - vm_compute. reflexivity.
Defined.

Lemma repeat_is_same_message_witness :
  (last_sent demo_again).1 = "0421" ∧ get (last_sent demo_unanswered).2 11 ≠ "" ∧
  ∀ e, e ≠ 2 → e ≠ 64 → e ≠ 128 → (last_sent demo_again).2 !! e = (last_sent demo_unanswered).2 !! e.
Proof.
  apply (@repeat_is_same_message demo_module demo_json demo_cards "" demo_backoff demo_row demo_adv 20 [] demo_queued
           (last_sent demo_unanswered).1 (last_sent demo_unanswered).2 demo_unanswered_row
           demo_unanswered_row 20 [] demo_unanswered (last_sent demo_again).1 (last_sent demo_again).2
           demo_claimed demo_decoded demo_ascii).
  - vm_compute. reflexivity.
  - vm_compute. reflexivity.
  - split; [vm_compute; reflexivity|split; vm_compute; [discriminate|reflexivity]].
  - reflexivity.
  - vm_compute. reflexivity.
  - vm_compute. reflexivity.
Defined.

Lemma outage_never_dead_letters_witness :
  let counted := ∃ resp, answers demo_unanswered = answers demo_queued ++ [resp] ∧ link_refused resp = false in
  (Attempts demo_unanswered_row = Attempts demo_row ∨ (Attempts demo_unanswered_row = Attempts demo_row + 1 ∧ counted)) ∧
  (s_status demo_unanswered_row = sDead → s_status demo_row ≠ sDead →
   (MaxAttempts demo_row ≤ Attempts demo_row + 1 ∧ counted) ∨
   ∃ adv' e, identified demo_adv adv' ∧
     @frameWith demo_module demo_cards (w_zak demo_queued) (attemptMTI demo_row demo_adv) adv' = Err e).
Proof.
  apply (@outage_never_dead_letters demo_module demo_json demo_cards "" demo_backoff demo_row demo_adv 20 []
           demo_queued demo_unanswered_row demo_claimed demo_decoded demo_ascii).
  vm_compute. reflexivity.
Defined.

(** The gateway stops right after the send: the sweeper finds the row and queues its 0420. *)
Definition demo_stopped : World := crash 14 (demo_purchase "key-1") [] demo_world.
Definition no_tran : TranLogRow :=
  mkTran 0 "" "" "" 0 "" "" "" "" "" "" "" "" 0 "" None "" "" "" None None "" None None "" "" "" "" 0.
Definition demo_orphan : TranLogRow :=
  default no_tran
    (head (match FindOrphans (now demo_stopped + Minute) 50 (w_db demo_stopped) with (Ok l, _) => l | _ => [] end)).

Lemma sweep_loses_nothing_witness :
  length (sends_of demo_stopped) = 2%nat ∧
  let stopped := crash 5 (@followUp demo_queuer demo_orphan) [] demo_stopped in
  let '(r, w') := run (@followUp demo_queuer demo_orphan) [] demo_stopped in
  (orphaned (now demo_stopped + Minute) (w_db stopped) demo_orphan ∨ followed (w_db stopped) demo_orphan) ∧
  (is_ok r = true → followed (w_db w') demo_orphan).
Proof.
  split; [vm_compute; reflexivity|].
  apply (@sweep_loses_nothing demo_queuer (now demo_stopped + Minute) demo_orphan 5 [] demo_stopped).
  exists (default demo_orphan (tran (w_db demo_stopped) !! 1)), "Pho 24".
  split; [vm_compute; reflexivity|]. split; [vm_compute; reflexivity|]. split; [vm_compute; reflexivity|].
  split; [vm_compute; reflexivity|]. split; [vm_compute; reflexivity|]. vm_compute. discriminate.
Defined.
