(* ===== verification/Gateway.v ===== *)
(** * Gateway: every request, the SAF worker and the sweeper over one database

    What cmd/gateway/main.go puts together: any number of requests of Purchase.v and AdvTxn.v, deliveries and
    sweeps of Saf.v, interleaved call by call as Idempotency.v runs them. *)

From S2P Require Import Prelude Digits Codec Net Mux KeyStore Mac Calendar Mask Store Journey Prog Idempotency Advice.
From S2P Require Import Purchase Stage Outcome AdvTxn AdvOutcome Saf.
Local Open Scope Z_scope.
Local Open Scope prog_scope.

(** ** Background work keeps away from reservations *)

Section background.
Context {H : Module_} {J : AdviceJSON} {SQ : SAFQueuer} (cards : CardTokenRegistry) (encKey : string)
        (backoff : Backoff) (key : string).

Lemma keeps_True_pbind {A B} route (p : prog A) (f : A → prog B) s :
  keeps key route p (λ _ s', s' = s) s → (∀ a, keeps key route (f a) (λ _ s', s' = s) s) →
  keeps key route (pbind f p) (λ _ s', s' = s) s.
Proof. intros Hp Hf. apply wp_pbind. eapply wp_mono; [|exact Hp]. intros a s' ->. apply Hf. Qed.

(** Code without a reservation sends freely. *)
Lemma free_send {A} m f (k : result error fieldmap → prog A) :
  (∀ r, keeps key "" (k r) (λ _ s', s' = NoKey) NoKey) → keeps key "" (Vis (ESend m f) k) (λ _ s', s' = NoKey) NoKey.
Proof. intros Hk. split; [by left|]. intros r s' ->. apply Hk. Qed.

Lemma delay_reads attempt : reads_only key "" (delay backoff attempt).
Proof. unfold delay. case_if; [apply reads_Ret|by apply reads_trigger]. Qed.

Lemma reschedule_reads row why :
  reads_only key "" (waitForLink backoff row why) ∧ reads_only key "" (retryLater backoff row why).
Proof.
  split; unfold waitForLink, retryLater; [|case_if; [by apply reads_db|]];
    (apply reads_pbind; [by apply reads_trigger|]; intros now; apply reads_pbind; [apply delay_reads|];
     intros d; by apply reads_db).
Qed.

Lemma MarkAckedAnnounced_reads id : reads_only key "" (MarkAckedAnnounced id).
Proof.
  unfold MarkAckedAnnounced, announceAck, BroadcastUpdate. apply reads_bindE; [by apply reads_db|]. intros _.
  apply reads_pbind; [|intros _; apply reads_Ret]. apply reads_pbind; [|intros _; apply reads_Ret].
  apply reads_bindE; [by apply reads_db|]. intros rrn. apply reads_bindE; [by apply reads_db|]. intros row.
  apply reads_pbind; [by apply reads_trigger|]. intros _. apply reads_Ret.
Qed.

Lemma deliverRow_keeps row : keeps key "" (deliverRow cards encKey backoff row) (λ _ s', s' = NoKey) NoKey.
Proof.
  unfold deliverRow. destruct (decodePayload encKey (Payload row)) as [adv|e]; [|done].
  apply keeps_True_pbind.
  { assert (Hid : reads_only key "" (assignNetworkIdentity encKey (s_id row) adv)); [|apply Hid].
    unfold assignNetworkIdentity. case_if; [apply reads_Ret|].
    apply reads_pbind; [by apply reads_trigger|]. intros [stan|]; [|apply reads_Ret].
    apply reads_pbind; [by apply reads_trigger|]. intros now. apply reads_bindE; [apply seal_reads|].
    intros payload. apply reads_bindE; [by apply reads_db|]. intros _. apply reads_Ret. }
  intros [adv'|e].
  2: { case_if; [apply (proj1 (reschedule_reads row e))|done]. }
  apply keeps_True_pbind.
  { assert (Hf : reads_only key "" (frame cards (attemptMTI row adv) adv')); [|apply Hf].
    unfold frame. apply reads_pbind; [by apply reads_trigger|]. intros z. apply reads_Ret. }
  intros [f|e]; [|assert (Hd : reads_only key "" (db (QMarkDead (s_id row) (Error e)))) by (by apply reads_db); apply Hd].
  unfold sendFrame. apply free_send. intros [resp|e].
  - assert (Hs : reads_only key "" (settle backoff row (attemptMTI row adv) resp)); [|apply Hs].
    unfold settle. case_if; [apply reschedule_reads|]. case_if; [apply reschedule_reads|].
    apply reads_pbind; [apply verify_reads|]. intros []; [apply MarkAckedAnnounced_reads|apply reschedule_reads].
  - case_if; apply reschedule_reads.
Qed.

Lemma deliverOnce_keeps : keeps key "" (deliverOnce cards encKey backoff) (λ _ s', s' = NoKey) NoKey.
Proof.
  unfold deliverOnce. apply keeps_True_pbind.
  { assert (Hc : reads_only key "" (db (QClaimDue claimBatchSize claimLease))) by (by apply reads_db). apply Hc. }
  intros [due|e]; [|done]. induction due as [|row due IH]; [done|]. cbn [deliverAll].
  apply keeps_True_pbind; [apply deliverRow_keeps|]. intros _. exact IH.
Qed.

Lemma SweepOnce_reads age : reads_only key "" (SweepOnce age).
Proof.
  unfold SweepOnce. apply reads_pbind; [by apply reads_trigger|]. intros now.
  apply reads_bindE; [by apply reads_db|]. intros rows. generalize (@nil sentinel) as errs.
  induction rows as [|row rows IH]; intros errs; cbn [followAll]; [destruct errs; apply reads_Ret|].
  apply reads_pbind; [|intros r; apply IH].
  assert (Howe : ∀ t, reads_only key "" (owe t)).
  { intros t. unfold owe. repeat case_if; first [apply reads_Ret|apply q_Queue_reads|apply q_QueueAdvice_reads]. }
  unfold followUp. case_if; [apply q_Queue_reads|]. case_if; [|apply Howe].
  apply reads_bindE; [by apply reads_db|]. intros []; [apply Howe|apply reads_Ret].
Qed.
End background.

(** ** The gateway *)

Section gateway.
Context {H : Module_} {C : Calendar} {J : AdviceJSON} {SQ : SAFQueuer} (cards : CardTokenRegistry).
Context (marshal_txn : Transaction → string) (unmarshal_txn : string → option Transaction)
        (marshal_req : PurchaseRequest → string) (sha256Hex : string → string)
        (marshal_adv : AdvTransaction → string) (unmarshal_adv : string → option AdvTransaction)
        (hash_adv : hashed → string) (encKey : string) (backoff : Backoff) (age : duration).

(** What may run: a request with its idempotency key, or background work. *)
Inductive job :=
  | JPurchase (traceID : string) (req : PurchaseRequest) (key : string)
  | JCancel (rrn key : string)
  | JAdv (traceID : string) (req : adv_request) (key : string)
  | JDeliver
  | JSweep.

Definition job_key (j : job) : string * string :=
  match j with
  | JPurchase _ _ key => (key, purchaseRoute)
  | JCancel _ key => (key, cancelRoute)
  | JAdv _ req key => (key, adv_route req)
  | JDeliver | JSweep => ("", "")
  end.

Definition start_job (j : job) : thread :=
  match j with
  | JPurchase trace req key =>
      mkThread _ (CreatePurchase cards marshal_txn unmarshal_txn marshal_req sha256Hex trace req key) (job_key j) NoKey
  | JCancel rrn key => mkThread _ (CancelPurchase marshal_txn unmarshal_txn sha256Hex rrn key) (job_key j) NoKey
  | JAdv trace req key => mkThread _ (Create cards marshal_adv unmarshal_adv hash_adv trace req key) (job_key j) NoKey
  | JDeliver => mkThread _ (deliverOnce cards encKey backoff) (job_key j) NoKey
  | JSweep => mkThread _ (SweepOnce age) (job_key j) NoKey
  end.

Lemma start_job_key j : t_key (start_job j) = job_key j ∧ t_phase (start_job j) = NoKey.
Proof. by destruct j. Qed.

Lemma start_job_ok j : thread_ok (start_job j).
Proof.
  destruct j; unfold thread_ok; cbn [start_job t_key t_prog t_phase job_key fst snd].
  - apply CreatePurchase_keeps.
  - apply CancelPurchase_keeps.
  - apply Create_keeps.
  - eapply wp_mono; [|apply deliverOnce_keeps]. done.
  - eapply wp_mono; [|apply SweepOnce_reads]. done.
Qed.

Definition pool_of (jobs : gmap nat job) (w : World) : Pool := mkPool (start_job <$> jobs) w [].

Lemma pool_of_starting jobs w : starting (pool_of jobs w).
Proof.
  split; [done|]. intros i t. cbn [threads pool_of]. rewrite lookup_fmap.
  destruct (jobs !! i) as [j|]; cbn; [|done]. intros [= <-]. split; [apply start_job_ok|apply start_job_key].
Qed.

(** C4. One idempotency key, one transmission.  Run any jobs at once over one database - purchases,
    cancellations, pre-authorizations, completions, refunds, balance inquiries, SAF deliveries and
    sweeps - every call of each interleaved with the others' in any order and with any outcome, lost
    answers included.  If a key was free at the start and the run lasts no longer than the 24 hours a
    key is kept, then all that is sent under that key is one message of one request, however many
    requests carry the key. *)
Theorem key_sends_once jobs w sched i j ji jj mi mj :
  let final := pool_run sched (pool_of jobs w) in
  jobs !! i = Some ji → jobs !! j = Some jj → job_key ji = job_key jj → (job_key ji).2 ≠ "" →
  idem (w_db w) !! job_key ji = None →
  now (world final) ≤ now w + idempotencyTTL →
  (i, mi) ∈ sent_log final → (j, mj) ∈ sent_log final →
  i = j ∧ mi = mj.
Proof.
  intros final Hi Hj Hk Hr Hfree Hnow Hmi Hmj.
  apply (sent_once (job_key ji) sched (pool_of jobs w) i j (start_job ji) (start_job jj) mi mj);
    [done|apply pool_of_starting|done|done|..|done|done].
  - cbn. by rewrite lookup_fmap, Hi.
  - cbn. by rewrite lookup_fmap, Hj.
  - apply start_job_key.
  - rewrite (proj1 (start_job_key jj)). done.
Qed.
End gateway.

(** ** One key, two purchases and the worker *)

Definition demo_jobs : gmap nat job :=
  {[ 0%nat := JPurchase "trace-0" demo_request "key-1"; 1%nat := JPurchase "trace-1" demo_request "key-1";
     2%nat := JDeliver ]}.

Definition demo_pool : Pool :=
  @pool_of demo_module demo_calendar demo_json demo_queuer demo_cards x_RRN (λ _, None) p_CardToken id y_RRN
    (λ _, None) (λ _, "") "" demo_backoff Minute demo_jobs demo_world.

(** Call by call in turn, nobody answering. *)
Definition demo_sched : list (nat * choice) :=
  concat (repeat [(0%nat, quiet); (1%nat, quiet); (2%nat, quiet)] 20).

Lemma key_sends_once_witness :
  let final := pool_run demo_sched demo_pool in
  ∃ m, (0%nat, m) ∈ sent_log final ∧
  ∀ j m', j = 0%nat ∨ j = 1%nat → (j, m') ∈ sent_log final → 0%nat = j ∧ m = m'.
Proof.
  intros final. exists (snd (default (0%nat, ("", ∅)) (head (sent_log final)))).
  assert (Hsent : (0%nat, snd (default (0%nat, ("", ∅)) (head (sent_log final)))) ∈ sent_log final).
  { apply list_elem_of_In. vm_compute. by left. }
  split; [exact Hsent|]. intros j m' Hj Hm.
  assert (Hjob : ∃ tr, demo_jobs !! j = Some (JPurchase tr demo_request "key-1"))
    by (destruct Hj as [-> | ->]; eexists; reflexivity).
  destruct Hjob as [tr Hjob].
  refine (@key_sends_once demo_module demo_calendar demo_json demo_queuer demo_cards x_RRN (λ _, None) p_CardToken
            id y_RRN (λ _, None) (λ _, "") "" demo_backoff Minute demo_jobs demo_world demo_sched 0 j
            (JPurchase "trace-0" demo_request "key-1") _ _ m' eq_refl Hjob eq_refl _ eq_refl _ Hsent Hm);
    [discriminate|vm_compute; discriminate].
Defined.

(** ** The sweeper repeats the completion that was sent *)

Section repeat.
Context {H : Module_} {C : Calendar} (traceID : string).

(** The message [finalizeFields] makes. *)
Lemma finalizeFields_message p w cs merchant f :
  (run (finalizeFields p) cs w).1 = Ok (merchant, f) →
  let f0 := <[15 := MMDD (businessDate p)]> (fields p) in
  ∃ mac, f = <[64 := mac]> (match f0 !! 42 with Some _ => <[42 := MID merchant]> f0 | None => f0 end).
Proof.
  intros Hr f0. cut (runs anywhere (finalizeFields p) (λ r _, ∀ merchant f, r = Ok (merchant, f) →
    ∃ mac, f = <[64 := mac]> (match f0 !! 42 with Some _ => <[42 := MID merchant]> f0 | None => f0 end)) w).
  { intros Hruns. eapply runs_run in Hruns. by eapply Hruns. }
  unfold finalizeFields. fold f0. apply runs_bindE, runs_db; [done|]. intros g n _. clear Hr merchant f.
  destruct (exec_db _ g n (w_db w)) as [[merchant|e] d]; (apply runs_Ret; [done|]); [|done].
  apply runs_bindE. unfold attach. apply runs_quiet; [done|done|]. intros z w' _.
  match goal with |- context [attachMAC z (mti p) ?m] => destruct (attachMAC z (mti p) m) as [f'|e] eqn:Ea end;
    (apply runs_Ret; [done|]); [|done].
  apply runs_Ret; [done|]. intros merchant' f [= <- <-]. unfold attachMAC in Ea. invert_ok. by eexists.
Qed.

(** C31. A repeated completion is the completion that was sent.  The 0220 the sweeper builds from the
    row of a completion has exactly the elements [createCompletion] sent, the MAC apart: the same
    STAN, DE 7, DE 37, amount, terminal, merchant and business date, so the issuer recognises it. *)
Theorem sweeper_repeats_what_was_sent original preAuth req stan up sent cs w merchant f n id name :
  let p := completionParams original preAuth req stan up sent in
  let p := with_params p (fields p) (Current sent) in
  (run (finalizeFields p) cs w).1 = Ok (merchant, f) →
  IsZero (Current sent) = false →
  completionAdvice (set_name (inserted n id (sentRow traceID (with_params p f (businessDate p)) merchant)) name)
  = stored_fields f.
Proof.
  intros p p' Hr Hz. apply finalizeFields_message in Hr as [mac ->].
  change (<[15 := _]> (fields p') !! 42) with (Some "").
  apply map_eq. intros i. rewrite stored_fields_lookup.
  unfold completionAdvice, originalDE15. cbn [BusinessDate set_name with_extra inserted sentRow with_params businessDate p' p].
  rewrite !Hz. cbn [list_to_map foldr fst snd p' p with_params completionParams fields]. unfold completionFields.
  cbn [list_to_map foldr fst snd].
  repeat match goal with
         | |- context [<[?k := _]> _ !! i] =>
             destruct (decide (i = k)) as [->|?]; [reflexivity|rewrite !(lookup_insert_ne _ k i) by congruence]
         end.
  rewrite !lookup_insert_ne, !lookup_empty by congruence. by destruct (notStoredInAdvice i).
Qed.
End repeat.

Definition demo_params : sendParams :=
  let p := completionParams demo_hold_rrn (default demo_orphan (tran (w_db demo_held) !! 1))
             (mkCompletion (mkMoney 150000 "704")) "000124" true (now demo_held) in
  with_params p (fields p) (@Current demo_calendar (now demo_held)).

Definition demo_message : Merchant * fieldmap :=
  match (run (@finalizeFields demo_module demo_params) [] demo_held).1 with
  | Ok mf => mf
  | Err _ => (mkMerchant "" "", ∅)
  end.

Lemma sweeper_repeats_what_was_sent_witness :
  (run (@finalizeFields demo_module demo_params) [] demo_held).1 = Ok demo_message ∧
  completionAdvice (set_name (inserted 0 2 (sentRow "" (with_params demo_params demo_message.2 (businessDate demo_params))
                                              demo_message.1)) "Pho 24")
  = stored_fields demo_message.2.
Proof.
  assert (Hr : (run (@finalizeFields demo_module demo_params) [] demo_held).1 = Ok (demo_message.1, demo_message.2))
    by (vm_compute; reflexivity).
  split; [rewrite Hr; by destruct demo_message|].
  exact (@sweeper_repeats_what_was_sent demo_module demo_calendar "" demo_hold_rrn
           (default demo_orphan (tran (w_db demo_held) !! 1)) (mkCompletion (mkMoney 150000 "704")) "000124" true
           (now demo_held) [] demo_held demo_message.1 demo_message.2 0 2 "Pho 24" Hr ltac:(vm_compute; reflexivity)).
Defined.

(** ** A completion that failed is completed twice *)

(** One database call is lost. *)
Definition lost_call : choice := mkChoice Lost (c_resp quiet) true 0 0 (c_nonce quiet).

(** Recording CREATED->SENT fails: the client is told the completion failed. *)
Definition demo_failed : result error AdvTransaction * World :=
  run (demo_create demo_capture "capture-1") (repeat quiet 10 ++ [lost_call]) demo_held.

(** The client tries again under another key, and the issuer approves. *)
Definition demo_retried : result error AdvTransaction * World :=
  run (demo_create demo_capture "capture-2") (repeat (answering (demo_approval "0230")) 30) demo_failed.2.

(** Two minutes later the sweeper passes. *)
Definition demo_swept : World :=
  (run (@SweepOnce demo_queuer Minute) [mkChoice Done (c_resp quiet) true (2 * Minute) 0 (c_nonce quiet)]
     demo_retried.2).2.

(** A completion that was never sent can be sent after all.  [markSending] moves the row to SENT
    before it records the transition; when recording fails the request ends in an error, with its
    claim on the pre-authorization and its key given back and nothing sent, but the row stays SENT.
    The retry then captures the hold, and the sweeper takes the abandoned row for an unknown outcome
    and queues its 0220: the same pre-authorization is captured a second time. *)
Theorem failed_completion_still_sent :
  is_ok demo_failed.1 = false ∧ sends_of demo_failed.2 = sends_of demo_held ∧
  (∃ t, demo_retried.1 = Ok t ∧ y_Status t = statusApproved ∧ y_OriginalRRN t = demo_hold_rrn) ∧
  ∃ s adv, saf (w_db demo_swept) !! 1 = Some s ∧ s_mti s = mtiCompletion ∧ s_status s = sPending ∧ TranID s = 2 ∧
    @decodePayload demo_json "" (Payload s) = Ok adv ∧
    Fields adv !! 37 = Some demo_hold_rrn ∧ Fields adv !! 4 = Some "000000150000".
Proof.
  split; [vm_compute; reflexivity|]. split; [vm_compute; reflexivity|]. split.
  - eexists. split; [vm_compute; reflexivity|]. split; vm_compute; reflexivity.
  - exists (default demo_row (saf (w_db demo_swept) !! 1)).
    exists (match @decodePayload demo_json "" (Payload (default demo_row (saf (w_db demo_swept) !! 1))) with
            | Ok adv => adv | Err _ => no_advice end).
    split_and!; vm_compute; reflexivity.
Qed.
