(* ===== verification/Script.v ===== *)
(** * Script: code against a script of what the environment does

    The monad of Rotation.v and Supervisor.v.  Every call that leaves the process takes the next choice of
    the environment from a list; when the list is empty the gateway stops there.  A statement about
    every script is thus one about every fault and every point of a crash. *)

From S2P Require Import Prelude.
Local Open Scope Z_scope.

Section script.
Context {St Ch : Type}.

Inductive ended (A : Type) :=
  | Stopped (s : St)
  | Finished (a : A) (s : St) (cs : list Ch).

#[global] Arguments Stopped {A} s.
#[global] Arguments Finished {A} a s cs.

Definition script (A : Type) : Type := St → list Ch → ended A.

Definition yield {A} (a : A) : script A := λ s cs, Finished a s cs.

Definition act {A} (f : Ch → St → A * St) : script A := λ s cs,
  match cs with
  | [] => Stopped s
  | c :: cs => let '(a, s) := f c s in Finished a s cs
  end.

Definition sbind {A B} (p : script A) (f : A → script B) : script B := λ s cs,
  match p s cs with
  | Stopped s => Stopped s
  | Finished a s cs => f a s cs
  end.

(** Reading memory takes no choice. *)
Definition gets {A} (f : St → A) : script A := λ s cs, Finished (f s) s cs.
Definition modify (f : St → St) : script () := λ s cs, Finished () (f s) cs.

(** The state a script leaves. *)
Definition left_by {A} (e : ended A) : St := match e with Stopped s | Finished _ s _ => s end.
Definition result_of {A} (e : ended A) : option A := match e with Stopped _ => None | Finished a _ _ => Some a end.

(** *** Every run *)

(** From [s], while the environment's choices satisfy [P], [I] holds wherever the run stops and [Q]
    when it finishes. *)
Definition always (P : Ch → Prop) (I : St → Prop) {A} (p : script A) (Q : A → St → Prop) (s : St) : Prop :=
  ∀ cs, Forall P cs → match p s cs with Stopped s' => I s' | Finished a s' cs' => Forall P cs' ∧ Q a s' end.

Context (P : Ch → Prop) (I : St → Prop).

Lemma always_yield {A} (a : A) (Q : A → St → Prop) s : Q a s → always P I (yield a) Q s.
Proof. by intros HQ cs. Qed.

Lemma always_gets {A} (f : St → A) (Q : A → St → Prop) s : Q (f s) s → always P I (gets f) Q s.
Proof. by intros HQ cs. Qed.

Lemma always_modify (f : St → St) (Q : () → St → Prop) s : Q () (f s) → always P I (modify f) Q s.
Proof. by intros HQ cs. Qed.

Lemma always_act {A} (f : Ch → St → A * St) (Q : A → St → Prop) s :
  I s → (∀ c a s', P c → f c s = (a, s') → Q a s') → always P I (act f) Q s.
Proof.
  intros Hi HQ [|c cs] Hcs; cbn; [done|]. apply Forall_cons in Hcs as [Hc Hcs].
  destruct (f c s) as [a s'] eqn:E. split; [done|]. by eapply HQ.
Qed.

Lemma always_bind {A B} (p : script A) (f : A → script B) (Q : B → St → Prop) s :
  always P I p (λ a, always P I (f a) Q) s → always P I (sbind p f) Q s.
Proof.
  intros Hp cs Hcs. specialize (Hp cs Hcs). unfold sbind. destruct (p s cs) as [s'|a s' cs']; [done|].
  destruct Hp as [Hcs' Hp]. by apply Hp.
Qed.

Lemma always_mono {A} (p : script A) (Q Q' : A → St → Prop) s :
  (∀ a s, Q a s → Q' a s) → always P I p Q s → always P I p Q' s.
Proof.
  intros HQ Hp cs Hcs. specialize (Hp cs Hcs). destruct (p s cs); [done|]. destruct Hp. split; [done|by apply HQ].
Qed.

(** The state left satisfies what holds at every stop, when the result entails it. *)
Lemma always_left {A} (p : script A) (Q : A → St → Prop) s cs :
  Forall P cs → always P I p Q s → (∀ a s, Q a s → I s) → I (left_by (p s cs)).
Proof. intros Hcs Hp HQ. specialize (Hp cs Hcs). destruct (p s cs); [done|]. eapply HQ, Hp. Qed.

(** *** Termination: [p] finishes within [n] choices *)

Definition within (n : nat) {A} (p : script A) : Prop :=
  ∀ s cs, (n ≤ length cs)%nat → ∃ a s' cs', p s cs = Finished a s' cs' ∧ (length cs ≤ n + length cs')%nat.

Lemma within_yield {A} (a : A) n : within n (yield a).
Proof. intros s cs _. exists a, s, cs. split; [done|lia]. Qed.

Lemma within_gets {A} (f : St → A) n : within n (gets f).
Proof. intros s cs _. exists (f s), s, cs. split; [done|lia]. Qed.

Lemma within_modify (f : St → St) n : within n (modify f).
Proof. intros s cs _. exists (), (f s), cs. split; [done|lia]. Qed.

Lemma within_act {A} (f : Ch → St → A * St) n : within (S n) (act f).
Proof.
  intros s [|c cs] Hn; [cbn in Hn; lia|]. cbn in *. destruct (f c s) as [a s']. exists a, s', cs. split; [done|lia].
Qed.

Lemma within_bind {A B} (p : script A) (f : A → script B) n m :
  within n p → (∀ a, within m (f a)) → within (n + m) (sbind p f).
Proof.
  intros Hp Hf s cs Hn. destruct (Hp s cs) as (a & s' & cs' & E & Hl); [lia|]. unfold sbind. rewrite E.
  destruct (Hf a s' cs') as (b & s'' & cs'' & E' & Hl'); [lia|]. exists b, s'', cs''. split; [done|lia].
Qed.

Lemma within_le {A} (p : script A) n m : (n ≤ m)%nat → within n p → within m p.
Proof.
  intros Hle Hp s cs Hm. destruct (Hp s cs) as (a & s' & cs' & E & Hl); [lia|].
  exists a, s', cs'. split; [done|lia].
Qed.
End script.

Declare Scope script_scope.
Delimit Scope script_scope with script.
Notation "x <~ p ; k" := (sbind p (λ x, k)) (at level 100, p at next level, right associativity) : script_scope.
Notation "p ;;~ k" := (sbind p (λ _, k)) (at level 100, right associativity) : script_scope.

(** *** Fallible scripts *)

Definition sbindE {St Ch E A B} (p : @script St Ch (result E A)) (f : A → @script St Ch (result E B))
    : @script St Ch (result E B) :=
  sbind p (λ r, match r with Ok a => f a | Err e => yield (Err e) end).

Notation "x <~! p ; k" := (sbindE p (λ x, k)) (at level 100, p at next level, right associativity) : script_scope.

Notation "p ;;~! k" := (sbindE p (λ _, k)) (at level 100, right associativity) : script_scope.

Lemma always_bindE {St Ch E A B} P I (p : @script St Ch (result E A)) (f : A → @script St Ch (result E B))
    (Q : result E B → St → Prop) s :
  always P I p (λ r s, match r with Ok a => always P I (f a) Q s | Err e => Q (Err e) s end) s →
  always P I (sbindE p f) Q s.
Proof.
  intros Hp. apply always_bind. eapply always_mono; [|exact Hp]. intros [a|e] s' Hs; [done|by apply always_yield].
Qed.

Lemma within_bindE {St Ch E A B} (p : @script St Ch (result E A)) (f : A → @script St Ch (result E B)) n m :
  within n p → (∀ a, within m (f a)) → within (n + m) (sbindE p f).
Proof. intros Hp Hf. apply within_bind; [done|]. intros [a|e]; [apply Hf|apply within_yield]. Qed.

(** Any choices. *)
Definition any {Ch} (_ : Ch) : Prop := True.

Lemma any_all {Ch} (cs : list Ch) : Forall any cs.
Proof. by apply Forall_forall. Qed.

(** ** A part of the state *)

(** A script over a part of the state and of the choices, as one of the whole. *)
Definition zoom {St Ch St' Ch'} (get : St → St') (put : St' → St → St) (pick : Ch → Ch') {A} (p : @script St' Ch' A)
    : @script St Ch A := λ s cs,
  match p (get s) (map pick cs) with
  | Stopped s' => Stopped (put s' s)
  | Finished a s' cs' => Finished a (put s' s) (drop (length cs - length cs') cs)
  end.

Lemma always_zoom {St Ch St' Ch'} (get : St → St') put (pick : Ch → Ch') {A} (p : script A) P I P' I'
    (Q : A → St → Prop) (Q' : A → St' → Prop) s :
  always P' I' p Q' (get s) → (∀ c, P c → P' (pick c)) → (∀ s', I' s' → I (put s' s)) →
  (∀ a s', Q' a s' → Q a (put s' s)) → always P I (zoom get put pick p) Q s.
Proof.
  intros Hp HP HI HQ cs Hcs. unfold zoom. specialize (Hp (map pick cs)).
  destruct (p (get s) (map pick cs)) as [s'|a s' cs'].
  - apply HI, Hp, Forall_map. by eapply Forall_impl.
  - destruct Hp as [_ Hp]; [apply Forall_map; by eapply Forall_impl|]. split; [by apply Forall_drop|by apply HQ].
Qed.

Lemma within_zoom {St Ch St' Ch'} (get : St → St') put (pick : Ch → Ch') {A} (p : script A) n :
  within n p → within n (zoom get put pick p).
Proof.
  intros Hp s cs Hn. destruct (Hp (get s) (map pick cs)) as (a & s' & cs' & E & Hl); [by rewrite length_map|].
  unfold zoom. rewrite E. rewrite length_map in Hl. eexists _, _, _. split; [done|]. rewrite length_drop. lia.
Qed.

(** ** Loops *)

Section loops.
Context {St Ch A B : Type}.

Fixpoint rounds (n : nat) (body : A → @script St Ch (A + B)) (a : A) : @script St Ch B :=
  match n with
  | O => λ s _, Stopped s
  | S n => sbind (body a) (λ r, match r with inl a => rounds n body a | inr b => yield b end)
  end.

(** [for { ... }]: a body that takes a choice each time round runs out of choices before it runs out
    of rounds ([rounds_enough]). *)
Definition forever (body : A → @script St Ch (A + B)) (a : A) : @script St Ch B :=
  λ s cs, rounds (S (length cs)) body a s cs.

Definition takes_choices (body : A → @script St Ch (A + B)) : Prop :=
  ∀ a s cs, match body a s cs with Finished (inl _) _ cs' => (length cs' < length cs)%nat | _ => True end.

Lemma rounds_enough body n m a s cs :
  takes_choices body → (length cs < n)%nat → (length cs < m)%nat → rounds n body a s cs = rounds m body a s cs.
Proof.
  intros Hb. revert m a s cs. induction n as [|n IH]; intros [|m] a s cs Hn Hm; try lia.
  cbn [rounds]. unfold sbind. specialize (Hb a s cs). destruct (body a s cs) as [|[a'|b] s' cs']; [done| |done].
  apply IH; lia.
Qed.

(** One round, then the rest. *)
Lemma forever_eq body a s cs :
  takes_choices body →
  forever body a s cs
  = sbind (body a) (λ r, match r with inl a => forever body a | inr b => yield b end) s cs.
Proof.
  intros Hb. unfold forever at 1. cbn [rounds]. unfold sbind. pose proof (Hb a s cs) as Hc.
  destruct (body a s cs) as [|[a'|b] s' cs']; [done| |done]. apply rounds_enough; [done|lia..].
Qed.

Lemma always_forever P I (J : A → St → Prop) (body : A → @script St Ch (A + B)) (Q : B → St → Prop) a s :
  (∀ a s, J a s → I s) →
  (∀ a s, J a s → always P I (body a) (λ r s', match r with inl a => J a s' | inr b => Q b s' end) s) →
  J a s → always P I (forever body a) Q s.
Proof.
  intros HI Hbody Ha cs Hcs. unfold forever. generalize (S (length cs)) as n. intros n.
  revert a s cs Ha Hcs. induction n as [|n IH]; intros a s cs Ha Hcs; cbn [rounds]; [by eapply HI|].
  specialize (Hbody a s Ha cs Hcs). unfold sbind. destruct (body a s cs) as [s'|[a'|b] s' cs']; [done| |done].
  destruct Hbody as [Hcs' Ha']. by apply IH.
Qed.
End loops.
