(* ===== verification/Rotation.v ===== *)
(** * Rotation: key rotation with the issuer

    [gateway-go/internal/rotation]: runner.go, repository.go, recover.go, initial.go and activekeys.go,
    over the key_store of KeyStore.v.  Steps are kept in the row as the code keeps them; that they
    travel through JSON is not modelled. *)

From S2P Require Import Prelude Digits Codec Net Mux Des Aes KeyStore Mac Calendar Mask Store Journey Prog Idempotency Advice.
From S2P Require Import Purchase Script.
Local Open Scope Z_scope.
Local Open Scope script_scope.

(** ** State *)

Definition StepGenerate : string := "GENERATE".
Definition StepSend0800161 : string := "SEND_0800_161".
Definition StepPartnerConfirm : string := "PARTNER_CONFIRM".
Definition StepActivate : string := "ACTIVATE".
Definition stepOrder : list string := [StepGenerate; StepSend0800161; StepPartnerConfirm; StepActivate].

Definition StatusPending : string := "PENDING".
Definition StatusDone : string := "DONE".
Definition StatusFailed : string := "FAILED".
Definition running_ : string := "RUNNING".
Definition completed_ : string := "COMPLETED".

Record Step := mkStep { st_name : string; st_status : string; st_completed : option time }.

Record Row := mkRow {
  o_ID : Z; o_KeyType : string; o_Status : string; o_Steps : list Step; o_NewKCV : option string;
  o_NewKeyID : option Z; o_created : time; o_updated : time
}.

Record audit_record := mkAudit { au_rotation : Z; au_step : string; au_status : string; au_error : option error }.

(** The tables, the clear ZAK in memory, the link and the context of the rotation. *)
Record Vault := mkVault {
  rotations : gmap Z Row; next_rotation : Z; audits : list audit_record; keys : KeyTable;
  zak : option string;                                    (* ActiveKeys.zak *)
  counter : Z;                                            (* the supervisor's STANs *)
  sent : list (string * fieldmap);                        (* what was handed to Send *)
  got : list (result error fieldmap);                     (* and how it ended *)
  clock : time; cancelled : bool;
  serving : bool; running : bool                          (* Runner.base, Runner.running *)
}.

Definition set_keys (v : Vault) (t : KeyTable) : Vault :=
  mkVault (rotations v) (next_rotation v) (audits v) t (zak v) (counter v) (sent v) (got v) (clock v)
    (cancelled v) (serving v) (running v).
Definition set_rotations (v : Vault) (m : gmap Z Row) : Vault :=
  mkVault m (next_rotation v) (audits v) (keys v) (zak v) (counter v) (sent v) (got v) (clock v) (cancelled v)
    (serving v) (running v).
Definition set_zak (v : Vault) (z : string) : Vault :=
  mkVault (rotations v) (next_rotation v) (audits v) (keys v) (Some z) (counter v) (sent v) (got v) (clock v)
    (cancelled v) (serving v) (running v).
Definition set_running (b : bool) (v : Vault) : Vault :=
  mkVault (rotations v) (next_rotation v) (audits v) (keys v) (zak v) (counter v) (sent v) (got v) (clock v)
    (cancelled v) (serving v) b.

Definition set_serving (b : bool) (v : Vault) : Vault :=
  mkVault (rotations v) (next_rotation v) (audits v) (keys v) (zak v) (counter v) (sent v) (got v) (clock v)
    (cancelled v) b (running v).

(** What the environment does at one call: the fate of a statement, the bytes of the random source,
    the answer of the issuer, the state of the link, and what happened meanwhile. *)
Record move := mkMove {
  m_fate : fate; m_key : option string; m_nonce : option string; m_resp : result error fieldmap;
  m_up : bool; m_tick : duration; m_cancel : bool
}.

Abbreviation flow := (@script Vault move).
Abbreviation flowE A := (flow (result error A)).

Definition elapse (m : move) (v : Vault) : Vault :=
  mkVault (rotations v) (next_rotation v) (audits v) (keys v) (zak v) (counter v) (sent v) (got v)
    (clock v + Z.max 0 (m_tick m)) (cancelled v || m_cancel m) (serving v) (running v).

(** One statement or transaction; under a cancelled context it is not run. *)
Definition statement {A} (detached : bool) (f : time → Vault → result error A * Vault) : flowE A :=
  act (λ m v, let v := elapse m v in
    match (if negb detached && cancelled v then Lost else m_fate m) with
    | Done => f (clock v) v
    | Lost => (Err [ErrDatabase], v)
    | AckLost => (Err [ErrDatabase], (f (clock v) v).2)
    end).

(** ** repository.go *)

Definition Create (keyType : string) (now : time) (v : Vault) : result error Z * Vault :=
  let id := next_rotation v in
  let row := mkRow id keyType running_ (map (λ n, mkStep n StatusPending None) stepOrder) None None now now in
  (Ok id, mkVault (<[id := row]> (rotations v)) (id + 1) (audits v) (keys v) (zak v) (counter v) (sent v) (got v)
            (clock v) (cancelled v) (serving v) (running v)).

Definition alter_row (id : Z) (f : Row → Row) (v : Vault) : Vault := set_rotations v (alter f id (rotations v)).

Definition mark (now : time) (stepName stepStatus : string) (s : Step) : Step :=
  if String.eqb (st_name s) stepName
  then mkStep (st_name s) stepStatus (if String.eqb stepStatus StatusDone then Some now else st_completed s)
  else s.

Definition UpdateStep (id : Z) (stepName stepStatus : string) (now : time) (v : Vault) : result error () * Vault :=
  match rotations v !! id with
  | None => (Err [ErrDatabase], v)                       (* select steps *)
  | Some _ =>
      (Ok (), alter_row id (λ r, mkRow (o_ID r) (o_KeyType r) (o_Status r) (map (mark now stepName stepStatus) (o_Steps r))
                                  (o_NewKCV r) (o_NewKeyID r) (o_created r) now) v)
  end.

Definition Complete (id : Z) (newKCV : string) (now : time) (v : Vault) : result error () * Vault :=
  (Ok (), alter_row id (λ r, mkRow (o_ID r) (o_KeyType r) completed_ (o_Steps r) (Some newKCV) (o_NewKeyID r)
                              (o_created r) now) v).

Definition Fail_ (id : Z) (now : time) (v : Vault) : result error () * Vault :=
  (Ok (), alter_row id (λ r, mkRow (o_ID r) (o_KeyType r) StatusFailed (o_Steps r) (o_NewKCV r) (o_NewKeyID r)
                              (o_created r) now) v).

Definition SetNewKey (id keyID : Z) (now : time) (v : Vault) : result error () * Vault :=
  (Ok (), alter_row id (λ r, mkRow (o_ID r) (o_KeyType r) (o_Status r) (o_Steps r) (o_NewKCV r) (Some keyID)
                              (o_created r) now) v).

Definition Get_ (id : Z) (now : time) (v : Vault) : result error Row * Vault :=
  match rotations v !! id with Some r => (Ok r, v) | None => (Err [ErrNotFound], v) end.

(** [ORDER BY id]; the rows are then read one by one. *)
Definition running_ids (v : Vault) : list Z :=
  merge_sort Z.le (map fst (List.filter (λ kv : Z * Row, String.eqb (o_Status kv.2) running_) (map_to_list (rotations v)))).

Fixpoint get_all (ids : list Z) : flowE (list Row) :=
  match ids with
  | [] => yield (Ok [])
  | id :: ids => row <~! statement false (Get_ id); rows <~! get_all ids; yield (Ok (row :: rows))
  end.

Definition ListRunning : flowE (list Row) :=
  ids <~! statement false (λ _ v, (Ok (running_ids v), v)); get_all ids.

Definition WriteAudit (a : audit_record) (now : time) (v : Vault) : result error () * Vault :=
  (Ok (), mkVault (rotations v) (next_rotation v) (audits v ++ [a]) (keys v) (zak v) (counter v) (sent v) (got v)
            (clock v) (cancelled v) (serving v) (running v)).

(** *** The calls of store/keystore.go *)

Definition key_insert (row : KeyRow) (now : time) (v : Vault) : result error Z * Vault :=
  match KeyStore.Insert now row (keys v) with
  | Some (id, t) => (Ok id, set_keys v t)
  | None => (Err [ErrDatabase], v)
  end.
Definition key_activate (id : Z) (now : time) (v : Vault) : result error () * Vault :=
  (Ok (), set_keys v (Activate now id (keys v))).
Definition key_retire_pending (id : Z) (now : time) (v : Vault) : result error () * Vault :=
  (Ok (), set_keys v (RetirePending now id (keys v))).
Definition key_get (id : Z) (_ : time) (v : Vault) : result error KeyRow * Vault :=
  match KeyStore.Get id (keys v) with Some r => (Ok r, v) | None => (Err [ErrNotFound], v) end.
Definition key_list (_ : time) (v : Vault) : result error (list KeyRow) * Vault := (Ok (List_ (keys v)), v).

(** ** activekeys.go *)

Section runner.
Context {H : Module_}.

Definition ActiveZAK (v : Vault) : string := default "" (zak v).

Definition Reload (keyType : string) : flowE () :=
  if negb (String.eqb keyType "ZAK") then yield (Ok ())
  else
    rows <~! statement false key_list;
    match List.find (λ r, String.eqb (KeyType r) keyType && has_status KeyStore.ACTIVE r) rows with
    | None => yield (Err [ErrOther "no ACTIVE ZAK key in key_store"])
    | Some row =>
        match DecodeString (KeyUnderLMKHex row) with
        | None => yield (Err [ErrOther "decode ZAK cryptogram"])
        | Some keyUnderLMK =>
            match Unwrap keyUnderLMK with
            | Err _ => yield (Err [ErrOther "unwrap ZAK"])
            | Ok clearKey => modify (λ v, set_zak v clearKey) ;;~ yield (Ok ())
            end
        end
    end.

(** ** initial.go *)

Record Provisioned := mkProvisioned { Inserted : bool; p_KCV : string; p_ActiveKCV : string }.

Definition ensure_active (keyType hex kcv : string) (now : time) (v : Vault) : result error bool * Vault :=
  match EnsureActive now keyType hex kcv (keys v) with
  | Some (b, t) => (Ok b, set_keys v t)
  | None => (Err [ErrDatabase], v)
  end.
Definition active_kcv (keyType : string) (_ : time) (v : Vault) : result error string * Vault :=
  match ActiveKCV keyType (keys v) with Some kcv => (Ok kcv, v) | None => (Err [ErrNotFound], v) end.

(** A call of the module; the nonce comes from the environment. *)
Definition hsm_wrap (clearKey : string) : flowE string :=
  act (λ m v, (map_err (λ _, [ErrOther "wrap under LMK"]) (WrapUnderLMK (m_nonce m) clearKey), v)).
Definition hsm_kcv (clearKey : string) : result error string :=
  map_err (λ _, [ErrOther "compute KCV"]) (ComputeKCV clearKey).

Definition ProvisionInitialKey (keyType : string) (clearKey : option string) : flowE Provisioned :=
  match clearKey with
  | None => yield (Ok (mkProvisioned false "" ""))
  | Some clearKey =>
      wrapped <~! hsm_wrap clearKey;
      kcv <~! yield (hsm_kcv clearKey);
      inserted <~! statement false (ensure_active keyType (ToUpper (EncodeToString wrapped)) kcv);
      if (inserted : bool) then yield (Ok (mkProvisioned true kcv ""))
      else
        active <~! statement false (active_kcv keyType);
        yield (Ok (mkProvisioned false kcv active))
  end.

(** ** runner.go *)

Definition clearKeyLenBytes : nat := 16.
Definition keyChangeDE70 : string := "161".
Definition rcOutcomeUnknown : string := "96".
Definition defaultSendAttempts : nat := 3.

Context (zmk : string) (sendAttempts : nat).

Definition completeStep (id : Z) (stepName : string) : flowE () :=
  statement false (UpdateStep id stepName StatusDone) ;;~! statement false (WriteAudit (mkAudit id stepName StatusDone None)).

(** [rand.Read] of the clear key. *)
Definition generate : flowE string :=
  act (λ m v, match m_key m with
              | Some k => if (slen k =? clearKeyLenBytes)%nat then (Ok k, v) else (Err [ErrOther "generate key"], v)
              | None => (Err [ErrOther "generate key"], v)
              end).
Definition encrypt (clearKey : string) : flowE string :=
  act (λ m v, (map_err (λ _, [ErrOther "wrap under ZMK"]) (EncryptBytes (m_nonce m) zmk clearKey), v)).

(** Everything up to the row of the new key: the cryptogram under the ZMK, its id and its KCV. *)
Definition newKey (keyType ownerRef : string) : flowE (string * Z * string) :=
  clearKey <~! generate;
  wrappedUnderLMK <~! hsm_wrap clearKey;
  kcv <~! yield (hsm_kcv clearKey);
  underZMK <~! encrypt clearKey;
  newRowID <~! statement false
    (key_insert (mkKeyRow 0 keyType ownerRef (ToUpper (EncodeToString wrappedUnderLMK)) kcv KeyStore.PENDING None None 0));
  yield (Ok (underZMK, newRowID, kcv)).

(** With the id of the new key, 0 when there is none, also on an error. *)
Definition runGenerate (id : Z) (keyType ownerRef : string) : flow (result error (string * string) * Z) :=
  k <~ newKey keyType ownerRef;
  match k with
  | Err e => yield (Err e, 0)
  | Ok (underZMK, newRowID, kcv) =>
      r <~ statement false (SetNewKey id newRowID);
      match r with
      | Err e => yield (Err e, newRowID)
      | Ok _ =>
          r <~ completeStep id StepGenerate;
          match r with
          | Err e => yield (Err e, newRowID)
          | Ok _ => yield (Ok (underZMK, kcv), newRowID)
          end
      end
  end.

Definition ctxErr : flow bool := act (λ m v, let v := elapse m v in (cancelled v, v)).

(** [mux.NextSTAN] of the supervisor. *)
Definition nextSTAN : flow (option string) :=
  act (λ m v, if m_up m then
                let '(n, stan) := NextSTAN (counter v) in
                (Some stan, mkVault (rotations v) (next_rotation v) (audits v) (keys v) (zak v) n (sent v) (got v)
                              (clock v) (cancelled v) (serving v) (running v))
              else (None, v)).

(** [mux.Send] of [fields] with DE 7 of the moment, under its own timeout. *)
Definition send0800 (fields : time → fieldmap) : flowE fieldmap :=
  act (λ m v, let v := elapse m v in
    (m_resp m, mkVault (rotations v) (next_rotation v) (audits v) (keys v) (zak v) (counter v)
                 (sent v ++ [("0800", fields (clock v))]) (got v ++ [m_resp m]) (clock v) (cancelled v) (serving v) (running v))).

Definition keyChange (keyType underZMK stan : string) (now : time) : fieldmap :=
  list_to_map [(7, format_DE7 UTC now); (11, stan); (70, keyChangeDE70);
               (48, keyType +:+ ":" +:+ EncodeToString underZMK)].

(** The attempts that are left, and the error of the last one. *)
Fixpoint send_loop (id : Z) (keyType underZMK : string) (attempts : nat) (lastErr : option error) : flowE fieldmap :=
  let over : flowE fieldmap := yield (Err (default [ErrOther "context canceled"] lastErr)) in
  match attempts with
  | O => over
  | S attempts =>
      done <~ ctxErr;
      if (done : bool) then over
      else
        stan <~ nextSTAN;
        match stan with
        | None => send_loop id keyType underZMK attempts (Some [ErrOther "issuer link not signed on"])
        | Some stan =>
            resp <~ send0800 (keyChange keyType underZMK stan);
            match resp with
            | Err e => send_loop id keyType underZMK attempts (Some e)
            | Ok resp =>
                if String.eqb (get resp 39) rcOutcomeUnknown then
                  send_loop id keyType underZMK attempts (Some [ErrOther "the issuer may have activated the key"])
                else
                  completeStep id StepSend0800161 ;;~! yield (Ok resp)
            end
        end
  end.

Definition runSend0800161 (id : Z) (keyType underZMK : string) : flowE fieldmap :=
  send_loop id keyType underZMK sendAttempts None.

Definition runPartnerConfirm (id : Z) (resp : fieldmap) : flowE () :=
  if negb (String.eqb (get resp 39) "00") then yield (Err [ErrOther ("partner did not confirm: RC " +:+ get resp 39)])
  else completeStep id StepPartnerConfirm.

Definition runActivate (id newRowID : Z) : flowE () :=
  statement false (key_activate newRowID) ;;~! completeStep id StepActivate.

(** Written with the cancellation stripped; every error but that of the last read is dropped. *)
Definition failStep (id : Z) (stepName : string) (pendingKeyID : Z) (cause : error) : flow (option Row * error) :=
  (if negb (pendingKeyID =? 0) then statement true (key_retire_pending pendingKeyID) else yield (Ok ())) ;;~
  statement true (UpdateStep id stepName StatusFailed) ;;~
  statement true (WriteAudit (mkAudit id stepName StatusFailed (Some cause))) ;;~
  statement true (Fail_ id) ;;~
  row <~ statement true (Get_ id);
  yield (match row with Ok row => Some row | Err _ => None end, cause).

Definition failed (r : flow (option Row * error)) : flowE Row := re <~ r; yield (Err re.2).

Definition execute (id : Z) (keyType ownerRef : string) : flowE Row :=
  g <~ runGenerate id keyType ownerRef;
  let '(g, newRowID) := g in
  match g with
  | Err e => failed (failStep id StepGenerate newRowID e)
  | Ok (cryptogram, kcv) =>
      resp <~ runSend0800161 id keyType cryptogram;
      match resp with
      | Err e => failed (failStep id StepSend0800161 0 e)
      | Ok resp =>
          r <~ runPartnerConfirm id resp;
          match r with
          | Err e =>
              if negb (String.eqb (get resp 39) "00") then failed (failStep id StepPartnerConfirm newRowID e)
              else failed (failStep id StepPartnerConfirm 0 e)
          | Ok _ =>
              r <~ runActivate id newRowID;
              match r with
              | Err e => failed (failStep id StepActivate 0 e)
              | Ok _ =>
                  Reload keyType ;;~                        (* the activation hook *)
                  statement false (Complete id kcv) ;;~!
                  statement false (Get_ id)
              end
          end
      end
  end.

Definition Run (keyType ownerRef : string) : flowE Row :=
  id <~! statement false (Create keyType); execute id keyType ownerRef.

(** [Start], and the goroutine it starts. *)
Definition Start (keyType : string) : flowE Row :=
  up <~ gets serving;
  if negb up then yield (Err [ErrOther "rotation runner is not serving"])
  else
    busy <~ gets running;
    if (busy : bool) then yield (Err [ErrOther "a key rotation is already running"])
    else
      id <~! statement false (Create keyType);
      row <~! statement false (Get_ id);
      modify (set_running true) ;;~ yield (Ok row).

Definition background (row : Row) (keyType ownerRef : string) : flow () :=
  execute (o_ID row) keyType ownerRef ;;~ modify (set_running false).

(** ** recover.go *)

Fixpoint stepStatusOf (steps : list Step) (name : string) : string :=
  match steps with
  | [] => ""
  | s :: steps => if String.eqb (st_name s) name then st_status s else stepStatusOf steps name
  end.

Fixpoint firstPending (steps : list Step) : string :=
  match steps with
  | [] => StepActivate
  | s :: steps => if String.eqb (st_status s) StatusPending then st_name s else firstPending steps
  end.

Definition recoverOne (row : Row) : flowE () :=
  match o_NewKeyID row with
  | Some newKey =>
      if String.eqb (stepStatusOf (o_Steps row) StepActivate) StatusDone then
        key <~! statement false (key_get newKey);
        statement false (Complete (o_ID row) (KCV key))
      else
        failStep (o_ID row) (firstPending (o_Steps row)) 0
          [ErrOther "interrupted: outcome unknown, the new key stays PENDING"] ;;~ yield (Ok ())
  | None =>
      failStep (o_ID row) (firstPending (o_Steps row)) 0
        [ErrOther "interrupted before the key was generated"] ;;~ yield (Ok ())
  end.

Fixpoint recover_all (rows : list Row) : flowE () :=
  match rows with
  | [] => yield (Ok ())
  | row :: rows => recoverOne row ;;~! recover_all rows
  end.

Definition recoverInterrupted : flowE () := rows <~! ListRunning; recover_all rows.

(** [Serve]; [work] is what is started and run until its context is done. *)
Definition Serve (work : flow ()) : flowE () :=
  r <~ recoverInterrupted;
  match r with
  | Err e =>
      over <~ gets cancelled;
      yield (if (over : bool) then Ok () else Err (ErrOther "recover interrupted rotations" :: e))
  | Ok _ => modify (set_serving true) ;;~ work ;;~ modify (set_serving false) ;;~ yield (Ok ())
  end.

(** No rotation starts after it has returned. *)
Lemma Serve_closes work v cs v1 cs1 v2 cs2 u :
  recoverInterrupted v cs = Finished (Ok u) v1 cs1 → work (set_serving true v1) cs1 = Finished () v2 cs2 →
  Serve work v cs = Finished (Ok ()) (set_serving false v2) cs2 ∧
  ∀ keyType cs, Start keyType (set_serving false v2) cs =
    Finished (Err [ErrOther "rotation runner is not serving"]) (set_serving false v2) cs.
Proof. intros Hr Hw. split; [|done]. unfold Serve, sbind, modify. by rewrite Hr, Hw. Qed.
End runner.

(** ** What a rotation does to the keys *)

Definition view (v : Vault) : KeyTable * list (string * fieldmap) * list (result error fieldmap) := (keys v, sent v, got v).

Lemma view_elapse m v : view (elapse m v) = view v.
Proof. done. Qed.

Section keeps.
Context {H : Module_} (zmk : string) (I : KeyTable * list (string * fieldmap) * list (result error fieldmap) → Prop).

Abbreviation always := (always any (λ v, I (view v))).

Lemma always_statement {A} detached (f : time → Vault → result error A * Vault) (Q : result error A → Vault → Prop) v :
  I (view v) →
  (∀ v', view v' = view v → Q (Err [ErrDatabase]) v') →
  (∀ n v' r v'', view v' = view v → f n v' = (r, v'') → Q r v'' ∧ Q (Err [ErrDatabase]) v'') →
  always (statement detached f) Q v.
Proof.
  intros Hi HL HE. apply always_act; [done|]. intros m a v' _ E. cbn zeta in E.
  destruct (f (clock (elapse m v)) (elapse m v)) as [r v''] eqn:Ef.
  destruct (HE _ _ _ _ (view_elapse m v) Ef) as [H1 H2].
  destruct (if negb detached && cancelled (elapse m v) then Lost else m_fate m); injection E as <- <-; [done|by apply HL|done].
Qed.

(** A statement that touches no key. *)
Lemma always_rows {A} detached (f : time → Vault → result error A * Vault) (Q : result error A → Vault → Prop) v :
  (∀ n v, view (f n v).2 = view v) → I (view v) → (∀ r v', view v' = view v → Q r v') →
  always (statement detached f) Q v.
Proof.
  intros Hf Hi HQ. apply always_statement; [done|by apply HQ|]. intros n v' r v'' Hv E.
  pose proof (Hf n v') as Hf'. rewrite E in Hf'. change (view v'' = view v') in Hf'. split; apply HQ; congruence.
Qed.

Lemma view_UpdateStep id name st n v : view (UpdateStep id name st n v).2 = view v.
Proof. unfold UpdateStep. by destruct (rotations v !! id). Qed.

Lemma view_Get id n v : view (Get_ id n v).2 = view v.
Proof. unfold Get_. by destruct (rotations v !! id). Qed.

Lemma completeStep_keeps id name (Q : result error () → Vault → Prop) v :
  I (view v) → (∀ r v', view v' = view v → Q r v') → always (completeStep id name) Q v.
Proof.
  intros Hi HQ. apply always_bindE, always_rows; [apply view_UpdateStep|done|].
  intros [[]|e] v1 H1; [|by apply HQ]. apply always_rows; [done|by rewrite H1|]. intros r v2 H2. apply HQ. congruence.
Qed.

(** A failed step retires the pending key it is given, if any. *)
Lemma failStep_keeps id name pending cause (Q : result error Row → Vault → Prop) v :
  I (view v) → (pending ≠ 0 → ∀ n, I (RetirePending n pending (keys v), sent v, got v)) →
  (∀ e v', view v' = view v ∨ (pending ≠ 0 ∧ ∃ n, view v' = (RetirePending n pending (keys v), sent v, got v)) →
     Q (Err e) v') →
  always (failed (failStep id name pending cause)) Q v.
Proof.
  intros Hi Hr HQ. apply always_bind. unfold failStep.
  set (good := λ v' : Vault, view v' = view v ∨ (pending ≠ 0 ∧ ∃ n, view v' = (RetirePending n pending (keys v), sent v, got v))).
  assert (HI : ∀ v', good v' → I (view v')) by (intros v' [->|[Hp [n ->]]]; [done|by apply Hr]).
  assert (Hrest : ∀ v', good v' → always
    (statement true (UpdateStep id name StatusFailed) ;;~
     statement true (WriteAudit (mkAudit id name StatusFailed (Some cause))) ;;~
     statement true (Fail_ id) ;;~
     (row <~ statement true (Get_ id); yield (match row with Ok row => Some row | Err _ => None end, cause)))
    (λ a, always (yield (Err a.2) : flowE Row) Q) v').
  { intros v1 H1. apply always_bind, always_rows; [apply view_UpdateStep|by apply HI|]. intros _ v2 H2.
    apply always_bind, always_rows; [done|rewrite H2; by apply HI|]. intros _ v3 H3.
    apply always_bind, always_rows; [done|rewrite H3, H2; by apply HI|]. intros _ v4 H4.
    apply always_bind, always_rows; [apply view_Get|rewrite H4, H3, H2; by apply HI|]. intros r v5 H5.
    apply always_yield, always_yield, HQ. change (good v5). unfold good. by rewrite H5, H4, H3, H2. }
  apply always_bind. destruct (pending =? 0) eqn:E; cbn [negb].
  - apply always_yield, Hrest. by left.
  - apply Z.eqb_neq in E. apply always_statement; [done|by intros; apply Hrest; left|].
    intros n v' r v'' Hv [= <- <-]. injection Hv as Hk Hs Hg.
    assert (good (key_retire_pending pending n v').2).
    { right. split; [done|]. exists n. unfold view. cbn. by rewrite Hk, Hs, Hg. }
    by split; apply Hrest.
Qed.
End keeps.

(** ** A rotation follows what the issuer said *)

(** The last answer confirms the key, or declines it; RC 96 does neither. *)
Definition confirmed (answers : list (result error fieldmap)) : Prop :=
  ∃ resp, last answers = Some (Ok resp) ∧ get resp 39 = "00".
Definition declined (answers : list (result error fieldmap)) : Prop :=
  ∃ resp, last answers = Some (Ok resp) ∧ get resp 39 ≠ "00" ∧ get resp 39 ≠ rcOutcomeUnknown.

(** Key-change requests, all with the same key. *)
Definition carries_key (de48 : string) (msg : string * fieldmap) : Prop :=
  msg.1 = "0800" ∧ msg.2 !! 70 = Some keyChangeDE70 ∧ msg.2 !! 48 = Some de48.

Section execute.
Context {H : Module_} (zmk : string) (sendAttempts : nat) (keyType ownerRef : string).
Context (keys0 : KeyTable) (sent0 : list (string * fieldmap)).

Abbreviation id0 := (next_key keys0).

Definition one_key (s : list (string * fieldmap)) : Prop :=
  ∃ de48 msgs, s = sent0 ++ msgs ∧ Forall (carries_key de48) msgs.

(** The table with the new key. *)
Definition with_key (t : KeyTable) : Prop :=
  ∃ n row, KeyType row = keyType ∧ OwnerRef row = ownerRef ∧ KeyStore.Insert n row keys0 = Some (id0, t).

(** Where a rotation can be: no key yet, a key of unknown outcome, one the issuer never saw or
    declined, one it confirmed. *)
Definition reached (k : KeyTable * list (string * fieldmap) * list (result error fieldmap)) : Prop :=
  let '(t, s, a) := k in
  one_key s ∧
  ((t = keys0 ∧ s = sent0) ∨
   ∃ t', with_key t' ∧
     (t = t' ∨ (∃ n, t = RetirePending n id0 t' ∧ (s = sent0 ∨ declined a)) ∨
      (∃ n, t = Activate n id0 t' ∧ confirmed a))).

Abbreviation always := (always any (λ v, reached (view v))).

(** The new key is in the table, nothing is decided. *)
Definition undecided (de48 : string) (v : Vault) : Prop :=
  with_key (keys v) ∧ ∃ msgs, sent v = sent0 ++ msgs ∧ Forall (carries_key de48) msgs.

Lemma undecided_reached de48 v : undecided de48 v → reached (view v).
Proof. intros [Ht (msgs & Hs & Hm)]. split; [by exists de48, msgs|]. right. exists (keys v). split; [done|by left]. Qed.

Lemma undecided_view de48 v v' : view v' = view v → undecided de48 v → undecided de48 v'.
Proof. intros Hv. injection Hv as Hk Hs Hg. unfold undecided. by rewrite Hk, Hs. Qed.

Lemma none_reached v : keys v = keys0 → sent v = sent0 → reached (view v).
Proof. intros Hk Hs. split; [exists "", []; by rewrite app_nil_r|]. left. by split. Qed.

Lemma Insert_with_key n row t id :
  KeyType row = keyType → OwnerRef row = ownerRef → KeyStore.Insert n row keys0 = Some (id, t) → id = id0 ∧ with_key t.
Proof.
  intros Hk Ho Hi. assert (id = id0) as -> by (unfold KeyStore.Insert in Hi; by destruct (existsb _ _); simplify_eq).
  split; [done|]. by exists n, row.
Qed.

(** A fresh key, with nothing sent. *)
Definition fresh (v : Vault) : Prop := with_key (keys v) ∧ sent v = sent0.

Lemma fresh_undecided de48 v : fresh v → undecided de48 v.
Proof. intros [Ht Hs]. split; [done|]. exists []. by rewrite app_nil_r. Qed.

Lemma fresh_view v v' : view v' = view v → fresh v → fresh v'.
Proof. intros Hv. injection Hv as Hk Hs Hg. unfold fresh. by rewrite Hk, Hs. Qed.

Lemma newKey_always (Q : result error (string * Z * string) → Vault → Prop) v :
  keys v = keys0 → sent v = sent0 →
  (∀ e v', (keys v' = keys0 ∧ sent v' = sent0) ∨ fresh v' → Q (Err e) v') →
  (∀ z kcv v', fresh v' → Q (Ok (z, id0, kcv)) v') →
  always (newKey zmk keyType ownerRef) Q v.
Proof.
  intros Hk Hs HE HQ. pose proof (none_reached v Hk Hs) as Hv.
  assert (Hstill : ∀ v', view v' = view v → keys v' = keys0 ∧ sent v' = sent0).
  { intros v' E. injection E as E1 E2 E3. split; congruence. }
  assert (Hpure : ∀ {A} (f : move → Vault → result error A * Vault) (g : A → flowE (string * Z * string)) v1,
    view v1 = view v → (∀ m v, (f m v).2 = v) →
    (∀ a, always (g a) Q v1) → always (sbindE (act f) g) Q v1).
  { intros A f g v1 H1 Hf Hg. apply always_bindE, always_act; [by rewrite H1|]. intros m r v' _ E.
    pose proof (Hf m v1) as Hf'. rewrite E in Hf'. cbn in Hf'. subst v'.
    destruct r as [a|e]; [apply Hg|]. apply HE. left. by apply Hstill. }
  unfold newKey, generate, hsm_wrap, encrypt.
  apply Hpure; [done|by intros m w; case_match; repeat case_match|]. intros clearKey.
  apply Hpure; [done|done|]. intros wrapped. apply always_bindE, always_yield.
  destruct (hsm_kcv clearKey) as [kcv|e]; [|apply HE; by left].
  apply Hpure; [done|done|]. intros underZMK. apply always_bindE, always_statement; [done| |].
  { intros v' Hv'. apply HE. left. by apply Hstill. }
  intros n v' r v'' Hv' E. unfold key_insert in E. destruct (Hstill v' Hv') as [Hk' Hs'].
  destruct (KeyStore.Insert n _ (keys v')) as [[id t]|] eqn:Ei; injection E as <- <-; [|split; apply HE; by left].
  rewrite Hk' in Ei. apply Insert_with_key in Ei as [-> Ht]; [|done|done].
  split; [apply always_yield, HQ|apply HE; right]; by split.
Qed.

Lemma runGenerate_always id (Q : result error (string * string) * Z → Vault → Prop) v :
  keys v = keys0 → sent v = sent0 →
  (∀ e newID v', (keys v' = keys0 ∧ sent v' = sent0 ∧ newID = 0) ∨ (fresh v' ∧ (newID = 0 ∨ newID = id0)) →
     Q (Err e, newID) v') →
  (∀ z kcv v', fresh v' → Q (Ok (z, kcv), id0) v') →
  always (runGenerate zmk id keyType ownerRef) Q v.
Proof.
  intros Hk Hs HE HQ. unfold runGenerate. apply always_bind, newKey_always; [done|done| |].
  { intros e v' [[? ?]|?]; apply always_yield, HE; [by left|right; by auto]. }
  intros z kcv v1 H1. pose proof (undecided_reached "" _ (fresh_undecided "" _ H1)) as Hr1.
  apply always_bind, always_rows; [done|done|]. intros [[]|e] v2 H2; [|apply always_yield, HE; right; split; [by eapply fresh_view|auto]].
  apply (fresh_view _ _ H2) in H1. rewrite <- H2 in Hr1. apply always_bind, completeStep_keeps; [done|].
  intros [[]|e] v3 H3; apply (fresh_view _ _ H3) in H1; apply always_yield; [by apply HQ|apply HE; right; auto].
Qed.

Lemma send_loop_always id z attempts lastErr (Q : result error fieldmap → Vault → Prop) v :
  let de48 := keyType +:+ ":" +:+ EncodeToString z in
  undecided de48 v →
  (∀ e v', undecided de48 v' → Q (Err e) v') →
  (∀ resp v', undecided de48 v' → last (got v') = Some (Ok resp) → get resp 39 ≠ rcOutcomeUnknown → Q (Ok resp) v') →
  always (send_loop id keyType z attempts lastErr) Q v.
Proof.
  intros de48 Hu HE HQ. revert lastErr v Hu. induction attempts as [|n IH]; intros lastErr v Hu; cbn [send_loop];
    [by apply always_yield, HE|].
  pose proof (undecided_reached _ _ Hu) as Hr. apply always_bind, always_act; [done|].
  intros m stop v1 _ [= <- <-]. assert (Hu1 : undecided de48 (elapse m v)) by done.
  destruct (cancelled v || m_cancel m); [by apply always_yield, HE|].
  apply always_bind, always_act; [done|]. intros m1 stan v1 _ E1.
  assert (Hu2 : undecided de48 v1 ∧ view v1 = view v) by (destruct (m_up m1); [destruct (NextSTAN _)|]; by simplify_eq).
  destruct Hu2 as [Hu2 Hv2]. destruct stan as [stan|]; [|by apply IH].
  apply always_bind, always_act; [by rewrite Hv2|]. intros m2 resp v2 _ [= <- <-].
  match goal with |- Script.always _ _ _ _ ?v2 => set (w := v2) end.
  assert (Hu3 : undecided de48 w).
  { destruct Hu2 as [Ht (msgs & Hs & Hm)]. split; [exact Ht|]. eexists (msgs ++ [_]). cbn [sent w].
    rewrite Hs, <- app_assoc. split; [done|]. apply Forall_app. split; [done|]. apply Forall_singleton. by split_and!. }
  assert (Hg3 : last (got w) = Some (m_resp m2)) by (cbn; apply last_snoc).
  destruct (m_resp m2) as [resp|e]; [|by apply IH].
  destruct (String.eqb (get resp 39) rcOutcomeUnknown) eqn:E96; [by apply IH|]. apply String.eqb_neq in E96.
  apply always_bindE, completeStep_keeps; [by eapply undecided_reached|].
  intros [[]|e] v3 H3; [apply always_yield|]; pose proof (undecided_view _ _ _ H3 Hu3);
    [|by apply HE]. apply HQ; [done| |done]. injection H3 as _ _ ->. exact Hg3.
Qed.

Lemma Reload_keeps kt (Q : result error () → Vault → Prop) v :
  reached (view v) → (∀ r v', view v' = view v → Q r v') → always (Reload kt) Q v.
Proof.
  intros Hr HQ. unfold Reload. case_if; [by apply always_yield, HQ|].
  apply always_bindE, always_rows; [done|done|]. intros [rows|e] v1 H1; [|by apply HQ].
  repeat (case_match; [|by apply always_yield, HQ]). all: try by apply always_yield, HQ.
Qed.

Lemma execute_always id v :
  keys v = keys0 → sent v = sent0 →
  always (execute zmk sendAttempts id keyType ownerRef) (λ _ v', reached (view v')) v.
Proof.
  intros Hk Hs. unfold execute. apply always_bind, runGenerate_always; [done|done| |].
  { intros e newID v1 H1.
    assert (Hr1 : reached (view v1)).
    { destruct H1 as [(? & ? & _)|[? _]]; [by apply none_reached|]. by apply (undecided_reached ""), fresh_undecided. }
    assert (Hret : newID ≠ 0 → ∀ n, reached (RetirePending n newID (keys v1), sent v1, got v1)).
    { intros Hn n. destruct H1 as [(_ & _ & ?)|[[Ht Hs1] [?| ->]]]; [done|done|].
      split; [exists "", []; by rewrite app_nil_r|]. right. exists (keys v1). split; [done|]. right; left.
      exists n. by auto. }
    apply failStep_keeps; [done|exact Hret|]. intros e' v' [->|[Hn [n ->]]]; [done|by apply Hret]. }
  intros z kcv v1 H1. apply always_bind. unfold runSend0800161. apply send_loop_always; [by apply fresh_undecided| |].
  { intros e v2 H2. apply failStep_keeps; [by eapply undecided_reached|done|].
    intros e' v' [->|[? _]]; [by eapply undecided_reached|done]. }
  intros resp v2 H2 Hl H96. pose proof (undecided_reached _ _ H2) as Hr2. apply always_bind. unfold runPartnerConfirm.
  destruct (String.eqb (get resp 39) "00") eqn:E00; cbn [negb].
  2: { apply String.eqb_neq in E00. apply always_yield. destruct H2 as [Ht Hm].
    assert (Hret : ∀ n, reached (RetirePending n id0 (keys v2), sent v2, got v2)).
    { intros n. split; [by destruct Hm as (msgs & Hm); eexists _, msgs|]. right. exists (keys v2). split; [done|].
      right; left. exists n. split; [done|]. right. by exists resp. }
    apply failStep_keeps; [done|by intros _|]. intros e' v' [->|[_ [n ->]]]; [done|apply Hret]. }
  apply String.eqb_eq in E00. apply completeStep_keeps; [done|]. intros [[]|e] v3 H3.
  2: { apply failStep_keeps; [by rewrite H3|done|]. intros e' v' [->|[? _]]; [by rewrite H3|done]. }
  apply (undecided_view _ _ _ H3) in H2. rewrite <- H3 in Hr2.
  assert (Hc : confirmed (got v3)) by (injection H3 as _ _ ->; by exists resp). clear H3 Hl.
  assert (Hfail : ∀ e v4, reached (view v4) → always (failed (failStep id StepActivate 0 e)) (λ _ v', reached (view v')) v4).
  { intros e v4 H4. apply failStep_keeps; [done|done|]. intros e' v' [->|[? _]]; done. }
  apply always_bind. unfold runActivate. apply always_bindE, always_statement; [done|by intros v' Hv'; apply Hfail; rewrite Hv'|].
  intros n v4 r v5 H4 [= <- <-]. injection H4 as Hk4 Hs4 Hg4.
  assert (Hr5 : reached (view (key_activate id0 n v4).2)).
  { destruct H2 as [Ht (msgs & Hm & Hf)]. unfold view. cbn. rewrite Hk4, Hs4, Hg4.
    split; [by eexists _, msgs|]. right. exists (keys v3). split; [done|]. do 2 right. by exists n. }
  split; [|by apply Hfail]. apply completeStep_keeps; [done|]. intros [[]|e] v6 H6; [|apply Hfail; by rewrite H6].
  assert (Hr6 : reached (view v6)) by (rewrite H6; exact Hr5).
  apply always_bind, Reload_keeps; [done|]. intros _ v7 H7. rewrite <- H7 in Hr6.
  apply always_bindE, always_rows; [done|done|]. intros [[]|e] v8 H8; [|by rewrite H8].
  apply always_rows; [apply view_Get|by rewrite H8|]. intros r v9 H9. by rewrite H9, H8.
Qed.
End execute.

Lemma Get_Insert n row t id t' :
  KeyStore.Insert n row t = Some (id, t') → KeyStore.Get id t = None →
  ∃ k, KeyStore.Get id t' = Some k ∧ KeyStore.k_status k = KeyStore.PENDING ∧
    ∀ i r, KeyStore.Get i t = Some r → KeyStore.Get i t' = Some r.
Proof.
  unfold KeyStore.Insert. destruct (existsb _ _); [|done]. intros [= <- <-].
  set (k := mkKeyRow _ _ _ _ _ _ _ _ _). intros Hnone. exists k.
  assert (Happ : ∀ i, KeyStore.Get i (mkKeyTable (rows t ++ [k]) (next_key t + 1)) =
    match KeyStore.Get i t with Some r => Some r | None => if k_id k =? i then Some k else None end).
  { intros i. unfold KeyStore.Get. cbn [rows]. induction (rows t) as [|r l IH]; cbn; [done|].
    destruct (k_id r =? i); [done|exact IH]. }
  rewrite Happ, Hnone. cbn [k_id k]. rewrite Z.eqb_refl. split; [done|]. split; [done|].
  intros i r Hi. by rewrite Happ, Hi.
Qed.

(** C8. The keys follow what the issuer said.  Wherever a rotation stops and whatever fails, every
    0800/161 it sent carries the same key; the new key is retired only if no request with it was
    handed to the link or the issuer declined it (any RC but 00 and 96), and becomes ACTIVE only on
    an RC 00; and no other key changes unless the issuer confirmed.  So a key the issuer may have
    activated is never retired, and stays PENDING for the MAC fallback. *)
Theorem rotation_follows_issuer {H : Module_} zmk sendAttempts id keyType ownerRef v cs :
  table_ok (keys v) → sent v = [] → got v = [] →
  let v' := left_by (execute zmk sendAttempts id keyType ownerRef v cs) in
  (∃ de48, Forall (carries_key de48) (sent v')) ∧
  (∀ r, KeyStore.Get (next_key (keys v)) (keys v') = Some r →
     match KeyStore.k_status r with
     | KeyStore.PENDING => True
     | KeyStore.RETIRED => sent v' = [] ∨ declined (got v')
     | KeyStore.ACTIVE => confirmed (got v')
     end) ∧
  (∀ i r, KeyStore.Get i (keys v) = Some r → KeyStore.Get i (keys v') = Some r ∨ confirmed (got v')).
Proof.
  intros Hok Hs Hg v'.
  pose proof (always_left any _ _ _ _ cs (any_all cs) (execute_always zmk sendAttempts keyType ownerRef (keys v) [] id v eq_refl Hs)
    (λ _ _ h, h)) as [(de48 & msgs & Hm & Hf) Hr]. fold v' in Hm, Hf, Hr. cbn in Hm. split; [exists de48; by rewrite Hm|].
  assert (Hnew : KeyStore.Get (next_key (keys v)) (keys v) = None).
  { destruct (KeyStore.Get _ (keys v)) as [r|] eqn:E; [|done]. apply Get_in in E as [Hin Hid].
    pose proof (ids_below _ Hok) as Hb. rewrite Forall_forall in Hb. specialize (Hb r Hin). lia. }
  destruct Hr as [[Hk Hs']|(t & (n & row & _ & _ & Hi) & Hr)]; [rewrite Hk, Hnew; split; [done|by left]|].
  pose proof (Insert_ok _ _ _ _ _ Hok Hi) as Hok'. destruct (Get_Insert _ _ _ _ _ Hi Hnew) as (k & Hgk & Hst & Hold).
  pose proof (Get_in _ _ _ Hgk) as [_ Hid].
  destruct Hr as [->|[(m & -> & Hd)|(m & -> & Hc)]].
  - rewrite Hgk. split; [by intros r [= <-]; rewrite Hst|]. intros i r Hi'. left. by apply Hold.
  - unfold RetirePending. rewrite Get_update, Hgk by done. cbn [fmap option_fmap option_map].
    rewrite Hid, Z.eqb_refl. unfold has_status at 1. rewrite Hst. split.
    + intros r [= <-]. cbn. destruct Hd as [Hd|Hd]; [left|by right]. exact Hd.
    + intros i r Hi'. left. rewrite Get_update, (Hold _ _ Hi') by done. cbn [fmap option_fmap option_map].
      apply Get_in in Hi' as Hr. destruct Hr as [Hin Hri]. case_match eqn:E; [|done].
      apply andb_true_iff in E as [E%Z.eqb_eq _]. pose proof (ids_below _ Hok) as Hb.
      rewrite Forall_forall in Hb. specialize (Hb r Hin). lia.
  - split; [|by right]. intros r Hr. rewrite (Activate_rows _ _ _ k Hok' Hgk) in Hr.
    assert (Hact : KeyStore.k_status r = KeyStore.ACTIVE).
    { apply Get_in in Hr as [Hin Hri]. cbn in Hin. apply list_elem_of_fmap in Hin as (r0 & -> & Hin0).
      unfold activate_row in *. rewrite Hid in *. destruct (k_id r0 =? next_key (keys v)) eqn:E0; [done|].
      apply Z.eqb_neq in E0. exfalso. apply E0. by destruct (same_pair _ _ r0 && _). }
    by rewrite Hact.
Qed.

(** ** A rotation ends *)

Section ends.
Context {H : Module_} (zmk : string) (sendAttempts : nat).

Lemma within_statement {A} det (f : time → Vault → result error A * Vault) : within 1 (statement det f).
Proof. apply within_act. Qed.

Lemma within_completeStep id name : within 2 (completeStep id name).
Proof. apply (within_bindE _ _ 1 1); [|intros _]; apply within_statement. Qed.

Lemma within_failed id name pending cause : within 5 (failed (failStep id name pending cause)).
Proof.
  apply (within_bind _ _ 5 0); [|intros a; apply within_yield]. unfold failStep.
  apply (within_bind _ _ 1 4); [case_if; [apply within_statement|apply within_yield]|intros _].
  apply (within_bind _ _ 1 3); [apply within_statement|intros _].
  apply (within_bind _ _ 1 2); [apply within_statement|intros _].
  apply (within_bind _ _ 1 1); [apply within_statement|intros _].
  apply (within_bind _ _ 1 0); [apply within_statement|intros r; apply within_yield].
Qed.

Lemma within_newKey keyType ownerRef : within 4 (newKey zmk keyType ownerRef).
Proof.
  apply (within_bindE _ _ 1 3); [apply within_act|intros clearKey].
  apply (within_bindE _ _ 1 2); [apply within_act|intros wrapped].
  apply (within_bindE _ _ 0 2); [apply within_yield|intros kcv].
  apply (within_bindE _ _ 1 1); [apply within_act|intros z].
  apply (within_bindE _ _ 1 0); [apply within_statement|intros new; apply within_yield].
Qed.

Lemma within_runGenerate id keyType ownerRef : within 7 (runGenerate zmk id keyType ownerRef).
Proof.
  apply (within_bind _ _ 4 3); [apply within_newKey|]. intros [[[z new] kcv]|e]; [|apply within_yield].
  apply (within_bind _ _ 1 2); [apply within_statement|]. intros [u|e]; [|apply within_yield].
  apply (within_bind _ _ 2 0); [apply within_completeStep|]. intros [u'|e]; apply within_yield.
Qed.

Lemma within_send_loop id keyType z n lastErr : within (3 * n + 2) (send_loop id keyType z n lastErr).
Proof.
  revert lastErr. induction n as [|n IH]; intros lastErr; cbn [send_loop]; [apply within_yield|].
  assert (HIH : ∀ e, within (3 * n + 2) (send_loop id keyType z n e)) by apply IH.
  eapply within_le; [|apply (within_bind _ _ 1 (3 * n + 4)); [apply within_act|intros []; [apply within_yield|]]]; [lia|].
  eapply within_le; [|apply (within_bind _ _ 1 (3 * n + 3)); [apply within_act|intros [stan|]]]; [lia| |
    eapply within_le; [|apply HIH]; lia].
  eapply within_le; [|apply (within_bind _ _ 1 (3 * n + 2)); [apply within_act|intros [resp|e]]]; [lia| |apply HIH].
  case_if; [apply HIH|]. eapply within_le; [|apply (within_bindE _ _ 2 0); [apply within_completeStep|]]; [lia|].
  intros _. apply within_yield.
Qed.

Lemma within_Reload kt : within 1 (Reload kt).
Proof.
  unfold Reload. case_if; [apply within_yield|]. apply (within_bindE _ _ 1 0); [apply within_statement|].
  intros rows. repeat (case_match; [|apply within_yield]).
  apply (within_bind _ _ 0 0); [apply within_modify|intros _; apply within_yield].
Qed.

Lemma within_execute id keyType ownerRef : within (19 + 3 * sendAttempts) (execute zmk sendAttempts id keyType ownerRef).
Proof.
  eapply within_le; [|apply (within_bind _ _ 7 (12 + 3 * sendAttempts)); [apply within_runGenerate|]]; [lia|].
  intros [[[z kcv]|e] new]; [|eapply within_le; [|apply within_failed]; lia].
  eapply within_le; [|apply (within_bind _ _ (3 * sendAttempts + 2) 10); [apply within_send_loop|]]; [lia|].
  intros [resp|e]; [|eapply within_le; [|apply within_failed]; lia].
  apply (within_bind _ _ 2 8).
  { unfold runPartnerConfirm. case_if; [apply within_yield|apply within_completeStep]. }
  intros [[]|e]; [|case_if; (eapply within_le; [|apply within_failed]; lia)].
  apply (within_bind _ _ 3 5).
  { apply (within_bindE _ _ 1 2); [apply within_statement|intros _; apply within_completeStep]. }
  intros [[]|e]; [|apply within_failed]. apply (within_bind _ _ 1 4); [apply within_Reload|intros _].
  apply (within_bindE _ _ 1 3); [apply within_statement|intros _].
  eapply within_le; [|apply within_statement]; lia.
Qed.
End ends.

(** *** With every call answered, its row says how *)

(** The statement runs, the gateway is not shutting down. *)
Definition healthy (m : move) : Prop := m_fate m = Done ∧ m_cancel m = false.

Section settles.
Context {H : Module_} (zmk : string) (sendAttempts : nat) (id : Z).

Definition row_status (v : Vault) : option string := o_Status <$> rotations v !! id.
Definition alive (v : Vault) : Prop := cancelled v = false ∧ row_status v ≠ None.

Abbreviation always := (always healthy (λ _, True)).

Lemma healthy_statement {A} det (f : time → Vault → result error A * Vault) (Q : result error A → Vault → Prop) v :
  alive v → (∀ n v', alive v' → row_status v' = row_status v → let '(r, v'') := f n v' in Q r v'') →
  always (statement det f) Q v.
Proof.
  intros [Hc Hrow] HQ. apply always_act; [done|]. intros m a v' [Hd Hm] E. cbn zeta in E.
  assert (Hc' : cancelled (elapse m v) = false) by (cbn; by rewrite Hc, Hm).
  rewrite Hc', andb_false_r, Hd in E. specialize (HQ (clock (elapse m v)) (elapse m v)).
  rewrite E in HQ. by apply HQ.
Qed.

(** A script that leaves the row there. *)
Definition keeps_row {A} (p : flow A) : Prop := ∀ v, alive v → always p (λ _ v', alive v') v.

Lemma keeps_yield {A} (a : A) : keeps_row (yield a).
Proof. intros v Hv. by apply always_yield. Qed.

Lemma keeps_bind {A B} (p : flow A) (f : A → flow B) : keeps_row p → (∀ a, keeps_row (f a)) → keeps_row (sbind p f).
Proof. intros Hp Hf v Hv. apply always_bind. eapply always_mono; [|by apply Hp]. intros a v'. apply Hf. Qed.

Lemma keeps_bindE {A B} (p : flowE A) (f : A → flowE B) : keeps_row p → (∀ a, keeps_row (f a)) → keeps_row (sbindE p f).
Proof. intros Hp Hf. apply keeps_bind; [done|]. intros [a|e]; [apply Hf|apply keeps_yield]. Qed.

Lemma keeps_act {A} (f : move → Vault → A * Vault) :
  (∀ m v, healthy m → cancelled v = false → cancelled (f m v).2 = false ∧ row_status (f m v).2 = row_status v) →
  keeps_row (act f).
Proof.
  intros Hf v [Hc Hr]. apply always_act; [done|]. intros m a v' Hm E. destruct (Hf m v Hm Hc) as [H1 H2].
  rewrite E in H1, H2. split; [done|]. by cbn in H2; rewrite H2.
Qed.

Lemma keeps_statement {A} det (f : time → Vault → result error A * Vault) :
  (∀ n v, cancelled (f n v).2 = cancelled v ∧ (row_status v ≠ None → row_status (f n v).2 ≠ None)) →
  keeps_row (statement det f).
Proof.
  intros Hf v Hv. apply healthy_statement; [done|]. intros n v' [Hc Hr] _. destruct (Hf n v') as [H1 H2].
  destruct (f n v') as [r v'']. cbn in *. split; [congruence|by apply H2].
Qed.

Lemma alter_keeps k f v : row_status v ≠ None → row_status (alter_row k f v) ≠ None.
Proof.
  unfold row_status, alter_row. cbn [rotations set_rotations]. rewrite lookup_alter.
  destruct (decide (k = id)) as [->|]; destruct (rotations v !! id); done.
Qed.

Lemma keeps_rows {A} det (f : time → Vault → result error A * Vault) :
  (∀ n v, (f n v).2 = v ∨ ∃ k g, (f n v).2 = alter_row k g v) → keeps_row (statement det f).
Proof.
  intros Hf. apply keeps_statement. intros n v. destruct (Hf n v) as [->|(k & g & ->)]; [done|].
  split; [done|apply alter_keeps].
Qed.

Lemma keeps_UpdateStep det k name st : keeps_row (statement det (UpdateStep k name st)).
Proof. apply keeps_rows. intros n v. unfold UpdateStep. destruct (rotations v !! k); [right; by eexists _, _|by left]. Qed.

Lemma keeps_WriteAudit det a : keeps_row (statement det (WriteAudit a)).
Proof. by apply keeps_statement. Qed.

Lemma keeps_completeStep k name : keeps_row (completeStep k name).
Proof. apply keeps_bindE; [apply keeps_UpdateStep|]. intros _. apply keeps_WriteAudit. Qed.

Lemma keeps_runGenerate k keyType ownerRef : keeps_row (runGenerate zmk k keyType ownerRef).
Proof.
  apply keeps_bind.
  - repeat (apply keeps_bindE; [|intros ?]); try apply keeps_yield;
      try (apply keeps_act; intros m v _ Hc; by repeat case_match).
    apply keeps_statement. intros n v. unfold key_insert. by destruct (KeyStore.Insert _ _ _) as [[? ?]|].
  - intros [[[z new] kcv]|e]; [|apply keeps_yield]. apply keeps_bind; [apply keeps_rows; intros n v; right; by eexists _, _|].
    intros [u|e]; [|apply keeps_yield]. apply keeps_bind; [apply keeps_completeStep|].
    intros [u'|e]; apply keeps_yield.
Qed.

Lemma keeps_send_loop k keyType z n lastErr : keeps_row (send_loop k keyType z n lastErr).
Proof.
  revert lastErr. induction n as [|n IH]; intros lastErr; cbn [send_loop]; [apply keeps_yield|].
  apply keeps_bind; [apply keeps_act; intros m v [_ Hm] Hc; cbn; by rewrite Hc, Hm|]. intros []; [apply keeps_yield|].
  apply keeps_bind; [apply keeps_act; intros m v [_ Hm] Hc; destruct (m_up m); [by destruct (NextSTAN _)|done]|].
  intros [stan|]; [|apply IH].
  apply keeps_bind; [apply keeps_act; intros m v [_ Hm] Hc; cbn; by rewrite Hc, Hm|].
  intros [resp|e]; [|apply IH]. case_if; [apply IH|]. apply keeps_bindE; [apply keeps_completeStep|]. intros _. apply keeps_yield.
Qed.

Lemma keeps_Reload kt : keeps_row (Reload kt).
Proof.
  unfold Reload. case_if; [apply keeps_yield|]. apply keeps_bindE; [by apply keeps_statement|]. intros rows.
  repeat (case_match; [|apply keeps_yield]). intros v Hv. by apply always_bind, always_modify, always_yield.
Qed.

(** The row says FAILED, or COMPLETED when the rotation succeeded. *)
Definition settled_row {A} (r : result error A) (v : Vault) : Prop :=
  row_status v = Some (if is_ok r then completed_ else StatusFailed).

Lemma failed_settles name pending cause v :
  alive v → always (failed (failStep id name pending cause)) settled_row v.
Proof.
  intros Hv. apply always_bind. unfold failStep. apply always_bind.
  eapply always_mono with (Q := λ _ v', alive v').
  2: { case_if; [apply keeps_statement|apply keeps_yield]; done. }
  intros _ v1 H1. apply always_bind. eapply always_mono; [|by apply keeps_UpdateStep]. intros u2 v2 H2.
  apply always_bind. eapply always_mono; [|by apply keeps_WriteAudit]. intros u3 v3 H3.
  apply always_bind, healthy_statement; [done|]. intros n v4 [Hc4 H4] _.
  destruct (Fail_ id n v4) as [r v4'] eqn:E. assert (Hs : row_status v4' = Some StatusFailed ∧ cancelled v4' = false).
  { injection E as _ <-. unfold row_status in *. cbn. rewrite lookup_alter_eq. by destruct (rotations v4 !! id). }
  clear E. destruct Hs as [Hs Hc]. apply always_bind, healthy_statement; [split; [done|by rewrite Hs]|]. intros n5 v5 _ H5. unfold Get_.
  destruct (rotations v5 !! id); apply always_yield, always_yield; unfold settled_row; cbn; by rewrite H5, Hs.
Qed.

Lemma execute_settles keyType ownerRef v :
  alive v → always (execute zmk sendAttempts id keyType ownerRef) settled_row v.
Proof.
  intros Hv. unfold execute. apply always_bind. eapply always_mono; [|by apply keeps_runGenerate].
  intros [[[z kcv]|e] new] v1 H1; [|by apply failed_settles].
  apply always_bind. eapply always_mono; [|by apply keeps_send_loop]. intros [resp|e] v2 H2; [|by apply failed_settles].
  apply always_bind. eapply always_mono with (Q := λ _ v', alive v').
  2: { unfold runPartnerConfirm. case_if; [by apply keeps_yield|by apply keeps_completeStep]. }
  intros [[]|e] v3 H3; [|case_if; by apply failed_settles].
  apply always_bind. eapply always_mono with (Q := λ _ v', alive v').
  2: { apply (keeps_bindE _ _); [by apply keeps_statement|intros _; apply keeps_completeStep|done]. }
  intros [[]|e] v4 H4; [|by apply failed_settles].
  apply always_bind. eapply always_mono; [|by apply keeps_Reload]. intros u5 v5 H5.
  apply always_bindE, healthy_statement; [done|]. intros n v6 [Hc6 H6] _.
  destruct (Complete id kcv n v6) as [r v6'] eqn:E.
  assert (Hs : r = Ok () ∧ row_status v6' = Some completed_ ∧ cancelled v6' = false).
  { injection E as <- <-. unfold row_status in *. cbn. rewrite lookup_alter_eq. by destruct (rotations v6 !! id). }
  clear E. destruct Hs as (-> & Hs & Hc). apply healthy_statement; [split; [done|by rewrite Hs]|]. intros n7 v7 _ H7. unfold Get_.
  rewrite Hs in H7. destruct (rotations v7 !! id) eqn:E7; [exact H7|]. unfold row_status in H7. by rewrite E7 in H7.
Qed.
End settles.

(** C25. A rotation ends.  Whatever the environment does, [execute] returns after at most
    19 + 3 n of its moves, n the number of send attempts; and when its statements are run and nobody
    shuts the gateway down, its row is then COMPLETED if it succeeded and FAILED if it did not, never
    left RUNNING. *)
Theorem rotation_ends {H : Module_} zmk sendAttempts id keyType ownerRef v cs :
  (19 + 3 * sendAttempts ≤ length cs)%nat →
  ∃ r v' cs', execute zmk sendAttempts id keyType ownerRef v cs = Finished r v' cs' ∧
    (Forall healthy cs → cancelled v = false → row_status id v ≠ None →
     row_status id v' = Some (if is_ok r then completed_ else StatusFailed)).
Proof.
  intros Hn. destruct (within_execute zmk sendAttempts id keyType ownerRef v cs Hn) as (r & v' & cs' & E & _).
  exists r, v', cs'. split; [exact E|]. intros Hcs Hc Hr.
  pose proof (execute_settles zmk sendAttempts id keyType ownerRef v (conj Hc Hr) cs Hcs) as Hs. rewrite E in Hs. apply Hs.
Qed.

(** ** A rotation to evaluate *)

Definition vault_module : Module_ := JCEModule demo_lmk.
Definition demo_zmk : string := "0123456789abcdef".
Definition demo_new_key : string := "fedcba9876543210".

(** Everything works, the issuer confirms. *)
Definition good : move := mkMove Done (Some demo_new_key) (Some "000000000000") (Ok {[ 39 := "00" ]}) true Second false.
Definition answered (rc : string) : move :=
  mkMove Done (Some demo_new_key) (Some "000000000000") (Ok {[ 39 := rc ]}) true Second false.
(** A statement is lost. *)
Definition bad : move := mkMove Lost None None (Err []) true Second false.

Definition empty_vault : Vault := mkVault ∅ 1 [] empty_table None 0 [] [] (Date (2026, 9, 21) 0) false true false.

(** At startup the configured ZAK is registered and loaded; then a rotation is created. *)
Definition demo_vault : Vault :=
  left_by ((@ProvisionInitialKey vault_module "ZAK" (Some vector_zak) ;;~ @Reload vault_module "ZAK" ;;~
            statement false (Create "ZAK")) empty_vault (repeat good 10)).

Definition demo_rotate (cs : list move) : @ended Vault move (result error Row) :=
  @execute vault_module demo_zmk 3 1 "ZAK" "" demo_vault cs.

Definition demo_ok : Vault := left_by (demo_rotate (repeat good 40)).

(** A rotation that goes well, and one the issuer never settles. *)
Example demo_rotated :
  row_status 1 demo_ok = Some completed_ ∧ zak demo_ok = Some demo_new_key ∧
  List.map (λ k, (k_id k, KeyStore.k_status k)) (rows (keys demo_ok)) = [(1, KeyStore.RETIRED); (2, KeyStore.ACTIVE)].
Proof. split_and!; vm_compute; reflexivity. Qed.

Definition demo_unsettled : Vault := left_by (demo_rotate (repeat (answered "96") 40)).

Lemma demo_vault_keys : table_ok (keys demo_vault).
Proof.
  replace (keys demo_vault) with (apply_op empty_table (Date (2026, 9, 21) 0 + Second,
    OpEnsureActive "ZAK" (KeyUnderLMKHex (default (mkKeyRow 0 "" "" "" "" KeyStore.PENDING None None 0)
                                            (KeyStore.Get 1 (keys demo_vault)))) "D927EE"));
    [apply apply_op_ok, empty_ok|by vm_compute].
Qed.

Lemma rotation_follows_issuer_witness :
  length (sent demo_unsettled) = 3%nat ∧
  (∃ de48, Forall (carries_key de48) (sent demo_unsettled)) ∧
  (∀ r, KeyStore.Get 2 (keys demo_unsettled) = Some r →
     match KeyStore.k_status r with
     | KeyStore.PENDING => True
     | KeyStore.RETIRED => sent demo_unsettled = [] ∨ declined (got demo_unsettled)
     | KeyStore.ACTIVE => confirmed (got demo_unsettled)
     end) ∧
  (∀ i r, KeyStore.Get i (keys demo_vault) = Some r →
     KeyStore.Get i (keys demo_unsettled) = Some r ∨ confirmed (got demo_unsettled)).
Proof.
  split; [vm_compute; reflexivity|].
  exact (@rotation_follows_issuer vault_module demo_zmk 3 1 "ZAK" "" demo_vault (repeat (answered "96") 40)
           demo_vault_keys ltac:(vm_compute; reflexivity) ltac:(vm_compute; reflexivity)).
Defined.

Lemma rotation_ends_witness :
  ∃ r v' cs', @execute vault_module demo_zmk 3 1 "ZAK" "" demo_vault (repeat (answered "96") 40) = Finished r v' cs' ∧
    row_status 1 v' = Some (if is_ok r then completed_ else StatusFailed).
Proof.
  assert (Hh : Forall healthy (repeat (answered "96") 40)).
  { apply Forall_forall. intros m Hm. apply list_elem_of_In, repeat_spec in Hm. by rewrite Hm. }
  destruct (@rotation_ends vault_module demo_zmk 3 1 "ZAK" "" demo_vault (repeat (answered "96") 40)
              ltac:(rewrite repeat_length; lia)) as (r & v' & cs' & E & Hr).
  exists r, v', cs'. split; [exact E|]. apply Hr; [exact Hh|vm_compute; reflexivity|vm_compute; discriminate].
Defined.

(** *** An activated key that is not loaded *)

(** The statement that marks ACTIVATE done is lost. *)
Definition demo_stale : Vault := left_by (demo_rotate (repeat good 15 ++ [bad] ++ repeat good 20)).

(** A 0210 the issuer MACs with the key it confirmed. *)
Definition demo_0210 : fieldmap :=
  match @attachMAC vault_module demo_new_key "0210" {[ 7 := "0921000000"; 11 := "000002"; 39 := "00" ]} with
  | Ok f => f
  | Err _ => ∅
  end.

(** An activated key may stay unloaded.  [runActivate] activates the key and then marks its step;
    when the marking fails the activation hook is not called: the issuer confirmed the key and it is
    the ACTIVE one of key_store, the rotation says FAILED, and the gateway goes on with the old key.
    Until a restart it MACs with the old key, and rejects every answer MACed with the new one: an
    ACTIVE key is not among the fallback keys. *)
Theorem activated_key_not_loaded :
  confirmed (got demo_stale) ∧ row_status 1 demo_stale = Some StatusFailed ∧
  ActiveKCV "ZAK" (keys demo_stale) = Some "B62C2F" ∧ @hsm_kcv vault_module demo_new_key = Ok "B62C2F" ∧
  ActiveZAK demo_stale = vector_zak ∧
  @Verify vault_module (live_verifier (ActiveZAK demo_stale) (clock demo_stale) (keys demo_stale)) "0210" demo_0210 = false ∧
  @Verify vault_module (live_verifier (ActiveZAK demo_ok) (clock demo_ok) (keys demo_ok)) "0210" demo_0210 = true.
Proof.
  split; [eexists; split; vm_compute; reflexivity|].
  split_and!; vm_compute; reflexivity.
Qed.
