(* ===== verification/Supervisor.v ===== *)
(** * Supervisor: keeping the link to the issuer

    [gateway-go/internal/isonet/supervisor.go], [internal/store/links.go] and the STAN resumption of
    [internal/store/tranlog.go] and [cmd/gateway/main.go].  The supervision loop runs against a script
    of what the network, the issuer and the database do; Mux.v models the connection itself. *)

From S2P Require Import Prelude Digits Journey Codec Net Mux KeyStore Mac Calendar Store Script.
Local Open Scope Z_scope.
Local Open Scope script_scope.

(** ** links.go *)

Record Link := mkLink {
  Endpoint : string; l_Status : string; LastEchoAt : option time; LastEchoLatencyMs : option Z;
  P99LatencyMs : p99; InFlight : Z
}.

Record NetworkEvent := mkEvent {
  e_ID : Z; OccurredAt : time; Code : string; Severity : string; EasyText : string; TechnicalText : string }.

(** The JSON of a row; [lastEchoOk] is derived from the time of the last echo that was recorded. *)
Definition gatewayEndpoint : string := "gateway".
Record linkBody := mkLinkBody {
  lb_LinkID : string; lb_From : string; lb_To : string; lb_Status : string; lb_LastEchoAt : option time;
  lb_LastEchoOk : option bool; lb_P99LatencyMs : p99; lb_InFlight : Z }.
Definition Link_MarshalJSON (l : Link) : linkBody :=
  mkLinkBody (Endpoint l) gatewayEndpoint (Endpoint l) (l_Status l) (LastEchoAt l)
    (match LastEchoAt l with Some _ => Some true | None => None end) (P99LatencyMs l) (InFlight l).

Record eventBody := mkEventBody {
  eb_ID : string; eb_OccurredAt : time; eb_Severity : string; eb_Code : option string; eb_EasyText : string;
  eb_TechnicalText : string }.
Definition NetworkEvent_MarshalJSON (e : NetworkEvent) : eventBody :=
  mkEventBody (Itoa (e_ID e)) (OccurredAt e) (Severity e) (if String.eqb (Code e) "" then None else Some (Code e))
    (EasyText e) (TechnicalText e).

Definition endpointName : string := "issuer".

(** ** State *)

(** One 0800 of the supervisor: the connection it went out on, its DE 70, and the RC of the answer. *)
Record exchange := mkExchange { x_conn : Z; x_code : string; x_answer : option string }.

Inductive shown := ShowLink (l : Link) | ShowEvent (e : NetworkEvent).

Record Line := mkLine {
  links : gmap string Link; events : list NetworkEvent; next_event : Z;
  mux : option Z;                       (* the live connection, by number *)
  conns : Z;                            (* connections made so far *)
  stan : Z; signOnAgain : bool; latencies : latencyWindow;
  log : list exchange; attempts : list Z;    (* the attempt numbers given to Backoff.Delay *)
  hub : bool; told : list shown; clock : time; cancelled : bool
}.

Inductive branch := BDone | BServeErr | BSignOnAgain | BTick.

(** What the environment does at one step. *)
Record turn := mkTurn {
  t_ok : bool;                          (* the statement, or the dial, succeeds *)
  t_answer : option string;             (* the RC of the 0810; None when none comes *)
  t_branch : branch;                    (* which case of a select is taken *)
  t_again : bool;                       (* a request was answered 91 meanwhile *)
  t_drawn : Z;                          (* STANs drawn meanwhile *)
  t_pending : Z; t_took : duration; t_cancel : bool; t_rand : Z
}.

Abbreviation flow := (@script Line turn).

Definition pass (t : turn) (v : Line) : Line :=
  mkLine (links v) (events v) (next_event v) (mux v) (conns v) (stan v + Z.max 0 (t_drawn t)) (signOnAgain v || t_again t)
    (latencies v) (log v) (attempts v) (hub v) (told v) (clock v + Z.max 0 (t_took t)) (cancelled v || t_cancel t).

Definition set_mux (m : option Z) (v : Line) : Line :=
  mkLine (links v) (events v) (next_event v) m (conns v) (stan v) (signOnAgain v) (latencies v) (log v) (attempts v)
    (hub v) (told v) (clock v) (cancelled v).
Definition set_latencies (l : latencyWindow) (v : Line) : Line :=
  mkLine (links v) (events v) (next_event v) (mux v) (conns v) (stan v) (signOnAgain v) l (log v) (attempts v)
    (hub v) (told v) (clock v) (cancelled v).
Definition tell (s : shown) (v : Line) : Line :=
  mkLine (links v) (events v) (next_event v) (mux v) (conns v) (stan v) (signOnAgain v) (latencies v) (log v) (attempts v)
    (hub v) (told v ++ [s]) (clock v) (cancelled v).

(** A statement of the repository; [false] is an error. *)
Definition statement (f : time → Line → Line) : flow bool :=
  act (λ t v, let v := pass t v in if t_ok t then (true, f (clock v) v) else (false, v)).

Definition alter_link (f : Link → Link) (v : Line) : Line :=
  mkLine (alter f endpointName (links v)) (events v) (next_event v) (mux v) (conns v) (stan v) (signOnAgain v)
    (latencies v) (log v) (attempts v) (hub v) (told v) (clock v) (cancelled v).

Definition SetStatus (status : string) (_ : time) : Line → Line :=
  alter_link (λ l, mkLink (Endpoint l) status (LastEchoAt l) (LastEchoLatencyMs l) (P99LatencyMs l) (InFlight l)).
Definition RecordEcho (latencyMs : Z) (now : time) : Line → Line :=
  alter_link (λ l, mkLink (Endpoint l) (l_Status l) (Some now) (Some latencyMs) (P99LatencyMs l) (InFlight l)).
Definition AppendEvent (e : NetworkEvent) (v : Line) : Line :=
  mkLine (links v) (events v ++ [e]) (next_event v + 1) (mux v) (conns v) (stan v) (signOnAgain v) (latencies v) (log v)
    (attempts v) (hub v) (told v) (clock v) (cancelled v).

(** ** supervisor.go *)

Record Config := mkConfig {
  EchoInterval : duration; EchoTimeout : duration; EchoFailureLimit : Z; c_Backoff : Backoff }.

Definition maxDefaultEchoTimeout : duration := 10 * Second.

(** The defaults of [NewSupervisor]. *)
Definition NewSupervisor (cfg : Config) : Config :=
  let timeout := if EchoTimeout cfg =? 0 then
                   let t := Z.min (EchoInterval cfg) maxDefaultEchoTimeout in
                   if t <=? 0 then maxDefaultEchoTimeout else t
                 else EchoTimeout cfg in
  let backoff := if (Base (c_Backoff cfg) =? 0) && (Cap (c_Backoff cfg) =? 0)
                 then mkBackoff Second (30 * Second) else c_Backoff cfg in
  mkConfig (EchoInterval cfg) timeout (EchoFailureLimit cfg) backoff.

Definition statusConnected : string := "CONNECTED".
Definition statusSignedOn : string := "SIGNED_ON".
Definition severityInfo : string := "INFO".
Definition severityWarn : string := "WARN".
Definition rcNotSignedOn : string := "91".

(** [LinkMetrics] beyond the window: what awaits an answer on the live connection. *)
Definition broadcastLink : flow () :=
  h <~ gets hub;
  if negb h then yield ()
  else
    l <~ act (λ t v, let v := pass t v in
                     (if t_ok t then (λ l, (l, t_pending t)) <$> links v !! endpointName else None, v));
    match l with
    | None => yield ()
    | Some (l, pending) =>
        modify (λ v, tell (ShowLink (mkLink (Endpoint l) (l_Status l) (LastEchoAt l) (LastEchoLatencyMs l)
                                       (p99Ms (latencies v)) (match mux v with Some _ => pending | None => 0 end))) v)
    end.

Definition setStatus (status : string) : flow () := statement (SetStatus status) ;;~ broadcastLink.

Definition recordEvent (code severity easyText technicalText : string) : flow () :=
  evt <~ act (λ t v, let v := pass t v in
                     if t_ok t then
                       let e := mkEvent (next_event v) (clock v) code severity easyText technicalText in
                       (Some e, AppendEvent e v)
                     else (None, v));
  h <~ gets hub;
  match evt with
  | Some e => if (h : bool) then modify (tell (ShowEvent e)) else yield ()
  | None => yield ()
  end.

(** An 0800 on the live connection: DE 70, the next STAN, and the RC of the 0810. *)
Definition sendNetwork (code : string) : flow (option string) :=
  act (λ t v, let v := pass t v in
    match mux v with
    | None => (None, v)                 (* unreachable: see [signs_on_first] *)
    | Some conn =>
        (t_answer t,
         mkLine (links v) (events v) (next_event v) (mux v) (conns v) (NextSTAN (stan v)).1 (signOnAgain v) (latencies v)
           (log v ++ [mkExchange conn code (t_answer t)]) (attempts v) (hub v) (told v) (clock v) (cancelled v))
    end).

Definition answered_00 (rc : option string) : bool := match rc with Some rc => String.eqb rc "00" | None => false end.

Definition signOn : flow bool := rc <~ sendNetwork "001"; yield (answered_00 rc).
Definition signOff : flow bool := rc <~ sendNetwork "002"; yield (match rc with Some _ => true | None => false end).

(** The latency of a good echo. *)
Definition echo : flow (option duration) :=
  start <~ gets clock;
  rc <~ sendNetwork "301";
  if answered_00 rc then
    now <~ gets clock;
    modify (λ v, set_latencies (add (latencies v) (now - start)) v) ;;~ yield (Some (now - start))
  else yield None.

(** With the failures in a row, and whether the link is dropped. *)
Definition echoTick (limit failures : Z) : flow (Z * bool) :=
  latency <~ echo;
  match latency with
  | None => let failures := failures + 1 in yield (failures, limit <=? failures)
  | Some latency => statement (RecordEcho (Z.quot latency Millisecond)) ;;~ yield (0, false)
  end.

Definition resignOn : flow () :=
  ok <~ signOn;
  if negb ok then recordEvent "SIGN_ON_FAILED" severityWarn "Issuer still holds the link signed off" "0800 sign-on after RC 91 failed"
  else
    setStatus statusSignedOn ;;~
    recordEvent "SIGNED_ON_AGAIN" severityWarn "Signed on again: the issuer had the link signed off" "RC 91 on a request".

(** The case of the select that is taken, when it is ready. *)
Definition select : flow (option branch) :=
  act (λ t v, let v := pass t v in
    match t_branch t with
    | BDone => (if cancelled v then Some BDone else None, v)
    | BSignOnAgain =>
        (if signOnAgain v then Some BSignOnAgain else None,
         mkLine (links v) (events v) (next_event v) (mux v) (conns v) (stan v) false (latencies v) (log v) (attempts v)
           (hub v) (told v) (clock v) (cancelled v))
    | b => (Some b, v)
    end).

(** How a connection ended: the error [runOnce] returns, by where it comes from. *)
Inductive ending := NotDialed | NotSignedOn | ShutDown | ServeEnded | EchoesFailed.

Definition watch (cfg : Config) (failures : Z) : flow (Z + ending) :=
  b <~ select;
  match b with
  | None => yield (inl failures)
  | Some BDone => signOff ;;~ yield (inr ShutDown)
  | Some BServeErr => yield (inr ServeEnded)
  | Some BSignOnAgain => resignOn ;;~ yield (inl failures)
  | Some BTick =>
      r <~ echoTick (EchoFailureLimit cfg) failures;
      yield (if (r.2 : bool) then inr EchoesFailed else inl r.1)
  end.

Definition dial : flow bool :=
  act (λ t v, let v := pass t v in
    (t_ok t, if t_ok t then
               mkLine (links v) (events v) (next_event v) (mux v) (conns v + 1) (stan v) (signOnAgain v) (latencies v)
                 (log v) (attempts v) (hub v) (told v) (clock v) (cancelled v)
             else v)).

(** The connection is live from here to the deferred reset of [mux]. *)
Definition connected (cfg : Config) : flow ending :=
  modify (λ v, set_mux (Some (conns v)) v) ;;~
  ok <~ signOn;
  r <~ (if negb ok then yield NotSignedOn
        else
          setStatus statusSignedOn ;;~
          recordEvent "LINK_UP" severityInfo "Link to issuer is up" "signed on" ;;~
          forever (watch cfg) 0);
  modify (set_mux None) ;;~ yield r.

Definition runOnce (cfg : Config) : flow ending :=
  ok <~ dial;
  if negb ok then yield NotDialed
  else setStatus statusConnected ;;~ connected cfg.

(** [ResumeSTANAfter]: load, then compare and swap, until the count is past [last]. *)
Definition resume_round (last : Z) (_ : ()) : flow (() + ()) :=
  cur <~ act (λ t v, let v := pass t v in (stan v, v));
  if last <=? cur then yield (inr ())
  else
    swapped <~ act (λ t v, let v := pass t v in
      if stan v =? cur then
        (true, mkLine (links v) (events v) (next_event v) (mux v) (conns v) last (signOnAgain v) (latencies v) (log v)
                 (attempts v) (hub v) (told v) (clock v) (cancelled v))
      else (false, v));
    yield (if (swapped : bool) then inr () else inl ()).

Definition ResumeSTANAfter (last : Z) : flow () := forever (resume_round last) ().

(** One turn of [Run]: a connection, then the wait before the next. *)
Definition run_round (cfg : Config) (attempt : Z) : flow (Z + ()) :=
  stop <~ gets cancelled;
  if (stop : bool) then yield (inr ())
  else
    runOnce cfg ;;~
    stop <~ gets cancelled;
    if (stop : bool) then yield (inr ())
    else
      setStatus "DOWN" ;;~
      recordEvent "LINK_DOWN" severityWarn "Link to issuer is down" "reconnecting with backoff" ;;~
      act (λ t v, let v := pass t v in
        let delay := Delay (c_Backoff cfg) (λ n, if (0 <=? t_rand t) && (t_rand t <? n) then t_rand t else 0) attempt in
        ((), mkLine (links v) (events v) (next_event v) (mux v) (conns v) (stan v) (signOnAgain v) (latencies v) (log v)
               (attempts v ++ [attempt]) (hub v) (told v) (clock v + delay) (cancelled v))) ;;~
      yield (inl (attempt + 1)).

(** [lastSTAN] is what [Config.LastSTAN] answers, when there is one and the query succeeds. *)
Definition Run (cfg : Config) (lastSTAN : option Z) : flow bool :=
  resumed <~ match lastSTAN with
             | None => yield true
             | Some last =>
                 ok <~ act (λ t v, (t_ok t, pass t v));
                 if (ok : bool) then ResumeSTANAfter last ;;~ yield true else yield false
             end;
  if negb resumed then gets cancelled    (* shut down before the first connection, or an error *)
  else forever (run_round cfg) 0 ;;~ yield true.

(** *** Requests from outside the loop *)

Record EchoResult := mkEchoResult { OK : bool; LatencyMs : option Z; ResponseCode : option string }.

Definition sendManualEcho : flow EchoResult :=
  live <~ gets mux;
  match live with
  | None => yield (mkEchoResult false None None)
  | Some _ =>
      start <~ gets clock;
      rc <~ sendNetwork "301";
      match rc with
      | None => yield (mkEchoResult false None None)
      | Some rc =>
          now <~ gets clock;
          modify (λ v, set_latencies (add (latencies v) (now - start)) v) ;;~
          yield (mkEchoResult (String.eqb rc "00") (Some (Z.quot (now - start) Millisecond)) (Some rc))
      end
  end.

Definition TriggerEcho : flow EchoResult :=
  result <~ sendManualEcho;
  if negb (OK result) then
    recordEvent "ECHO_FAILED" severityWarn "Echo to issuer failed" "manual 0800 DE70=301 got no RC 00" ;;~ yield result
  else
    statement (RecordEcho (default 0 (LatencyMs result))) ;;~ broadcastLink ;;~
    recordEvent "ECHO_OK" severityInfo "Echo to issuer answered" "manual 0800 DE70=301" ;;~ yield result.

Definition TriggerSignOn : flow bool :=
  live <~ gets mux;
  match live with
  | None => yield false                                   (* ErrNotSignedOn *)
  | Some _ =>
      ok <~ signOn;
      if negb ok then
        recordEvent "SIGN_ON_FAILED" severityWarn "Sign-on to issuer failed" "manual 0800 DE70=001" ;;~ yield false
      else
        setStatus statusSignedOn ;;~
        recordEvent "SIGNED_ON" severityInfo "Signed on to issuer" "manual 0800 DE70=001" ;;~ yield true
  end.

Definition TriggerSignOff : flow bool :=
  live <~ gets mux;
  match live with
  | None => yield false
  | Some _ =>
      ok <~ signOff;
      if negb ok then yield false
      else
        setStatus statusConnected ;;~
        recordEvent "SIGNED_OFF" severityInfo "Signed off from issuer" "manual 0800 DE70=002" ;;~ yield true
  end.

Definition LinkMetrics (pending : Z) (v : Line) : p99 * Z :=
  (p99Ms (latencies v), match mux v with Some _ => pending | None => 0 end).
Definition IsSignedOn (v : Line) : bool := match mux v with Some _ => true | None => false end.

Definition supervisor_NextSTAN : flow (option string) :=
  act (λ t v, let v := pass t v in
    match mux v with
    | None => (None, v)
    | Some _ =>
        let '(n, s) := NextSTAN (stan v) in
        (Some s, mkLine (links v) (events v) (next_event v) (mux v) (conns v) n (signOnAgain v) (latencies v) (log v)
                   (attempts v) (hub v) (told v) (clock v) (cancelled v))
    end).

(** A request of [mti] on the live connection: its DE 39, [None] for an error of the mux. *)
Inductive sent_request := RNotSignedOn | RFailed | RAnswered (rc : string).

Definition Send (mti : string) : flow sent_request :=
  act (λ t v,
    match mux v with
    | None => (RNotSignedOn, v)
    | Some _ =>
        let start := clock v in
        let v := pass t v in
        match t_answer t with
        | None => (RFailed, v)
        | Some rc =>
            let again := String.eqb rc rcNotSignedOn && negb (String.eqb (str_take 2 mti) "08") in
            (RAnswered rc,
             mkLine (links v) (events v) (next_event v) (mux v) (conns v) (stan v) (signOnAgain v || again)
               (add (latencies v) (clock v - start)) (log v) (attempts v) (hub v) (told v) (clock v) (cancelled v))
        end
    end).

(** ** tranlog.go: LastSTANInRRNPrefix *)

(** [rrn LIKE prefix || '%' AND rrn ~ '^[0-9]{12}$'] *)
Definition numbered (prefix rrn : string) : bool :=
  String.eqb (str_take (slen prefix) rrn) prefix && (slen rrn =? 12)%nat && str_forall is_digit rrn.

Definition LastSTANInRRNPrefix (prefix : string) (db : DB) : Z :=
  foldr Z.max 0 (map (λ r, undec (str_slice 6 12 (RRN r)))
                   (List.filter (λ r, numbered prefix (RRN r)) (map snd (map_to_list (tran db))))).

(** What [cmd/gateway] passes as [Config.LastSTAN]. *)
Definition lastSTAN (now : time) (db : DB) : Z := LastSTANInRRNPrefix (BuildRRN now "") db.

(** ** The rest of the link *)

(** Steps that send no 0800 and open no connection. *)
Definition view (v : Line) : list exchange * option Z * Z := (log v, mux v, conns v).

Section loop.
Context (I : Line → Prop).
Hypothesis I_view : ∀ v v', view v' = view v → I v → I v'.

Definition quiet {A} (p : flow A) : Prop :=
  ∀ v (Q : A → Line → Prop), I v → (∀ a v', view v' = view v → Q a v') → always any I p Q v.

Lemma quiet_act {A} (f : turn → Line → A * Line) : (∀ t v, view (f t v).2 = view v) → quiet (act f).
Proof.
  intros Hf v Q Hi HQ. apply always_act; [done|]. intros t a v' _ E. apply HQ. pose proof (Hf t v) as H.
  rewrite E in H. exact H.
Qed.

Lemma quiet_yield {A} (a : A) : quiet (yield a).
Proof. intros v Q Hi HQ. by apply always_yield, HQ. Qed.

Lemma quiet_gets {A} (f : Line → A) : quiet (gets f).
Proof. intros v Q Hi HQ. by apply always_gets, HQ. Qed.

Lemma quiet_modify f : (∀ v, view (f v) = view v) → quiet (modify f).
Proof. intros Hf v Q Hi HQ. by apply always_modify, HQ. Qed.

Lemma quiet_bind {A B} (p : flow A) (f : A → flow B) : quiet p → (∀ a, quiet (f a)) → quiet (sbind p f).
Proof.
  intros Hp Hf v Q Hi HQ. apply always_bind, Hp; [done|]. intros a v' Hv. apply Hf; [by eapply I_view|].
  intros b v'' Hv'. apply HQ. congruence.
Qed.

Lemma quiet_statement f : (∀ n v, view (f n v) = view v) → quiet (statement f).
Proof. intros Hf. apply quiet_act. intros t v. destruct (t_ok t); [|done]. apply (Hf _ (pass t v)). Qed.

Lemma quiet_broadcastLink : quiet broadcastLink.
Proof.
  apply quiet_bind; [apply quiet_gets|]. intros h. case_if; [apply quiet_yield|].
  apply quiet_bind; [by apply quiet_act|]. intros [[l n]|]; [by apply quiet_modify|apply quiet_yield].
Qed.

Lemma quiet_setStatus st : quiet (setStatus st).
Proof. apply quiet_bind; [by apply quiet_statement|]. intros _. apply quiet_broadcastLink. Qed.

Lemma quiet_recordEvent c s e t : quiet (recordEvent c s e t).
Proof.
  apply quiet_bind; [apply quiet_act; intros u v; by destruct (t_ok u)|]. intros evt.
  apply quiet_bind; [apply quiet_gets|]. intros h. destruct evt; [|apply quiet_yield].
  case_if; [by apply quiet_modify|apply quiet_yield].
Qed.

Lemma quiet_select : quiet select.
Proof. apply quiet_act. intros t v. by destruct (t_branch t). Qed.
End loop.

(** ** What goes out on a connection *)

(** An accepted sign-on on connection [n]. *)
Definition signed_on (n : Z) (l : list exchange) : Prop :=
  ∃ y, y ∈ l ∧ x_conn y = n ∧ x_code y = "001" ∧ x_answer y = Some "00".

(** Every echo was preceded by an accepted sign-on on its connection. *)
Definition echoes_signed_on (l : list exchange) : Prop :=
  ∀ pre x post, l = pre ++ x :: post → x_code x = "301" → signed_on (x_conn x) pre.

(** One connection after the other. *)
Definition in_turn (l : list exchange) : Prop := ∀ i j x y, (i < j)%nat → l !! i = Some x → l !! j = Some y → x_conn x ≤ x_conn y.

Record line_ok (v : Line) : Prop := {
  lo_echoes : echoes_signed_on (log v);
  lo_turn : in_turn (log v);
  lo_conns x : x ∈ log v → x_conn x ≤ conns v;
  lo_mux : mux v = None ∨ mux v = Some (conns v)
}.

Lemma line_ok_view v v' : view v' = view v → line_ok v → line_ok v'.
Proof. intros Hv. injection Hv as Hl Hm Hc. intros []. split; by rewrite ?Hl, ?Hm, ?Hc. Qed.

Lemma echoes_snoc l x :
  echoes_signed_on l → (x_code x = "301" → signed_on (x_conn x) l) → echoes_signed_on (l ++ [x]).
Proof.
  intros Hl Hx pre y post E Hy. destruct post as [|z post _] using rev_ind.
  - apply app_inj_tail in E as [-> ->]. by apply Hx.
  - rewrite app_comm_cons, app_assoc in E. apply app_inj_tail in E as [-> _]. by eapply Hl.
Qed.

Lemma in_turn_snoc l x : in_turn l → (∀ y, y ∈ l → x_conn y ≤ x_conn x) → in_turn (l ++ [x]).
Proof.
  intros Hl Hx i j y z Hij Hi Hj. apply lookup_app_Some in Hj as [Hj|[Hj Hz]].
  - rewrite lookup_app_l in Hi by (apply lookup_lt_Some in Hj; lia). by eapply Hl.
  - apply list_lookup_singleton_Some in Hz as [Hj' <-].
    rewrite lookup_app_l in Hi by lia. apply Hx. by eapply list_elem_of_lookup_2.
Qed.

Abbreviation always := (always any line_ok).

Lemma send_always code (Q : option string → Line → Prop) v :
  line_ok v → mux v = Some (conns v) → (code = "301" → signed_on (conns v) (log v)) →
  (∀ ans v', line_ok v' → mux v' = Some (conns v') → conns v' = conns v →
     log v' = log v ++ [mkExchange (conns v) code ans] → Q ans v') →
  always (sendNetwork code) Q v.
Proof.
  intros Hok Hm Hs HQ. apply always_act; [done|]. intros t a v' _ E. cbn zeta in E.
  change (mux (pass t v)) with (mux v) in E. rewrite Hm in E. injection E as <- <-.
  destruct Hok as [He Ht Hc _]. apply HQ; try done. split; cbn.
  - by apply echoes_snoc.
  - by apply in_turn_snoc.
  - intros x [Hx|Hx%list_elem_of_singleton]%elem_of_app; [by apply Hc|by subst].
  - by right.
Qed.

(** While a connection lives: what was logged, and whether its sign-on was accepted. *)
Definition live (n : Z) (v : Line) : Prop := line_ok v ∧ mux v = Some n ∧ conns v = n.
Definition watched (n : Z) (v : Line) : Prop := live n v ∧ signed_on n (log v).

Lemma live_view n v v' : view v' = view v → live n v → live n v'.
Proof.
  intros Hv [Hok Hm]. pose proof (line_ok_view _ _ Hv Hok). injection Hv as Hl Hmm Hc. split; [done|].
  by rewrite Hmm, Hc.
Qed.

Lemma watched_view n v v' : view v' = view v → watched n v → watched n v'.
Proof. intros Hv [Hl Hs]. split; [by eapply live_view|]. injection Hv as Hlog _ _. by rewrite Hlog. Qed.

Lemma signed_on_snoc n l x : signed_on n l → signed_on n (l ++ [x]).
Proof. intros (y & Hy & H). exists y. split; [apply elem_of_app; by left|done]. Qed.

(** What survives the steps that send no 0800. *)
Section kept.
Context (W : Line → Prop).
Hypothesis W_ok : ∀ v, W v → line_ok v.
Hypothesis W_view : ∀ v v', view v' = view v → W v → W v'.

Lemma quiet_kept {A} (p : flow A) (Q : A → Line → Prop) v :
  quiet line_ok p → W v → (∀ a v', W v' → Q a v') → always p Q v.
Proof. intros Hp Hw HQ. apply Hp; [by apply W_ok|]. intros a v' Hv. by apply HQ, (W_view v). Qed.

Hypothesis W_send : ∀ code v (Q : option string → Line → Prop),
  code ≠ "301" → W v → (∀ ans v', W v' → Q ans v') → always (sendNetwork code) Q v.

Lemma resignOn_kept (Q : () → Line → Prop) v :
  W v → (∀ u v', W v' → Q u v') → always resignOn Q v.
Proof.
  intros Hw HQ. unfold resignOn, signOn. apply always_bind, always_bind, W_send; [done..|].
  intros rc v1 H1. apply always_yield. case_if.
  - by apply quiet_kept; [apply quiet_recordEvent, line_ok_view|..].
  - apply always_bind, quiet_kept; [apply quiet_setStatus, line_ok_view|exact H1|]. intros _ v2 H2.
    by apply quiet_kept; [apply quiet_recordEvent, line_ok_view|..].
Qed.
End kept.

(** The loop's calls, on a watched connection. *)
Lemma quiet_watched {A} n (p : flow A) (Q : A → Line → Prop) v :
  quiet line_ok p → watched n v → (∀ a v', watched n v' → Q a v') → always p Q v.
Proof. apply quiet_kept; [by intros w [[]]|apply watched_view]. Qed.

Lemma send_watched n code (Q : option string → Line → Prop) v :
  watched n v → (∀ ans v', watched n v' → Q ans v') → always (sendNetwork code) Q v.
Proof.
  intros [[Hok [Hm Hc]] Hs] HQ. apply send_always; [done|by rewrite Hm, Hc|by rewrite Hc|].
  intros ans v' Hok' Hm' Hc' Hl'. apply HQ. split; [split; [done|]; by rewrite Hm', Hc', Hc|].
  rewrite Hl'. by apply signed_on_snoc.
Qed.

Lemma resignOn_watched n (Q : () → Line → Prop) v :
  watched n v → (∀ u v', watched n v' → Q u v') → always resignOn Q v.
Proof.
  apply resignOn_kept; [by intros w [[]]|apply watched_view|]. intros code w Q' _. apply send_watched.
Qed.

Lemma echoTick_watched n limit failures (Q : Z * bool → Line → Prop) v :
  watched n v → (∀ r v', watched n v' → Q r v') → always (echoTick limit failures) Q v.
Proof.
  intros Hw HQ. unfold echoTick, echo. apply always_bind, always_bind, always_gets, always_bind.
  eapply send_watched; [done|]. intros rc v1 H1. destruct (answered_00 rc).
  - apply always_bind, always_gets, always_bind, always_modify, always_yield, always_bind.
    eapply quiet_watched; [by apply quiet_statement| |].
    + eapply watched_view; [|exact H1]. done.
    + intros b v2 H2. by apply always_yield, HQ.
  - by apply always_yield, always_yield, HQ.
Qed.

Definition idle (v : Line) : Prop := line_ok v ∧ mux v = None.

Lemma idle_view v v' : view v' = view v → idle v → idle v'.
Proof. intros Hv [Hok Hm]. split; [by eapply line_ok_view|]. injection Hv as _ -> _. exact Hm. Qed.

Lemma watch_watched n cfg failures (Q : Z + ending → Line → Prop) v :
  watched n v → (∀ r v', watched n v' → Q r v') → always (watch cfg failures) Q v.
Proof.
  intros Hw HQ. unfold watch. apply always_bind. eapply quiet_watched; [apply quiet_select|exact Hw|].
  intros [[| | |]|] v1 H1; try by apply always_yield, HQ.
  - apply always_bind. unfold signOff. apply always_bind. eapply send_watched; [done|]. intros rc v2 H2.
    by apply always_yield, always_yield, HQ.
  - apply always_bind. eapply resignOn_watched; [done|]. intros u v2 H2. by apply always_yield, HQ.
  - apply always_bind. eapply echoTick_watched; [done|]. intros r v2 H2. by apply always_yield, HQ.
Qed.

Lemma connected_idle cfg v (Q : ending → Line → Prop) :
  idle v → (∀ r v', idle v' → Q r v') → always (connected cfg) Q v.
Proof.
  intros [Hok Hm] HQ. unfold connected. apply always_bind, always_modify.
  set (v1 := set_mux (Some (conns v)) v).
  assert (H1 : live (conns v) v1) by (split; [destruct Hok; split; [done..|by right]|done]).
  assert (Hend : ∀ r v2, line_ok v2 → always (modify (set_mux None) ;;~ yield r : flow ending) Q v2).
  { intros r v2 [He Ht Hc _]. apply always_bind, always_modify, always_yield, HQ. split; [split; [done..|by left]|done]. }
  apply always_bind. unfold signOn. apply always_bind, send_always; [apply H1|done|done|].
  intros ans v2 Hok2 Hm2 Hc2 Hl2. apply always_yield, always_bind.
  destruct (answered_00 ans) eqn:Ea; cbn [negb]; [|apply always_yield; by apply Hend].
  assert (H2 : watched (conns v) v2).
  { split; [split; [done|]; by rewrite Hm2, Hc2|]. rewrite Hl2.
    destruct ans as [rc|]; [|done]. apply String.eqb_eq in Ea as ->.
    exists (mkExchange (conns v) "001" (Some "00")). split; [apply elem_of_app; right; by apply list_elem_of_singleton|done]. }
  apply always_bind. eapply quiet_watched; [apply quiet_setStatus, line_ok_view|exact H2|]. intros _ v3 H3.
  apply always_bind. eapply quiet_watched; [apply quiet_recordEvent, line_ok_view|exact H3|]. intros _ v4 H4.
  apply (always_forever _ _ (λ _ v, watched (conns v1) v)); [by intros _ w [[? _] _]| |exact H4].
  intros failures w Hw. eapply watch_watched; [done|]. intros [f|r] w' Hw'; [exact Hw'|]. apply Hend, Hw'.
Qed.

Lemma runOnce_dials cfg v (Q : ending → Line → Prop) :
  idle v → (∀ v', idle v' → Q NotDialed v') →
  (∀ v', idle v' → conns v' = conns v + 1 → (∀ x, x ∈ log v' → x_conn x < conns v') → always (connected cfg) Q v') →
  always (runOnce cfg) Q v.
Proof.
  intros Hi HQ Hconn. unfold runOnce. apply always_bind, always_act; [apply Hi|]. intros t ok v1 _ [= <- <-].
  destruct (t_ok t); cbn [negb]; [|by apply always_yield, HQ, (idle_view v)].
  match goal with |- Script.always _ _ _ _ ?w => set (v2 := w) end.
  assert (Hlt : ∀ x, x ∈ log v2 → x_conn x < conns v2).
  { intros x Hx. pose proof (lo_conns v (proj1 Hi) x Hx). cbn. lia. }
  assert (H2 : idle v2).
  { destruct Hi as [[He Ht Hc Hm] Hmm]. split; [split; [done|done| |by left]|done].
    intros x Hx. specialize (Hlt x Hx). lia. }
  apply always_bind, quiet_setStatus; [apply line_ok_view|apply H2|]. intros _ v3 H3.
  apply Hconn; [by apply (idle_view v2)|..]; injection H3 as Hlog _ Hc; rewrite Hc; [done|]. by rewrite Hlog.
Qed.

Lemma runOnce_idle cfg v (Q : ending → Line → Prop) :
  idle v → (∀ r v', idle v' → Q r v') → always (runOnce cfg) Q v.
Proof. intros Hi HQ. apply runOnce_dials; [done|apply HQ|]. intros v' Hv' _ _. by apply connected_idle. Qed.

Lemma resume_quiet last : quiet line_ok (ResumeSTANAfter last).
Proof.
  intros v Q Hok HQ. apply (always_forever _ _ (λ _ v', view v' = view v)); [| |done].
  - intros _ w Hw. by eapply line_ok_view.
  - intros u w Hw. unfold resume_round. apply always_bind, always_act; [by eapply line_ok_view|].
    intros t cur w1 _ [= <- <-]. case_if; [by apply always_yield, HQ|].
    apply always_bind, always_act; [by eapply line_ok_view|]. intros t2 b w2 _ E. cbn zeta in E.
    apply always_yield. destruct (Z.eqb _ _) in E; injection E as <- <-; [by apply HQ|done].
Qed.

(** *** A link that comes up, misses two echoes and is dropped *)

Definition demo_config : Config := NewSupervisor (mkConfig (60 * Second) (10 * Second) 2 (mkBackoff 0 0)).
Definition demo_line : Line :=
  mkLine {["issuer" := mkLink "issuer" "DOWN" None None NoSample 0]} [] 1 None 0 0 false empty_window [] [] true [] 0 false.
Definition demo_turn (ans : option string) : turn := mkTurn true ans BTick false 0 0 Millisecond false 0.
Definition demo_ok : turn := demo_turn (Some "00").
(** Dial, status, broadcast, sign-on, status, broadcast, event; then a tick and an echo twice. *)
Definition demo_turns : list turn := repeat demo_ok 8 ++ repeat (demo_turn None) 3.

Example demo_dropped :
  match runOnce demo_config demo_line demo_turns with
  | Finished r v' _ => (r, map x_code (log v'), l_Status <$> links v' !! "issuer")
  | Stopped _ => (NotDialed, [], None)
  end = (EchoesFailed, ["001"; "301"; "301"], Some "SIGNED_ON").
Proof. vm_compute. reflexivity. Qed.

Lemma demo_line_ok : line_ok demo_line.
Proof. split; [by intros [] ? ? ?|by intros ? ? ? ? ?|by intros x ?%not_elem_of_nil|by left]. Qed.

(** *** Triggers from outside the loop *)

(** What a trigger may add to the log of [v]: exchanges on the connection that is live in [v]. *)
Definition on_live (v v' : Line) : Prop :=
  mux v' = mux v ∧ ∃ new, log v' = log v ++ new ∧ Forall (λ x, mux v = Some (x_conn x)) new.

Section triggers.
Context (w : Line).

Lemma on_live_view v v' : view v' = view v → on_live w v → on_live w v'.
Proof. intros Hv. injection Hv as Hl Hm _. unfold on_live. by rewrite Hl, Hm. Qed.

Lemma quiet_on_live {A} (p : flow A) (Q : A → Line → Prop) v :
  quiet (on_live w) p → on_live w v → (∀ a v', on_live w v' → Q a v') → Script.always any (on_live w) p Q v.
Proof. intros Hp Hv HQ. apply Hp; [done|]. intros a v' E. by apply HQ, (on_live_view v). Qed.

Lemma send_on_live code (Q : option string → Line → Prop) v :
  on_live w v → (∀ ans v', on_live w v' → Q ans v') → Script.always any (on_live w) (sendNetwork code) Q v.
Proof.
  intros Hv HQ. apply always_act; [done|]. intros t a v' _ E. cbn zeta in E.
  change (mux (pass t v)) with (mux v) in E. destruct (mux v) as [conn|] eqn:Em; injection E as <- <-; apply HQ.
  - destruct Hv as [Hm (new & Hl & Hn)]. split; [cbn; congruence|]. exists (new ++ [mkExchange conn code (t_answer t)]).
    split; [cbn [log]; by rewrite Hl, <- app_assoc|]. apply Forall_app. split; [done|]. constructor; [|done]. cbn. congruence.
  - by apply (on_live_view v).
Qed.

Lemma on_live_refl : on_live w w.
Proof. split; [done|]. exists []. by rewrite app_nil_r. Qed.

Lemma TriggerEcho_on_live : Script.always any (on_live w) TriggerEcho (λ _, on_live w) w.
Proof.
  pose proof on_live_refl as Hw. unfold TriggerEcho, sendManualEcho. apply always_bind, always_bind, always_gets.
  assert (Hend : ∀ result v, on_live w v → Script.always any (on_live w)
    (if negb (OK result) then
       recordEvent "ECHO_FAILED" severityWarn "Echo to issuer failed" "manual 0800 DE70=301 got no RC 00" ;;~ yield result
     else
       statement (RecordEcho (default 0 (LatencyMs result))) ;;~ broadcastLink ;;~
       recordEvent "ECHO_OK" severityInfo "Echo to issuer answered" "manual 0800 DE70=301" ;;~ yield result) (λ _, on_live w) v).
  { intros result v Hv. case_if.
    - apply always_bind, quiet_on_live; [apply quiet_recordEvent, on_live_view|done|]. intros _ v1 H1. by apply always_yield.
    - apply always_bind, quiet_on_live; [by apply quiet_statement|done|]. intros _ v1 H1.
      apply always_bind, quiet_on_live; [apply quiet_broadcastLink, on_live_view|done|]. intros _ v2 H2.
      apply always_bind, quiet_on_live; [apply quiet_recordEvent, on_live_view|done|]. intros _ v3 H3. by apply always_yield. }
  destruct (mux w); [|by apply always_yield, Hend]. apply always_bind, always_gets, always_bind, send_on_live; [done|].
  intros [rc|] v1 H1; [|by apply always_yield, Hend]. apply always_bind, always_gets, always_bind, always_modify, always_yield, Hend.
  by apply (on_live_view v1).
Qed.

Lemma TriggerSignOn_on_live : Script.always any (on_live w) TriggerSignOn (λ _, on_live w) w.
Proof.
  pose proof on_live_refl as Hw. unfold TriggerSignOn, signOn. apply always_bind, always_gets.
  destruct (mux w); [|by apply always_yield]. apply always_bind, always_bind, send_on_live; [done|]. intros rc v1 H1.
  apply always_yield. case_if.
  - apply always_bind, quiet_on_live; [apply quiet_recordEvent, on_live_view|done|]. intros _ v2 H2. by apply always_yield.
  - apply always_bind, quiet_on_live; [apply quiet_setStatus, on_live_view|done|]. intros _ v2 H2.
    apply always_bind, quiet_on_live; [apply quiet_recordEvent, on_live_view|done|]. intros _ v3 H3. by apply always_yield.
Qed.

Lemma TriggerSignOff_on_live : Script.always any (on_live w) TriggerSignOff (λ _, on_live w) w.
Proof.
  pose proof on_live_refl as Hw. unfold TriggerSignOff, signOff. apply always_bind, always_gets.
  destruct (mux w); [|by apply always_yield]. apply always_bind, always_bind, send_on_live; [done|]. intros rc v1 H1.
  apply always_yield. case_if; [by apply always_yield|].
  apply always_bind, quiet_on_live; [apply quiet_setStatus, on_live_view|done|]. intros _ v2 H2.
  apply always_bind, quiet_on_live; [apply quiet_recordEvent, on_live_view|done|]. intros _ v3 H3. by apply always_yield.
Qed.

Lemma always_left_by {A} (p : flow A) cs : Script.always any (on_live w) p (λ _, on_live w) w → on_live w (left_by (p w cs)).
Proof. intros H. specialize (H cs (any_all cs)). destruct (p w cs); [exact H|apply H]. Qed.
End triggers.

(** A manual echo needs a live connection only, and that is live before its sign-on is answered: with the
    loop about to sign on, the 0800/301 of [TriggerEcho] is the first message of the connection. *)
Example manual_echo_before_sign_on :
  let e := Run demo_config None demo_line (repeat demo_ok 3) in
  match TriggerEcho (left_by e) (repeat demo_ok 5) with
  | Finished r v _ => (log (left_by e), IsSignedOn (left_by e), OK r, map x_code (log v))
  | Stopped _ => ([], false, false, [])
  end = ([], true, true, ["301"]).
Proof. vm_compute. reflexivity. Qed.

(** C18. The loop signs on first, one connection at a time.  Whatever the network, the issuer and the
    database do, and wherever the supervisor stops, every echo its loop sent went out on a connection
    whose sign-on the issuer had accepted before (RC 00); it never goes back to an earlier connection;
    and between connections, and once [Run] has returned, no connection is live, so [IsSignedOn] is
    false and requests are refused before anything is written.  A manual echo, sign-on or sign-off made at
    that point goes out on the live connection or, without one, not at all; it does not wait for the
    sign-on ([manual_echo_before_sign_on]). *)
Theorem signs_on_first cfg last v cs :
  line_ok v → mux v = None →
  let e := Run cfg last v cs in
  echoes_signed_on (log (left_by e)) ∧ in_turn (log (left_by e)) ∧
  (mux (left_by e) = None ∨ mux (left_by e) = Some (conns (left_by e))) ∧
  (result_of e ≠ None → IsSignedOn (left_by e) = false) ∧
  ∀ cs', on_live (left_by e) (left_by (TriggerEcho (left_by e) cs')) ∧
         on_live (left_by e) (left_by (TriggerSignOn (left_by e) cs')) ∧
         on_live (left_by e) (left_by (TriggerSignOff (left_by e) cs')).
Proof.
  intros Hok Hm e.
  assert (Hrun : always (Run cfg last) (λ _ v', idle v') v).
  { unfold Run. apply always_bind. eapply always_mono with (Q := λ _ v', idle v').
    2: { destruct last as [last|]; [|by apply always_yield]. apply always_bind, always_act; [done|].
      intros t ok v1 _ [= <- <-]. assert (H1 : idle (pass t v)) by by apply (idle_view v).
      destruct (t_ok t); [|by apply always_yield]. apply always_bind, resume_quiet; [apply H1|].
      intros _ v2 H2. apply always_yield. by eapply idle_view. }
    intros b v1 H1. destruct (negb b); [by apply always_gets|]. apply always_bind.
    apply (always_forever _ _ (λ _ v', idle v')); [by intros _ w []| |exact H1].
    intros attempt w Hw. unfold run_round. apply always_bind, always_gets. case_if; [by apply always_yield, always_yield|].
    apply always_bind, runOnce_idle; [done|]. intros r w1 Hw1. apply always_bind, always_gets.
    case_if; [by apply always_yield, always_yield|].
    apply always_bind, quiet_setStatus; [apply line_ok_view|apply Hw1|]. intros _ w2 Hw2. apply (idle_view _ _ Hw2) in Hw1.
    apply always_bind, quiet_recordEvent; [apply line_ok_view|apply Hw1|]. intros _ w3 Hw3. apply (idle_view _ _ Hw3) in Hw1.
    apply always_bind, always_act; [apply Hw1|]. intros t u w4 _ [= _ <-]. by apply always_yield, (idle_view w3). }
  assert (Htr : ∀ u cs', on_live u (left_by (TriggerEcho u cs')) ∧ on_live u (left_by (TriggerSignOn u cs')) ∧
                          on_live u (left_by (TriggerSignOff u cs'))).
  { intros u cs'. split_and!; apply always_left_by; [apply TriggerEcho_on_live|apply TriggerSignOn_on_live|apply TriggerSignOff_on_live]. }
  specialize (Hrun cs (any_all cs)). fold e in Hrun. destruct e as [v'|b v' cs']; cbn.
  - destruct Hrun as [He Ht _ Hmux]. by split_and!.
  - destruct Hrun as [_ [[He Ht _ Hmux] Hnone]]. split_and!; try done. intros _. unfold IsSignedOn. by rewrite Hnone.
Qed.

Lemma signs_on_first_witness :
  let e := Run demo_config (Some 0) demo_line (repeat demo_ok 2 ++ demo_turns) in
  echoes_signed_on (log (left_by e)) ∧ in_turn (log (left_by e)) ∧
  (mux (left_by e) = None ∨ mux (left_by e) = Some (conns (left_by e))) ∧
  (result_of e ≠ None → IsSignedOn (left_by e) = false) ∧
  ∀ cs', on_live (left_by e) (left_by (TriggerEcho (left_by e) cs')) ∧
         on_live (left_by e) (left_by (TriggerSignOn (left_by e) cs')) ∧
         on_live (left_by e) (left_by (TriggerSignOff (left_by e) cs')).
Proof. apply (signs_on_first demo_config (Some 0) demo_line); [apply demo_line_ok|reflexivity]. Defined.

(** ** Echo failures *)

(** The echoes of connection [n] without an RC 00 since its last good one. *)
Definition failure_run (n : Z) (l : list exchange) : Z :=
  foldl (λ k x, if (x_conn x =? n) && String.eqb (x_code x) "301" then if answered_00 (x_answer x) then 0 else k + 1
                else k) 0 l.

(** No run of failures reached [limit] before the last exchange. *)
Definition below (n limit : Z) (l : list exchange) : Prop :=
  ∀ pre x post, l = pre ++ x :: post → failure_run n pre < limit.

Lemma failure_run_snoc n l x :
  failure_run n (l ++ [x])
  = if (x_conn x =? n) && String.eqb (x_code x) "301" then if answered_00 (x_answer x) then 0 else failure_run n l + 1
    else failure_run n l.
Proof. unfold failure_run. by rewrite foldl_app. Qed.

Lemma failure_run_nonneg n l : 0 ≤ failure_run n l.
Proof.
  induction l as [|x l IH] using rev_ind; [done|]. rewrite failure_run_snoc. repeat case_if; lia.
Qed.

Lemma failure_run_other n l : (∀ x, x ∈ l → x_conn x ≠ n) → failure_run n l = 0.
Proof.
  intros Hl. induction l as [|x l IH] using rev_ind; [done|]. rewrite failure_run_snoc.
  rewrite (proj2 (Z.eqb_neq _ _)) by (apply Hl, elem_of_app; right; by apply list_elem_of_singleton). cbn [andb].
  apply IH. intros y Hy. apply Hl, elem_of_app. by left.
Qed.

Lemma below_snoc n limit l x : below n limit l → failure_run n l < limit → below n limit (l ++ [x]).
Proof.
  intros Hb Hl pre y post E. destruct post as [|z post _] using rev_ind.
  - apply app_inj_tail in E as [-> _]. done.
  - rewrite app_comm_cons, app_assoc in E. apply app_inj_tail in E as [-> _]. by eapply Hb.
Qed.

(** Connection [n] is live, with [k] failures in a row. *)
Definition counting (n limit k : Z) (v : Line) : Prop :=
  live n v ∧ failure_run n (log v) = k ∧ k < limit ∧ below n limit (log v).

Lemma counting_view n limit k v v' : view v' = view v → counting n limit k v → counting n limit k v'.
Proof.
  intros Hv (Hl & Hc). pose proof (live_view n v v' Hv Hl) as Hl'. injection Hv as Hlog _ _.
  split; [done|]. by rewrite Hlog.
Qed.

(** An 0800 on the live connection: the count moves with an echo, and only then. *)
Lemma send_counting n limit k code (Q : option string → Line → Prop) v :
  counting n limit k v → (code = "301" → signed_on n (log v)) →
  (∀ ans v', live n v' → below n limit (log v') →
     failure_run n (log v') = (if String.eqb code "301" then if answered_00 ans then 0 else k + 1 else k) →
     (signed_on n (log v) ∨ code = "001" ∧ answered_00 ans = true → signed_on n (log v')) → Q ans v') →
  always (sendNetwork code) Q v.
Proof.
  intros ([Hok [Hm Hc]] & Hk & Hlt & Hb) Hs HQ. apply send_always; [done|by rewrite Hm, Hc|by rewrite Hc|].
  intros ans v' Hok' Hm' Hc' Hl'. apply HQ.
  - split; [done|]. by rewrite Hm', Hc', Hc.
  - rewrite Hl'. apply below_snoc; [done|by rewrite Hk].
  - rewrite Hl', failure_run_snoc. cbn [x_conn x_code x_answer]. by rewrite Hc, Z.eqb_refl, Hk.
  - rewrite Hl', Hc. intros [Hso|[-> Ha]]; [by apply signed_on_snoc|]. destruct ans as [rc|]; [|done].
    apply String.eqb_eq in Ha as ->. exists (mkExchange n "001" (Some "00")).
    split; [apply elem_of_app; right; by apply list_elem_of_singleton|done].
Qed.

(** The same connection, its sign-on accepted. *)
Definition steady (n limit k : Z) (v : Line) : Prop := counting n limit k v ∧ signed_on n (log v).

Lemma steady_view n limit k v v' : view v' = view v → steady n limit k v → steady n limit k v'.
Proof. intros Hv [Hc Hs]. split; [by eapply counting_view|]. injection Hv as Hlog _ _. by rewrite Hlog. Qed.

Lemma steady_ok n limit k v : steady n limit k v → line_ok v.
Proof. by intros [[[]]]. Qed.

Lemma quiet_steady {A} n limit k (p : flow A) (Q : A → Line → Prop) v :
  quiet line_ok p → steady n limit k v → (∀ a v', steady n limit k v' → Q a v') → always p Q v.
Proof. apply quiet_kept; [apply steady_ok|apply steady_view]. Qed.

Lemma send_steady n limit k code (Q : option string → Line → Prop) v :
  code ≠ "301" → steady n limit k v → (∀ ans v', steady n limit k v' → Q ans v') → always (sendNetwork code) Q v.
Proof.
  intros Hcode [Hc Hs] HQ. eapply send_counting; [exact Hc|done|]. intros ans v' Hl' Hb' Hk' Hs'.
  apply HQ. rewrite (proj2 (String.eqb_neq _ _) Hcode) in Hk'. destruct Hc as (_ & _ & Hlt & _).
  split; [done|]. apply Hs'. by left.
Qed.

(** The echoes that ended the connection. *)
Definition echoes_ended (n limit : Z) (v : Line) : Prop :=
  line_ok v ∧ conns v = n ∧ failure_run n (log v) = limit ∧ below n limit (log v).

Lemma echoTick_steady n limit k (Q : Z * bool → Line → Prop) v :
  steady n limit k v →
  (∀ k' v', steady n limit k' v' → Q (k', false) v') →
  (∀ k' v', live n v' → echoes_ended n limit v' → Q (k', true) v') →
  always (echoTick limit k) Q v.
Proof.
  intros [Hc Hs] HQ HQ'. unfold echoTick, echo. apply always_bind, always_bind, always_gets, always_bind.
  eapply send_counting; [exact Hc|done|]. intros rc v1 Hl1 Hb1 Hk1 Hs1.
  specialize (Hs1 (or_introl Hs)). destruct (answered_00 rc) eqn:Ea; cbn in Hk1.
  - assert (H1 : steady n limit 0 v1).
    { pose proof (failure_run_nonneg n (log v)) as Hnn. destruct Hc as (_ & Hk & Hlt & _). split; [|done].
      split_and!; [done..|lia|done]. }
    apply always_bind, always_gets, always_bind, always_modify, always_yield, always_bind.
    apply (quiet_steady n limit 0); [by apply quiet_statement|by apply (steady_view _ _ _ v1)|].
    intros b v2 H2. by apply always_yield, HQ.
  - apply always_yield. destruct (limit <=? k + 1) eqn:El.
    + apply Z.leb_le in El. destruct Hc as (_ & _ & Hlt & _). apply always_yield, HQ'; [done|].
      destruct Hl1 as [? []]. split_and!; try done. lia.
    + apply Z.leb_gt in El. apply always_yield, HQ. split; [split_and!; [done|done|lia|done]|done].
Qed.

(** The connection [n] ended with [r]. *)
Definition dropped_at (n limit : Z) (r : ending) (v : Line) : Prop :=
  below n limit (log v) ∧ (r = EchoesFailed ↔ failure_run n (log v) = limit).

Lemma steady_dropped n limit k r v : counting n limit k v → r ≠ EchoesFailed → dropped_at n limit r v.
Proof. intros (_ & Hk & Hlt & Hb) Hr. split; [done|]. split; [done|lia]. Qed.

Lemma watch_steady n cfg k (Q : Z + ending → Line → Prop) v :
  steady n (EchoFailureLimit cfg) k v →
  (∀ k' v', steady n (EchoFailureLimit cfg) k' v' → Q (inl k') v') →
  (∀ r v', live n v' → dropped_at n (EchoFailureLimit cfg) r v' → Q (inr r) v') →
  always (watch cfg k) Q v.
Proof.
  set (limit := EchoFailureLimit cfg). intros Hw HQ HQ'. unfold watch. apply always_bind.
  apply (quiet_steady n limit k); [apply quiet_select|done|].
  intros [[| | |]|] v1 H1; [| | | |by apply always_yield, HQ].
  - apply always_bind. unfold signOff. apply always_bind, (send_steady n limit k); [done|done|]. intros rc v2 H2.
    apply always_yield, always_yield, HQ'; [apply H2|by apply (steady_dropped _ _ k); [apply H2|]].
  - apply always_yield, HQ'; [apply H1|by apply (steady_dropped _ _ k); [apply H1|]].
  - apply always_bind, (resignOn_kept (steady n limit k)); [apply steady_ok|apply steady_view| |done|].
    { intros code w Q' Hc Hw'. by apply send_steady. }
    intros u v2 H2. by apply always_yield, HQ.
  - apply always_bind, (echoTick_steady n limit k); [done| |].
    + intros k' v2 H2. by apply always_yield, HQ.
    + intros k' v2 Hl2 (_ & _ & Hrun & Hb). apply always_yield, HQ'; [done|by split].
Qed.

Lemma below_fresh n limit l : 0 < limit → (∀ x, x ∈ l → x_conn x ≠ n) → below n limit l.
Proof.
  intros Hlim Hl pre x post ->. rewrite failure_run_other; [done|]. intros y Hy. apply Hl, elem_of_app. by left.
Qed.

Lemma connected_steady cfg v (Q : ending → Line → Prop) :
  0 < EchoFailureLimit cfg → line_ok v → (∀ x, x ∈ log v → x_conn x ≠ conns v) →
  (∀ r v', conns v' = conns v → dropped_at (conns v) (EchoFailureLimit cfg) r v' → Q r v') → always (connected cfg) Q v.
Proof.
  set (limit := EchoFailureLimit cfg). set (n := conns v). intros Hlim Hok Hfresh HQ. unfold connected.
  apply always_bind, always_modify. set (v1 := set_mux (Some (conns v)) v).
  assert (H1 : counting n limit 0 v1).
  { split_and!; [split; [destruct Hok; split; [done..|by right]|done]|by apply failure_run_other|done|by apply below_fresh]. }
  assert (Hend : ∀ r v2, live n v2 → dropped_at n limit r v2 → always (modify (set_mux None) ;;~ yield r : flow ending) Q v2).
  { intros r v2 [_ [_ Hc]] Hd. by apply always_bind, always_modify, always_yield, HQ. }
  apply always_bind. unfold signOn. apply always_bind, (send_counting n limit 0); [done|done|].
  intros ans v2 Hl2 Hb2 Hk2 Hs2. cbn in Hk2. assert (H2 : counting n limit 0 v2) by by split_and!.
  apply always_yield, always_bind. destruct (answered_00 ans) eqn:Ea; cbn [negb].
  2: { apply always_yield. apply Hend; [done|by apply (steady_dropped _ _ 0)]. }
  assert (H2' : steady n limit 0 v2) by (split; [done|apply Hs2; by right]).
  apply always_bind, (quiet_steady n limit 0); [apply quiet_setStatus, line_ok_view|done|]. intros _ v3 H3.
  apply always_bind, (quiet_steady n limit 0); [apply quiet_recordEvent, line_ok_view|done|]. intros _ v4 H4.
  apply (always_forever _ _ (λ k v, steady n limit k v)); [intros k w; apply steady_ok| |exact H4].
  intros k w Hw. by apply (watch_steady n).
Qed.

(** The link is dropped at the limit, not before and not after.  From the dial to the end of a
    connection, whatever the issuer, the database and the clock do, the echoes without RC 00 in a
    row never exceed [EchoFailureLimit], a good echo starts the count again, and the connection ends
    for failed echoes exactly when that run has just reached the limit. *)
Theorem link_drops_at_limit cfg v cs r v' cs' :
  0 < EchoFailureLimit cfg → line_ok v → mux v = None → runOnce cfg v cs = Finished r v' cs' → r ≠ NotDialed →
  conns v' = conns v + 1 ∧
  below (conns v') (EchoFailureLimit cfg) (log v') ∧
  (r = EchoesFailed ↔ failure_run (conns v') (log v') = EchoFailureLimit cfg).
Proof.
  intros Hlim Hok Hm E Hr.
  assert (Hrun : always (runOnce cfg) (λ r v', r ≠ NotDialed →
    conns v' = conns v + 1 ∧ dropped_at (conns v') (EchoFailureLimit cfg) r v') v).
  { apply runOnce_dials; [done|done|]. intros v1 [Hok1 _] Hc1 Hlt. apply connected_steady; [done|done| |].
    - intros x Hx. specialize (Hlt x Hx). lia.
    - intros r1 v2 Hc2 Hd _. rewrite Hc2. by split. }
  specialize (Hrun cs (any_all cs)). rewrite E in Hrun. by apply Hrun.
Qed.

Definition demo_left : Line := left_by (runOnce demo_config demo_line demo_turns).

Lemma link_drops_at_limit_witness :
  conns demo_left = conns demo_line + 1 ∧ below (conns demo_left) (EchoFailureLimit demo_config) (log demo_left) ∧
  (EchoesFailed = EchoesFailed ↔ failure_run (conns demo_left) (log demo_left) = EchoFailureLimit demo_config).
Proof.
  apply (link_drops_at_limit demo_config demo_line demo_turns EchoesFailed demo_left []);
    [reflexivity|apply demo_line_ok|reflexivity|vm_compute; reflexivity|discriminate].
Defined.

(** ** Resuming the STAN count *)

Lemma resume_takes last : takes_choices (resume_round last).
Proof.
  intros u v [|t [|t' cs]]; cbn -[pass]; [done|by case_if|]. case_if; [done|].
  unfold sbind, act, yield. destruct (Z.eqb _ _); cbn; [done|lia].
Qed.

Lemma resume_done last d v cs :
  last - stan v ≤ Z.of_nat d → (2 * d + 1 ≤ length cs)%nat →
  ∃ v' cs', ResumeSTANAfter last v cs = Finished () v' cs' ∧ last ≤ stan v'.
Proof.
  revert v cs. induction d as [|d IH]; intros v cs Hd Hcs; unfold ResumeSTANAfter; rewrite forever_eq by apply resume_takes;
    (destruct cs as [|t cs]; [cbn in Hcs; lia|]); unfold resume_round, sbind, act; cbn [yield].
  - rewrite (proj2 (Z.leb_le _ _)) by (cbn; lia). eexists _, _. split; [done|]. cbn. lia.
  - destruct (last <=? stan (pass t v)) eqn:El.
    { apply Z.leb_le in El. by eexists _, _. }
    apply Z.leb_gt in El. destruct cs as [|t2 cs]; [cbn in Hcs; lia|].
    destruct (stan (pass t2 (pass t v)) =? stan (pass t v)) eqn:Ee.
    + eexists _, _. split; [done|]. cbn. lia.
    + apply Z.eqb_neq in Ee. apply IH; cbn in *; lia.
Qed.

Lemma max_in_prefix prefix db id r :
  tran db !! id = Some r → numbered prefix (RRN r) = true →
  undec (str_slice 6 12 (RRN r)) ≤ LastSTANInRRNPrefix prefix db.
Proof.
  intros Hr Hn. unfold LastSTANInRRNPrefix.
  assert (Hin : In (undec (str_slice 6 12 (RRN r)))
    (map (λ r, undec (str_slice 6 12 (RRN r))) (List.filter (λ r, numbered prefix (RRN r)) (map snd (map_to_list (tran db)))))).
  { apply (in_map (λ r, undec (str_slice 6 12 (RRN r)))), filter_In. split; [|done].
    change r with (id, r).2. apply in_map, list_elem_of_In, elem_of_map_to_list, Hr. }
  revert Hin. generalize (map (λ r, undec (str_slice 6 12 (RRN r)))
    (List.filter (λ r, numbered prefix (RRN r)) (map snd (map_to_list (tran db))))) as l.
  induction l as [|z l IH]; [done|]. cbn [In foldr]. intros [->|Hin]; [lia|]. specialize (IH Hin). lia.
Qed.

Lemma BuildRRN_prefix now stan : BuildRRN now stan = BuildRRN now "" +:+ stan.
Proof. unfold BuildRRN. by rewrite !app_assoc_str. Qed.

Lemma prefix_shape now :
  0 ≤ Year UTC now → slen (BuildRRN now "") = 6%nat ∧ str_forall is_digit (BuildRRN now "") = true.
Proof.
  intros Hy. rewrite BuildRRN_eq by done. rewrite !slen_app, !slen_dec, !str_forall_app, !dec_digits. done.
Qed.

(** C20. A restarted gateway reissues no RRN.  [Run] resumes past the highest STAN of the RRNs that
    tran_log holds under the hour's prefix.  The compare-and-swap loop ends, however many STANs are
    drawn meanwhile (each lost swap is a STAN drawn), and no STAN drawn from then on, while the
    prefix is still that of the query and the count below its wrap, gives an RRN of a stored row. *)
Theorem restart_reuses_no_rrn now db v cs :
  0 ≤ Year UTC now →
  (2 * Z.to_nat (lastSTAN now db - stan v) + 1 ≤ length cs)%nat →
  ∃ v' cs', ResumeSTANAfter (lastSTAN now db) v cs = Finished () v' cs' ∧
  ∀ c t id r, stan v' ≤ c → 0 ≤ c → c + 1 < 1000000 → BuildRRN t "" = BuildRRN now "" →
    tran db !! id = Some r → RRN r ≠ BuildRRN t (NextSTAN c).2.
Proof.
  intros Hy Hcs. destruct (resume_done (lastSTAN now db) (Z.to_nat (lastSTAN now db - stan v)) v cs)
    as (v' & cs' & E & Hle); [lia|done|].
  exists v', cs'. split; [done|]. intros c t id r Hc H0 Hlt Hpre Hr.
  rewrite NextSTAN_eq, BuildRRN_prefix, Hpre by lia. cbn [snd]. rewrite Z.mod_small by lia. intros Er.
  destruct (prefix_shape now Hy) as [Hl Hd].
  pose proof (max_in_prefix (BuildRRN now "") db id r Hr) as Hmax. rewrite Er in Hmax. unfold numbered in Hmax.
  rewrite str_take_app, String.eqb_refl, slen_app, Hl, slen_dec, str_forall_app, Hd, dec_digits in Hmax.
  specialize (Hmax eq_refl). rewrite <-(app_nil_str (dec 6 (c + 1))), slice_mid in Hmax by by rewrite ?Hl, ?slen_dec.
  rewrite undec_dec in Hmax by lia. unfold lastSTAN in Hle. lia.
Qed.

(** A restart at 07:32 with STAN 123 in tran_log: the next request is 124. *)
Definition demo_noon : time := Date (2026, 9, 21) 0 + 7 * Hour + 32 * Minute.
Definition demo_tran_log : DB := mkDB {[1 := Journey.demo_row]} 2 [] ∅ 1 ∅ 1 ∅ ∅.

Example demo_lastSTAN : lastSTAN demo_noon demo_tran_log = 123.
Proof. vm_compute. reflexivity. Qed.

Lemma restart_reuses_no_rrn_witness :
  ∃ v' cs', ResumeSTANAfter (lastSTAN demo_noon demo_tran_log) demo_line (repeat demo_ok 247) = Finished () v' cs' ∧
  ∀ c t id r, stan v' ≤ c → 0 ≤ c → c + 1 < 1000000 → BuildRRN t "" = BuildRRN demo_noon "" →
    tran demo_tran_log !! id = Some r → RRN r ≠ BuildRRN t (NextSTAN c).2.
Proof. apply restart_reuses_no_rrn; vm_compute; [discriminate|lia]. Defined.
