(* ===== verification/Feed.v ===== *)
(** * Feed: the lists the API pages through

    [List] of [gateway-go/internal/store/tranlog.go] and [ListEvents] of [internal/store/links.go]:
    keyset pages, newest first, and the opaque cursors between them. *)

From S2P Require Import Prelude Digits Journey KeyStore Net Supervisor Store.
Local Open Scope Z_scope.

(** ** base64.RawURLEncoding *)

Definition enc64 (d : Z) : ascii :=
  if d <? 26 then ascii_of_Z (65 + d) else if d <? 52 then ascii_of_Z (71 + d) else if d <? 62 then ascii_of_Z (d - 4)
  else if d =? 62 then "-"%char else "_"%char.

Definition dec64 (c : ascii) : option Z :=
  let n := Z_of_ascii c in
  if (65 <=? n) && (n <=? 90) then Some (n - 65) else if (97 <=? n) && (n <=? 122) then Some (n - 71)
  else if (48 <=? n) && (n <=? 57) then Some (n + 4)
  else if n =? 45 then Some 62 else if n =? 95 then Some 63 else None.

Definition sextet (v : Z) (i : Z) : ascii := enc64 (v / 64 ^ i mod 64).

Fixpoint EncodeToString (s : string) : string :=
  match s with
  | String a (String b (String c s)) =>
      let v := Z_of_ascii a * 65536 + Z_of_ascii b * 256 + Z_of_ascii c in
      String (sextet v 3) (String (sextet v 2) (String (sextet v 1) (String (sextet v 0) (EncodeToString s))))
  | String a (String b "") =>
      let v := (Z_of_ascii a * 256 + Z_of_ascii b) * 4 in
      String (sextet v 2) (String (sextet v 1) (String (sextet v 0) ""))
  | String a "" => let v := Z_of_ascii a * 16 in String (sextet v 1) (String (sextet v 0) "")
  | "" => ""
  end.

Definition octet (v : Z) (i : Z) : ascii := ascii_of_Z (v / 256 ^ i mod 256).

(** Of the bits left over in the last group nothing is checked. *)
Fixpoint decode_groups (s : string) : option string :=
  match s with
  | String a (String b (String c (String d s))) =>
      a ← dec64 a; b ← dec64 b; c ← dec64 c; d ← dec64 d;
      let v := ((a * 64 + b) * 64 + c) * 64 + d in
      rest ← decode_groups s;
      Some (String (octet v 2) (String (octet v 1) (String (octet v 0) rest)))
  | String a (String b (String c "")) =>
      a ← dec64 a; b ← dec64 b; c ← dec64 c;
      let v := ((a * 64 + b) * 64 + c) / 4 in
      Some (String (octet v 1) (String (octet v 0) ""))
  | String a (String b "") =>
      a ← dec64 a; b ← dec64 b; Some (String (octet ((a * 64 + b) / 16) 0) "")
  | String _ "" => None
  | "" => Some ""
  end.

(** The decoder skips line ends. *)
Fixpoint skip_newlines (s : string) : string :=
  match s with
  | "" => ""
  | String c s => if (Z_of_ascii c =? 10) || (Z_of_ascii c =? 13) then skip_newlines s else String c (skip_newlines s)
  end.

Definition DecodeString (s : string) : option string := decode_groups (skip_newlines s).

Lemma dec64_enc64 d : 0 ≤ d < 64 → dec64 (enc64 d) = Some d.
Proof.
  intros Hd. assert (H : forallb (λ n, bool_decide (dec64 (enc64 n) = Some n)) (map Z.of_nat (seq 0 64)) = true)
    by (vm_compute; reflexivity).
  rewrite forallb_forall in H. specialize (H d). rewrite bool_decide_eq_true in H. apply H.
  apply in_map_iff. exists (Z.to_nat d). split; [lia|]. apply in_seq. lia.
Qed.

Lemma enc64_no_newline d : 0 ≤ d < 64 → (Z_of_ascii (enc64 d) =? 10) || (Z_of_ascii (enc64 d) =? 13) = false.
Proof.
  intros Hd. assert (H : forallb (λ n, negb ((Z_of_ascii (enc64 n) =? 10) || (Z_of_ascii (enc64 n) =? 13))) (map Z.of_nat (seq 0 64)) = true)
    by (vm_compute; reflexivity).
  rewrite forallb_forall in H. specialize (H d). apply negb_true_iff, H.
  apply in_map_iff. exists (Z.to_nat d). split; [lia|]. apply in_seq. lia.
Qed.

Lemma sextet_range v i : 0 ≤ v / 64 ^ i mod 64 < 64.
Proof. apply Z.mod_pos_bound. lia. Qed.

Lemma dec64_sextet v i : dec64 (sextet v i) = Some (v / 64 ^ i mod 64).
Proof. apply dec64_enc64, sextet_range. Qed.

Lemma skip_sextet v i s : skip_newlines (String (sextet v i) s) = String (sextet v i) (skip_newlines s).
Proof. unfold sextet. cbn [skip_newlines]. by rewrite (enc64_no_newline _ (sextet_range v i)). Qed.

Lemma Z_of_ascii_range c : 0 ≤ Z_of_ascii c < 256.
Proof. unfold Z_of_ascii. pose proof (N_ascii_bounded c). lia. Qed.

Lemma ascii_of_Z_of_ascii c : ascii_of_Z (Z_of_ascii c) = c.
Proof. unfold ascii_of_Z, Z_of_ascii. rewrite N2Z.id. apply ascii_N_embedding. Qed.

Lemma octet_at v i c : v / 256 ^ i mod 256 = Z_of_ascii c → octet v i = c.
Proof. intros E. unfold octet. by rewrite E, ascii_of_Z_of_ascii. Qed.

(** A value of [k] sextets read back from them. *)
Lemma four_sextets v :
  0 ≤ v < 16777216 →
  ((v / 64 ^ 3 mod 64 * 64 + v / 64 ^ 2 mod 64) * 64 + v / 64 ^ 1 mod 64) * 64 + v / 64 ^ 0 mod 64 = v.
Proof. intros Hv. change (64 ^ 3) with 262144. change (64 ^ 2) with 4096. change (64 ^ 1) with 64. change (64 ^ 0) with 1. lia. Qed.

Lemma three_sextets v :
  0 ≤ v < 262144 → (v / 64 ^ 2 mod 64 * 64 + v / 64 ^ 1 mod 64) * 64 + v / 64 ^ 0 mod 64 = v.
Proof. intros Hv. change (64 ^ 2) with 4096. change (64 ^ 1) with 64. change (64 ^ 0) with 1. lia. Qed.

Lemma two_sextets v : 0 ≤ v < 4096 → v / 64 ^ 1 mod 64 * 64 + v / 64 ^ 0 mod 64 = v.
Proof. intros Hv. change (64 ^ 1) with 64. change (64 ^ 0) with 1. lia. Qed.

Lemma Decode_Encode s : DecodeString (EncodeToString s) = Some s.
Proof.
  unfold DecodeString. remember (slen s) as n eqn:Hn. revert s Hn.
  induction n as [n IH] using lt_wf_ind. intros s Hn.
  destruct s as [|a [|b [|c s]]]; [done|..]; cbn [EncodeToString]; rewrite !skip_sextet;
    pose proof (Z_of_ascii_range a) as Ha.
  - cbn [skip_newlines decode_groups]. rewrite !dec64_sextet. cbn [mbind option_bind].
    rewrite two_sextets by lia. rewrite Z.div_mul by lia. do 2 f_equal. apply octet_at.
    change (256 ^ 0) with 1. rewrite Z.div_1_r. apply Z.mod_small. lia.
  - pose proof (Z_of_ascii_range b) as Hb. cbn [skip_newlines decode_groups]. rewrite !dec64_sextet. cbn [mbind option_bind].
    rewrite three_sextets by lia. rewrite Z.div_mul by lia.
    rewrite (octet_at _ 1 a), (octet_at _ 0 b); [done|..]; [change (256 ^ 0) with 1|change (256 ^ 1) with 256]; lia.
  - pose proof (Z_of_ascii_range b) as Hb. pose proof (Z_of_ascii_range c) as Hc.
    cbn [decode_groups]. rewrite !dec64_sextet. cbn [mbind option_bind].
    rewrite four_sextets by lia. rewrite (IH (slen s)); [|cbn in Hn; lia|done]. cbn [mbind option_bind].
    rewrite (octet_at _ 2 a), (octet_at _ 1 b), (octet_at _ 0 c); [done|..];
      [change (256 ^ 0) with 1|change (256 ^ 1) with 256|change (256 ^ 2) with 65536]; lia.
Qed.

(** ** Keyset pages *)

Lemma last_cons_or_nil {A} (l : list A) : l = [] ∨ ∃ l' z, l = l' ++ [z].
Proof. destruct l as [|x l _] using rev_ind; [by left|right; eauto]. Qed.

Section keyset.
Context {A : Type} (key : A → Z * Z).

(** The row comparison [(a1, a2) < (b1, b2)]. *)
Definition older (a b : Z * Z) : bool := (a.1 <? b.1) || ((a.1 =? b.1) && (a.2 <? b.2)).

(** [ORDER BY ... DESC]. *)
Definition not_older (x y : A) : Prop := older (key x) (key y) = false.
#[export] Instance not_older_dec : RelDecision not_older.
Proof. intros x y. unfold not_older. apply _. Defined.

Definition newest_first : list A → list A := merge_sort not_older.

Definition before (after : option (Z * Z)) (x : A) : bool := match after with None => true | Some k => older (key x) k end.

(** One row more than the page tells whether another page follows. *)
Definition page (limit : nat) (after : option (Z * Z)) (table : list A) : list A * option (Z * Z) :=
  let rows := take (S limit) (newest_first (List.filter (before after) table)) in
  if (length rows <=? limit)%nat then (rows, None) else (take limit rows, key <$> last (take limit rows)).

(** The pages a client reads one after the other, the table changing in between, and whether it
    reached the last. *)
Fixpoint walk (limit : nat) (tables : list (list A)) (after : option (Z * Z)) : list (list A) * bool :=
  match tables with
  | [] => ([], false)
  | t :: tables =>
      let '(rows, next) := page limit after t in
      match next with
      | None => ([rows], true)
      | Some k => let '(pages, done) := walk limit tables (Some k) in (rows :: pages, done)
      end
  end.

Definition newer_than (x y : A) : Prop := older (key y) (key x) = true.
Definition keyed (t : list A) : Prop := NoDup (map key t).

Lemma older_trans a b c : older a b = true → older b c = true → older a c = true.
Proof. unfold older. lia. Qed.
Lemma older_irrefl a : older a a = false.
Proof. unfold older. lia. Qed.
Lemma older_total a b : older a b = false → a ≠ b → older b a = true.
Proof.
  destruct a as [a1 a2], b as [b1 b2]. unfold older. cbn. intros H Hne.
  destruct (decide (a1 = b1)) as [->|]; [|lia]. destruct (decide (a2 = b2)) as [->|]; [done|lia].
Qed.

#[export] Instance not_older_trans : Transitive not_older.
Proof. intros x y z. unfold not_older, older. lia. Qed.
#[export] Instance not_older_total : Total not_older.
Proof. intros x y. unfold not_older, older. lia. Qed.

Lemma newest_first_perm t : newest_first t ≡ₚ t.
Proof. apply merge_sort_Permutation. Qed.

(** With distinct keys the order is strict. *)
Lemma newest_first_sorted t : keyed t → StronglySorted newer_than (newest_first t).
Proof.
  intros Hk. assert (Hs : StronglySorted not_older (newest_first t)) by by apply (StronglySorted_merge_sort not_older).
  assert (Hn : NoDup (map key (newest_first t))) by by rewrite newest_first_perm.
  revert Hn. induction Hs as [|x l Hl IH Hx]; [constructor|]. cbn [map]. intros [Hnot Hn]%NoDup_cons.
  constructor; [by apply IH|]. rewrite Forall_forall in *. intros y Hy. apply older_total; [by apply Hx|].
  intros E. apply Hnot. rewrite E. by apply list_elem_of_fmap_2.
Qed.

Lemma keyed_filter p t : keyed t → keyed (List.filter p t).
Proof.
  unfold keyed. induction t as [|x t IH]; [done|]. cbn. intros [Hx Ht]%NoDup_cons. specialize (IH Ht).
  destruct (p x); [|done]. cbn. constructor; [|done]. intros Hin. apply Hx. apply list_elem_of_fmap in Hin as (y & -> & Hy).
  apply list_elem_of_fmap_2. apply list_elem_of_In, filter_In in Hy as [Hy _]. by apply list_elem_of_In.
Qed.

(** One page, and what is left for the next. *)
Lemma page_spec limit after t rows next :
  (0 < limit)%nat → keyed t → page limit after t = (rows, next) →
  StronglySorted newer_than rows ∧ (∀ x, x ∈ rows → x ∈ t ∧ before after x = true) ∧
  match next with
  | None => ∀ x, x ∈ t → before after x = true → x ∈ rows
  | Some k =>
      (∀ x, x ∈ rows → older k (key x) = true ∨ key x = k) ∧
      (∀ x, x ∈ t → before after x = true → x ∈ rows ∨ older (key x) k = true) ∧ (∃ x, x ∈ rows ∧ key x = k)
  end.
Proof.
  intros H0 Hk Hp. unfold page in Hp. set (l := newest_first (List.filter (before after) t)) in *.
  assert (Hin : ∀ x, x ∈ l ↔ x ∈ t ∧ before after x = true).
  { intros x. unfold l. rewrite newest_first_perm, list_elem_of_In, filter_In, <-list_elem_of_In. done. }
  assert (Hs : StronglySorted newer_than l) by by apply newest_first_sorted, keyed_filter.
  clearbody l. rewrite length_take in Hp. destruct (Nat.leb_spec (S limit `min` length l) limit) as [Hle|Hlt].
  - injection Hp as <- <-. rewrite take_ge by lia. split; [done|]. split; [intros x; apply Hin|].
    intros x Hx Hb. by apply Hin.
  - rewrite take_take, Nat.min_l in Hp by lia.
    destruct (last_cons_or_nil (take limit l)) as [E|(l' & z & E)].
    { apply (f_equal length) in E. rewrite length_take in E. cbn in E. lia. }
    rewrite E, last_snoc in Hp. injection Hp as <- <-.
    rewrite <-(take_drop limit l) in Hs. apply StronglySorted_app in Hs as (Hcross & Hs & _). rewrite E in *.
    split; [done|]. split; [|split_and!].
    + intros x Hx. apply Hin. rewrite <-E in Hx. by apply subseteq_take in Hx.
    + apply StronglySorted_app in Hs as (Hz & _ & _). intros x [Hx| ->%list_elem_of_singleton]%elem_of_app; [left|by right].
      apply Hz; [done|by apply list_elem_of_singleton].
    + intros x Hx Hb. assert (Hxl : x ∈ l) by by apply Hin. rewrite <-(take_drop limit l), E in Hxl.
      apply elem_of_app in Hxl as [Hxl|Hxl]; [by left|right]. apply Hcross; [|done]. apply elem_of_app. right.
      by apply list_elem_of_singleton.
    + exists z. split; [|done]. apply elem_of_app. right. by apply list_elem_of_singleton.
Qed.

Lemma before_next after k x z :
  before after z = true → key z = k → older (key x) k = true → before after x = true.
Proof. intros Hz <- Hx. destruct after as [a|]; [|done]. by eapply older_trans. Qed.

(** Nothing is listed twice, nothing that was not there, and all that was there throughout. *)
Lemma walk_spec limit tables after pages done_ :
  (0 < limit)%nat → Forall keyed tables → walk limit tables after = (pages, done_) →
  StronglySorted newer_than (concat pages) ∧
  (∀ x, x ∈ concat pages → before after x = true ∧ ∃ t, t ∈ tables ∧ x ∈ t) ∧
  (done_ = true → ∀ x, (∀ t, t ∈ tables → x ∈ t) → before after x = true → x ∈ concat pages).
Proof.
  intros H0 Hk. revert after pages done_. induction Hk as [|t tables Ht _ IH]; intros after pages done_ Hw; cbn [walk] in Hw.
  { injection Hw as <- <-. split; [constructor|]. by split; [intros x ?%not_elem_of_nil|]. }
  destruct (page limit after t) as [rows next] eqn:Hp. apply page_spec in Hp as (Hs & Hin & Hnext); [|done..].
  destruct next as [k|]; [destruct (walk limit tables (Some k)) as [ps d] eqn:E|]; injection Hw as <- <-; cbn [concat].
  - destruct Hnext as (Hge & Hrest & z & Hz & Hzk). specialize (IH _ _ _ E) as (IHs & IHin & IHall). split; [|split].
    + apply StronglySorted_app. split; [|done]. intros x y Hx Hy. apply IHin in Hy as [Hy _]. cbn in Hy.
      unfold newer_than. destruct (Hge x Hx) as [Hkx| ->]; [by eapply older_trans|done].
    + intros x [Hx|Hx]%elem_of_app.
      * apply Hin in Hx as [Hx Hb]. split; [done|]. exists t. split; [by left|done].
      * apply IHin in Hx as (Hb & t' & Ht' & Hx). split; [|exists t'; split; [by right|done]].
        by apply (before_next after k x z); [apply Hin| |].
    + intros Hd x Hall Hb. apply elem_of_app. destruct (Hrest x) as [Hx|Hx]; [apply Hall; by left|done|by left|right].
      apply IHall; [done| |done]. intros t' Ht'. apply Hall. by right.
  - rewrite app_nil_r. split; [done|]. split.
    + intros x Hx. apply Hin in Hx as [Hx Hb]. split; [done|]. exists t. split; [by left|done].
    + intros _ x Hall Hb. apply Hnext; [apply Hall; by left|done].
Qed.

(** A place that is taken throughout is on one of the pages, whatever is stored there. *)
Lemma walk_places limit tables after pages :
  (0 < limit)%nat → Forall keyed tables → walk limit tables after = (pages, true) →
  ∀ k, match after with None => True | Some a => older k a = true end →
    (∀ t, t ∈ tables → k ∈ map key t) → k ∈ map key (concat pages).
Proof.
  intros H0 Hk. revert after pages. induction Hk as [|t tables Ht _ IH]; intros after pages Hw k Ha Hall; cbn [walk] in Hw; [done|].
  destruct (page limit after t) as [rows next] eqn:Hp. apply page_spec in Hp as (_ & _ & Hnext); [|done..].
  assert (Hx : ∃ x, x ∈ t ∧ key x = k).
  { assert (H : k ∈ map key t) by (apply Hall; by left). apply list_elem_of_fmap in H as (x & -> & Hx). by exists x. }
  destruct Hx as (x & Hx & <-).
  assert (Hb : before after x = true) by by destruct after.
  destruct next as [a|]; [destruct (walk limit tables (Some a)) as [ps d] eqn:E|]; injection Hw as <-; try subst; cbn [concat];
    rewrite map_app; apply elem_of_app.
  - destruct Hnext as (_ & Hrest & _). destruct (Hrest x Hx Hb) as [Hin|Hold]; [left; by apply list_elem_of_fmap_2|right].
    apply (IH _ _ E); [done|]. intros t' Ht'. apply Hall. by right.
  - left. by apply list_elem_of_fmap_2, Hnext.
Qed.

Lemma filter_length_lt (p q : A → bool) l z :
  (∀ x, p x = true → q x = true) → z ∈ l → q z = true → p z = false →
  (length (List.filter p l) < length (List.filter q l))%nat.
Proof.
  intros Hpq Hz Hq Hp. assert (Hle : ∀ l, (length (List.filter p l) ≤ length (List.filter q l))%nat).
  { clear -Hpq. induction l as [|x l IH]; cbn; [done|]. destruct (p x) eqn:E; [rewrite Hpq by done; cbn; lia|].
    destruct (q x); cbn; lia. }
  induction Hz as [z l|z x l Hz IH]; cbn; [rewrite Hq, Hp; cbn; specialize (Hle l); lia|].
  specialize (IH Hq Hp). destruct (p x) eqn:E; [rewrite Hpq by done; cbn; lia|]. destruct (q x); cbn; lia.
Qed.

Lemma filter_none l : List.filter (before None) l = l.
Proof. induction l as [|x l IH]; [done|]. cbn. by rewrite IH. Qed.

(** More turns than rows reach the last page. *)
Lemma walk_ends limit tables after T :
  (0 < limit)%nat → Forall keyed tables → (∀ t x, t ∈ tables → x ∈ t → x ∈ T) →
  (length (List.filter (before after) T) < length tables)%nat → (walk limit tables after).2 = true.
Proof.
  intros H0 Hk. revert after. induction Hk as [|t tables Ht _ IH]; intros after Hall Hlen; [cbn in Hlen; lia|].
  cbn [walk]. destruct (page limit after t) as [rows next] eqn:Hp. apply page_spec in Hp as (_ & Hin & Hnext); [|done..].
  destruct next as [k|]; [|done]. destruct Hnext as (_ & _ & z & Hz & Hzk).
  specialize (IH (Some k)). destruct (walk limit tables (Some k)) as [ps d]. apply IH.
  { intros t' x Ht' Hx. apply (Hall t'); [by right|done]. }
  destruct (Hin z Hz) as [Hzt Hzb]. cbn [length] in Hlen.
  assert (Hlt := filter_length_lt (before (Some k)) (before after) T z).
  ospecialize (Hlt _ _ Hzb _); [|by apply (Hall t); [left|]|by cbn; rewrite Hzk, older_irrefl|lia].
  intros x Hx. by apply (before_next after k x z).
Qed.
End keyset.

(** ** Cursors *)

(** [strings.SplitN(s, "|", 2)], when it has two parts. *)
Fixpoint SplitN2 (s : string) : option (string * string) :=
  match s with
  | "" => None
  | String c s =>
      if Ascii.eqb c "|" then Some ("", s)
      else parts ← SplitN2 s; Some (String c parts.1, parts.2)
  end.

Definition encodeCursor (at_ : time) (id : Z) : string := EncodeToString (Itoa at_ +:+ String "|" (Itoa id)).

Definition decodeCursor (cursor : string) : option (time * Z) :=
  raw ← DecodeString cursor;
  parts ← SplitN2 raw;
  nanos ← ParseInt parts.1;
  id ← ParseInt parts.2;
  Some (nanos, id).

Definition no_bar (c : ascii) : bool := negb (Ascii.eqb c "|").

Lemma SplitN2_bar a b : str_forall no_bar a = true → SplitN2 (a +:+ String "|" b) = Some (a, b).
Proof.
  induction a as [|c a IH]; [done|]. intros Ha. cbn [str_forall] in Ha. apply andb_true_iff in Ha as [Hc Ha].
  change (String c a +:+ String "|" b) with (String c (a +:+ String "|" b)). cbn [SplitN2].
  unfold no_bar in Hc. apply negb_true_iff in Hc. by rewrite Hc, (IH Ha).
Qed.

Lemma Itoa_no_bar n : str_forall no_bar (Itoa n) = true.
Proof.
  assert (Hdec : ∀ w m, str_forall no_bar (dec w m) = true).
  { intros w m. apply fixed_forall; [lia|]. intros d Hd.
    assert (H : forallb (λ d, no_bar (digit_char (Z.of_nat d))) (seq 0 10) = true) by (vm_compute; reflexivity).
    rewrite forallb_forall in H. rewrite <-(Z2Nat.id d) by lia. apply H, in_seq. lia. }
  unfold Itoa. destruct (Z.ltb_spec n 0).
  - destruct (format_digits (- n)) as (w & _ & -> & _); [lia|]. cbn [str_forall]. by rewrite Hdec.
  - destruct (format_digits n) as (w & _ & -> & _); [lia|]. apply Hdec.
Qed.

Lemma decode_encodeCursor at_ id : in_int64 at_ → in_int64 id → decodeCursor (encodeCursor at_ id) = Some (at_, id).
Proof.
  intros Ha Hi. unfold decodeCursor, encodeCursor. rewrite Decode_Encode. cbn [mbind option_bind].
  rewrite SplitN2_bar by apply Itoa_no_bar. cbn [mbind option_bind fst snd]. by rewrite !ParseInt_Itoa.
Qed.

Lemma encodeCursor_nonempty at_ id : encodeCursor at_ id ≠ "".
Proof.
  unfold encodeCursor. destruct (Itoa at_) as [|a [|b [|c s]]]; cbn [EncodeToString String.append]; try done;
    destruct (Itoa id) as [|d [|e s']]; done.
Qed.

(** ** tranlog.go: List *)

Record TransactionFilter := mkFilter {
  f_Status : option string; f_RC : option string; f_Last4 : option string;
  f_From : option time; f_To : option time; f_ReversalReason : option string;
  Cursor : string; Limit : Z
}.

Definition defaultTransactionsLimit : Z := 50.

(** An optional condition, and the comparison of a column in which "" is NULL. *)
Definition given {X} (o : option X) (p : X → bool) : bool := match o with None => true | Some x => p x end.
Definition column_is (column x : string) : bool := negb (String.eqb column "") && String.eqb column x.

(** The code whose name is [reason]; [NOT IN] is false of NULL. *)
Definition reversalReasonClause (reason column : string) : bool :=
  match List.find (λ cn : string * string, String.eqb cn.2 reason) (map_to_list reversalReasonByCode) with
  | Some (code, _) => column_is column code
  | None => negb (String.eqb column "") && negb (existsb (String.eqb column) ["17"; "68"; "06"])
  end.

Definition right4 (s : string) : string := str_drop (slen s - 4) s.

Definition listed (f : TransactionFilter) (r : TranLogRow) : bool :=
  given (f_Status f) (column_is (Status r)) && given (f_RC f) (column_is (ResponseCode r)) &&
  given (f_Last4 f) (String.eqb (right4 (MaskedPAN r))) &&
  given (f_From f) (λ t, t <=? CreatedAt r) && given (f_To f) (λ t, CreatedAt r <=? t) &&
  given (f_ReversalReason f) (λ reason, reversalReasonClause reason (ReversalReasonCode r)).

Definition position (r : TranLogRow) : Z * Z := (CreatedAt r, ID r).

(** The rows [buildListQuery] selects, the LIMIT included. *)
Definition buildListQuery (f : TransactionFilter) (limit : nat) (db : DB) : result error (list TranLogRow) :=
  let select after :=
    Ok (take (S limit) (newest_first position (List.filter (before position after) (List.filter (listed f) (joined db))))) in
  if String.eqb (Cursor f) "" then select None
  else match decodeCursor (Cursor f) with
       | None => Err [ErrOther "invalid cursor"]
       | Some k => select (Some k)
       end.

Definition list_limit (f : TransactionFilter) : nat :=
  Z.to_nat (if Limit f <=? 0 then defaultTransactionsLimit else Limit f).

Definition ListTransactions (f : TransactionFilter) (db : DB) : result error (list TranLogRow * string) :=
  let limit := list_limit f in
  rows ← buildListQuery f limit db;
  if (limit <? length rows)%nat then
    match rows !! (limit - 1)%nat with
    | Some last => Ok (take limit rows, encodeCursor (CreatedAt last) (ID last))
    | None => Ok (take limit rows, "")      (* not reached *)
    end
  else Ok (rows, "").

(** ** links.go: ListEvents *)

Definition event_key (e : NetworkEvent) : Z * Z := (e_ID e, 0).

Definition event_before (cursor : string) : result error Z :=
  if String.eqb cursor "" then Ok 0
  else match ParseInt cursor with
       | Some n => if n <=? 0 then Err [ErrOther "invalid cursor"] else Ok n
       | None => Err [ErrOther "invalid cursor"]
       end.

Definition ListEvents (limit : nat) (cursor : string) (table : list NetworkEvent) : result error (list NetworkEvent * string) :=
  before_ ← event_before cursor;
  let events := take (S limit) (newest_first event_key (List.filter (λ e, (before_ =? 0) || (e_ID e <? before_)) table)) in
  if (length events <=? limit)%nat then Ok (events, "")
  else match take limit events !! (limit - 1)%nat with
       | Some last => Ok (take limit events, Itoa (e_ID last))
       | None => Err [ErrOther "index out of range"]      (* a limit of 0 *)
       end.

(** *** The pages of the two lists *)

Lemma last_of_take {A} (l : list A) n : (0 < n)%nat → (n < length l)%nat → last (take n l) = l !! (n - 1)%nat.
Proof.
  intros H0 Hn. rewrite last_lookup, length_take, Nat.min_l by lia. rewrite lookup_take_lt by lia. f_equal. lia.
Qed.

Lemma page_code {A} (key : A → Z * Z) limit after t (rows := take (S limit) (newest_first key (List.filter (before key after) t))) :
  (0 < limit)%nat →
  page key limit after t
  = if (length rows <=? limit)%nat then (rows, None) else (take limit rows, key <$> rows !! (limit - 1)%nat).
Proof.
  intros H0. unfold page. fold rows. destruct (Nat.leb_spec (length rows) limit); [done|]. by rewrite last_of_take by lia.
Qed.

Definition cursor_text (after : option (Z * Z)) : string :=
  match after with None => "" | Some (at_, id) => encodeCursor at_ id end.

Definition in_range (after : option (Z * Z)) : Prop :=
  match after with None => True | Some (at_, id) => in_int64 at_ ∧ in_int64 id end.

Definition with_cursor (f : TransactionFilter) (cursor : string) : TransactionFilter :=
  mkFilter (f_Status f) (f_RC f) (f_Last4 f) (f_From f) (f_To f) (f_ReversalReason f) cursor (Limit f).

Definition matching (f : TransactionFilter) (db : DB) : list TranLogRow := List.filter (listed f) (joined db).

Lemma list_limit_pos f : (0 < list_limit f)%nat.
Proof. unfold list_limit, defaultTransactionsLimit. destruct (Z.leb_spec (Limit f) 0); lia. Qed.

Lemma ListTransactions_page f after db :
  in_range after →
  ListTransactions (with_cursor f (cursor_text after)) db
  = let '(rows, next) := page position (list_limit f) after (matching f db) in Ok (rows, cursor_text next).
Proof.
  intros Ha. rewrite page_code by apply list_limit_pos. unfold ListTransactions, buildListQuery.
  change (list_limit (with_cursor f (cursor_text after))) with (list_limit f).
  change (listed (with_cursor f (cursor_text after))) with (listed f). cbn [Cursor with_cursor]. fold (matching f db).
  set (limit := list_limit f). pose proof (list_limit_pos f) as H0. fold limit in H0.
  set (rows := take (S limit) (newest_first position (List.filter (before position after) (matching f db)))).
  assert (E : (if String.eqb (cursor_text after) "" then
      Ok (take (S limit) (newest_first position (List.filter (before position None) (matching f db))))
    else match decodeCursor (cursor_text after) with
         | None => Err [ErrOther "invalid cursor"]
         | Some k => Ok (take (S limit) (newest_first position (List.filter (before position (Some k)) (matching f db))))
         end) = Ok rows :> result error _).
  { destruct after as [[at_ id]|]; [|done]. cbn [cursor_text]. destruct Ha as [Ha Hi].
    rewrite (proj2 (String.eqb_neq _ _)) by apply encodeCursor_nonempty. by rewrite decode_encodeCursor. }
  rewrite E. bind_step. destruct (Nat.ltb_spec limit (length rows)) as [Hlt|Hle].
  - rewrite (proj2 (Nat.leb_gt _ _)) by done. destruct (rows !! (limit - 1)%nat) as [r|] eqn:Er; [done|].
    apply lookup_ge_None in Er. lia.
  - by rewrite (proj2 (Nat.leb_le _ _)) by done.
Qed.

(** A client that reads page after page, [db] by [db]. *)
Fixpoint list_pages (f : TransactionFilter) (dbs : list DB) (cursor : string)
    : result error (list (list TranLogRow) * bool) :=
  match dbs with
  | [] => Ok ([], false)
  | db :: dbs =>
      rn ← ListTransactions (with_cursor f cursor) db;
      let '(rows, next) := rn in
      if String.eqb next "" then Ok ([rows], true)
      else pd ← list_pages f dbs next; let '(pages, d) := pd in Ok (rows :: pages, d)
  end.

(** The rows have the ids they are stored under; ids and times are machine integers. *)
Definition rows_ok (db : DB) : Prop :=
  ∀ id r, tran db !! id = Some r → ID r = id ∧ in_int64 id ∧ in_int64 (CreatedAt r).

Lemma joined_row db r : r ∈ joined db → ∃ id r0 name, tran db !! id = Some r0 ∧ r = set_name r0 name.
Proof.
  unfold joined. intros ([id r0] & Hin & E)%list_elem_of_omap. cbn in E.
  destruct (merchants db !! MerchantID r0) as [m|]; [|done]. injection E as <-. exists id, r0, (m_name m). split; [|done].
  unfold by_id in Hin. rewrite merge_sort_Permutation in Hin. by apply elem_of_map_to_list.
Qed.

Lemma joined_keyed db : rows_ok db → keyed position (joined db).
Proof.
  intros Hok. unfold keyed, joined.
  assert (Hl : ∀ kv, kv ∈ by_id (tran db) → ID kv.2 = kv.1).
  { intros [id r] Hin. unfold by_id in Hin. rewrite merge_sort_Permutation in Hin.
    apply elem_of_map_to_list in Hin. by apply Hok. }
  assert (Hn : NoDup (map fst (by_id (tran db)))).
  { unfold by_id. rewrite merge_sort_Permutation. apply NoDup_fst_map_to_list. }
  revert Hl Hn. induction (by_id (tran db)) as [|[id r] l IH]; [constructor|]. cbn [map fst]. intros Hl [Hid Hn]%NoDup_cons.
  cbn [omap list_omap]. specialize (IH (λ kv H, Hl kv (list_elem_of_further _ _ _ H)) Hn). cbn [snd].
  destruct (merchants db !! MerchantID r) as [name|]; cbn [mbind option_bind]; [|done]. cbn [map]. constructor; [|done].
  intros (r' & Hp & Hr')%list_elem_of_fmap. apply list_elem_of_omap in Hr' as ([id' r0] & Hin & E). cbn in E.
  destruct (merchants db !! MerchantID r0) as [name'|]; [|done]. injection E as <-. injection Hp as _ Hp. cbn in Hp.
  apply Hid. pose proof (Hl (id, r) ltac:(by left)) as H1. pose proof (Hl (id', r0) ltac:(by right)) as H2. cbn in H1, H2.
  apply list_elem_of_fmap. exists (id', r0). split; [cbn; congruence|done].
Qed.

Lemma joined_range db r : rows_ok db → r ∈ joined db → in_range (Some (position r)).
Proof.
  intros Hok (id & r0 & name & Hr & ->)%joined_row. destruct (Hok id r0 Hr) as (<- & Hi & Hc). by split.
Qed.

Lemma matching_keyed f db : rows_ok db → keyed position (matching f db).
Proof. intros Hok. by apply keyed_filter, joined_keyed. Qed.

Lemma matching_in f db r : r ∈ matching f db ↔ r ∈ joined db ∧ listed f r = true.
Proof. unfold matching. by rewrite list_elem_of_In, filter_In, <-list_elem_of_In. Qed.

Lemma cursor_text_next next : in_range next → (String.eqb (cursor_text next) "" = true ↔ next = None).
Proof.
  intros _. rewrite String.eqb_eq. destruct next as [[at_ id]|]; [|done].
  split; [|done]. intros E. by apply encodeCursor_nonempty in E.
Qed.

Lemma list_pages_walk f dbs after :
  Forall rows_ok dbs → in_range after →
  list_pages f dbs (cursor_text after) = Ok (walk position (list_limit f) (map (matching f) dbs) after).
Proof.
  intros Hok. revert after. induction Hok as [|db dbs Hdb _ IH]; intros after Ha; [done|]. cbn [list_pages map walk].
  rewrite ListTransactions_page by done.
  destruct (page position (list_limit f) after (matching f db)) as [rows next] eqn:Hp. bind_step.
  assert (Hn : in_range next).
  { destruct next as [k|]; [|done]. pose proof (page_spec position _ _ _ _ _ (list_limit_pos f) (matching_keyed f db Hdb) Hp)
      as (_ & Hin & _ & _ & z & Hz & <-). apply (joined_range db z Hdb), (matching_in f). by apply Hin. }
  destruct (String.eqb (cursor_text next) "") eqn:E.
  - apply cursor_text_next in E as ->; done.
  - destruct next as [k|]; [|done]. rewrite IH by done. bind_step.
    by destruct (walk position (list_limit f) (map (matching f) dbs) (Some k)).
Qed.

(** No transaction moves in the list: its created_at is the same in every database. *)
Definition same_places (dbs : list DB) : Prop :=
  ∀ db db' id r r', db ∈ dbs → db' ∈ dbs → tran db !! id = Some r → tran db' !! id = Some r' → CreatedAt r = CreatedAt r'.

Lemma same_position dbs db db' r r' :
  Forall rows_ok dbs → same_places dbs → db ∈ dbs → db' ∈ dbs → r ∈ joined db → r' ∈ joined db' → ID r = ID r' →
  position r = position r'.
Proof.
  intros Hok Hp Hdb Hdb' (id & r0 & n & Hr & ->)%joined_row (id' & r0' & n' & Hr' & ->)%joined_row Hid.
  rewrite Forall_forall in Hok. destruct (Hok db Hdb id r0 Hr) as [<- _], (Hok db' Hdb' id' r0' Hr') as [<- _].
  cbn in Hid. rewrite Hid in Hr. unfold position. cbn. f_equal; [|done]. by apply (Hp db db' (ID r0')).
Qed.

Lemma ids_listed_once dbs l :
  Forall rows_ok dbs → same_places dbs → (∀ r, r ∈ l → ∃ db, db ∈ dbs ∧ r ∈ joined db) →
  StronglySorted (newer_than position) l → NoDup (map ID l).
Proof.
  intros Hok Hp Hin Hs. induction Hs as [|r l Hl IH Hr]; [constructor|]. cbn [map].
  constructor; [|apply IH; intros x Hx; apply Hin; by right].
  intros (r' & He & Hr')%list_elem_of_fmap. rewrite Forall_forall in Hr. specialize (Hr r' Hr').
  destruct (Hin r) as (db & Hdb & Hj); [by left|]. destruct (Hin r') as (db' & Hdb' & Hj'); [by right|].
  unfold newer_than in Hr. rewrite (same_position dbs db db' r r') in Hr by done. by rewrite older_irrefl in Hr.
Qed.

(** C27. Paging through the transactions.  However many rows are written between one page and the next
    (every page may see another database), a client that starts without a cursor and follows the
    cursors it is given gets no error; all it gets is in strictly descending (created_at, id) order,
    matches the filter and was in the table; a row that matches and is there throughout is on one of
    the pages once the last has been read; and the last is reached after at most one page more than
    there are matching rows.  While no created_at changes between the pages, no transaction is listed
    twice, and one that matches throughout is listed though its row may change.  Only Backdate of the
    seed command changes a created_at; it can have a transaction listed twice ([backdated_twice]). *)
Theorem transactions_paged_once f dbs all :
  Forall rows_ok dbs →
  ∃ pages finished, list_pages f dbs "" = Ok (pages, finished) ∧
    StronglySorted (newer_than position) (concat pages) ∧
    (∀ r, r ∈ concat pages → ∃ db, db ∈ dbs ∧ r ∈ joined db ∧ listed f r = true) ∧
    (finished = true → ∀ r, listed f r = true → (∀ db, db ∈ dbs → r ∈ joined db) → r ∈ concat pages) ∧
    ((∀ db r, db ∈ dbs → r ∈ joined db → listed f r = true → r ∈ all) →
     (length all < length dbs)%nat → finished = true) ∧
    (same_places dbs →
       NoDup (map ID (concat pages)) ∧
       (finished = true → ∀ id, (∀ db, db ∈ dbs → ∃ r, r ∈ joined db ∧ listed f r = true ∧ ID r = id) →
        id ∈ map ID (concat pages))).
Proof.
  intros Hok. pose proof (list_pages_walk f dbs None Hok I) as E. cbn [cursor_text] in E. rewrite E.
  destruct (walk position (list_limit f) (map (matching f) dbs) None) as [pages finished] eqn:Hw. exists pages, finished.
  assert (Hk : Forall (keyed position) (map (matching f) dbs)).
  { apply Forall_fmap, (Forall_impl _ _ _ Hok). intros db. apply matching_keyed. }
  pose proof (walk_spec position _ _ _ _ _ (list_limit_pos f) Hk Hw) as (Hs & Hin & Hall). split_and!; [done|done|..].
  - intros r Hr. destruct (Hin r Hr) as (_ & t & Ht & Hrt). apply list_elem_of_fmap in Ht as (db & -> & Hdb).
    exists db. split; [done|by apply matching_in].
  - intros Hd r Hl Hr. apply Hall; [done| |done]. intros t (db & -> & Hdb)%list_elem_of_fmap. apply matching_in. by split; [apply Hr|].
  - intros Ht Hlen. pose proof (walk_ends position (list_limit f) (map (matching f) dbs) None all (list_limit_pos f) Hk) as He.
    rewrite Hw in He. apply He.
    + intros t r (db & -> & Hdb)%list_elem_of_fmap [Hr Hl]%matching_in. by apply (Ht db).
    + by rewrite filter_none, length_fmap.
  - intros Hp. assert (Hfrom : ∀ r, r ∈ concat pages → ∃ db, db ∈ dbs ∧ r ∈ joined db).
    { intros r Hr. destruct (Hin r Hr) as (_ & t & Ht & Hrt). apply list_elem_of_fmap in Ht as (db & -> & Hdb).
      exists db. split; [done|]. by apply matching_in in Hrt as [Hrt _]. }
    split; [by apply (ids_listed_once dbs)|]. intros -> id Hid.
    destruct dbs as [|db0 dbs']; [by injection Hw|]. destruct (Hid db0) as (r0 & Hr0 & _ & Er0); [by left|].
    assert (Hplace : position r0 ∈ map position (concat pages)).
    { apply (walk_places position _ _ None pages (list_limit_pos f) Hk Hw); [done|].
      intros t (db & -> & Hdb)%list_elem_of_fmap. destruct (Hid db Hdb) as (r & Hr & Hl & Er).
      apply list_elem_of_fmap. exists r. split; [|by apply matching_in].
      apply (same_position (db0 :: dbs') db0 db); try done; [by left|congruence]. }
    apply list_elem_of_fmap in Hplace as (r & Er & Hr). apply list_elem_of_fmap. exists r. split; [|done].
    injection Er as _ Er. congruence.
Qed.

(** *** Network events *)

Fixpoint event_pages (limit : nat) (tables : list (list NetworkEvent)) (cursor : string)
    : result error (list (list NetworkEvent) * bool) :=
  match tables with
  | [] => Ok ([], false)
  | t :: tables =>
      rn ← ListEvents limit cursor t;
      let '(events, next) := rn in
      if String.eqb next "" then Ok ([events], true)
      else pd ← event_pages limit tables next; let '(pages, d) := pd in Ok (events :: pages, d)
  end.

Definition event_cursor (after : option (Z * Z)) : string := match after with None => "" | Some k => Itoa k.1 end.

(** Ids are positive and distinct. *)
Definition events_ok (t : list NetworkEvent) : Prop :=
  NoDup (map e_ID t) ∧ Forall (λ e, 0 < e_ID e < 2 ^ 63) t.

Definition issued (after : option (Z * Z)) : Prop := match after with None => True | Some k => 0 < k.1 < 2 ^ 63 ∧ k.2 = 0 end.

Lemma ListEvents_page limit after t :
  (0 < limit)%nat → issued after →
  ListEvents limit (event_cursor after) t
  = let '(events, next) := page event_key limit after t in Ok (events, event_cursor next).
Proof.
  intros H0 Ha. rewrite page_code by done. unfold ListEvents.
  set (n := match after with None => 0 | Some k => k.1 end).
  assert (E : event_before (event_cursor after) = Ok n).
  { unfold event_before. destruct after as [k|]; [|done]. cbn [event_cursor]. destruct Ha as [Hk _].
    destruct (String.eqb_spec (Itoa k.1) "") as [E|_].
    { pose proof (ParseInt_Itoa k.1 ltac:(unfold in_int64; lia)) as H. by rewrite E in H. }
    rewrite ParseInt_Itoa by (unfold in_int64; lia). by rewrite (proj2 (Z.leb_gt _ _)) by lia. }
  rewrite E. bind_step.
  assert (Hf : List.filter (λ e, (n =? 0) || (e_ID e <? n)) t = List.filter (before event_key after) t).
  { apply filter_ext. intros e. destruct after as [k|]; [|done]. destruct Ha as [Hk H2]. unfold before, older, event_key, n. cbn. lia. }
  rewrite Hf. set (rows := take (S limit) (newest_first event_key (List.filter (before event_key after) t))).
  destruct (Nat.leb_spec (length rows) limit); [done|]. rewrite lookup_take_lt by lia.
  destruct (rows !! (limit - 1)%nat) as [r|] eqn:Er; [done|]. apply lookup_ge_None in Er. lia.
Qed.

Lemma events_keyed t : events_ok t → keyed event_key t.
Proof.
  intros [Hn _]. unfold keyed. apply (NoDup_fmap_1 fst).
  change (NoDup (map fst (map event_key t))). rewrite map_map. exact Hn.
Qed.

Lemma event_cursor_end next : issued next → (String.eqb (event_cursor next) "" = true ↔ next = None).
Proof.
  intros Hn. rewrite String.eqb_eq. destruct next as [k|]; [|done]. split; [|done]. cbn. intros E.
  pose proof (ParseInt_Itoa k.1 ltac:(destruct Hn; unfold in_int64; lia)) as H. by rewrite E in H.
Qed.

Lemma event_pages_walk limit tables after :
  (0 < limit)%nat → Forall events_ok tables → issued after →
  event_pages limit tables (event_cursor after) = Ok (walk event_key limit tables after).
Proof.
  intros H0 Hok. revert after. induction Hok as [|t tables Ht _ IH]; intros after Ha; [done|]. cbn [event_pages walk].
  rewrite ListEvents_page by done. destruct (page event_key limit after t) as [events next] eqn:Hp. bind_step.
  assert (Hn : issued next).
  { destruct next as [k|]; [|done]. pose proof (page_spec event_key _ _ _ _ _ H0 (events_keyed t Ht) Hp)
      as (_ & Hin & _ & _ & z & Hz & <-). destruct Ht as [_ Hr]. rewrite Forall_forall in Hr. split; [|done].
    by apply Hr, Hin. }
  destruct (String.eqb (event_cursor next) "") eqn:E.
  - apply event_cursor_end in E as ->; done.
  - destruct next as [k|]; [|done]. rewrite IH by done. bind_step. by destruct (walk event_key limit tables (Some k)).
Qed.

(** The same of the network events, for a positive limit. *)
Lemma events_paged_once limit tables all :
  (0 < limit)%nat → Forall events_ok tables →
  ∃ pages finished, event_pages limit tables "" = Ok (pages, finished) ∧
    StronglySorted (newer_than event_key) (concat pages) ∧
    (∀ e, e ∈ concat pages → ∃ t, t ∈ tables ∧ e ∈ t) ∧
    (finished = true → ∀ e, (∀ t, t ∈ tables → e ∈ t) → e ∈ concat pages) ∧
    ((∀ t e, t ∈ tables → e ∈ t → e ∈ all) → (length all < length tables)%nat → finished = true).
Proof.
  intros H0 Hok. pose proof (event_pages_walk limit tables None H0 Hok I) as E. cbn [event_cursor] in E. rewrite E.
  destruct (walk event_key limit tables None) as [pages finished] eqn:Hw. exists pages, finished.
  assert (Hk : Forall (keyed event_key) tables) by (apply (Forall_impl _ _ _ Hok); apply events_keyed).
  pose proof (walk_spec event_key _ _ _ _ _ H0 Hk Hw) as (Hs & Hin & Hall). split_and!; [done|done|..].
  - intros e He. by apply Hin.
  - intros Hd e He. by apply Hall.
  - intros Ht Hlen. pose proof (walk_ends event_key limit tables None all H0 Hk Ht) as He. rewrite Hw in He. apply He.
    by rewrite filter_none.
Qed.

(** The filter by reversal reason finds the rows shown with that reason. *)
Lemma reversalReasonClause_shown reason column :
  In reason ["CUSTOMER_CANCELLATION"; "TIMEOUT"; "MAC_FAILURE"; "SEND_FAILURE"] →
  reversalReasonClause reason column = String.eqb (ReversalReasonOf column) reason.
Proof.
  intros Hr. unfold ReversalReasonOf, reversalReasonByCode.
  destruct (String.eqb_spec column "") as [->|Hne].
  { repeat destruct Hr as [<-|Hr]; [vm_compute; reflexivity..|done]. }
  destruct (decide (column = "17")) as [->|H17]; [|destruct (decide (column = "68")) as [->|H68];
    [|destruct (decide (column = "06")) as [->|H06]]].
  1-3: repeat destruct Hr as [<-|Hr]; [vm_compute; reflexivity..|done].
  rewrite !lookup_insert_ne, lookup_singleton_ne by done. unfold reversalReasonClause, reversalReasonByCode, column_is.
  repeat destruct Hr as [<-|Hr]; [..|done];
    match goal with |- context [List.find ?p ?l] => let v := eval vm_compute in (List.find p l) in change (List.find p l) with v end;
    cbn iota beta; cbn [existsb]; rewrite ?(proj2 (String.eqb_neq column _)) by done; reflexivity.
Qed.

(** *** Two pages, a row written in between *)

Definition demo_at (id : Z) (at_ : time) : TranLogRow :=
  with_extra Journey.demo_row id "Ca phe Goc Pho" at_ "" None None None "" "" zero_time.
Definition demo_rows (rows : list TranLogRow) : DB :=
  mkDB (list_to_map (map (λ r, (ID r, r)) rows)) 9 [] ∅ 1 ∅ 1 {["GOCPHO000000001" := mkMerchantRow "Ca phe Goc Pho" "5814"]} ∅.
Definition demo_filter : TransactionFilter := mkFilter (Some "REVERSED") None None (Some 0) None None "" 1.
Definition demo_dbs : list DB :=
  [demo_rows [demo_at 1 10; demo_at 2 20]; demo_rows [demo_at 1 10; demo_at 2 20; demo_at 3 30];
   demo_rows [demo_at 1 10; demo_at 2 20; demo_at 3 30]; demo_rows [demo_at 1 10; demo_at 2 20; demo_at 3 30]].

Example demo_pages :
  (λ pd, (map (map ID) pd.1, pd.2)) <$> list_pages demo_filter demo_dbs "" = Ok ([[2]; [1]], true).
Proof. vm_compute. reflexivity. Qed.

Lemma demo_rows_ok : Forall rows_ok demo_dbs.
Proof.
  assert (H : ∀ l, Forall (λ r, in_int64 (ID r) ∧ in_int64 (CreatedAt r)) l → rows_ok (demo_rows l)).
  { intros l Hl id r Hr. cbn [tran demo_rows] in Hr. apply elem_of_list_to_map_2, list_elem_of_fmap in Hr as (r' & [= -> ->] & Hin).
    rewrite Forall_forall in Hl. destruct (Hl r' Hin). done. }
  unfold demo_dbs. rewrite !Forall_cons. split_and!; [apply H..|apply Forall_nil, I];
    apply Forall_forall; intros r Hr; repeat (apply elem_of_cons in Hr as [->|Hr]);
    solve [by apply not_elem_of_nil in Hr|split; split; vm_compute; congruence].
Qed.

Definition demo_all : list TranLogRow := [demo_at 1 10; demo_at 2 20; demo_at 3 30].

(** A row that is backdated between two pages, as the seed command does, comes twice. *)
Example backdated_twice :
  (λ pd, (map (map ID) pd.1, pd.2)) <$>
    list_pages demo_filter [demo_rows [demo_at 1 10; demo_at 2 20]; demo_rows [demo_at 1 10; demo_at 2 5];
                            demo_rows [demo_at 1 10; demo_at 2 5]] "" = Ok ([[2]; [1]; [2]], true).
Proof. vm_compute. reflexivity. Qed.

Lemma demo_same_places : same_places demo_dbs.
Proof.
  assert (H : ∀ db id r, db ∈ demo_dbs → tran db !! id = Some r → CreatedAt r = 10 * id).
  { intros db id r Hdb Hr. unfold demo_dbs in Hdb. repeat (apply elem_of_cons in Hdb as [->|Hdb]; [|try by apply not_elem_of_nil in Hdb]).
    all: cbn [tran demo_rows] in Hr; apply elem_of_list_to_map_2, list_elem_of_fmap in Hr as (r' & [= -> ->] & Hin);
      repeat (apply elem_of_cons in Hin as [->|Hin]; [reflexivity|]); by apply not_elem_of_nil in Hin. }
  intros db db' id r r' Hdb Hdb' Hr Hr'. by rewrite (H db id r Hdb Hr), (H db' id r' Hdb' Hr').
Qed.

Lemma transactions_paged_once_witness :
  same_places demo_dbs ∧
  ∃ pages finished, list_pages demo_filter demo_dbs "" = Ok (pages, finished) ∧
    StronglySorted (newer_than position) (concat pages) ∧
    (∀ r, r ∈ concat pages → ∃ db, db ∈ demo_dbs ∧ r ∈ joined db ∧ listed demo_filter r = true) ∧
    (finished = true → ∀ r, listed demo_filter r = true → (∀ db, db ∈ demo_dbs → r ∈ joined db) → r ∈ concat pages) ∧
    ((∀ db r, db ∈ demo_dbs → r ∈ joined db → listed demo_filter r = true → r ∈ demo_all) →
     (length demo_all < length demo_dbs)%nat → finished = true) ∧
    (same_places demo_dbs →
       NoDup (map ID (concat pages)) ∧
       (finished = true → ∀ id, (∀ db, db ∈ demo_dbs → ∃ r, r ∈ joined db ∧ listed demo_filter r = true ∧ ID r = id) →
        id ∈ map ID (concat pages))).
Proof. split; [exact demo_same_places|]. apply transactions_paged_once, demo_rows_ok. Defined.
