(* ===== verification/Lab.v ===== *)
(** * Lab: the message lab

    [gateway-go/internal/lab]: decode.go, samples.go and glossary.go.  A message is taken apart by
    [UnpackSegmented] and shown with its secrets redacted, both field by field and as it was on the
    wire. *)

From S2P Require Import Prelude Digits Fields Codec CodecSort CodecCorrect CodecBounds Mask.
Local Open Scope Z_scope.

(** ** decode.go *)

Definition panDE : Z := 2.

Definition shownSensitive : list string := [""; "pan"; "expiry"; "key-material"].

Definition panVisibleHead : nat := 6.
Definition panVisibleTail : nat := 4.

Record Field := mkField {
  DE : string; EasyName : string; TechnicalName : string; Format : string; Value : string; Raw : string }.

Record Decoded := mkDecoded {
  d_MTI : string; PrimaryBitmap : string; SecondaryBitmap : option string;
  Segments : list Segment; d_Fields : list Field; Packed : option string
}.

(** The zero value of a field that is not in the table. *)
Definition spec_of (de : Z) : FieldSpec := default (mkFieldSpec 0 "" 0 "" "" "") (Fields !! de).

Definition stars (n : nat) : string := repeat_char "*" n.

Definition maskPANByPosition (pan : string) : string :=
  let n := slen pan in
  if (panVisibleHead + panVisibleTail <? n)%nat then
    str_take panVisibleHead pan +:+ stars (n - panVisibleHead - panVisibleTail) +:+ str_drop (n - panVisibleTail) pan
  else if (panVisibleTail <? n)%nat then stars (n - panVisibleTail) +:+ str_drop (n - panVisibleTail) pan
  else stars n.

(** [freeTextPAN.ReplaceAllStringFunc(value, maskPANByPosition)]: [\d{13,}], leftmost and greedy, so
    a match is a whole run of digits; the fuel is the length that is left. *)
Fixpoint mask_runs (fuel : nat) (s : string) : string :=
  match fuel with
  | O => s
  | S fuel =>
      match s with
      | "" => ""
      | String c rest =>
          let n := digit_run s in
          if (13 <=? n)%nat then maskPANByPosition (str_take n s) +:+ mask_runs fuel (str_drop n s)
          else String c (mask_runs fuel rest)
      end
  end.

Definition freeTextPAN_masked (s : string) : string := mask_runs (slen s) s.

Definition shown (spec : FieldSpec) : bool := existsb (String.eqb (Sensitive spec)) shownSensitive.

(** [strings.HasPrefix(..., "an")]. *)
Definition free_text (spec : FieldSpec) : bool := String.eqb (str_take 2 (Type_ spec)) "an".

Definition redactValue (de : Z) (value : string) : string :=
  if de =? panDE then maskPANByPosition value
  else if negb (shown (spec_of de)) then stars (slen value)
  else if free_text (spec_of de) then freeTextPAN_masked value
  else value.

Definition prefix_len (spec : FieldSpec) : nat :=
  if String.eqb (Prefix spec) "LL" then 2 else if String.eqb (Prefix spec) "LLL" then 3 else 0.

Definition redactWire (de : Z) (text : string) : string :=
  let n := prefix_len (spec_of de) in
  if (slen text <? n)%nat then stars (slen text)
  else str_take n text +:+ redactValue de (str_drop n text).

(** [strconv.Atoi]: an [int] is an [int64] here. *)
Definition Atoi (s : string) : option Z := ParseInt s.

Definition redactSegments (segments : list Segment) : list Segment :=
  map (λ s, match Atoi (Key s) with Some n => mkSegment (Key s) (redactWire n (Text s)) | None => s end) segments.

(** ** glossary.go *)

Definition easyNameOverrides : gmap Z string :=
  {[ 22 := "Entry mode"; 55 := "Card chip data (EMV)"; 90 := "Reference to the original message" ]}.

Definition easyName (de : Z) (technicalName : string) : string := default technicalName (easyNameOverrides !! de).

(** ** decode.go, continued *)

Definition buildFields (fields : fieldmap) (segmentsByDE : gmap Z string) : list Field :=
  let numbers := merge_sort Z.le (map fst (map_to_list fields)) in
  map (λ n, let spec := spec_of n in
            mkField (Itoa n) (easyName n (Name spec)) (Name spec) (Type_ spec)
                    (redactValue n (default "" (fields !! n))) (default "" (segmentsByDE !! n))) numbers.

Record sorted_segments := mkSorted { primary : string; secondary : string; segByDE : gmap Z string }.

(** The loop over the segments in [assemble]. *)
Definition sort_segment (acc : sorted_segments) (s : Segment) : sorted_segments :=
  if String.eqb (Key s) "primaryBitmap" then mkSorted (Text s) (secondary acc) (segByDE acc)
  else if String.eqb (Key s) "secondaryBitmap" then mkSorted (primary acc) (Text s) (segByDE acc)
  else if String.eqb (Key s) "mti" then acc
  else mkSorted (primary acc) (secondary acc) (<[default 0 (Atoi (Key s)) := Text s]> (segByDE acc)).

Definition assemble (mti : string) (fields : fieldmap) (segments : list Segment) : Decoded :=
  let maskedSegments := redactSegments segments in
  let acc := foldl sort_segment (mkSorted "" "" ∅) maskedSegments in
  mkDecoded mti (primary acc) (if String.eqb (secondary acc) "" then None else Some (secondary acc)) maskedSegments
    (buildFields fields (segByDE acc)) None.

Definition joinSegments (segments : list Segment) : string := texts segments.

(** ** samples.go *)

Definition sampleVectors : list string := [
  "0200723E448108E0920116970436000000441700000000000025000009210732080001231432080921281109215814051000697049962651400012300000042GOCPHO000000001CA PHE GOC PHO           HO CHI MINH  VN7047A3F09C21B84D6E00209F2608A1B2C3D4E5F607189F2701809F3602001C4E1D7B02C9A3F815";
  "0210723A00010EC0800116970436000000441700000000000025000009210732080001231432080921092106970499626514000123A001230000000042GOCPHO00000000170491C0A4E27D3B5F68";
  "0420F23A04810AC08000000000400000000116970436000000441700000000000060000009210733140001251432440921092105100069704996265140001246800000042GOCPHO0000000017040200000124092107324400000970499000000000005D0E33A17BC2904F";
  "0800822000000000000004000000000000000921073300000200301"].

(** A vector that does not unpack panics when the program starts ([samples_decode]: none does). *)
Definition mustRedactRaw (raw : string) : string :=
  match UnpackSegmented raw with
  | Ok (_, _, segments) => joinSegments (redactSegments segments)
  | Err _ => ""
  end.

Record Sample := mkSample { s_MTI : string; Label : string; s_Raw : string }.

Definition Samples : list Sample :=
  zip_with (λ ml raw, mkSample ml.1 ml.2 (mustRedactRaw raw))
    [("0200", "Purchase, chip + PIN"); ("0210", "Purchase approved"); ("0420", "Reversal on timeout");
     ("0800", "Echo (network management)")] sampleVectors.

Definition clearSamples : gmap string string :=
  foldl (λ m v, <[mustRedactRaw v := v]> m) ∅ sampleVectors.

(** ** decode.go: Decode and Encode *)

Definition Decode (raw : string) : result CodecError Decoded :=
  let raw := default raw (clearSamples !! raw) in
  '(mti, fields, segments) ← UnpackSegmented raw;
  Ok (assemble mti fields segments).

(** [for k, v := range fields], in the order Go happens to take. *)
Fixpoint numeric (order : list (string * string)) (acc : fieldmap) : result CodecError fieldmap :=
  match order with
  | [] => Ok acc
  | (k, v) :: order =>
      match Atoi k with
      | None => Err (mkCodecError "UNKNOWN_FIELD" 0 ("DE key not numeric: " +:+ k))
      | Some n => numeric order (<[n := v]> acc)
      end
  end.

Definition with_packed (d : Decoded) (p : string) : Decoded :=
  mkDecoded (d_MTI d) (PrimaryBitmap d) (SecondaryBitmap d) (Segments d) (d_Fields d) (Some p).

Definition Encode (mti : string) (fields : list (string * string)) : result CodecError Decoded :=
  numeric_ ← numeric fields ∅;
  packed ← Pack mti numeric_;
  d ← Decode packed;
  Ok (with_packed d (joinSegments (Segments d))).

(** ** Redaction *)

Definition is_star (c : ascii) : bool := Ascii.eqb c "*".

(** Some of [v] is hidden, and at most its first six and last four characters are not; of ten or
    fewer characters only the last four are shown. *)
Definition pan_hidden (v s : string) : Prop :=
  ∃ a m b, v = a +:+ m +:+ b ∧ s = a +:+ stars (slen m) +:+ b ∧ (slen a ≤ 6)%nat ∧ (slen b ≤ 4)%nat ∧
    ((slen v ≤ 10)%nat → a = "") ∧ (v ≠ "" → m ≠ "").

Definition no_digit_run (k : nat) (s : string) : Prop :=
  ∀ a d b, s = a +:+ d +:+ b → str_forall is_digit d = true → (slen d < k)%nat.

(** What the lab may show, field by field, whatever its table says: nothing of the PIN block, the ICC data
    and the MACs; text without a run of 13 digits. *)
Definition secret_DE : list Z := [52; 55; 64; 128].
Definition text_DE : list Z := [37; 38; 39; 41; 42; 43; 48; 54; 97].

Definition redacted (n : Z) (v s : string) : Prop :=
  slen s = slen v ∧
  if n =? 2 then pan_hidden v s
  else if bool_decide (n ∈ secret_DE) then str_forall is_star s = true
  else if bool_decide (n ∈ text_DE) then no_digit_run 13 s ∧ (no_digit_run 13 v → s = v)
  else s = v.

(** The code's classes are those. *)
Definition class_ok (n : Z) (spec : FieldSpec) : bool :=
  (n =? 2) || Bool.eqb (negb (shown spec)) (bool_decide (n ∈ secret_DE)) &&
              (negb (shown spec) || Bool.eqb (free_text spec) (bool_decide (n ∈ text_DE))).

Lemma listed_DE n : n ∈ secret_DE ++ text_DE → is_Some (Fields !! n).
Proof.
  intros Hn. assert (H : forallb (λ k, bool_decide (is_Some (Fields !! k))) (secret_DE ++ text_DE) = true)
    by (vm_compute; reflexivity).
  rewrite forallb_forall in H. eapply bool_decide_eq_true_1, H. by apply list_elem_of_In.
Qed.

Lemma Fields_classes n : class_ok n (spec_of n) = true.
Proof.
  unfold spec_of. destruct (Fields !! n) as [spec|] eqn:E; cbn [from_option id].
  - destruct (Fields_ok n spec E) as (<- & _ & Hin).
    assert (H : forallb (λ f, class_ok (Number f) f) field_rows = true) by (vm_compute; reflexivity).
    rewrite forallb_forall in H. by apply H, list_elem_of_In.
  - assert (Hno : n ∉ secret_DE ++ text_DE) by (intros [? Hs]%listed_DE; congruence).
    apply not_elem_of_app in Hno as [H1 H2]. unfold class_ok.
    rewrite (bool_decide_false (n ∈ secret_DE)), (bool_decide_false (n ∈ text_DE)) by done. apply orb_true_r.
Qed.

Lemma slen_stars n : slen (stars n) = n.
Proof. unfold stars. induction n as [|n IH]; [done|]. cbn. by rewrite IH. Qed.

Lemma stars_all n : str_forall is_star (stars n) = true.
Proof. unfold stars. induction n as [|n IH]; [done|exact IH]. Qed.

Lemma maskPAN_hidden v : pan_hidden v (maskPANByPosition v).
Proof.
  unfold maskPANByPosition, panVisibleHead, panVisibleTail. cbn [Nat.add].
  destruct (Nat.ltb_spec 10 (slen v)) as [H|H].
  - destruct (str_take_drop_split 6 v) as (a & r & Hv & Ha & -> & Hr); [lia|].
    destruct (str_take_drop_split (slen r - 4) r) as (m & b & Hr' & Hm & _ & Hb); [lia|].
    assert (Hlen : slen v = (6 + slen r)%nat) by (rewrite Hv, slen_app; lia).
    assert (Hlr : slen r = (slen m + slen b)%nat) by (rewrite Hr', slen_app; lia).
    exists a, m, b. split; [by rewrite Hv, Hr'|]. split; [|repeat split; try lia].
    + f_equal. f_equal; [f_equal; lia|]. rewrite <-Hb, <-Hr, str_drop_drop. f_equal. rewrite ?slen_drop. lia.
    + intros _ ->. cbn in Hm. lia.
  - destruct (Nat.ltb_spec 4 (slen v)) as [H4|H4].
    + destruct (str_take_drop_split (slen v - 4) v) as (m & b & Hv & Hm & _ & Hb); [lia|].
      assert (Hlen : slen v = (slen m + slen b)%nat) by (rewrite Hv at 1; by rewrite slen_app).
      exists "", m, b. split; [exact Hv|]. split; [by rewrite Hb, <-Hm|]. repeat split; cbn; try lia.
      intros _ ->. cbn in Hm. lia.
    + exists "", v, "". split; [by rewrite app_nil_str|]. split; [by rewrite app_nil_str|].
      repeat split; cbn; try lia. done.
Qed.

Lemma maskPAN_len v : slen (maskPANByPosition v) = slen v.
Proof.
  destruct (maskPAN_hidden v) as (a & m & b & Hv & -> & _). by rewrite Hv, !slen_app, slen_stars.
Qed.

(** *** Runs of digits *)

(** Every run of digits, the first continuing [cur] of them, is shorter than [k]. *)
Fixpoint runs_below (k cur : nat) (s : string) : bool :=
  match s with
  | "" => true
  | String c s => if is_digit c then (S cur <? k)%nat && runs_below k (S cur) s else runs_below k 0 s
  end.

Lemma runs_below_digits k cur d s :
  str_forall is_digit d = true → (cur < k)%nat →
  runs_below k cur (d +:+ s) = (cur + slen d <? k)%nat && runs_below k (cur + slen d) s.
Proof.
  revert cur. induction d as [|c d IH]; intros cur Hd Hk.
  - change ("" +:+ s) with s. cbn [slen]. by rewrite Nat.add_0_r, (proj2 (Nat.ltb_lt _ _)) by done.
  - cbn [str_forall] in Hd. apply andb_true_iff in Hd as [Hc Hd].
    change (runs_below k cur (String c (d +:+ s)) = (cur + S (slen d) <? k)%nat && runs_below k (cur + S (slen d)) s).
    cbn [runs_below]. rewrite Hc. replace (cur + S (slen d))%nat with (S cur + slen d)%nat by lia.
    destruct (Nat.ltb_spec (S cur) k) as [Hlt|Hge]; [by rewrite IH|].
    by rewrite (proj2 (Nat.ltb_ge _ _)) by lia.
Qed.

Lemma runs_below_stars k cur n s : (0 < n)%nat → runs_below k cur (stars n +:+ s) = runs_below k 0 s.
Proof.
  unfold stars. intros Hn. destruct n as [|n]; [lia|]. clear Hn. revert cur. induction n as [|n IH]; intros cur; [done|].
  exact (IH 0%nat).
Qed.

Lemma runs_below_drop k cur a s :
  (cur < k)%nat → runs_below k cur (a +:+ s) = true → ∃ cur', (cur' < k)%nat ∧ runs_below k cur' s = true.
Proof.
  revert cur. induction a as [|c a IH]; intros cur Hk H; [by exists cur|].
  change (runs_below k cur (String c (a +:+ s)) = true) in H. cbn [runs_below] in H.
  destruct (is_digit c); [|apply (IH 0%nat); [lia|done]].
  apply andb_true_iff in H as [Hlt H]. apply Nat.ltb_lt in Hlt. by apply (IH (S cur)).
Qed.

Lemma runs_below_no_run k s : (0 < k)%nat → runs_below k 0 s = true → no_digit_run k s.
Proof.
  intros Hk H a d b -> Hd. destruct (runs_below_drop k 0 a _ Hk H) as (cur & Hlt & H').
  rewrite runs_below_digits in H' by done. apply andb_true_iff in H' as [H' _]. apply Nat.ltb_lt in H'. lia.
Qed.

Lemma digit_run_split s : str_forall is_digit (str_take (digit_run s) s) = true ∧ digit_run (str_drop (digit_run s) s) = 0%nat.
Proof.
  induction s as [|c s IH]; [done|]. cbn [digit_run]. destruct (is_digit c) eqn:Hc.
  - cbn [str_take str_drop str_forall]. by rewrite Hc.
  - split; [done|]. cbn [str_drop digit_run]. by rewrite Hc.
Qed.

Lemma mask_runs_short fuel s cur :
  (slen s ≤ fuel)%nat → (cur < 13)%nat → ((digit_run s < 13)%nat → (cur + digit_run s < 13)%nat) →
  ((13 ≤ digit_run s)%nat → cur = 0%nat) → runs_below 13 cur (mask_runs fuel s) = true.
Proof.
  revert s cur. induction fuel as [|fuel IH]; intros s cur Hs Hcur Hshort Hlong.
  { destruct s; [done|cbn in Hs; lia]. }
  destruct s as [|c rest]; [done|]. cbn [mask_runs].
  assert (Hr : (slen rest ≤ fuel)%nat) by (cbn in Hs; lia). set (s := String c rest) in *.
  destruct (Nat.leb_spec 13 (digit_run s)) as [H13|Hlt].
  - rewrite Hlong by done. destruct (digit_run_split s) as [Hd Hz]. pose proof (digit_run_le s) as Hle.
    pose proof (slen_take (digit_run s) s Hle) as Hl. set (d := str_take (digit_run s) s) in *.
    unfold maskPANByPosition, panVisibleHead, panVisibleTail. cbn [Nat.add].
    rewrite (proj2 (Nat.ltb_lt 10 (slen d))) by lia. rewrite !app_assoc_str.
    rewrite runs_below_digits, slen_take by (try apply str_forall_take; (done || lia)).
    rewrite runs_below_stars by lia.
    rewrite runs_below_digits, slen_drop by (try apply str_forall_drop; (done || lia)).
    rewrite (proj2 (Nat.ltb_lt _ 13)), (proj2 (Nat.ltb_lt _ 13)) by lia. cbn [andb].
    apply IH; [rewrite slen_drop; lia|lia|rewrite Hz; lia|rewrite Hz; lia].
  - cbn [runs_below]. specialize (Hshort Hlt). unfold s in Hlt, Hshort. cbn [digit_run] in Hlt, Hshort.
    destruct (is_digit c) eqn:Hc.
    + rewrite (proj2 (Nat.ltb_lt _ _)) by lia. cbn [andb]. apply IH; [lia|lia|lia|lia].
    + apply IH; [lia|lia|lia|done].
Qed.

Lemma freeText_no_pan s : no_digit_run 13 (freeTextPAN_masked s).
Proof. apply runs_below_no_run; [lia|]. by apply mask_runs_short; [..|lia|lia|]. Qed.

Lemma mask_runs_len fuel s : slen (mask_runs fuel s) = slen s.
Proof.
  revert s. induction fuel as [|fuel IH]; intros s; [done|]. destruct s as [|c rest]; [done|]. cbn [mask_runs].
  case_if; [|cbn; by rewrite IH].
  pose proof (digit_run_le (String c rest)). rewrite slen_app, maskPAN_len, IH, slen_take, slen_drop by done. lia.
Qed.

Lemma freeText_len s : slen (freeTextPAN_masked s) = slen s.
Proof. apply mask_runs_len. Qed.

Lemma no_run_suffix k a s : no_digit_run k (a +:+ s) → no_digit_run k s.
Proof. intros H x d y -> Hd. by apply (H (a +:+ x) d y); [rewrite app_assoc_str|]. Qed.

(** A text without such a run is shown as it is. *)
Lemma mask_runs_short_same fuel s : no_digit_run 13 s → mask_runs fuel s = s.
Proof.
  revert s. induction fuel as [|fuel IH]; intros s Hs; [done|]. destruct s as [|c rest]; [done|]. cbn [mask_runs].
  destruct (digit_run_split (String c rest)) as [Hd _]. pose proof (digit_run_le (String c rest)) as Hle.
  destruct (Nat.leb_spec 13 (digit_run (String c rest))) as [H|H].
  - pose proof (Hs "" (str_take (digit_run (String c rest)) (String c rest)) (str_drop (digit_run (String c rest)) (String c rest))
      (eq_sym (str_take_drop _ _)) Hd) as Hlt. rewrite slen_take in Hlt by done. lia.
  - f_equal. apply IH. exact (no_run_suffix 13 (String c "") rest Hs).
Qed.

Lemma redactValue_redacted n v : redacted n v (redactValue n v).
Proof.
  pose proof (Fields_classes n) as Hc. unfold redacted, redactValue, class_ok, panDE in *.
  destruct (n =? 2); [split; [apply maskPAN_len|apply maskPAN_hidden]|].
  cbn [orb] in Hc. apply andb_true_iff in Hc as [Hs%Bool.eqb_prop Ht]. rewrite <- Hs.
  destruct (negb (shown (spec_of n))); [split; [apply slen_stars|apply stars_all]|].
  apply Bool.eqb_prop in Ht. rewrite <- Ht. destruct (free_text (spec_of n)); [|done]. split; [apply freeText_len|].
  split; [apply freeText_no_pan|]. apply mask_runs_short_same.
Qed.

(** ** What is decoded *)

(** The segment of field [n] of [m]. *)
Definition wire_of (m : fieldmap) (n : Z) (s : Segment) : Prop :=
  Key s = Itoa n ∧ ∃ v, m !! n = Some v ∧ packField n v = Ok (Text s).

Lemma unpackFieldsSegmented_wire t numbers fields segs m segs' t' :
  in_range t → NoDup numbers → unpackFieldsSegmented t numbers fields segs = Ok (m, segs', t') →
  ∃ more, segs' = segs ++ more ∧ (∀ k, k ∉ numbers ∨ k = 1 → m !! k = fields !! k) ∧
    Forall2 (wire_of m) (filter (λ k, k ≠ 1) numbers) more.
Proof.
  revert t fields segs. induction numbers as [|n numbers IH]; intros t fields segs Hr Hn H; cbn [unpackFieldsSegmented] in H.
  { injection H as <- <- <-. exists []. rewrite app_nil_r. split_and!; [done|done|constructor]. }
  apply NoDup_cons in Hn as [Hnn Hn]. destruct (Z.eqb_spec n 1) as [->|Hn1].
  - destruct (IH _ _ _ Hr Hn H) as (more & -> & Hk & Hw). exists more. rewrite filter_cons_False by (by intros []).
    split_and!; [done| |done]. intros k [Hk'|Hk']; apply Hk; [left|by right]. set_solver.
  - destruct (unpackField t n) as [[v t1]|e] eqn:Hu; bind_step; cbn in H; [|done].
    apply unpackField_inv in Hu as (p & Hp & -> & He & Hr1); [|done]. cbn zeta in H.
    destruct (IH _ _ _ Hr1 Hn H) as (more & -> & Hk & Hw). rewrite <-app_assoc. eexists. split; [reflexivity|].
    split.
    + intros k Hk'. rewrite Hk by set_solver. apply lookup_insert_ne. intros ->. destruct Hk' as [Hk'|Hk']; [|done].
      apply Hk'. by left.
    + rewrite filter_cons_True by done. constructor; [|exact Hw]. split; [done|]. exists v. cbn [Text].
      rewrite Hk by (by left). rewrite lookup_insert. destruct (decide (n = n)); [|done]. split; [done|].
      change (packed (advance t (slen p))) with (packed t). by rewrite slice_advance, He, str_take_app.
Qed.

Definition is_bitmap (s : Segment) : Prop := Key s = "primaryBitmap" ∨ Key s = "secondaryBitmap".

Lemma UnpackSegmented_wire s m f segs :
  UnpackSegmented s = Ok (m, f, segs) →
  ∃ bitmaps wire, segs = mkSegment "mti" m :: bitmaps ++ wire ∧ Forall is_bitmap bitmaps ∧
    Forall2 (wire_of f) (merge_sort Z.le (map fst (map_to_list f))) wire.
Proof.
  intros H. destruct (UnpackSegmented_Unpack s) as [Hu _]. rewrite H in Hu. cbn in Hu. symmetry in Hu.
  apply Unpack_inv in Hu as (_ & _ & numbers & t1 & body & Hb & _ & Hs & Hk & _).
  unfold UnpackSegmented in H. destruct (take_ (mkTaker s 0) 4 "MTI") as [[mti t0]|e] eqn:Htk; bind_step; cbn in H; [|done].
  apply take_inv in Htk as (-> & Hl & He & Hr0); [|unfold in_range; cbn; lia].
  destruct (negb (digitsRe mti)); [done|].
  change (advance (mkTaker s 0) 4) with (mkTaker s 4) in *.
  pose proof (unpackBitmapsSegmented_spec _ Hr0) as Hsp. rewrite Hb in Hsp. destruct Hsp as (bs & Hbs & _ & Hr1).
  rewrite Hbs in H. cbn in H.
  destruct (unpackFieldsSegmented t1 numbers ∅ _) as [[[f' segs'] t2]|e] eqn:Hf; cbn in H; [|done].
  destruct (pos t2 =? slen (packed t2))%nat; cbn [negb] in H; [|done]. injection H as -> -> ->.
  assert (Hnd : NoDup numbers).
  { clear -Hs. induction Hs as [|x l _ IH Hx]; constructor; [|done]. rewrite Forall_forall in Hx. intros Hin%Hx. lia. }
  apply unpackFieldsSegmented_wire in Hf as (more & -> & _ & Hw); [|done..]. exists bs, more. split; [done|]. split.
  - unfold unpackBitmapsSegmented in Hbs. rewrite Hb in Hbs. cbn in Hbs. injection Hbs as <-. rewrite match_one.
    case_bool_decide; cbn; rewrite ?Forall_cons; unfold is_bitmap; cbn; auto.
  - assert (E : merge_sort Z.le (map fst (map_to_list f)) = filter (λ k, k ≠ 1) numbers); [|by rewrite E].
    apply (StronglySorted_unique Z.le).
    + apply (StronglySorted_merge_sort Z.le).
    + apply StronglySorted_filter. clear -Hs. induction Hs as [|x l _ IH Hx]; constructor; [done|].
      apply (Forall_impl _ _ _ Hx). intros y. lia.
    + rewrite merge_sort_Permutation. apply NoDup_Permutation; [apply NoDup_fst_map_to_list|by apply NoDup_filter|].
      intros k. rewrite list_elem_of_filter. rewrite (and_comm (k ≠ 1)), <-Hk. split.
      * intros ([k' v] & -> & Hin)%list_elem_of_fmap. apply elem_of_map_to_list in Hin. cbn. eauto.
      * intros [v Hv]. apply list_elem_of_fmap. exists (k, v). split; [done|]. by apply elem_of_map_to_list.
Qed.

(** A field of the decoded message: its value redacted, and its wire text likewise. *)
Definition shown_field (n : Z) (v : string) (f : Field) : Prop :=
  DE f = Itoa n ∧ redacted n v (Value f) ∧
  ∃ prefix, packField n v = Ok (prefix +:+ v) ∧ slen prefix = prefix_len (spec_of n) ∧ Raw f = prefix +:+ Value f.

Lemma redactWire_pack n v p :
  packField n v = Ok p →
  ∃ prefix, p = prefix +:+ v ∧ slen prefix = prefix_len (spec_of n) ∧ redactWire n p = prefix +:+ redactValue n v.
Proof.
  intros Hp. assert (H : ∃ prefix, p = prefix +:+ v ∧ slen prefix = prefix_len (spec_of n)).
  { unfold packField, spec_of, prefix_len in *. destruct (Fields !! n) as [spec|] eqn:Hf; [|done]. cbn [from_option id].
    destruct (checkValue spec v) eqn:Hc; [done|]. cbn [check mbind result_bind] in Hp.
    apply checkValue_ok in Hc as (_ & _ & Hlen).
    destruct (Fields_prefix n spec Hf) as [Hpre|[[Hpre Hl]|[Hpre Hl]]]; rewrite Hpre in *; cbn in Hp, Hlen; injection Hp as <-.
    - by exists "".
    - exists (pad2 (dataLen spec v)). split; [done|]. unfold pad2. destruct (undec_padN (dataLen spec v) 2) as (Hs & _); [lia..|].
      exact Hs.
    - exists (pad3 (dataLen spec v)). split; [done|]. unfold pad3. destruct (undec_padN (dataLen spec v) 3) as (Hs & _); [lia..|].
      exact Hs. }
  destruct H as (prefix & -> & Hl). exists prefix. split; [done|]. split; [done|]. unfold redactWire.
  rewrite <-Hl, slen_app. rewrite (proj2 (Nat.ltb_ge _ _)) by lia. by rewrite str_take_app, str_drop_app.
Qed.

Lemma Atoi_Itoa n : is_Some (Fields !! n) → Atoi (Itoa n) = Some n.
Proof. intros [spec Hf]. apply Fields_range in Hf. apply ParseInt_Itoa. unfold in_int64. lia. Qed.

Lemma Itoa_key n k : is_Some (Fields !! n) → Atoi k = None → String.eqb (Itoa n) k = false.
Proof. intros Hn Hk. apply String.eqb_neq. intros <-. by rewrite Atoi_Itoa in Hk. Qed.

Lemma wire_field f n s : wire_of f n s → is_Some (Fields !! n).
Proof. intros (_ & v & _ & Hp). unfold packField in Hp. by destruct (Fields !! n). Qed.

(** A wire segment after redaction. *)
Definition red (s : Segment) : Segment :=
  match Atoi (Key s) with Some n => mkSegment (Key s) (redactWire n (Text s)) | None => s end.

Lemma red_key s : Key (red s) = Key s.
Proof. unfold red. by destruct (Atoi (Key s)). Qed.

Lemma red_wire f n s : wire_of f n s → red s = mkSegment (Itoa n) (redactWire n (Text s)).
Proof. intros Hw. pose proof (wire_field _ _ _ Hw). destruct Hw as [Hk _]. unfold red. by rewrite Hk, Atoi_Itoa. Qed.

Lemma red_plain s : Atoi (Key s) = None → red s = s.
Proof. unfold red. by intros ->. Qed.

Lemma sort_wire f ns wire acc :
  Forall2 (wire_of f) ns wire → NoDup ns →
  let acc' := foldl sort_segment acc (map red wire) in
  (∀ n, n ∉ ns → segByDE acc' !! n = segByDE acc !! n) ∧
  Forall2 (λ n s, segByDE acc' !! n = Some (redactWire n (Text s))) ns wire.
Proof.
  intros Hw. revert acc. induction Hw as [|n s ns wire Hns _ IH]; intros acc Hn; [by split|]. apply NoDup_cons in Hn as [Hnn Hn].
  cbn [map foldl]. rewrite (red_wire f n s Hns). pose proof (wire_field _ _ _ Hns) as Hf.
  assert (E : sort_segment acc (mkSegment (Itoa n) (redactWire n (Text s)))
    = mkSorted (primary acc) (secondary acc) (<[n := redactWire n (Text s)]> (segByDE acc))).
  { unfold sort_segment. cbn [Key Text]. rewrite !Itoa_key by done. by rewrite Atoi_Itoa. }
  rewrite E. destruct (IH (mkSorted (primary acc) (secondary acc) (<[n := redactWire n (Text s)]> (segByDE acc))) Hn) as [Hout Hin].
  cbn [segByDE] in Hout. split.
  - intros k Hk. rewrite Hout by set_solver. apply lookup_insert_ne. set_solver.
  - constructor; [|exact Hin]. rewrite Hout by done. rewrite lookup_insert. by destruct (decide (n = n)).
Qed.

Lemma sort_bitmaps bitmaps acc :
  Forall is_bitmap bitmaps → segByDE (foldl sort_segment acc bitmaps) = segByDE acc.
Proof.
  intros Hb. revert acc. induction Hb as [|s l Hs _ IH]; intros acc; [done|]. cbn [foldl]. rewrite IH.
  destruct Hs as [Hs|Hs]; unfold sort_segment; by rewrite Hs.
Qed.

Lemma redact_bitmaps bitmaps : Forall is_bitmap bitmaps → map red bitmaps = bitmaps.
Proof.
  induction 1 as [|s l Hs _ IH]; [done|]. cbn [map]. rewrite IH, red_plain; [done|]. destruct Hs as [-> | ->]; reflexivity.
Qed.

Lemma texts_len_red f ns wire : Forall2 (wire_of f) ns wire → slen (texts (map red wire)) = slen (texts wire).
Proof.
  induction 1 as [|n s ns wire Hns _ IH]; [done|]. cbn [map]. rewrite !texts_cons, !slen_app, IH. f_equal.
  rewrite (red_wire f n s Hns). cbn [Text]. destruct Hns as (_ & v & _ & Hp).
  destruct (redactWire_pack n v _ Hp) as (prefix & -> & _ & ->). rewrite !slen_app. f_equal. apply redactValue_redacted.
Qed.

(** The number of a field and what is shown of it. *)
Definition shown_of (fields : fieldmap) (n : Z) (f : Field) : Prop := ∃ v, fields !! n = Some v ∧ shown_field n v f.

Definition field_segments (fs : list Field) : list Segment := map (λ f, mkSegment (DE f) (Raw f)) fs.

Lemma assemble_shown s m f segs (d := assemble m f segs) :
  UnpackSegmented s = Ok (m, f, segs) →
  d_MTI d = m ∧ Forall2 (shown_of f) (merge_sort Z.le (map fst (map_to_list f))) (d_Fields d) ∧
  (∃ bitmaps, Forall is_bitmap bitmaps ∧ Segments d = mkSegment "mti" m :: bitmaps ++ field_segments (d_Fields d)) ∧
  slen (joinSegments (Segments d)) = slen s.
Proof.
  intros Hu. destruct (UnpackSegmented_Unpack s) as [_ Htexts]. specialize (Htexts m f segs Hu).
  destruct (UnpackSegmented_wire s m f segs Hu) as (bitmaps & wire & -> & Hb & Hw).
  set (ns := merge_sort Z.le (map fst (map_to_list f))) in *.
  assert (Hnd : NoDup ns) by (unfold ns; rewrite merge_sort_Permutation; apply NoDup_fst_map_to_list).
  assert (Hred : redactSegments (mkSegment "mti" m :: bitmaps ++ wire) = mkSegment "mti" m :: bitmaps ++ map red wire).
  { unfold redactSegments. cbn [map]. rewrite map_app. f_equal. f_equal. apply (redact_bitmaps bitmaps Hb). }
  unfold d, assemble. rewrite Hred. cbn [d_MTI d_Fields Segments].
  set (acc := foldl sort_segment (mkSorted "" "" ∅) (mkSegment "mti" m :: bitmaps ++ map red wire)).
  assert (Hacc : Forall2 (λ n s, segByDE acc !! n = Some (redactWire n (Text s))) ns wire).
  { unfold acc. cbn [foldl]. rewrite foldl_app. apply (sort_wire f ns wire _ Hw Hnd). }
  clearbody acc. fold ns.
  assert (Hfs : Forall2 (shown_of f) ns (buildFields f (segByDE acc)) ∧ field_segments (buildFields f (segByDE acc)) = map red wire).
  { unfold buildFields. fold ns. clear -Hw Hacc. clearbody ns. induction Hw as [|n s ns wire Hns _ IH]; [by split; [constructor|]|].
    apply Forall2_cons in Hacc as [Hn Hacc]. destruct (IH Hacc) as [IH1 IH2]. cbn [map field_segments]. rewrite Hn.
    pose proof Hns as (_ & v & Hv & Hp). rewrite Hv. cbn [from_option id].
    destruct (redactWire_pack n v _ Hp) as (prefix & Hpre & Hl & Hr). split.
    - constructor; [|exact IH1]. exists v. split; [done|]. split; [done|]. cbn [Value Raw]. split; [apply redactValue_redacted|].
      exists prefix. rewrite <-Hpre. by split_and!.
    - rewrite (red_wire f n s Hns). cbn [DE Raw]. f_equal. exact IH2. }
  destruct Hfs as [Hfs Hsegs]. split; [done|]. split; [exact Hfs|]. split; [exists bitmaps; by rewrite Hsegs|].
  rewrite <-Htexts. unfold joinSegments. rewrite !texts_cons, !texts_app, !slen_app. by rewrite (texts_len_red f ns wire Hw).
Qed.

(** C30. The lab shows nothing in clear that it must not.  Whatever text is decoded, the breakdown is
    that of the message (or of the sample served in its place), field by field in ascending order;
    of DE 2 at most the first six and the last four digits are shown, and some digit is hidden; of
    the PIN block, the ICC data and the MACs (DE 52, 55, 64, 128) nothing is; no text field shows thirteen
    digits in a row, and one without such a run is shown as it is; so is every other field.  The wire
    text of each field is its length prefix and the same redacted value, and the segments are just these
    with the MTI and the bitmaps, of the length of the message. *)
Theorem decoded_is_redacted raw d :
  Decode raw = Ok d →
  ∃ fields, let clear := default raw (clearSamples !! raw) in
    Unpack clear = Ok (d_MTI d, fields) ∧
    Forall2 (shown_of fields) (merge_sort Z.le (map fst (map_to_list fields))) (d_Fields d) ∧
    (∃ bitmaps, Forall is_bitmap bitmaps ∧
       Segments d = mkSegment "mti" (d_MTI d) :: bitmaps ++ field_segments (d_Fields d)) ∧
    slen (joinSegments (Segments d)) = slen clear.
Proof.
  unfold Decode. set (clear := default raw (clearSamples !! raw)). intros H. cbn zeta in H.
  destruct (UnpackSegmented clear) as [[[m f] segs]|e] eqn:Hu; cbn in H; [|done]. injection H as <-.
  destruct (assemble_shown clear m f segs Hu) as (Hm & Hf & Hs & Hl). exists f. cbn zeta. fold clear.
  destruct (UnpackSegmented_Unpack clear) as [E _]. rewrite Hu in E. cbn in E. rewrite Hm. split_and!; [done|exact Hf|exact Hs|exact Hl].
Qed.

Definition demo_raw : string := default "" (head sampleVectors).
Definition demo_decoded : Decoded :=
  match Decode demo_raw with Ok d => d | Err _ => mkDecoded "" "" None [] [] None end.

Lemma decoded_is_redacted_witness :
  ∃ fields, let clear := default demo_raw (clearSamples !! demo_raw) in
    Unpack clear = Ok (d_MTI demo_decoded, fields) ∧
    Forall2 (shown_of fields) (merge_sort Z.le (map fst (map_to_list fields))) (d_Fields demo_decoded) ∧
    (∃ bitmaps, Forall is_bitmap bitmaps ∧
       Segments demo_decoded = mkSegment "mti" (d_MTI demo_decoded) :: bitmaps ++ field_segments (d_Fields demo_decoded)) ∧
    slen (joinSegments (Segments demo_decoded)) = slen clear.
Proof. apply decoded_is_redacted. vm_compute. reflexivity. Defined.

(** *** The samples *)

(** The samples: every one of the four vectors unpacks, is served with its PAN masked and its PIN
    block, ICC data and MAC starred, and what is served decodes to the breakdown of the vector. *)
Theorem samples_decode :
  map (λ s, Decode (s_Raw s)) Samples = map Decode sampleVectors ∧
  forallb (λ v, is_ok (Decode v)) sampleVectors = true ∧
  map s_Raw Samples =
    ["0200723E448108E0920116970436******441700000000000025000009210732080001231432080921281109215814051000697049962651400012300000042GOCPHO000000001CA PHE GOC PHO           HO CHI MINH  VN704****************020********************************************************";
     "0210723A00010EC0800116970436******441700000000000025000009210732080001231432080921092106970499626514000123A001230000000042GOCPHO000000001704****************";
     "0420F23A04810AC08000000000400000000116970436******441700000000000060000009210733140001251432440921092105100069704996265140001246800000042GOCPHO000000001704020000012409210732440000097049900000000000****************";
     "0800822000000000000004000000000000000921073300000200301"].
Proof. split_and!; vm_compute; reflexivity. Qed.

Lemma clearSamples_clear p : is_ok (Unpack p) = true → default p (clearSamples !! p) = p.
Proof.
  intros Hp. destruct (clearSamples !! p) as [c|] eqn:E; [|done]. cbn [from_option id].
  apply elem_of_map_to_list, list_elem_of_In in E.
  assert (H : forallb (λ kv, negb (is_ok (Unpack kv.1)) || String.eqb kv.2 kv.1) (map_to_list clearSamples) = true)
    by (vm_compute; reflexivity).
  rewrite forallb_forall in H. specialize (H _ E). cbn [fst snd] in H. rewrite Hp in H. by apply String.eqb_eq in H.
Qed.

(** Encoding: it fails only where a key is not a number or the codec refuses the message, with that
    error; otherwise the breakdown it returns is that of the fields given, redacted as in decoding,
    and the packed text it shows is that of the segments, of the length of the real message. *)
Theorem encode_shown mti fields :
  match f ← numeric fields ∅; p ← Pack mti f; Ok (f, p) with
  | Err e => Encode mti fields = Err e
  | Ok (f, p) => ∃ d, Encode mti fields = Ok d ∧ d_MTI d = mti ∧
      Forall2 (shown_of f) (merge_sort Z.le (map fst (map_to_list f))) (d_Fields d) ∧
      Packed d = Some (joinSegments (Segments d)) ∧ slen (joinSegments (Segments d)) = slen p
  end.
Proof.
  unfold Encode. destruct (numeric fields ∅) as [f|e]; bind_step; [|done].
  destruct (Pack mti f) as [p|e] eqn:Hp; bind_step; [|done]. apply Unpack_packed in Hp.
  unfold Decode. rewrite clearSamples_clear by by rewrite Hp.
  destruct (UnpackSegmented_Unpack p) as [E _]. rewrite Hp in E.
  destruct (UnpackSegmented p) as [[[m f'] segs]|e] eqn:Hu; cbn in E; [|done]. injection E as -> ->.
  destruct (assemble_shown p mti f segs Hu) as (Hm & Hf & _ & Hl). eexists. split; [reflexivity|].
  split_and!; [exact Hm|exact Hf|reflexivity|exact Hl].
Qed.

(** ** The order of the request's fields *)

Lemma numeric_lookup order acc f :
  numeric order acc = Ok f → NoDup (map (λ kv, Atoi kv.1) order) →
  ∀ n v, f !! n = Some v ↔ (∃ k, (k, v) ∈ order ∧ Atoi k = Some n) ∨ acc !! n = Some v ∧ Some n ∉ map (λ kv, Atoi kv.1) order.
Proof.
  revert acc. induction order as [|[k v] order IH]; intros acc H Hn n w; cbn [numeric map] in *.
  { injection H as ->. split; [intros Hw; right; split; [done|apply not_elem_of_nil]|].
    intros [(k & Hk & _)|[Hw _]]; [by apply not_elem_of_nil in Hk|done]. }
  destruct (Atoi k) as [m|] eqn:Ek; [|done]. apply NoDup_cons in Hn as [Hm Hn]. cbn [fst] in *. rewrite (IH _ H Hn).
  split.
  - intros [(k' & Hk' & Ea)|[Hw Hnot]]; [left; exists k'; split; [by right|done]|].
    destruct (decide (m = n)) as [->|Hne].
    + rewrite lookup_insert in Hw. destruct (decide (n = n)); [|done]. injection Hw as <-.
      left. exists k. split; [by left|done].
    + rewrite lookup_insert_ne in Hw by done. right. split; [done|]. intros [Heq|Hin]%elem_of_cons; [congruence|done].
  - intros [(k' & [[= -> ->]|Hk']%elem_of_cons & Ea)|[Hw Hnot]].
    + right. rewrite Ea in Ek. injection Ek as ->. rewrite lookup_insert. destruct (decide (m = m)); [|done]. split; [done|]. by rewrite <-Ea.
    + left. by exists k'.
    + right. apply not_elem_of_cons in Hnot as [Hne Hnot]. split; [|done]. rewrite lookup_insert_ne; [done|]. congruence.
Qed.

Lemma numeric_ok order acc : Forall (λ kv, is_Some (Atoi kv.1)) order → is_ok (numeric order acc) = true.
Proof.
  intros H. revert acc. induction H as [|[k v] order Hk _ IH]; intros acc; [done|]. cbn [numeric].
  destruct Hk as [n E]. cbn [fst] in E. rewrite E. apply IH.
Qed.

(** Of keys that name different fields, the order in which Go visits the request does not matter. *)
Theorem encode_order_irrelevant mti fields fields' :
  fields ≡ₚ fields' → NoDup (map (λ kv, Atoi kv.1) fields) → Forall (λ kv, is_Some (Atoi kv.1)) fields →
  Encode mti fields = Encode mti fields'.
Proof.
  intros Hp Hn Hs. unfold Encode.
  assert (Hn' : NoDup (map (λ kv, Atoi kv.1) fields')) by by rewrite <-Hp.
  assert (Hs' : Forall (λ kv, is_Some (Atoi kv.1)) fields') by by rewrite <-Hp.
  pose proof (numeric_ok fields ∅ Hs) as Ho. pose proof (numeric_ok fields' ∅ Hs') as Ho'.
  destruct (numeric fields ∅) as [f|] eqn:E; [|done]. destruct (numeric fields' ∅) as [f'|] eqn:E'; [|done].
  replace f' with f; [done|]. apply map_eq. intros n. apply option_eq. intros v.
  rewrite (numeric_lookup _ _ _ E Hn), (numeric_lookup _ _ _ E' Hn').
  assert (Hm : map (λ kv : string * string, Atoi kv.1) fields ≡ₚ map (λ kv, Atoi kv.1) fields') by by rewrite Hp.
  by setoid_rewrite Hp.
Qed.

Lemma encode_order_irrelevant_witness :
  Encode "0800" [("7", "0921073300"); ("11", "000200"); ("70", "301")]
  = Encode "0800" [("70", "301"); ("7", "0921073300"); ("11", "000200")].
Proof.
  apply encode_order_irrelevant; [by apply (Permutation_app_comm [_; _] [_])|apply (bool_decide_unpack (NoDup _)); vm_compute; exact I|].
  repeat (apply Forall_cons; split; [eexists; vm_compute; reflexivity|]). apply Forall_nil, I.
Defined.

(** Two keys may name the same field, and then the order decides which value is encoded. *)
Lemma encode_order_matters :
  Packed <$> Encode "0800" [("7", "0921073300"); ("11", "000200"); ("70", "301"); ("070", "001")]
  = Ok (Some "0800822000000000000004000000000000000921073300000200001") ∧
  Packed <$> Encode "0800" [("7", "0921073300"); ("11", "000200"); ("070", "001"); ("70", "301")]
  = Ok (Some "0800822000000000000004000000000000000921073300000200301").
Proof. split; vm_compute; reflexivity. Qed.
