(* ===== verification/Api.v ===== *)
(** * Api: the HTTP interface of the gateway

    [gateway-go/internal/api]: validation, problems, the handlers of transactions, queries, the
    message lab, network and key rotation, and the in-memory replay of their answers.  A handler is a
    function of the request and of the ports it is mounted with. *)

From S2P Require Import Prelude Digits Net Supervisor Rotation Feed Lab Codec Mux KeyStore Mac Calendar Mask Store Journey.
From S2P Require Import Prog Idempotency Advice Purchase AdvTxn.
Local Open Scope Z_scope.
Local Open Scope prog_scope.

(** ** Requests and answers *)

(** What the handlers read of a request. *)
Record http_request := mkHTTP {
  idem_header : string;              (* Idempotency-Key *)
  url_path : string;
  url_param : string → string;       (* chi.URLParam *)
  query_param : string → string;     (* URL.Query().Get *)
  http_body : string;
  http_trace : string                (* obs.TraceID *)
}.

Record fieldError := mkFieldError { fe_Field : string; fe_Message : string }.
Definition fieldErrors : Type := list fieldError.

(** ** problems.go *)

Definition problemValidation : string := "validation-error".
Definition problemNotFound : string := "not-found".
Definition problemInternal : string := "internal".
Definition problemIdempotencyKey : string := "insufficient-idempotency-key".
Definition problemIdempotencyMismatch : string := "idempotency-key-mismatch".
Definition problemConflict : string := "conflict".
Definition fieldBody : string := "body".
Definition problemTypeBase : string := "https://mcn.local/problems/".

Definition problemTitles : gmap string string := list_to_map [
  (problemValidation, "The request is invalid");
  (problemIdempotencyKey, "Idempotency-Key must be a UUID");
  (problemNotFound, "Not found");
  ("precondition-failed", "The resource changed");
  (problemConflict, "The state doesn't allow this");
  ("open-breaks", "Reconciliation breaks are open");
  ("not-reversible", "The transaction can't be reversed");
  ("link-not-ready", "The issuer link isn't connected");
  ("unknown-terminal", "Unknown terminal");
  ("unknown-card-token", "Unknown card token");
  (problemIdempotencyMismatch, "Idempotency-Key was used for a different request");
  ("scenario-unavailable", "This scenario can't run on this stack");
  (problemInternal, "Internal error")].

Record problemBody := mkProblem {
  pb_Type : string; pb_Title : string; pb_Status : Z; pb_Detail : string; pb_Instance : string;
  pb_TraceID : string; pb_Errors : fieldErrors }.

(** A handler answers JSON with a status, or a problem. *)
Inductive answer (A : Type) :=
  | Answer (status : Z) (location : string) (body : A)
  | Problem (p : problemBody).
Arguments Answer {A} status location body.
Arguments Problem {A} p.

(** [writeJSONBody] without a Location header. *)
Definition writeJSONBody {A} (status : Z) (body : A) : answer A := Answer status "" body.

Definition writeProblem (req : http_request) (status : Z) (slug detail : string) (errs : fieldErrors) : problemBody :=
  let title := get problemTitles slug in
  mkProblem (problemTypeBase +:+ slug) (if String.eqb title "" then slug else title) status detail (url_path req)
    (http_trace req) errs.

Definition problem (req : http_request) (status : Z) (slug detail : string) : problemBody :=
  writeProblem req status slug detail [].

(** The cause goes to the log only. *)
Definition internalProblem (req : http_request) (op : string) (err : error) : problemBody :=
  problem req 500 problemInternal
    "The gateway could not complete the request; its log has the cause under this request's trace id".

(** ** validation.go *)

Definition is_alnum_upper (c : ascii) : bool :=
  is_digit c || ((65 <=? Z_of_ascii c) && (Z_of_ascii c <=? 90)).

(** The anchored patterns. *)
Definition rrnPattern (s : string) : bool := (slen s =? 12)%nat && str_forall is_alnum_upper s.
Definition currencyPattern (s : string) : bool := (slen s =? 3)%nat && str_forall is_digit s.
Definition rcPattern (s : string) : bool := (slen s =? 2)%nat && str_forall is_alnum_upper s.
Definition last4Pattern (s : string) : bool := (slen s =? 4)%nat && str_forall is_digit s.

Definition entryModes : gset string := {["CHIP_PIN"; "CHIP_NO_PIN"; "MANUAL_PIN"; "MANUAL_NO_PIN"]}.
Definition transactionStatus : gset string :=
  {["CREATED"; "SENT"; "APPROVED"; "DECLINED"; "TIMED_OUT"; "REVERSAL_PENDING"; "REVERSED"; "FAILED"]}.
Definition reversalReasonEnum : gset string :=
  {["CUSTOMER_CANCELLATION"; "TIMEOUT"; "MAC_FAILURE"; "SEND_FAILURE"]}.

Definition maxAmount : Z := 999999999999.
Definition maxBodyBytes : nat := Z.to_nat (Z.shiftl 16 10).
Definition maxListLimit : Z := 200.
Definition terminalIDLength : nat := 8.

Definition check (ok : bool) (field message : string) (errs : fieldErrors) : fieldErrors :=
  if ok then errs else errs ++ [mkFieldError field message].

Definition validationProblem (req : http_request) (errs : fieldErrors) : problemBody :=
  let first := default (mkFieldError "" "") (head errs) in
  writeProblem req 400 problemValidation (fe_Field first +:+ " " +:+ fe_Message first) errs.

Definition checkMoney (m : Money) (errs : fieldErrors) : fieldErrors :=
  let errs := check ((0 <? Amount m) && (Amount m <=? maxAmount)) "amount.amount"
                "must be > 0 and fit DE 4 (at most 999999999999)" errs in
  check (currencyPattern (Currency m)) "amount.currency" "must be an ISO 4217 numeric code" errs.

Definition checkCardPresent (terminalID cardToken entryMode : string) (errs : fieldErrors) : fieldErrors :=
  let errs := check (slen terminalID =? terminalIDLength)%nat "terminalId" "must be 8 characters" errs in
  let errs := check (negb (String.eqb cardToken "")) "cardToken" "is required" errs in
  check (bool_decide (entryMode ∈ entryModes)) "entryMode"
    "must be one of CHIP_PIN, CHIP_NO_PIN, MANUAL_PIN, MANUAL_NO_PIN" errs.

Definition checkAmount (m : Money) : fieldErrors := checkMoney m [].

(** purchases.go and advtxn.go *)
Definition checkPurchase (r : PurchaseRequest) : fieldErrors :=
  checkMoney (p_Amount r) (checkCardPresent (p_TerminalID r) (p_CardToken r) (p_EntryMode r) []).
Definition checkCardPresentWithAmount (r : PreAuthRequest) : fieldErrors :=
  let c := card_present r in
  checkMoney (a_Amount r) (checkCardPresent (a_TerminalID c) (a_CardToken c) (a_EntryMode c) []).
Definition checkBalanceInquiry (r : BalanceInquiryRequest) : fieldErrors :=
  let c := b_card r in checkCardPresent (a_TerminalID c) (a_CardToken c) (a_EntryMode c) [].

Definition pathRRN (req : http_request) : result problemBody string :=
  let rrn := url_param req "rrn" in
  if rrnPattern rrn then Ok rrn
  else Err (validationProblem req [mkFieldError "rrn" "must match ^[0-9A-Z]{12}$"]).

(** [json.Decoder.Decode] into a request type, of the bytes it is let read: it may need more. *)
Inductive json_error := Malformed | UnexpectedEOF.
Class JSONDecoder (A : Type) := { DecodeJSON : string → result json_error A }.

Definition decodeBody {A} `{JSONDecoder A} (chk : A → fieldErrors) (req : http_request) : result problemBody A :=
  match DecodeJSON (str_take maxBodyBytes (http_body req)) with
  | Err _ => Err (validationProblem req [mkFieldError fieldBody "must be a JSON object matching the schema"])
  | Ok dst =>
      match chk dst with
      | [] => Ok dst
      | errs => Err (validationProblem req errs)
      end
  end.

Definition enumParam (v field : string) (allowed : gset string) (errs : fieldErrors) : option string * fieldErrors :=
  if String.eqb v "" then (None, errs)
  else (Some v, check (bool_decide (v ∈ allowed)) field "is not an allowed value" errs).

Definition patternParam (v field : string) (pattern : string → bool) (text : string) (errs : fieldErrors)
    : option string * fieldErrors :=
  if String.eqb v "" then (None, errs) else (Some v, check (pattern v) field ("must match " +:+ text) errs).

Section filter.
(** [time.Parse] of an RFC 3339 date-time. *)
Context (ParseRFC3339 : string → option time).

Definition timeParam (v field : string) (errs : fieldErrors) : option time * fieldErrors :=
  if String.eqb v "" then (None, errs)
  else let t := ParseRFC3339 v in
       (Some (default zero_time t), check (bool_decide (is_Some t)) field "must be an RFC 3339 date-time" errs).

Definition parseTransactionFilter (req : http_request) : TransactionFilter * fieldErrors :=
  let q := query_param req in
  let '(limit, errs) :=
    let v := q "limit" in
    if String.eqb v "" then (0, [])
    else let n := Atoi v in
         (default 0 n, check (match n with Some n => (1 <=? n) && (n <=? maxListLimit) | None => false end)
                         "limit" "must be an integer from 1 to 200" []) in
  let '(status, errs) := enumParam (q "status") "status" transactionStatus errs in
  let '(reason, errs) := enumParam (q "reversalReason") "reversalReason" reversalReasonEnum errs in
  let '(rc, errs) := patternParam (q "rc") "rc" rcPattern "^[0-9A-Z]{2}$" errs in
  let '(last4, errs) := patternParam (q "last4") "last4" last4Pattern "^[0-9]{4}$" errs in
  let '(from, errs) := timeParam (q "from") "from" errs in
  let '(to, errs) := timeParam (q "to") "to" errs in
  (mkFilter status rc last4 from to reason (q "cursor") limit, errs).
End filter.

(** ** transaction_errors.go *)

Section transactions.
(** [err.Error()], and google/uuid's parsers. *)
Context (error_text : error → string) (uuid_Parse uuid_Validate : string → bool).

Definition transactionProblem (req : http_request) (err : error) (fallbackType : string) : problemBody :=
  if errors_Is err ErrUnknownTerminal then problem req 422 "unknown-terminal" (error_text err)
  else if errors_Is err ErrUnknownCardToken then problem req 422 "unknown-card-token" "cardToken is not a simulator card"
  else if errors_Is err ErrIdempotencyKeyMismatch then
    problem req 422 "idempotency-key-mismatch" "Idempotency-Key was used for a different request"
  else if errors_Is err ErrIdempotencyInProgress || errors_Is err ErrReservationLost then
    problem req 409 problemConflict "A request with this Idempotency-Key is still in progress"
  else if errors_Is err ErrNotCompletable || errors_Is err ErrExceedsHold then
    problem req 409 problemConflict (error_text err)
  else if errors_Is err ErrNotReversible then problem req 409 "not-reversible" (error_text err)
  else if errors_Is err ErrNotFound then problem req 404 "not-found" (error_text err)
  else internalProblem req fallbackType err.

Definition idempotencyKey (req : http_request) : result problemBody string :=
  if uuid_Parse (idem_header req) then Ok (idem_header req)
  else Err (problem req 400 problemIdempotencyKey "Idempotency-Key header must be a UUID").

Definition requireUUIDKey (req : http_request) : result problemBody string :=
  if uuid_Validate (idem_header req) then Ok (idem_header req)
  else Err (problem req 400 problemIdempotencyKey "Idempotency-Key header must be a UUID").

(** ** purchases.go and advtxn.go *)

(** The ports of the two files. *)
Record PurchaseCreator := {
  port_CreatePurchase : PurchaseRequest → string → progE Transaction;
  port_CancelPurchase : string → string → progE Transaction
}.

Record AdvancedTransactor := {
  port_CreatePreAuth : PreAuthRequest → string → progE AdvTransaction;
  port_CreateCompletion : string → CompletionRequest → string → progE AdvTransaction;
  port_CreateRefund : RefundRequest → string → progE AdvTransaction;
  port_CreateBalanceInquiry : BalanceInquiryRequest → string → progE AdvTransaction
}.

(** The early returns of a handler, then its call of the service. *)
Definition guarded {A B} (guards : result problemBody A) (k : A → prog (answer B)) : prog (answer B) :=
  match guards with Err p => Ret (Problem p) | Ok a => k a end.

Definition respond {A} (req : http_request) (status : Z) (fallbackType : string) (call : progE A) : prog (answer A) :=
  r <-- call;
  Ret (match r with
       | Err err => Problem (transactionProblem req err fallbackType)
       | Ok txn => writeJSONBody status txn
       end).

Section handlers.
Context {JP : JSONDecoder PurchaseRequest} {JA : JSONDecoder PreAuthRequest} {JC : JSONDecoder CompletionRequest}
        {JB : JSONDecoder BalanceInquiryRequest}.

Definition handleCreatePurchase (svc : PurchaseCreator) (req : http_request) : prog (answer Transaction) :=
  guarded (idempotencyKey req) (λ key,
  guarded (decodeBody checkPurchase req) (λ body,
  respond req 201 "purchase-failed" (port_CreatePurchase svc body key))).

Definition handleCancelPurchase (svc : PurchaseCreator) (req : http_request) : prog (answer Transaction) :=
  guarded (idempotencyKey req) (λ key,
  guarded (pathRRN req) (λ rrn,
  respond req 202 "cancellation-failed" (port_CancelPurchase svc rrn key))).

Definition handleCreatePreAuth (svc : AdvancedTransactor) (req : http_request) : prog (answer AdvTransaction) :=
  guarded (idempotencyKey req) (λ key,
  guarded (decodeBody checkCardPresentWithAmount req) (λ body,
  respond req 201 "pre-authorization-failed" (port_CreatePreAuth svc body key))).

Definition handleCreateCompletion (svc : AdvancedTransactor) (req : http_request) : prog (answer AdvTransaction) :=
  guarded (idempotencyKey req) (λ key,
  guarded (pathRRN req) (λ rrn,
  guarded (decodeBody (λ c, checkAmount (c_Amount c)) req) (λ body,
  respond req 201 "completion-failed" (port_CreateCompletion svc rrn body key)))).

Definition handleCreateRefund (svc : AdvancedTransactor) (req : http_request) : prog (answer AdvTransaction) :=
  guarded (idempotencyKey req) (λ key,
  guarded (decodeBody checkCardPresentWithAmount req) (λ body,
  respond req 201 "refund-failed" (port_CreateRefund svc body key))).

Definition handleCreateBalanceInquiry (svc : AdvancedTransactor) (req : http_request) : prog (answer AdvTransaction) :=
  guarded (idempotencyKey req) (λ key,
  guarded (decodeBody checkBalanceInquiry req) (λ body,
  respond req 201 "balance-inquiry-failed" (port_CreateBalanceInquiry svc body key))).
End handlers.
End transactions.

(** ** transactions_query.go *)

Record moneyDTO := mkMoneyDTO { dto_Amount : Z; dto_Currency : string }.

Record transactionSummaryDTO := mkSummary {
  dto_RRN : string; dto_STAN : string; dto_Type : string; dto_Status : string; dto_ResponseCode : option string;
  dto_ResponseLabel : option string; dto_Money : moneyDTO; dto_MaskedPAN : string; dto_TerminalID : string;
  dto_MerchantName : string; dto_LatencyMs : option Z; dto_CreatedAt : time; dto_ReversalReason : option string }.

Record transactionDTO := mkTransactionDTO {
  dto_Summary : transactionSummaryDTO; dto_AuthCode : option string; dto_ApprovedAmount : option moneyDTO;
  dto_Balance : option moneyDTO; dto_BusinessDate : string; dto_OriginalRRN : option string; dto_TraceID : string }.

Record journeyDTO := mkJourneyDTO {
  dto_Transaction : transactionDTO; dto_Steps : list Journey.Step; dto_MoneyRows : list MoneyRow }.

Definition nullableString (s : string) : option string := if String.eqb s "" then None else Some s.
Definition responseLabel (rc : string) : option string := ResponseLabel rc.

Definition toSummaryDTO (row : TranLogRow) : transactionSummaryDTO :=
  mkSummary (RRN row) (NetworkSTAN row) (Store.Type_ row) (Status row) (nullableString (ResponseCode row))
    (responseLabel (ResponseCode row)) (mkMoneyDTO (tAmount row) (tCurrency row)) (MaskedPAN row) (TerminalID row)
    (MerchantName row) (Journey.LatencyMs row) (CreatedAt row) (nullableString (ReversalReasonOf (ReversalReasonCode row))).

Definition approvedAmountDTO (row : TranLogRow) : option moneyDTO :=
  (λ a, mkMoneyDTO a (tCurrency row)) <$> ApprovedAmount row.

Definition balanceDTO (balance : option Money) : option moneyDTO :=
  (λ b, mkMoneyDTO (Amount b) (Currency b)) <$> balance.

Definition toTransactionDTO (row : TranLogRow) : transactionDTO :=
  mkTransactionDTO (toSummaryDTO row) (nullableString (AuthCode row)) (approvedAmountDTO row) (balanceDTO (Balance row))
    (Format (BusinessDate row)) (nullableString (OriginalRRN row)) (TraceID row).

Definition toJourneyDTO (row : TranLogRow) (j : Journey) : journeyDTO :=
  mkJourneyDTO (toTransactionDTO row) (Journey.Steps j) (Money_ j).

Record TranLogReader := {
  reader_List : TransactionFilter → result error (list TranLogRow * string);
  reader_Get : string → result error TranLogRow;
  reader_ListStateHistory : Z → result error (list StateTransition)
}.

Definition errInvalidCursor : sentinel := ErrOther "invalid cursor".

Definition handleListTransactions (ParseRFC3339 : string → option time) (reader : TranLogReader) (req : http_request)
    : answer (list transactionSummaryDTO * option string) :=
  let '(filter, errs) := parseTransactionFilter ParseRFC3339 req in
  if (0 <? length errs)%nat then Problem (validationProblem req errs)
  else match reader_List reader filter with
       | Err err =>
           if errors_Is err errInvalidCursor then
             Problem (validationProblem req [mkFieldError "cursor" "is not a cursor this API returned"])
           else Problem (internalProblem req "transactions-read-failed" err)
       | Ok (page, nextCursor) => writeJSONBody 200 (map toSummaryDTO page, nullableString nextCursor)
       end.

(** [reader.Get], with the problem of its error. *)
Definition read_row (reader : TranLogReader) (req : http_request) (rrn : string) : result problemBody TranLogRow :=
  match reader_Get reader rrn with
  | Ok row => Ok row
  | Err err => Err (if errors_Is err ErrNotFound then problem req 404 problemNotFound "no such transaction"
                    else internalProblem req "transaction-read-failed" err)
  end.

Definition answer_of {A} (r : result problemBody A) : answer A :=
  match r with Ok body => writeJSONBody 200 body | Err p => Problem p end.

Definition handleGetTransaction (reader : TranLogReader) (req : http_request) : answer transactionDTO :=
  answer_of (rrn ← pathRRN req; row ← read_row reader req rrn; Ok (toTransactionDTO row)).

(** The queue is read only for a transaction that ever queued a reversal. *)
Definition findReversal (reversals : Z → result error (option Reversal)) (tranID : Z) (history : list StateTransition)
    : result error (option Reversal) :=
  if existsb (λ st, String.eqb (ToStatus st) statusReversalPending) history then reversals tranID else Ok None.

Definition or_problem {A} (req : http_request) (op : string) (r : result error A) : result problemBody A :=
  match r with Ok a => Ok a | Err err => Err (internalProblem req op err) end.

Definition handleGetTransactionJourney (reader : TranLogReader) (reversals : Z → result error (option Reversal))
    (req : http_request) : answer journeyDTO :=
  answer_of (
    rrn ← pathRRN req;
    row ← read_row reader req rrn;
    history ← or_problem req "journey-read-failed" (reader_ListStateHistory reader (Store.ID row));
    rev ← or_problem req "journey-read-failed" (findReversal reversals (Store.ID row) history);
    Ok (toJourneyDTO row (BuildJourney row history rev))).

(** ** lab.go *)

Definition maxLabRaw : nat := Z.to_nat 8192.
Definition maxLabBody : nat := maxLabRaw + 1024.

(** The two request bodies. *)
Record labDecode := mkLabDecode { lab_raw : string }.
Record labEncode := mkLabEncode { lab_MTI : string; lab_fields : list (string * string) }.

Definition writeCodecProblem (req : http_request) (err : CodecError) : problemBody :=
  validationProblem req [mkFieldError "raw" (CodecError_Error err)].

(** [tooLarge]: the decoder asked for more than [MaxBytesReader] lets through. *)
Definition writeLabBodyProblem (req : http_request) (tooLarge : bool) : problemBody :=
  validationProblem req [mkFieldError fieldBody
    (if tooLarge then "exceeds the Lab message limit" else "must be a JSON object matching the schema")].

Definition lab_body {A} `{JSONDecoder A} (req : http_request) : result problemBody A :=
  match DecodeJSON (str_take maxLabBody (http_body req)) with
  | Ok body => Ok body
  | Err UnexpectedEOF => Err (writeLabBodyProblem req (maxLabBody <? slen (http_body req))%nat)
  | Err Malformed => Err (writeLabBodyProblem req false)
  end.

Definition codec_answer {A} (req : http_request) (r : result CodecError A) : result problemBody A :=
  match r with Ok a => Ok a | Err err => Err (writeCodecProblem req err) end.

Definition handleDecode `{JSONDecoder labDecode} (req : http_request) : answer Decoded :=
  answer_of (
    body ← lab_body req;
    if (maxLabRaw <? slen (lab_raw body))%nat then
      Err (validationProblem req [mkFieldError "raw" "exceeds maxLength 8192"])
    else codec_answer req (Lab.Decode (lab_raw body))).

(** The fields in the order Go iterates them. *)
Definition handleEncode `{JSONDecoder labEncode} (req : http_request) : answer Decoded :=
  answer_of (body ← lab_body req; codec_answer req (Lab.Encode (lab_MTI body) (lab_fields body))).

Definition handleSamples : answer (list Sample) := writeJSONBody 200 Samples.

(** ** replay.go *)

Record storedResponse (A : Type) := mkStoredResponse {
  sr_fingerprint : string; sr_status : Z; sr_body : A; sr_location : string }.
Arguments mkStoredResponse {A}.
Arguments sr_fingerprint {A}.
Arguments sr_status {A}.
Arguments sr_body {A}.
Arguments sr_location {A}.

Abbreviation replayStore A := (gmap string (storedResponse A)).
Definition newReplayStore {A} : replayStore A := ∅.

(** [run] acts on the world [W] and gives the status, the Location it set and the body, or has
    written its problem.  The lock held across it makes one call of [serve] one step. *)
Definition serve {W A} (req : http_request) (key fingerprint : string)
    (run : W → result problemBody (Z * string * A) * W) (s : replayStore A) (w : W) : answer A * replayStore A * W :=
  match s !! key with
  | Some prior =>
      if negb (String.eqb (sr_fingerprint prior) fingerprint) then
        (Problem (problem req 422 problemIdempotencyMismatch "Idempotency-Key was already used with a different request"), s, w)
      else (Answer (sr_status prior) (sr_location prior) (sr_body prior), s, w)
  | None =>
      match run w with
      | (Err p, w) => (Problem p, s, w)
      | (Ok (status, location, body), w) =>
          (Answer status location body, <[key := mkStoredResponse fingerprint status body location]> s, w)
      end
  end.

(** ** rotations.go *)

Record keyRotationStep := mkRotationStep { rs_Name : string; rs_Status : string; rs_CompletedAt : option time }.
Record keyRotation := mkKeyRotation {
  RotationID : string; kr_KeyType : string; kr_Status : string; kr_NewKCV : option string; kr_Steps : list keyRotationStep }.
Record rotationBody := mkRotationBody { rb_keyType : string }.

Definition toKeyRotation (row : Rotation.Row) : keyRotation :=
  mkKeyRotation (Itoa (o_ID row)) (o_KeyType row) (o_Status row) (o_NewKCV row)
    (map (λ s, mkRotationStep (st_name s) (st_status s) (st_completed s)) (o_Steps row)).

(** [rotation.ErrRotationInProgress] and [rotation.ErrNotFound]. *)
Definition ErrRotationInProgress : sentinel := ErrOther "a key rotation is already running".

Section operations.
Context (uuid_Validate : string → bool) (error_text : error → string).
(** The process the ports act on. *)
Context {W : Type}.

Record Rotator := {
  port_StartRotation : string → W → result error Rotation.Row * W;
  port_GetRotation : Z → W → result error Rotation.Row
}.

Abbreviation rotations := (replayStore keyRotation).

Definition start_run (svc : Rotator) (req : http_request) (keyType : string) (w : W)
    : result problemBody (Z * string * keyRotation) * W :=
  match port_StartRotation svc keyType w with
  | (Err err, w) =>
      (Err (if errors_Is err ErrRotationInProgress then problem req 409 "conflict" "a key rotation is already running"
            else problem req 500 problemInternal "could not start the key rotation"), w)
  | (Ok row, w) => (Ok (202, "/v1/keys/acquirer/rotations/" +:+ Itoa (o_ID row), toKeyRotation row), w)
  end.

(** The guards: a UUID key and a known key type. *)
Definition rotation_request `{JSONDecoder rotationBody} (req : http_request) : result problemBody (string * string) :=
  key ← requireUUIDKey uuid_Validate req;
  match DecodeJSON (http_body req) with
  | Ok body =>
      if String.eqb (rb_keyType body) "ZPK" || String.eqb (rb_keyType body) "ZAK" then Ok (key, rb_keyType body)
      else Err (problem req 400 problemValidation "keyType must be ZPK or ZAK")
  | Err _ => Err (problem req 400 problemValidation "keyType must be ZPK or ZAK")
  end.

Definition handleStartRotation `{JSONDecoder rotationBody} (svc : Rotator) (req : http_request) (s : rotations) (w : W)
    : answer keyRotation * rotations * W :=
  match rotation_request req with
  | Err p => (Problem p, s, w)
  | Ok (key, keyType) => serve req key keyType (start_run svc req keyType) s w
  end.

Definition handleGetRotation (svc : Rotator) (req : http_request) (w : W) : answer keyRotation :=
  answer_of (
    match ParseInt (url_param req "rotationId") with
    | None => Err (problem req 404 problemNotFound "no such key rotation")
    | Some id =>
        match port_GetRotation svc id w with
        | Ok row => Ok (toKeyRotation row)
        | Err err => Err (if errors_Is err ErrNotFound then problem req 404 problemNotFound "no such key rotation"
                          else problem req 500 problemInternal "could not read the key rotation")
        end
    end).

(** ** network.go *)

Definition issuerLinkID : string := "issuer".
Definition defaultEventsLimit : Z := 50.
Definition maxEventsLimit : Z := 200.

Record LinkReader := {
  port_GetLink : string → W → result error Link;
  port_ListEvents : Z → string → W → result error (list NetworkEvent * string)
}.

Record LinkTrigger := {
  port_TriggerEcho : W → result error EchoResult * W;
  port_TriggerSignOn : W → option error * W;
  port_TriggerSignOff : W → option error * W;
  port_LinkMetrics : W → p99 * Z
}.

Definition readLink (reader : LinkReader) (trigger : option LinkTrigger) (req : http_request) (w : W)
    : result problemBody Link :=
  match port_GetLink reader issuerLinkID w with
  | Err _ => Err (problem req 500 problemInternal "could not read the link state")
  | Ok link =>
      Ok (match trigger with
          | None => link
          | Some t => let '(p99, inFlight) := port_LinkMetrics t w in
                      mkLink (Endpoint link) (l_Status link) (LastEchoAt link) (LastEchoLatencyMs link) p99 inFlight
          end)
  end.

Definition handleListLinks (reader : LinkReader) (trigger : option LinkTrigger) (req : http_request) (w : W)
    : answer (list Link) :=
  answer_of (link ← readLink reader trigger req w; Ok [link]).

Definition pageLimit (req : http_request) : result problemBody Z :=
  let raw := query_param req "limit" in
  if String.eqb raw "" then Ok defaultEventsLimit
  else
    let bad := problem req 400 problemValidation "limit must be an integer from 1 to 200" in
    match Atoi raw with
    | None => Err bad
    | Some n => if (n <? 1) || (maxEventsLimit <? n) then Err bad else Ok n
    end.

Definition handleListNetworkEvents (reader : LinkReader) (req : http_request) (w : W)
    : answer (list NetworkEvent * option string) :=
  answer_of (
    limit ← pageLimit req;
    match port_ListEvents reader limit (query_param req "cursor") w with
    | Ok (events, next) => Ok (events, nullableString next)
    | Err err => Err (if errors_Is err errInvalidCursor then
                        problem req 400 problemValidation "cursor is not one this endpoint issued"
                      else problem req 500 problemInternal "could not read network events")
    end).

Definition validLinkID (req : http_request) : result problemBody () :=
  if String.eqb (url_param req "linkId") issuerLinkID then Ok ()
  else Err (problem req 404 problemNotFound "no such link").

Definition handleEchoLink (trigger : LinkTrigger) (req : http_request) (w : W) : answer EchoResult * W :=
  match (_ ← validLinkID req; requireUUIDKey uuid_Validate req) with
  | Err p => (Problem p, w)
  | Ok _ =>
      match port_TriggerEcho trigger w with
      | (Err _, w) => (Problem (problem req 500 problemInternal "echo could not be sent"), w)
      | (Ok result, w) => (writeJSONBody 200 result, w)
      end
  end.

Definition transition_run (reader : LinkReader) (trigger : LinkTrigger) (call : W → option error * W)
    (req : http_request) (w : W) : result problemBody (Z * string * Link) * W :=
  match call w with
  | (Some err, w) => (Err (problem req 409 "link-not-ready" (error_text err)), w)
  | (None, w) => (link ← readLink reader (Some trigger) req w; Ok (200, "", link), w)
  end.

Definition handleLinkTransition (reader : LinkReader) (trigger : LinkTrigger) (action : string)
    (call : W → option error * W) (req : http_request) (s : replayStore Link) (w : W)
    : answer Link * replayStore Link * W :=
  match (_ ← validLinkID req; requireUUIDKey uuid_Validate req) with
  | Err p => (Problem p, s, w)
  | Ok key => serve req key action (transition_run reader trigger call req) s w
  end.
End operations.

(** * What a retried key gets *)

(** One call of [serve]. *)
Record replay_call (W A : Type) := mkCall {
  rc_req : http_request; rc_key : string; rc_print : string;
  rc_run : W → result problemBody (Z * string * A) * W }.
Arguments mkCall {W A}.
Arguments rc_req {W A}.
Arguments rc_key {W A}.
Arguments rc_print {W A}.
Arguments rc_run {W A}.

Definition serve_call {W A} (c : replay_call W A) (s : replayStore A) (w : W) : answer A * replayStore A * W :=
  serve (rc_req c) (rc_key c) (rc_print c) (rc_run c) s w.

(** Calls served one after the other, the state they leave. *)
Fixpoint serve_all {W A} (cs : list (replay_call W A)) (s : replayStore A) (w : W) : replayStore A * W :=
  match cs with
  | [] => (s, w)
  | c :: cs => let '(_, s, w) := serve_call c s w in serve_all cs s w
  end.

Lemma serve_keeps {W A} (c : replay_call W A) s w k r :
  s !! k = Some r → (serve_call c s w).1.2 !! k = Some r.
Proof.
  intros Hk. unfold serve_call, serve. destruct (s !! rc_key c) as [prior|] eqn:E.
  - by destruct (negb _).
  - destruct (rc_run c w) as [[[[st loc] b]|p] w']; cbn [fst snd]; [|done].
    rewrite lookup_insert_ne; [done|]. intros He. rewrite He in E. congruence.
Qed.

Lemma serve_all_keeps {W A} (cs : list (replay_call W A)) s w k r :
  s !! k = Some r → (serve_all cs s w).1 !! k = Some r.
Proof.
  revert s w. induction cs as [|c cs IH]; intros s w Hk; [done|]. cbn [serve_all].
  pose proof (serve_keeps c s w k r Hk) as Hs. destruct (serve_call c s w) as [[a s'] w']. by apply IH.
Qed.

(** What a call that answered leaves in the store. *)
Lemma serve_stored {W A} (c : replay_call W A) s w status location body s' w' :
  serve_call c s w = (Answer status location body, s', w') →
  s' !! rc_key c = Some (mkStoredResponse (rc_print c) status body location).
Proof.
  unfold serve_call, serve. destruct (s !! rc_key c) as [[f st b loc]|] eqn:E; cbn [sr_fingerprint sr_status sr_body sr_location].
  - destruct (String.eqb_spec f (rc_print c)) as [->|]; cbn [negb]; [|done]. intros [= <- <- <- <- <-]. done.
  - destruct (rc_run c w) as [[[[st loc] b]|p] w1]; [|done]. intros [= <- <- <- <- <-]. apply lookup_insert_eq.
Qed.

Lemma serve_problem {W A} (c : replay_call W A) s w p s' w' :
  serve_call c s w = (Problem p, s', w') → s' = s.
Proof.
  unfold serve_call, serve. destruct (s !! rc_key c) as [prior|]; [destruct (negb _); by intros [= _ <- _]|].
  destruct (rc_run c w) as [[[[st loc] b]|q] w1]; [done|by intros [= _ <- _]].
Qed.

(** A key acts once: after a call of [serve] was answered, and whatever other calls came in
    between, a call under the same key does not run; it is given the very same answer when the
    request is the same, and 422 when it is another. A call that ended in a problem left nothing
    behind, so the next one under its key runs. *)
Theorem replay_acts_once {W A} (c : replay_call W A) s w a s1 w1 others s2 w2 again :
  serve_call c s w = (a, s1, w1) → serve_all others s1 w1 = (s2, w2) → rc_key again = rc_key c →
  match a with
  | Answer _ _ _ =>
      serve_call again s2 w2 =
      (if String.eqb (rc_print c) (rc_print again) then a
       else Problem (problem (rc_req again) 422 problemIdempotencyMismatch
                       "Idempotency-Key was already used with a different request"), s2, w2)
  | Problem _ => s1 = s ∧ (s !! rc_key c = None → (serve_call again s1 w2).2 = (rc_run again w2).2)
  end.
Proof.
  intros Hc Ho Hk. destruct a as [status location body|p].
  - apply serve_stored in Hc. apply (serve_all_keeps others s1 w1) in Hc. rewrite Ho in Hc.
    unfold serve_call, serve. rewrite Hk. cbn [fst] in Hc. rewrite Hc. cbn [sr_fingerprint sr_status sr_body sr_location].
    by destruct (String.eqb _ _).
  - apply serve_problem in Hc as ->. split; [done|]. intros Hn. unfold serve_call, serve. rewrite Hk, Hn.
    by destruct (rc_run again w2) as [[[[st loc] b]|q] w3].
Qed.

Definition count_run (status : Z) : nat → result problemBody (Z * string * nat) * nat :=
  λ n, (Ok (status, "/n", S n), S n).
Definition demo_http (key : string) : http_request := mkHTTP key "/v1" (λ _, "") (λ _, "") "" "trace".
Definition demo_call (key print : string) : replay_call nat nat := mkCall (demo_http key) key print (count_run 202).

Lemma replay_acts_once_witness :
  let again := demo_call "k1" "ZAK" in
  serve_call (demo_call "k1" "ZAK") ∅ 0%nat = (Answer 202 "/n" 1%nat, {["k1" := mkStoredResponse "ZAK" 202 1%nat "/n"]}, 1%nat) ∧
  serve_call again (serve_all [demo_call "k2" "ZPK"; demo_call "k1" "ZPK"] {["k1" := mkStoredResponse "ZAK" 202 1%nat "/n"]} 1%nat).1 2%nat
  = (Answer 202 "/n" 1%nat,
     (serve_all [demo_call "k2" "ZPK"; demo_call "k1" "ZPK"] {["k1" := mkStoredResponse "ZAK" 202 1%nat "/n"]} 1%nat).1, 2%nat).
Proof.
  split; [reflexivity|].
  apply (replay_acts_once (demo_call "k1" "ZAK") ∅ 0%nat (Answer 202 "/n" 1%nat)
           {["k1" := mkStoredResponse "ZAK" 202 1%nat "/n"]} 1%nat [demo_call "k2" "ZPK"; demo_call "k1" "ZPK"]);
    [reflexivity|vm_compute; reflexivity|reflexivity].
Defined.

(** A sign-on whose link could not be read back is not remembered: it took effect, the caller is
    told 500, and the retry under its key signs on again. *)
Theorem transition_acts_again {W} uuid_Validate error_text (reader : LinkReader) trigger action
    (call : W → option error * W) req s w w1 err :
  validLinkID req = Ok () → uuid_Validate (idem_header req) = true → s !! idem_header req = None →
  call w = (None, w1) → port_GetLink reader issuerLinkID w1 = Err err →
  let handle := handleLinkTransition uuid_Validate error_text reader trigger action call req in
  handle s w = (Problem (problem req 500 problemInternal "could not read the link state"), s, w1) ∧
  ∀ w2, (handle s w2).2 = (call w2).2.
Proof.
  intros Hl Hu Hs Hc Hr. unfold handleLinkTransition, requireUUIDKey. rewrite Hl, Hu. bind_step.
  unfold serve, transition_run. rewrite Hs, Hc. unfold readLink. rewrite Hr. split; [done|].
  intros w2. destruct (call w2) as [[e|] w3]; [done|]. by destruct (port_GetLink reader issuerLinkID w3).
Qed.
