(* ===== verification/Accept.v ===== *)
(** * Accept: what the API lets through can be sent

    A request that passes the checks of [api/validation.go], made with a card of the fixture at a
    terminal of a merchant with a full merchant id, becomes a message the codec packs and the HSM
    MACs: the services of Purchase.v and AdvTxn.v never fail for the format of what they send. *)

From S2P Require Import Prelude Digits Fields Codec CodecSort CodecCorrect CodecBounds Net Mux Supervisor Rotation Feed Lab.
From S2P Require Import Aes KeyStore Mac Calendar Mask Store Journey Prog Idempotency Advice Purchase AdvTxn Outcome Saf Api.
Local Open Scope Z_scope.
Local Open Scope prog_scope.

(** ** Values that fit their element *)

Definition fits (n : Z) (v : string) : bool :=
  match Fields.Fields !! n with
  | Some spec => match checkValue spec v with None => true | Some _ => false end
  | None => false
  end.

(** The type, length and prefix of an element. *)
Definition shape (n : Z) : option (string * nat * string) :=
  (λ f, (Fields.Type_ f, Length f, Prefix f)) <$> Fields.Fields !! n.

Lemma fits_digits n w v :
  shape n = Some ("n", w, "") → slen v = w → str_forall is_digit v = true → fits n v = true.
Proof.
  unfold shape, fits. destruct (Fields.Fields !! n) as [spec|]; [|done]. intros [= Ht Hl Hp] Hv Hd.
  unfold checkValue, dataLen, digitsRe. rewrite Ht, Hp, Hl, Hd, Hv. cbn. by rewrite Nat.eqb_refl.
Qed.

Lemma fits_upto n w v :
  shape n = Some ("n", w, "LL") → (slen v ≤ w)%nat → str_forall is_digit v = true → fits n v = true.
Proof.
  unfold shape, fits. destruct (Fields.Fields !! n) as [spec|]; [|done]. intros [= Ht Hl Hp] Hv Hd.
  unfold checkValue, dataLen, digitsRe. rewrite Ht, Hp, Hl, Hd. cbn [String.eqb Ascii.eqb Bool.eqb andb negb]. by rewrite (proj2 (Nat.ltb_ge _ _) Hv).
Qed.

Lemma fits_text n w v : shape n = Some ("ans", w, "") ∨ shape n = Some ("an", w, "") → slen v = w → fits n v = true.
Proof.
  unfold shape, fits. destruct (Fields.Fields !! n) as [spec|]; [|by intros [?|?]].
  intros [[= Ht Hl Hp]|[= Ht Hl Hp]] Hv; unfold checkValue, dataLen; rewrite Ht, Hp, Hl, Hv; cbn; by rewrite Nat.eqb_refl.
Qed.

Lemma fits_hex n w v :
  shape n = Some ("b", w, "") → slen v = (2 * w)%nat → str_forall is_hex_upper v = true → fits n v = true.
Proof.
  unfold shape, fits. destruct (Fields.Fields !! n) as [spec|]; [|done]. intros [= Ht Hl Hp] Hv Hd.
  unfold checkValue, dataLen, hexRe. rewrite Ht, Hp, Hl, Hd, Hv. cbn [String.eqb Ascii.eqb Bool.eqb andb negb].
  rewrite Nat.mul_comm, Nat.Div0.mod_mul, Nat.div_mul by done. cbn. by rewrite Nat.eqb_refl.
Qed.

(** ** Every map of fitting values packs *)

Lemma packField_fits n v : fits n v = true → is_ok (packField n v) = true.
Proof.
  unfold fits, packField. destruct (Fields.Fields !! n) as [spec|]; [|done].
  destruct (checkValue spec v); [done|]. intros _. bind_step. cbn [Prelude.check]. bind_step. by repeat case_if.
Qed.

Lemma packFields_fit (f : fieldmap) numbers :
  (∀ n, n ∈ numbers → fits n (default "" (f !! n)) = true) → is_ok (packFields numbers f) = true.
Proof.
  induction numbers as [|n numbers IH]; [done|]. intros Hn. cbn [packFields].
  pose proof (packField_fits n _ (Hn n ltac:(left))) as Hp. destruct (packField n _); [|done]. bind_step.
  assert (Ht : is_ok (packFields numbers f) = true) by (apply IH; intros k Hk; apply Hn; by right).
  by destruct (packFields numbers f).
Qed.

Definition fits_all (f : fieldmap) : Prop := map_Forall (λ n v, fits n v = true) f ∧ f !! 1 = None.

Lemma Pack_fits mti (f : fieldmap) :
  slen mti = 4%nat → str_forall is_digit mti = true → fits_all f → is_ok (Pack mti f) = true.
Proof.
  intros Hl Hd [Hf H1]. unfold Pack, PackOrder, digitsRe. rewrite Hl, Hd, H1. cbn [Nat.eqb negb orb].
  destruct (presenceOf (Codec.keys f)) as [present secondary].
  assert (Hp : is_ok (packFields (sortInts (Codec.keys f)) f) = true).
  { apply packFields_fit. intros n Hn. rewrite (proj2 (sortInts_sorted (Codec.keys f))) in Hn.
    apply elem_of_keys in Hn as [v Hv]. rewrite Hv. cbn. by apply Hf. }
  by destruct (packFields _ f).
Qed.

Lemma fits_insert (f : fieldmap) n v : n ≠ 1 → fits n v = true → fits_all f → fits_all (<[n := v]> f).
Proof.
  intros Hn Hv [Hf H1]. split; [by apply map_Forall_insert_2|]. by rewrite lookup_insert_ne.
Qed.

Lemma fits_list (l : list (Z * string)) :
  Forall (λ kv, kv.1 ≠ 1 ∧ fits kv.1 kv.2 = true) l → fits_all (list_to_map l).
Proof.
  induction 1 as [|[n v] l [Hn Hv] _ IH]; cbn [list_to_map foldr].
  - split; [apply map_Forall_empty|apply lookup_empty].
  - by apply fits_insert.
Qed.

(** ** Every such message gets its MAC *)

Lemma EncodeToString_hex s : slen (EncodeToString s) = (2 * slen s)%nat ∧ str_forall is_hex_upper (ToUpper (EncodeToString s)) = true.
Proof.
  induction s as [|c s [IHl IHh]]; [done|]. unfold ToUpper in *. cbn [EncodeToString str_map]. split; [cbn; lia|].
  destruct (decode_byte c) as [_ [H _]]. unfold is_hex in H. apply andb_true_iff in H as [H1 H2].
  rewrite upper_char_idem in H1, H2. cbn [str_forall]. by rewrite H1, H2, IHh.
Qed.

Lemma slen_ToUpper s : slen (ToUpper s) = slen s.
Proof. unfold ToUpper. induction s as [|c s IH]; [done|]. cbn. by f_equal. Qed.

Lemma Pack_nonempty mti f s : Pack mti f = Ok s → slen mti = 4%nat → s ≠ "".
Proof. intros Hp Hl ->. apply Unpack_packed in Hp. done. Qed.

Definition is_mti (mti : string) : bool := (slen mti =? 4)%nat && str_forall is_digit mti.

Section mac.
Context (lmk : string).
#[local] Instance gateway_hsm : Module_ := JCEModule lmk.

Lemma attachMAC_fits zak mti f :
  slen zak = 16%nat → is_mti mti = true → fits_all f → f !! 64 = None →
  ∃ f', attachMAC zak mti f = Ok f' ∧ fits_all f' ∧ is_ok (Pack mti f') = true.
Proof.
  intros Hz [Hl Hd]%andb_true_iff Hf H64. apply Nat.eqb_eq in Hl.
  pose proof (Pack_fits mti f Hl Hd Hf) as Hp. unfold attachMAC.
  destruct (Pack mti f) as [packed|e] eqn:Ep; [|done]. cbn [map_err]. bind_step.
  pose proof (jce_ComputeMAC_cases lmk packed zak) as Hm. change (JCEModule lmk) with gateway_hsm in Hm.
  destruct (ComputeMAC packed zak) as [mac|e].
  - cbn [map_err]. bind_step. eexists. split; [done|]. destruct Hm as (_ & _ & Hml & _).
    assert (Hf' : fits_all (<[64 := ToUpper (EncodeToString mac)]> f)).
    { apply fits_insert; [done| |done]. destruct (EncodeToString_hex mac) as [He Hh].
      apply (fits_hex 64 8); [reflexivity| |done]. rewrite slen_ToUpper, He. lia. }
    split; [done|]. by apply Pack_fits.
  - apply Pack_nonempty in Ep; [|done]. by destruct Hm as [[? _]|(_ & ? & _)].
Qed.
End mac.

(** ** What the environment gives a request *)

(** The error of a message that could not be packed or MACed. *)
Definition mac_error : sentinel := ErrOther "compute outgoing MAC".

Definition fine {A} (r : result error A) : Prop := match r with Ok _ => True | Err e => mac_error ∉ e end.

(** Terminal ids fill DE 41, and merchant ids DE 42. *)
Definition tables_ok (d : DB) : Prop :=
  map_Forall (λ _ mid, slen mid = 15%nat) (terminals d) ∧
  map_Forall (λ _ r, slen (TerminalID r) = 8%nat) (tran d).

Definition ready (stans : nat) (w : World) : Prop :=
  slen (w_zak w) = 16%nat ∧ 0 ≤ now w ∧ 0 ≤ stan_counter w ∧ stan_counter w + Z.of_nat stans < 2 ^ 63 ∧
  tables_ok (w_db w).

(** A protocol over the number of STANs a request may still draw: it sends only what packs. *)
Definition inserts_ok {A} (q : query A) : Prop :=
  match q with
  | QInsert row | QInsertCompletion row _ => slen (TerminalID row) = 8%nat
  | _ => True
  end.

Definition only_packed (R : Type) (e : event R) (stans : nat) : Prop :=
  match e with
  | ESend m f => is_ok (Pack m f) = true
  | EDb q => inserts_ok q
  | ENextSTAN => (0 < stans)%nat
  | _ => True
  end.

Definition db_answer {A} (q : query A) : result error A → Prop :=
  match q in query A return result error A → Prop with
  | QMerchant _ => λ r, fine r ∧ ∀ m, r = Ok m → slen (MID m) = 15%nat
  | QGet _ => λ r, fine r ∧ ∀ row, r = Ok row → slen (TerminalID row) = 8%nat
  | _ => fine
  end.

Definition answered {R} (e : event R) : R → Prop :=
  match e in event R return R → Prop with
  | EDb q => db_answer q
  | ENextSTAN => λ r, ∀ stan, r = Some stan → slen stan = 6%nat ∧ str_forall is_digit stan = true
  | EActiveZAK => λ r, slen r = 16%nat
  | ENow => λ r, 0 ≤ r
  | _ => λ _, True
  end.

Definition stans_left {R} (e : event R) (stans : nat) : nat :=
  match e with ENextSTAN => pred stans | _ => stans end.

Definition told_by (R : Type) (e : event R) (s : nat) (r : R) (s' : nat) : Prop := answered e r ∧ s' = stans_left e s.

(** *** Every call keeps the tables *)

Lemma fine_err {A} x : bool_decide (x = mac_error) = false → fine (A := A) (Err [x]).
Proof. intros Hx%bool_decide_eq_false. cbn. by rewrite list_elem_of_singleton. Qed.

#[local] Hint Extern 1 (fine (Err [_])) => apply fine_err; reflexivity : core.
#[local] Hint Extern 1 (fine (Ok _)) => exact I : core.

Lemma tables_update id wh f d :
  (∀ r, TerminalID (f r) = TerminalID r) → tables_ok d → tables_ok (update_tran id wh f d).2.
Proof.
  intros Hf [Ht Hr]. unfold update_tran. destruct (tran d !! id) as [r|] eqn:E; [|done].
  destruct (wh r); [|done]. split; [exact Ht|]. cbn [snd set_tran tran]. apply map_Forall_insert_2; [|done].
  rewrite Hf. by apply (Hr id).
Qed.

Lemma tables_set_tran d (f : TranLogRow → TranLogRow) :
  (∀ r, TerminalID (f r) = TerminalID r) → tables_ok d → tables_ok (set_tran d (f <$> tran d)).
Proof.
  intros Hf [Ht Hr]. split; [exact Ht|]. cbn [set_tran tran]. intros i r Hi. rewrite lookup_fmap in Hi.
  destruct (tran d !! i) as [r0|] eqn:E; [|done]. injection Hi as <-. rewrite Hf. by apply (Hr i).
Qed.

Lemma tables_same d d' : terminals d' = terminals d → tran d' = tran d → tables_ok d → tables_ok d'.
Proof. intros Ht Hr [H1 H2]. split; by rewrite ?Ht, ?Hr. Qed.

Lemma tables_insert n row d r d' :
  slen (TerminalID row) = 8%nat → tables_ok d → insertTranLog n row d = (r, d') → fine r ∧ tables_ok d'.
Proof.
  intros Hrow Hd. unfold insertTranLog. destruct (terminals d !! _); [|intros [= <- <-]; auto].
  destruct (valid_state (Status row)); intros [= <- <-]; [|auto]. destruct Hd as [Ht Hr]. split; [done|]. split; [exact Ht|].
  cbn [tran]. by apply map_Forall_insert_2.
Qed.

Lemma tables_insert_saf n id mti payload d r d' :
  tables_ok d → insert_saf n id mti payload d = (r, d') → fine r ∧ tables_ok d'.
Proof.
  intros Hd. unfold insert_saf. destruct (tran d !! id); [|intros [= <- <-]; auto].
  destruct (existsb _ _); intros [= <- <-]; auto.
Qed.

Lemma tables_update_saf id f d : tables_ok d → tables_ok (update_saf id f d).
Proof. unfold update_saf. by destruct (saf d !! id). Qed.

Lemma tables_queue_reversal n t reason payload d r d' :
  tables_ok d → queue_reversal n t reason payload d = (r, d') → fine r ∧ tables_ok d'.
Proof.
  intros Hd. unfold queue_reversal.
  pose proof (tables_update (ID t) (λ r, String.eqb (Status r) (Status t))
                (λ r, set_reason (set_state r statusReversalPending) reason) d ltac:(done) Hd) as Hu.
  destruct (update_tran _ _ _ d) as [[|k] d1]; [intros [= <- <-]; auto|]. cbn [snd] in Hu.
  destruct (insert_saf n (ID t) mtiReversalAdvice payload _) as [r2 d2] eqn:E.
  apply tables_insert_saf in E as [Hf Hd2]; [|exact Hu]. by destruct r2; intros [= <- <-].
Qed.

Lemma tables_finish n id from to f d :
  (∀ r, TerminalID (f r) = TerminalID r) → tables_ok d → tables_ok (finishOnAck n id from to f d).
Proof.
  intros Hf Hd. unfold finishOnAck. pose proof (tables_update id (λ r, String.eqb (Status r) from) f d Hf Hd) as Hu.
  by destruct (update_tran _ _ _ d) as [[|k] d1].
Qed.

Lemma tables_MarkAcked n id d r d' :
  tables_ok d → MarkAcked n id d = (r, d') → fine r ∧ tables_ok d'.
Proof.
  intros Hd. unfold MarkAcked. destruct (saf d !! id) as [s|]; [|intros [= <- <-]; auto].
  intros [= <- <-]. split; [done|]. pose proof (tables_update_saf id (ack n) d Hd) as Hu.
  repeat case_if; [| |done]; by apply tables_finish.
Qed.

Lemma tables_Get rrn d r d' :
  tables_ok d → GetTran rrn d = (r, d') →
  (fine r ∧ ∀ row, r = Ok row → slen (TerminalID row) = 8%nat) ∧ tables_ok d'.
Proof.
  intros Hd. unfold GetTran. destruct (List.find _ (joined d)) as [row|] eqn:E; intros [= <- <-].
  - split; [|done]. split; [done|]. intros ? [= <-]. apply find_some in E as [Hin _].
    apply list_elem_of_In, joined_row in Hin as (id & r0 & name & Hr & ->). exact (proj2 Hd id r0 Hr).
  - split; [|done]. split; [auto|done].
Qed.

Lemma tables_Merchant tid d r d' :
  tables_ok d → GetMerchant tid d = (r, d') →
  (fine r ∧ ∀ m, r = Ok m → slen (MID m) = 15%nat) ∧ tables_ok d'.
Proof.
  intros Hd. unfold GetMerchant. destruct (terminals d !! tid) as [mid|] eqn:E; cbn.
  2: { intros [= <- <-]. split; [|done]. split; [auto|done]. }
  destruct (merchants d !! mid) as [name|]; cbn; intros [= <- <-]; (split; [|done]); (split; [auto|]); [|done].
  intros m [= <-]. exact (proj1 Hd tid mid E).
Qed.

Lemma tables_InsertCompletion n row rrn d r d' :
  slen (TerminalID row) = 8%nat → tables_ok d → InsertCompletion n row rrn d = (r, d') → fine r ∧ tables_ok d'.
Proof.
  intros Hrow Hd. unfold InsertCompletion. destruct (existsb _ _); [|intros [= <- <-]; auto].
  destruct (insertTranLog n row _) as [r1 d1] eqn:E. apply tables_insert in E as [Hf Hd1]; [|done|].
  - destruct r1; intros [= <- <-]; auto.
  - apply tables_set_tran; [|done]. intros r0. by destruct (completable rrn r0).
Qed.

Lemma tables_query {A} (q : query A) n d r d' :
  tables_ok d → inserts_ok q → exec_query q n d = (r, d') → db_answer q r ∧ tables_ok d'.
Proof.
  intros Hd Hq. destruct q; cbn [exec_query inserts_ok db_answer] in *.
  - by apply tables_insert.
  - by apply tables_InsertCompletion.
  - unfold UpdateStatus. destruct (valid_state status).
    + intros [= <- <-]. split; [done|]. by apply tables_update.
    + destruct (tran d !! id); intros [= <- <-]; auto.
  - unfold UpdateStatusFrom. destruct (valid_state status).
    + pose proof (tables_update id (λ r, String.eqb (Status r) from) (λ r, rewrite_row r status rc ac (Some n)) d
        ltac:(done) Hd) as Hu. destruct (update_tran _ _ _ d) as [[|k] d1]; intros [= <- <-]; auto.
    + destruct (tran d !! id) as [r0|]; [destruct (String.eqb _ _)|]; intros [= <- <-]; auto.
  - unfold UpdateAmounts. intros [= <- <-]. split; [done|]. by apply tables_update.
  - unfold UpdateLateResponse. intros [= <- <-]. split; [done|]. apply tables_set_tran; [|done].
    intros r0. by destruct (String.eqb _ _).
  - unfold RecordStateTransition. destruct (tran d !! id); intros [= <- <-]; auto.
  - by apply tables_Get.
  - unfold ReleaseCompletion. intros [= <- <-]. split; [done|]. apply tables_set_tran; [|done].
    intros r0. by destruct (_ && _).
  - unfold FindOrphans. intros [= <- <-]. auto.
  - unfold MarkTimedOut.
    pose proof (tables_update id (λ r, String.eqb (Status r) statusSent) (λ r, set_state r statusTimedOut) d
      ltac:(done) Hd) as Hu. destruct (update_tran _ _ _ d) as [[|k] d1]; intros [= <- <-]; auto.
  - unfold Reserve. destruct (idem d !! _) as [i|]; [|intros [= <- <-]; auto].
    repeat case_if; intros [= <- <-]; auto.
  - unfold AttachRRN. destruct (idem d !! _) as [i|]; [destruct (holds token i)|]; intros [= <- <-]; auto.
  - unfold Reclaim. destruct (idem d !! _) as [i|]; [destruct (_ && _)|]; intros [= <- <-]; auto.
  - unfold StoreResponse. destruct (idem d !! _) as [i|]; intros [= <- <-]; auto.
  - unfold Release. destruct (idem d !! _) as [i|]; [destruct (holds token i)|]; intros [= <- <-]; auto.
  - by apply tables_queue_reversal.
  - by apply tables_insert_saf.
  - unfold ClaimDue. intros [= <- <-]. auto.
  - unfold MarkInFlight. intros [= <- <-]. split; [done|]. by apply tables_update_saf.
  - by apply tables_MarkAcked.
  - unfold MarkDead. intros [= <- <-]. split; [done|]. by apply tables_update_saf.
  - unfold UpdatePayload. intros [= <- <-]. split; [done|]. by apply tables_update_saf.
  - unfold FindReversal. destruct (last _); intros [= <- <-]; auto.
  - unfold TranRRN. repeat case_match; intros [= <- <-]; auto.
  - by apply tables_Merchant.
  - intros [= <- <-]. auto.
Qed.

(** ** Runs of a program that keeps the protocol *)

Definition packs (msg : string * fieldmap) : Prop := is_ok (Pack msg.1 msg.2) = true.

Lemma lost_answer {A} (q : query A) : db_answer q lost.
Proof. destruct q; cbn; rewrite ?list_elem_of_singleton; try done; by split; [rewrite list_elem_of_singleton|]. Qed.

Lemma exec_ready {R} (e : event R) c stans w r w' :
  ready stans w → only_packed R e stans → exec e c (tick c w) = (r, w') →
  answered e r ∧ ready (stans_left e stans) w' ∧ ∃ new, sends_of w' = sends_of w ++ new ∧ Forall packs new.
Proof.
  intros (Hz & Hn & Hs & Hb & Hd) Ha He.
  assert (Hnow : 0 ≤ now w + Z.max 0 (c_tick c)) by lia.
  assert (Hnone : ∃ new, sends_of w = sends_of w ++ new ∧ Forall packs new) by (exists []; by rewrite app_nil_r).
  destruct e; cbn [exec answered stans_left only_packed] in *.
  - unfold exec_db in He. cbn [tick w_db now] in He.
    destruct (exec_query q (now w + Z.max 0 (c_tick c)) (w_db w)) as [r0 d0] eqn:E.
    destruct (tables_query q _ _ _ _ Hd Ha E) as [Hf Hd0]. pose proof (lost_answer q).
    destruct (c_fate c); cbn [snd] in He; injection He as <- <-; (split; [done|]); by split.
  - injection He as <- <-. split; [done|]. split; [by split_and!|]. exists [(mti, fields)]. split; [done|].
    by constructor.
  - destruct (c_flag c).
    + pose proof (NextSTAN_eq (stan_counter w) Hs ltac:(lia)) as En. cbn [tick stan_counter] in He. rewrite En in He.
      injection He as <- <-. split.
      { intros stan [= <-]. split; [apply slen_dec|apply dec_digits]. }
      split; [|done]. split_and!; cbn; try done; lia.
    + injection He as <- <-. split; [done|]. split; [|done]. split_and!; cbn; try done; lia.
  - injection He as <- <-. split; [done|]. split; [|done]. by split_and!.
  - injection He as <- <-. split; [done|]. split; [|done]. by split_and!.
  - injection He as <- <-. split; [done|]. split; [|done]. by split_and!.
  - injection He as <- <-. split; [done|]. split; [|done]. by split_and!.
  - injection He as <- <-. split; [done|]. split; [|done]. by split_and!.
  - injection He as <- <-. split; [done|]. split; [|done]. by split_and!.
  - injection He as <- <-. split; [done|]. split; [|done]. by split_and!.
  - injection He as <- <-. split; [done|]. split; [|done]. by split_and!.
Qed.

Abbreviation keeps_format := (wp only_packed told_by).

Lemma format_crash {A} (p : prog A) Q n cs s w :
  keeps_format p Q s → ready s w → ∃ new, sends_of (crash n p cs w) = sends_of w ++ new ∧ Forall packs new.
Proof.
  revert p cs s w. induction n as [|n IH]; intros p cs s w Hp Hw; [exists []; by rewrite app_nil_r|].
  destruct p as [a|R e k]; [exists []; by rewrite app_nil_r|]. destruct Hp as [Ha Hk]. cbn [crash].
  destruct (match cs with c :: cs => (c, cs) | [] => (quiet, []) end) as [c cs'].
  destruct (exec e c (tick c w)) as [r w'] eqn:E.
  destruct (exec_ready e c s w r w' Hw Ha E) as (Hr & Hw' & new & Hs & Hnew).
  destruct (IH (k r) cs' (stans_left e s) w' (Hk r _ (conj Hr eq_refl)) Hw') as (new' & Hs' & Hnew').
  exists (new ++ new'). rewrite Hs', Hs, app_assoc. split; [done|]. by apply Forall_app.
Qed.

Lemma format_run {A} (p : prog A) Q cs s w :
  keeps_format p Q s → ready s w → ∃ s', Q (run p cs w).1 s'.
Proof.
  revert cs s w. induction p as [a|R e k IH]; intros cs s w Hp Hw; [by exists s|].
  destruct Hp as [Ha Hk]. cbn [run]. destruct (match cs with c :: cs => (c, cs) | [] => (quiet, []) end) as [c cs'].
  destruct (exec e c (tick c w)) as [r w'] eqn:E.
  destruct (exec_ready e c s w r w' Hw Ha E) as (Hr & Hw' & _).
  exact (IH r cs' _ w' (Hk r _ (conj Hr eq_refl)) Hw').
Qed.

(** *** Steps that draw no STAN and send nothing *)

Definition calm {A} (good : A → Prop) (p : prog A) : Prop := ∀ s, keeps_format p (λ r s', s' = s ∧ good r) s.

Definition any {A} (_ : A) : Prop := True.

Lemma calm_Ret {A} (good : A → Prop) a : good a → calm good (Ret a).
Proof. by intros Ha s. Qed.

Lemma calm_mono {A} (good good' : A → Prop) p : (∀ a, good a → good' a) → calm good p → calm good' p.
Proof. intros Hg Hp s. eapply wp_mono; [|apply Hp]. intros a s' [-> Ha]. auto. Qed.

Lemma hcalm_pbind {A B} (good : A → Prop) (good' : B → Prop) (p : prog A) (f : A → prog B) :
  calm good p → (∀ a, good a → calm good' (f a)) → calm good' (pbind f p).
Proof.
  intros Hp Hf s. apply wp_pbind. eapply wp_mono; [|apply Hp]. intros a s' [-> Ha]. by apply Hf.
Qed.

Lemma hcalm_bindE {A B} (good : result error A → Prop) (good' : result error B → Prop) (p : progE A) (f : A → progE B) :
  calm good p → (∀ a, good (Ok a) → calm good' (f a)) → (∀ e, good (Err e) → good' (Err e)) →
  calm good' (bindE p f).
Proof.
  intros Hp Hf He. eapply hcalm_pbind; [exact Hp|]. intros [a|e] Ha; [by apply Hf|]. apply calm_Ret. by apply He.
Qed.

Lemma db_answer_fine {A} (q : query A) r : db_answer q r → fine r.
Proof. destruct q; cbn; tauto. Qed.

Lemma calm_db {A} (q : query A) : inserts_ok q → calm (db_answer q) (db q).
Proof. intros Hq s. cbn. split; [exact Hq|]. by intros r s' [Hr ->]. Qed.

Lemma calm_fine {A} (q : query A) : inserts_ok q → calm fine (db q).
Proof. intros Hq. eapply calm_mono; [apply db_answer_fine|by apply calm_db]. Qed.

Definition harmless {R} (e : event R) : bool :=
  match e with ESend _ _ | EDb _ | ENextSTAN => false | _ => true end.

Lemma calm_trigger {R} (e : event R) : harmless e = true → calm (answered e) (trigger e).
Proof. intros He s. split; [by destruct e|]. intros r s' [Hr ->]. split; [by destruct e|done]. Qed.

Lemma fine_fail {A} e : mac_error ∉ e → calm (A := result error A) fine (failE e).
Proof. intros He. by apply calm_Ret. Qed.

Lemma calm_any {R} (e : event R) : harmless e = true → calm any (trigger e).
Proof. intros He. eapply calm_mono; [|by apply calm_trigger]. done. Qed.

Create HintDb calm discriminated.
#[local] Hint Resolve calm_Ret : calm.
#[local] Hint Extern 1 (calm _ (db _)) => apply calm_fine; cbn; try exact I; try assumption : calm.
#[local] Hint Extern 1 (calm _ (trigger _)) => apply calm_any; reflexivity : calm.

(** Sequencing of fallible steps, the usual case. *)
Lemma calm_then {A B} (p : progE A) (f : A → progE B) :
  calm fine p → (∀ a, calm fine (f a)) → calm fine (bindE p f).
Proof. intros Hp Hf. apply (hcalm_bindE fine); auto. Qed.

Lemma calm_after {A B} (p : prog A) (f : A → progE B) :
  calm any p → (∀ a, calm fine (f a)) → calm fine (pbind f p).
Proof. intros Hp Hf. apply (hcalm_pbind any); auto. Qed.

Lemma join_fine a b : mac_error ∉ a → mac_error ∉ b → mac_error ∉ errors_Join a b.
Proof. unfold errors_Join. set_solver. Qed.

(** ** The reservation and the queue *)

Section queue.
Context {J : AdviceJSON} (encKey : string).

Lemma calm_seal adv : calm fine (seal encKey adv).
Proof.
  assert (Hp : ∀ nonce, fine (encodePayload nonce encKey adv)).
  { intros nonce. unfold encodePayload. destruct (String.eqb encKey ""); [done|].
    destruct (Aes.EncryptBytes _ _ _); [done|]. auto. }
  unfold seal. destruct (String.eqb encKey ""); [by apply calm_Ret|].
  apply calm_after; [auto with calm|]. intros nonce. by apply calm_Ret.
Qed.

Lemma calm_Queue t reason : calm fine (Queue encKey t reason).
Proof.
  unfold Queue, liftE. apply calm_then.
  { apply calm_Ret. unfold reversalAdvice. destruct (SentAt t); [|auto]. destruct (String.eqb _ _); auto. }
  intros adv. apply calm_then; [apply calm_seal|auto with calm].
Qed.

Lemma calm_QueueAdvice id mti sent : calm fine (QueueAdvice encKey id mti sent).
Proof.
  unfold QueueAdvice. apply calm_then; [apply calm_seal|]. intros payload. apply calm_then; [auto with calm|].
  intros _. by apply calm_Ret.
Qed.
End queue.

Section idempotent.
Context {T : Type} (Marshal : T → string) (Unmarshal : string → option T) (k : idemKey) (fromLog : option (Recover (T := T))).
Hypothesis from_log : ∀ f rrn, fromLog = Some f → calm fine (f rrn).

Lemma calm_storeResponse response : calm fine (storeResponse Marshal k response).
Proof. unfold storeResponse. auto with calm. Qed.

Lemma calm_answerFromLog f rrn : fromLog = Some f → calm fine (answerFromLog Marshal k rrn f).
Proof.
  intros Hf. unfold answerFromLog. apply calm_then; [by apply from_log|]. intros [txn final]. cbn [fst snd].
  destruct final; cbn [negb]; [|by apply calm_Ret]. apply calm_then; [apply calm_storeResponse|].
  intros _. by apply calm_Ret.
Qed.

Lemma calm_begin : calm fine (begin_ Marshal Unmarshal k fromLog).
Proof.
  pose proof calm_answerFromLog as Ha. unfold begin_. apply calm_then; [auto with calm|]. intros [token|stored|rrn at_].
  - by apply calm_Ret.
  - destruct (Unmarshal _); [by apply calm_Ret|]. apply calm_Ret. auto.
  - apply calm_after; [auto with calm|]. intros now. destruct (staleAfter <? _); [|apply calm_Ret; auto].
    unfold takeOverStale. destruct (negb _).
    + destruct fromLog as [f|]; [|apply calm_Ret; auto]. apply calm_then; [by apply Ha|].
      intros a. by apply calm_Ret.
    + apply calm_then; [auto with calm|]. intros [t|]; apply calm_Ret; auto.
Qed.

Lemma calm_failed token rrn err : mac_error ∉ err → calm fine (failed Marshal k token rrn fromLog err).
Proof.
  pose proof calm_answerFromLog as Ha. intros He. unfold failed.
  destruct (errors_Is err ErrReservationLost); [by apply fine_fail|].
  destruct (negb _).
  - apply (hcalm_pbind fine); [auto with calm|]. intros [u|e] Hr; apply calm_Ret; [done|]. by apply join_fine.
  - destruct fromLog as [f|]; [|by apply fine_fail]. destruct (String.eqb rrn ""); [by apply fine_fail|].
    apply (hcalm_pbind fine); [by apply Ha|]. intros [a|e] Hr; apply calm_Ret; [done|].
    by apply join_fine.
Qed.

(** The reservation around a create call that keeps the protocol. *)
Lemma format_Idempotent create s :
  (∀ held, keeps_format (create held "") (λ r _, fine r.1) s) →
  keeps_format (Idempotent Marshal Unmarshal k create fromLog) (λ r _, fine r) s.
Proof.
  intros Hc. unfold Idempotent. apply wp_bindE. eapply wp_mono; [|apply calm_begin].
  intros [[a|token]|e] s' [-> Hr]; [done| |done]. apply wp_pbind. eapply wp_mono; [|apply Hc].
  intros [[result|e] rrn] s' Hf; cbn [fst] in Hf.
  - apply wp_pbind. eapply wp_mono; [|apply calm_storeResponse]. intros [u|e] s'' [-> He]; cbn; [done|].
    cbn in He. set_solver.
  - eapply wp_mono; [|by apply calm_failed]. by intros r s'' [_ ?].
Qed.
End idempotent.

(** ** Texts of the calendar *)

Lemma two_digits n : 0 ≤ n < 100 → slen (Sprintf0d 2 n) = 2%nat ∧ str_forall is_digit (Sprintf0d 2 n) = true.
Proof. intros Hn. rewrite Sprintf0d_dec by (cbn; lia). split; [apply slen_dec|apply dec_digits]. Qed.

Definition numeral (w : nat) (s : string) : Prop := slen s = w ∧ str_forall is_digit s = true.

Lemma numeral_app v w a b : numeral v a → numeral w b → numeral (v + w) (a +:+ b).
Proof. intros [<- Ha] [<- Hb]. split; [apply slen_app|]. by rewrite str_forall_app, Ha, Hb. Qed.

Lemma MMDD_numeral l t : numeral 4 (format_MMDD l t).
Proof.
  unfold format_MMDD, civil. pose proof (civil_spec (local_day l t)) as Hc.
  destruct (civil_of_days (local_day l t)) as [[y m] d]. destruct Hc as (_ & Hm & Hd).
  apply (numeral_app 2 2); apply two_digits; lia.
Qed.

Lemma hhmmss_numeral l t : numeral 6 (format_hhmmss l t).
Proof.
  unfold format_hhmmss. pose proof (Hour_range l t). pose proof (clock_parts l t).
  apply (numeral_app 2 4); [apply two_digits; lia|]. apply (numeral_app 2 2); apply two_digits; lia.
Qed.

Lemma DE7_numeral l t : numeral 10 (format_DE7 l t).
Proof. apply (numeral_app 4 6); [apply MMDD_numeral|apply hhmmss_numeral]. Qed.

Lemma RRN_numeral now stan : 0 ≤ now → numeral 6 stan → numeral 12 (BuildRRN now stan).
Proof.
  intros Hn Hs. rewrite BuildRRN_eq by (by apply Year_nonneg).
  pose proof (YearDay_range UTC now). pose proof (Hour_range UTC now).
  apply (numeral_app 1 11); [split; [apply slen_dec|apply dec_digits]|].
  apply (numeral_app 3 8); [split; [apply slen_dec|apply dec_digits]|].
  apply (numeral_app 2 6); [split; [apply slen_dec|apply dec_digits]|exact Hs].
Qed.

Lemma amount_numeral n : 0 ≤ n ≤ maxAmount → numeral 12 (Sprintf0d 12 n).
Proof.
  intros Hn. unfold maxAmount in Hn. rewrite Sprintf0d_dec by (cbn; lia). split; [apply slen_dec|apply dec_digits].
Qed.

Lemma fits_numeral n w v : shape n = Some ("n", w, "") → numeral w v → fits n v = true.
Proof. intros Hs [Hl Hd]. by eapply fits_digits. Qed.

(** ** The parts of the messages *)

(** A card of the fixture: the PAN in DE 2, the expiry in DE 14. *)
Definition card_ok (c : CardFixture) : bool :=
  (slen (PAN c) <=? 19)%nat && str_forall is_digit (PAN c) && (slen (ExpiryYYMM c) =? 4)%nat &&
  str_forall is_digit (ExpiryYYMM c).

Definition cards_ok (cards : CardTokenRegistry) : Prop := map_Forall (λ _ c, card_ok c = true) cards.

Lemma check_nil ok f m errs : check ok f m errs = [] → ok = true ∧ errs = [].
Proof. unfold check. destruct ok; [done|]. by destruct errs. Qed.

Lemma checkMoney_nil m errs :
  checkMoney m errs = [] → numeral 12 (Sprintf0d 12 (Amount m)) ∧ numeral 3 (Currency m) ∧ errs = [].
Proof.
  intros [Hc [Ha He]%check_nil]%check_nil. split_and!; [|split|done].
  - apply amount_numeral. apply andb_true_iff in Ha as [H1 H2]. lia.
  - apply andb_true_iff in Hc as [Hc _]. by apply Nat.eqb_eq.
  - by apply andb_true_iff in Hc as [_ Hc].
Qed.

Lemma entry_mode_numeral m : m ∈ entryModes → numeral 3 (get entryModeToDE22 m).
Proof.
  unfold entryModes. rewrite !elem_of_union, !elem_of_singleton. intros [[[-> | ->] | ->] | ->]; by vm_compute.
Qed.

Lemma checkCardPresent_nil tid token mode errs :
  checkCardPresent tid token mode errs = [] → slen tid = 8%nat ∧ numeral 3 (get entryModeToDE22 mode) ∧ errs = [].
Proof.
  intros [Hm [_ [Ht He]%check_nil]%check_nil]%check_nil. split_and!; [by apply Nat.eqb_eq| |done].
  apply entry_mode_numeral. by apply bool_decide_eq_true in Hm.
Qed.

(** One element of a message at a time. *)
Ltac fit_field :=
  split; [done|]; cbn [fst snd];
  first [ by eapply fits_numeral; [reflexivity|eauto]
        | by eapply fits_upto; [reflexivity|eauto..]
        | by eapply fits_text; [by left; reflexivity|eauto]
        | by eapply fits_text; [by right; reflexivity|eauto]
        | reflexivity ].

Section messages.
Context (card : CardFixture) (stan : string) (t date : time).
Hypotheses (Hcard : card_ok card = true) (Hstan : numeral 6 stan) (Ht : 0 ≤ t).

Lemma card_parts :
  (slen (PAN card) ≤ 19)%nat ∧ str_forall is_digit (PAN card) = true ∧ numeral 4 (ExpiryYYMM card).
Proof.
  unfold card_ok in Hcard. repeat (apply andb_true_iff in Hcard as [Hcard ?]).
  split_and!; [by apply Nat.leb_le|done|]. split; [by apply Nat.eqb_eq|done].
Qed.

Lemma rrn_len : slen (BuildRRN t stan) = 12%nat.
Proof. by apply RRN_numeral. Qed.

Lemma purchase_fits req merchant :
  checkPurchase req = [] → slen (MID merchant) = 15%nat →
  fits_all (purchaseFields req card merchant (BuildRRN t stan) stan t date).
Proof.
  intros [Ha [Hc Hp]]%checkMoney_nil Hm. apply checkCardPresent_nil in Hp as (Htid & Hmode & _).
  destruct card_parts as (Hp1 & Hp2 & He). pose proof rrn_len. pose proof (DE7_numeral UTC t).
  pose proof (hhmmss_numeral terminalLocation t). pose proof (MMDD_numeral terminalLocation t).
  pose proof (MMDD_numeral UTC date).
  apply fits_list. repeat (apply Forall_cons; split; [fit_field|]). by apply Forall_nil.
Qed.
End messages.

(** *** Messages whose DE 42 is still to be filled in *)

Definition fits_but (n : Z) (f : fieldmap) : Prop := map_Forall (λ m v, m = n ∨ fits m v = true) f ∧ f !! 1 = None.

Lemma but_insert (f : fieldmap) k n v : n ≠ 1 → n = k ∨ fits n v = true → fits_but k f → fits_but k (<[n := v]> f).
Proof. intros Hn Hv [Hf H1]. split; [by apply map_Forall_insert_2|]. by rewrite lookup_insert_ne. Qed.

Lemma but_list k (l : list (Z * string)) :
  Forall (λ kv, kv.1 ≠ 1 ∧ (kv.1 = k ∨ fits kv.1 kv.2 = true)) l → fits_but k (list_to_map l).
Proof.
  induction 1 as [|[n v] l [Hn Hv] _ IH]; cbn [list_to_map foldr]; [|by apply but_insert].
  split; [apply map_Forall_empty|apply lookup_empty].
Qed.

Lemma but_close (f : fieldmap) n v : n ≠ 1 → fits n v = true → fits_but n f → fits_all (<[n := v]> f).
Proof.
  intros Hn Hv [Hf H1]. split; [|by rewrite lookup_insert_ne]. intros m x Hm.
  destruct (decide (m = n)) as [->|Hne]; [by rewrite lookup_insert_eq in Hm; injection Hm as <-|].
  rewrite lookup_insert_ne in Hm by done. by destruct (Hf m x Hm) as [->|].
Qed.

(** What [finalizeFields] needs of a request's parameters. *)
Record params_ok (p : sendParams) : Prop := {
  po_fields : fits_but 42 (fields p);
  po_merchant : is_Some (fields p !! 42);
  po_mac : fields p !! 64 = None;
  po_mti : is_mti (mti p) = true;
  po_terminal : slen (terminalID p) = 8%nat
}.

Ltac fit_or_later := split; [done|]; cbn [fst snd]; first [by left|right; eapply proj2; fit_field].

Section adv_messages.
Context (card : CardFixture) (stan : string) (t date : time).
Hypotheses (Hcard : card_ok card = true) (Hstan : numeral 6 stan) (Ht : 0 ≤ t).

Lemma cardFields_fit c code :
  checkCardPresent (a_TerminalID c) (a_CardToken c) (a_EntryMode c) [] = [] → numeral 6 code →
  fits_but 42 (cardFields card c code stan (BuildRRN t stan) t).
Proof.
  intros Hp Hcode. apply checkCardPresent_nil in Hp as (Htid & Hmode & _).
  destruct (card_parts card Hcard) as (Hp1 & Hp2 & He). pose proof (rrn_len stan t Hstan Ht). pose proof (DE7_numeral UTC t).
  unfold cardFields. apply but_list.
  repeat (apply Forall_cons; split; [fit_or_later|]). by apply Forall_nil.
Qed.

Lemma amount_fit f m : checkAmount m = [] → fits_but 42 f → fits_but 42 (with_amount f m).
Proof.
  intros (Ha & Hc & _)%checkMoney_nil Hf. unfold with_amount.
  apply but_insert; [done| |apply but_insert; [done| |done]]; right; by eapply fits_numeral.
Qed.

Lemma completion_fit original preAuth req :
  checkAmount (c_Amount req) = [] → slen original = 12%nat → slen (TerminalID preAuth) = 8%nat →
  fits_but 42 (completionFields original preAuth req stan t).
Proof.
  intros (Ha & Hc & _)%checkMoney_nil Ho Htid. pose proof (DE7_numeral UTC t). unfold completionFields. apply but_list.
  repeat (apply Forall_cons; split; [fit_or_later|]). by apply Forall_nil.
Qed.
End adv_messages.

(** ** The services *)

Section services.
Context (lmk : string) {C : Calendar} {J : AdviceJSON} (encKey : string) (cards : CardTokenRegistry) (traceID : string).
#[local] Instance service_hsm : Module_ := JCEModule lmk.
#[local] Instance gateway_queue : SAFQueuer := saf_queuer encKey.
Hypothesis Hcards : cards_ok cards.

Lemma calm_verify mti resp : calm any (verify mti resp).
Proof.
  unfold verify. destruct (macFieldOf resp) as [[h n]|]; [|by apply calm_Ret].
  destruct (Pack _ _); [|by apply calm_Ret]. apply (hcalm_pbind any); [auto with calm|]. intros zak _.
  destruct (macMatches _ _ _); [by apply calm_Ret|]. apply (hcalm_pbind any); [auto with calm|].
  intros keys _. by apply calm_Ret.
Qed.

Lemma calm_attach mti f :
  is_mti mti = true → fits_all f → f !! 64 = None →
  calm (λ r, ∃ f', r = Ok f' ∧ is_ok (Pack mti f') = true) (attach mti f).
Proof.
  intros Hm Hf H64. unfold attach. eapply hcalm_pbind; [by apply calm_trigger|]. intros zak Hz. cbn in Hz.
  change service_hsm with (gateway_hsm lmk). destruct (attachMAC_fits lmk zak mti f Hz Hm Hf H64) as (f' & -> & _ & Hp). apply calm_Ret. by exists f'.
Qed.

(** An error that may be there. *)
Definition fine_opt (e : option error) : Prop := match e with Some e => mac_error ∉ e | None => True end.

Lemma answer_with_fine {A} (a : A) e : fine_opt e → calm fine (answer_with a e).
Proof. destruct e; intros He; by apply calm_Ret. Qed.

Lemma fine_default e : fine_opt e → mac_error ∉ default [] e.
Proof. destruct e; cbn; set_solver. Qed.

Lemma calm_recordStatus id txn : calm (λ r, fine_opt r.2) (Purchase.recordStatus id txn).
Proof.
  unfold Purchase.recordStatus. apply (hcalm_pbind fine); [auto with calm|]. intros [u|e] He; [|by apply calm_Ret].
  apply (hcalm_pbind fine); [auto with calm|]. intros [u'|e] He'; by apply calm_Ret.
Qed.

Lemma calm_finalizeSendResult row txn b : calm fine (finalizeSendResult row txn b).
Proof.
  unfold finalizeSendResult. eapply hcalm_pbind; [apply calm_recordStatus|]. intros [current e] He. cbn [snd] in He.
  destruct (is_moved e); [by apply fine_fail, fine_default|].
  destruct (String.eqb _ ""); [by apply answer_with_fine|].
  apply (hcalm_pbind fine); [apply calm_Queue|]. intros [u|e'] He'; [by apply answer_with_fine|].
  apply fine_fail, join_fine; [by apply fine_default|done].
Qed.

Lemma calm_settleSend txn row latency sent : calm fine (Purchase.settleSend txn row latency sent).
Proof.
  unfold Purchase.settleSend, settleOutcome, mapSendOutcome. apply (hcalm_pbind fine).
  - apply calm_after.
    + destruct sent as [resp|e]; [|by destruct (SendFailureStatus e); apply calm_Ret].
      apply (hcalm_pbind any); [apply calm_verify|]. intros good _. by destruct good; apply calm_Ret.
    + intros [txn' b]. apply calm_finalizeSendResult.
  - intros [t|e] He; apply calm_Ret; cbn in *; [done|]. set_solver.
Qed.

(** *** Purchases *)


(** *** Create calls *)

Definition outcome_ok {A} (good : A → Prop) (r : result error A) : Prop :=
  match r with Ok a => good a | Err e => mac_error ∉ e end.

Definition hcalm {A} (good : A → Prop) (p : hprog A) : Prop := ∀ rrn, calm (λ r, outcome_ok good r.1) (p rrn).

Lemma hcalm_hbind {A B} (good : A → Prop) (good' : B → Prop) (p : hprog A) (f : A → hprog B) :
  hcalm good p → (∀ a, good a → hcalm good' (f a)) → hcalm good' (hbind p f).
Proof.
  intros Hp Hf rrn. unfold hbind. eapply hcalm_pbind; [apply Hp|]. intros [[a|e] rrn'] Ha; [by apply Hf|by apply calm_Ret].
Qed.

Lemma hcalm_lift {A} (good : A → Prop) (p : progE A) : calm (outcome_ok good) p → hcalm good (hlift p).
Proof. intros Hp rrn. unfold hlift. eapply hcalm_pbind; [exact Hp|]. intros r Hr. by apply calm_Ret. Qed.

Lemma fine_outcome {A} (r : result error A) : fine r → outcome_ok any r.
Proof. by destruct r. Qed.

Lemma hcalm_fine {A} (p : progE A) : calm fine p → hcalm any (hlift p).
Proof. intros Hp. apply hcalm_lift. eapply calm_mono; [apply fine_outcome|done]. Qed.

Lemma hcalm_heff {R} (e : event R) : harmless e = true → hcalm (answered e) (heff e).
Proof.
  intros He. apply hcalm_lift. eapply hcalm_pbind; [by apply calm_trigger|]. intros r Hr. by apply calm_Ret.
Qed.

Lemma hcalm_send m f : is_ok (Pack m f) = true → hcalm any (heff (ESend m f)).
Proof.
  intros Hp. apply hcalm_lift. intros s. split; [exact Hp|]. intros r s' [_ ->]. by split.
Qed.

Lemma hcalm_hret {A} (a : A) : hcalm any (hret a).
Proof. intros rrn. by apply calm_Ret. Qed.

Lemma hcalm_attach_rrn held rrn : hcalm any (attach_rrn held rrn).
Proof.
  intros attached. unfold attach_rrn. destruct held as [h|]; [|by apply calm_Ret].
  eapply (hcalm_pbind fine); [auto with calm|]. intros [u|e] He; by apply calm_Ret.
Qed.

Lemma hcalm_markAndSend id f settle :
  is_ok (Pack "0200" f) = true → (∀ l sent, calm fine (settle l sent)) → hcalm any (markAndSend id f settle).
Proof.
  intros Hp Hs. unfold markAndSend.
  apply (hcalm_hbind any); [apply hcalm_fine; auto with calm|]. intros _ _.
  apply (hcalm_hbind any); [apply hcalm_fine; auto with calm|]. intros _ _.
  apply (hcalm_hbind any).
  { apply hcalm_fine, calm_after; [|intros _; by apply calm_Ret]. unfold sendDuplicateIfActive.
    apply (hcalm_pbind any); [auto with calm|]. intros hook _. destruct hook; [|by apply calm_Ret].
    intros s. split; [exact Hp|]. by intros r s' [_ ->]. }
  intros _ _. apply (hcalm_hbind (answered ENow)); [by apply hcalm_heff|]. intros t0 _.
  apply (hcalm_hbind any); [by apply hcalm_send|]. intros sent _.
  apply (hcalm_hbind (answered ENow)); [by apply hcalm_heff|]. intros t1 _. apply hcalm_fine, Hs.
Qed.

Lemma hcalm_sendPurchase held req card merchant masked stan :
  checkPurchase req = [] → card_ok card = true → slen (MID merchant) = 15%nat → numeral 6 stan →
  hcalm any (sendPurchase traceID held req card merchant masked stan).
Proof.
  intros Hreq Hcard Hm Hstan. unfold sendPurchase.
  apply (hcalm_hbind (answered ENow)); [by apply hcalm_heff|]. intros now Hnow. cbn in Hnow.
  pose proof (purchase_fits card stan now (Current now) Hcard Hstan Hnow req merchant Hreq Hm) as Hf.
  destruct (checkMoney_nil _ _ Hreq) as (_ & _ & Hp). apply checkCardPresent_nil in Hp as (Htid & _).
  apply (hcalm_hbind any); [apply hcalm_fine; auto with calm|]. intros id _.
  apply (hcalm_hbind (λ f, is_ok (Pack "0200" f) = true)).
  { apply hcalm_lift. eapply calm_mono; [|by apply calm_attach]. by intros r (f' & -> & Hp). }
  intros f Hp. apply (hcalm_hbind any); [apply hcalm_attach_rrn|]. intros _ _.
  apply hcalm_markAndSend; [exact Hp|]. intros l sent. apply calm_settleSend.
Qed.

(** Drawing the one STAN of a request. *)
Lemma format_stan {B} (f : option string → prog B) (Q : B → nat → Prop) :
  keeps_format (f None) Q 0%nat → (∀ stan, numeral 6 stan → keeps_format (f (Some stan)) Q 0%nat) →
  keeps_format (Vis ENextSTAN f) Q 1%nat.
Proof.
  intros Hn Hs. split; [cbn; lia|]. intros r s' [Hr ->]. cbn in *. destruct r as [stan|]; [|done].
  by apply Hs, Hr.
Qed.

Lemma format_hbind {A B} (good : A → Prop) (p : hprog A) (f : A → hprog B) rrn s :
  hcalm good p → (∀ a rrn, good a → keeps_format (f a rrn) (λ r _, fine r.1) s) →
  keeps_format (hbind p f rrn) (λ r _, fine r.1) s.
Proof.
  intros Hp Hf. unfold hbind. apply wp_pbind. eapply wp_mono; [|apply Hp].
  intros [[a|e] rrn'] s' [-> Ha]; [by apply Hf|exact Ha].
Qed.

Lemma format_hcalm {A} (good : A → Prop) (p : hprog A) rrn s : hcalm good p → keeps_format (p rrn) (λ r _, fine r.1) s.
Proof. intros Hp. eapply wp_mono; [|apply Hp]. intros [[a|e] rrn'] s' [_ Hr]; [done|exact Hr]. Qed.

Lemma hcalm_resolve req :
  hcalm (λ cm : CardFixture * Merchant, card_ok cm.1 = true ∧ slen (MID cm.2) = 15%nat)
    (hlift (resolveCardAndMerchant cards req)).
Proof.
  apply hcalm_lift. unfold resolveCardAndMerchant, Resolve. destruct (cards !! p_CardToken req) as [card|] eqn:E.
  - eapply hcalm_pbind; [by apply calm_db|]. intros [m|e] [Hf Hm]; apply calm_Ret; [|exact Hf].
    split; [exact (Hcards _ _ E)|by apply Hm].
  - apply calm_Ret. exact (fine_err (A := ()) ErrUnknownCardToken eq_refl).
Qed.

Lemma format_createPurchase req held :
  checkPurchase req = [] → keeps_format (createPurchase cards traceID req held "") (λ r _, fine r.1) 1%nat.
Proof.
  intros Hreq. unfold createPurchase. eapply format_hbind; [apply hcalm_resolve|].
  intros [card merchant] rrn [Hcard Hm]. cbn [fst snd] in *.
  unfold hbind at 1, heff at 1, hlift at 1, trigger, retE. cbn [pbind].
  assert (Hdown : ∀ txn, hcalm any (
      u <-* hlift (Purchase.recordLinkDown txn req merchant);
      u <-* heff (EBroadcast (BroadcastTransaction eventCreated txn)); hret txn)).
  { intros txn. destruct (checkMoney_nil _ _ Hreq) as (_ & _ & Hp). apply checkCardPresent_nil in Hp as (Htid & _).
    apply (hcalm_hbind any).
    - apply hcalm_fine. unfold Purchase.recordLinkDown. apply calm_then; [auto with calm|]. intros _. by apply calm_Ret.
    - intros _ _. apply (hcalm_hbind any); [by apply hcalm_heff|]. intros _ _. apply hcalm_hret. }
  apply format_stan; cbv beta.
  - apply (format_hbind any); [by apply hcalm_heff|]. intros up rrn' _.
    assert (Hn : hcalm any (now <-* heff ENow;
      let txn := declinedTransaction traceID req merchant (MaskPAN (PAN card)) rcLinkDown now in
      u <-* hlift (Purchase.recordLinkDown txn req merchant);
      u <-* heff (EBroadcast (BroadcastTransaction eventCreated txn)); hret txn)).
    { apply (hcalm_hbind (answered ENow)); [by apply hcalm_heff|]. intros now _. apply Hdown. }
    by destruct up; apply (format_hcalm any _ rrn').
  - intros stan Hstan. apply (format_hbind any); [by apply hcalm_heff|]. intros [] rrn' _.
    + apply (format_hbind any); [by apply hcalm_sendPurchase|]. intros txn rrn'' _.
      apply (format_hbind any); [by apply hcalm_heff|]. intros _ rrn3 _. done.
    + apply (format_hbind (answered ENow)); [by apply hcalm_heff|]. intros now rrn'' _.
      apply (format_hcalm any _ rrn''), Hdown.
Qed.

(** *** The other transactions *)

Lemma hcalm_hcatch {A} (good : A → Prop) (p : hprog A) (h : error → hprog A) :
  hcalm good p → (∀ e, mac_error ∉ e → hcalm good (h e)) → hcalm good (hcatch p h).
Proof.
  intros Hp Hh rrn. unfold hcatch. eapply hcalm_pbind; [apply Hp|].
  intros [[a|e] rrn'] Ha; [by apply calm_Ret|]. by apply Hh.
Qed.

Lemma calm_finalizeFields p :
  params_ok p → calm (outcome_ok (λ mf : Merchant * fieldmap, is_ok (Pack (mti p) mf.2) = true)) (finalizeFields p).
Proof.
  intros [Hf [de42 H42] H64 Hmti _]. unfold finalizeFields.
  eapply hcalm_bindE; [by apply calm_db| |by intros e [He _]]. intros merchant [_ Hm]. specialize (Hm merchant eq_refl).
  rewrite lookup_insert_ne by done. rewrite H42.
  eapply hcalm_bindE.
  - apply calm_attach; [exact Hmti| |by rewrite !lookup_insert_ne].
    apply but_close; [done|eapply fits_text; [by left; reflexivity|exact Hm]|].
    apply but_insert; [done|right; eapply fits_numeral; [reflexivity|apply MMDD_numeral]|exact Hf].
  - intros f (f' & [= ->] & Hp). by apply calm_Ret.
  - by intros e (f' & ? & _).
Qed.

Lemma calm_describe txn p merchant : calm any (describe traceID txn p merchant).
Proof. unfold describe. apply (hcalm_pbind any); [auto with calm|]. intros t _. by apply calm_Ret. Qed.

Lemma error_of_fine {A} (r : result error A) : fine r → fine_opt (error_of r).
Proof. by destruct r. Qed.

Lemma Join_fine a b : fine_opt a → fine_opt b → fine_opt (Join a b).
Proof. destruct a, b; cbn; try done. apply join_fine. Qed.

Lemma calm_outcome p sent : calm any (outcome p sent).
Proof.
  unfold outcome. destruct sent as [resp|e]; [|by destruct (SendFailureStatus e); apply calm_Ret].
  apply (hcalm_pbind any); [apply calm_verify|]. intros good _.
  by destruct good; [|destruct (String.eqb _ _)]; apply calm_Ret.
Qed.

Lemma calm_adv_recordStatus id txn : calm (λ r, fine_opt r.2) (AdvTxn.recordStatus id txn).
Proof.
  unfold AdvTxn.recordStatus. apply (hcalm_pbind fine); [auto with calm|]. intros [u|e] He; [|by apply calm_Ret].
  apply (hcalm_pbind fine); [auto with calm|]. intros r Hr. by apply calm_Ret, error_of_fine.
Qed.

Lemma calm_releaseClaim p : calm fine (releaseClaim p).
Proof. unfold releaseClaim. destruct (negb _); [by apply calm_Ret|auto with calm]. Qed.

Lemma calm_deliverOwed p row current txn b e : fine_opt e → calm fine (deliverOwed p row current txn b e).
Proof.
  intros He. unfold deliverOwed. destruct (String.eqb (txnType p) tranTypeBalance); [by apply answer_with_fine|].
  destruct (_ && negb b).
  { apply (hcalm_pbind fine); [apply calm_releaseClaim|]. intros r Hr. by apply answer_with_fine, Join_fine, error_of_fine. }
  destruct (_ && _).
  - apply (hcalm_pbind fine); [apply calm_QueueAdvice|]. intros [u|e'] He'; [by apply answer_with_fine|].
    by apply fine_fail, fine_default, Join_fine.
  - unfold reverseIfOwed. destruct (String.eqb _ ""); [by apply answer_with_fine|].
    apply (hcalm_pbind fine); [apply calm_Queue|]. intros [u|e'] He'; [by apply answer_with_fine|].
    by apply fine_fail, fine_default, Join_fine.
Qed.

Lemma calm_adv_settleSend p merchant row latency sent : calm fine (AdvTxn.settleSend traceID p merchant row latency sent).
Proof.
  unfold AdvTxn.settleSend. apply calm_after; [apply calm_outcome|]. intros [txn b].
  apply calm_after; [apply calm_describe|]. intros txn'. apply (hcalm_pbind fine).
  - unfold finalize. eapply hcalm_pbind; [apply calm_adv_recordStatus|]. intros [current e] He. cbn [snd] in He.
    destruct (is_moved e); [by apply fine_fail, fine_default|].
    apply (hcalm_pbind fine).
    { unfold recordAmounts. destruct (y_ApprovedAmount _); [auto with calm|].
      destruct (y_Balance _); [auto with calm|by apply calm_Ret]. }
    intros r Hr. by apply calm_deliverOwed, Join_fine, error_of_fine.
  - intros [t|e] He; apply calm_Ret; cbn in *; [done|]. set_solver.
Qed.

Lemma hcalm_sendAndRecord held p merchant :
  slen (terminalID p) = 8%nat → is_ok (Pack (mti p) (fields p)) = true →
  hcalm any (sendAndRecord traceID held p merchant).
Proof.
  intros Htid Hp. unfold sendAndRecord.
  apply (hcalm_hbind any). { apply hcalm_fine. unfold insert_. destruct (negb _); auto with calm. }
  intros id _. apply (hcalm_hbind any).
  { apply hcalm_hcatch.
    - unfold markSending. apply (hcalm_hbind any); [apply hcalm_attach_rrn|]. intros _ _. apply hcalm_fine.
      unfold transition. apply calm_then; [auto with calm|]. intros _. auto with calm.
    - intros e He. apply hcalm_fine. apply (hcalm_pbind fine); [apply calm_releaseClaim|]. intros r Hr.
      apply calm_Ret. apply (fine_default (Join (Some e) (error_of r))). by apply Join_fine, error_of_fine. }
  intros _ _. apply (hcalm_hbind (answered ENow)); [by apply hcalm_heff|]. intros t0 _.
  apply (hcalm_hbind any); [by apply hcalm_send|]. intros sent _.
  apply (hcalm_hbind (answered ENow)); [by apply hcalm_heff|]. intros t1 _. apply hcalm_fine, calm_adv_settleSend.
Qed.

Lemma hcalm_adv_send held p : params_ok p → hcalm any (AdvTxn.send traceID held p).
Proof.
  intros Hp. unfold AdvTxn.send. set (q := with_params p _ _).
  assert (Hq : params_ok q) by (destruct Hp; by constructor).
  apply (hcalm_hbind (λ mf : Merchant * fieldmap, is_ok (Pack (mti q) mf.2) = true)).
  { by apply hcalm_lift, calm_finalizeFields. }
  intros [merchant f] Hf. cbn [snd] in Hf. apply (hcalm_hbind any).
  - destruct (negb _).
    + apply hcalm_fine. unfold AdvTxn.recordLinkDown. apply calm_after; [apply calm_describe|]. intros txn.
      apply calm_then; [|intros _; by apply calm_Ret]. apply calm_fine. exact (po_terminal q Hq).
    + apply hcalm_sendAndRecord; [exact (po_terminal q Hq)|exact Hf].
  - intros txn _. apply (hcalm_hbind any); [by apply hcalm_heff|]. intros _ _. apply hcalm_hret.
Qed.

Lemma format_nextSTAN {B} (f : string * bool → hprog B) rrn :
  (∀ su, numeral 6 su.1 → hcalm any (f su)) →
  keeps_format (hbind (hlift (r <-- nextSTAN; retE r)) f rrn) (λ r _, fine r.1) 1%nat.
Proof.
  intros Hf. unfold hbind, hlift, nextSTAN, trigger, retE. cbn [pbind]. apply format_stan; cbv beta; cbn [pbind].
  - apply (format_hcalm any (f (noSTAN, false)) rrn). by apply Hf.
  - intros stan Hstan. cbn [wp]. split; [done|]. intros up s' [_ ->]. cbn [stans_left].
    destruct up; [apply (format_hcalm any (f (stan, true)) rrn)|apply (format_hcalm any (f (noSTAN, false)) rrn)];
      by apply Hf.
Qed.

Lemma format_withCard c k :
  (∀ card masked stan up now, card_ok card = true → numeral 6 stan → 0 ≤ now →
     hcalm any (k card masked stan up now (BuildRRN now stan))) →
  keeps_format (withCard cards c k "") (λ r _, fine r.1) 1%nat.
Proof.
  intros Hk. unfold withCard, Resolve. destruct (cards !! a_CardToken c) as [card|] eqn:E.
  - apply format_nextSTAN. intros [stan up] Hstan. apply (hcalm_hbind (answered ENow)); [by apply hcalm_heff|].
    intros now Hnow. apply Hk; [exact (Hcards _ _ E)|exact Hstan|exact Hnow].
  - exact (fine_err (A := ()) ErrUnknownCardToken eq_refl).
Qed.

(** The checks of each request, and the RRN of a completion's path. *)
Definition accepted (r : adv_request) : Prop :=
  match r with
  | APreAuth r | ARefund r => checkCardPresentWithAmount r = []
  | ABalance r => checkBalanceInquiry r = []
  | ACompletion rrn r => checkAmount (c_Amount r) = [] ∧ slen rrn = 12%nat
  end.

Lemma checked_card r :
  checkCardPresentWithAmount r = [] →
  checkAmount (a_Amount r) = [] ∧ checkBalanceInquiry (mkBalance (card_present r)) = [] ∧
  slen (a_TerminalID (card_present r)) = 8%nat.
Proof.
  unfold checkCardPresentWithAmount, checkAmount, checkBalanceInquiry. cbn [b_card]. intros Hr.
  destruct (checkMoney_nil _ _ Hr) as (_ & _ & Hc). rewrite Hc in Hr. split; [exact Hr|]. split; [exact Hc|].
  apply checkCardPresent_nil in Hc. apply Hc.
Qed.

Lemma format_adv_create r held :
  accepted r →
  keeps_format
    (match r with
     | APreAuth r => createPreAuth cards traceID r held
     | ARefund r => createRefund cards traceID r held
     | ABalance r => createBalanceInquiry cards traceID r held
     | ACompletion rrn r => createCompletion traceID rrn r held
     end "") (λ r _, fine r.1) 1%nat.
Proof.
  destruct r as [r|r|r|original r]; cbn [accepted].
  - intros (Ha & Hc & Htid)%checked_card. apply format_withCard. intros card masked stan up now Hcard Hstan Hnow.
    apply hcalm_adv_send. split; cbn [fields mti terminalID]; [|by eexists|done|done|done].
    apply but_insert; [done|by right|]. apply amount_fit; [exact Ha|]. by apply cardFields_fit.
  - intros (Ha & Hc & Htid)%checked_card. apply format_withCard. intros card masked stan up now Hcard Hstan Hnow.
    apply hcalm_adv_send. split; cbn [fields mti terminalID]; [|by eexists|done|done|done].
    apply amount_fit; [exact Ha|]. by apply cardFields_fit.
  - intros Hc. apply format_withCard. intros card masked stan up now Hcard Hstan Hnow.
    apply hcalm_adv_send. split; cbn [fields mti terminalID]; [by apply cardFields_fit|by eexists|done|done|].
    apply checkCardPresent_nil in Hc. apply Hc.
  - intros [Ha Ho]. unfold createCompletion. eapply format_hbind.
    { apply hcalm_lift. eapply calm_mono; [|by apply calm_db].
      intros rr [Hf Hr]. instantiate (1 := λ row, slen (TerminalID row) = 8%nat). destruct rr; [by apply Hr|done]. }
    intros preAuth rrn Htid. cbv beta in Htid.
    destruct (_ || _); [exact (fine_err (A := ()) ErrNotCompletable eq_refl)|].
    destruct (tAmount preAuth <? _); [exact (fine_err (A := ()) ErrExceedsHold eq_refl)|].
    apply format_nextSTAN. intros [stan up] Hstan. apply (hcalm_hbind (answered ENow)); [by apply hcalm_heff|].
    intros now Hnow. apply hcalm_adv_send. split; cbn [fields mti terminalID completionParams]; [|by eexists|done|done|done]. by apply completion_fit.
Qed.

Lemma calm_fromLog rrn : calm fine (Purchase.fromLog rrn).
Proof. unfold Purchase.fromLog. apply calm_then; [auto with calm|]. intros row. by apply calm_Ret. Qed.

Lemma calm_adv_fromLog rrn : calm fine (AdvTxn.fromLog rrn).
Proof. unfold AdvTxn.fromLog. apply calm_then; [auto with calm|]. intros row. by apply calm_Ret. Qed.

Section wired.
Context (marshal : Transaction → string) (unmarshal : string → option Transaction)
        (marshal_req : PurchaseRequest → string) (sha256Hex : string → string).
Context (adv_marshal : AdvTransaction → string) (adv_unmarshal : string → option AdvTransaction)
        (hashRequest : hashed → string).

Lemma format_CreatePurchase req key :
  checkPurchase req = [] →
  keeps_format (CreatePurchase cards marshal unmarshal marshal_req sha256Hex traceID req key) (λ r _, fine r) 1%nat.
Proof.
  intros Hreq. unfold CreatePurchase. apply format_Idempotent.
  - intros f rrn [= <-]. apply calm_fromLog.
  - intros held. by apply format_createPurchase.
Qed.

Lemma format_Create r key :
  accepted r →
  keeps_format (Create cards adv_marshal adv_unmarshal hashRequest traceID r key) (λ r _, fine r) 1%nat.
Proof.
  intros Hr. pose proof (λ held, format_adv_create r held Hr) as Hc.
  destruct r; apply format_Idempotent; try exact Hc; intros f rrn' [= <-]; apply calm_adv_fromLog.
Qed.
End wired.
End services.

(** What is sent is packed within a frame. *)
Lemma packs_frame msg : packs msg → ∃ s, Pack msg.1 msg.2 = Ok s ∧ Z.of_nat (slen s) ≤ maxFrameSize.
Proof.
  unfold packs. destruct (Pack msg.1 msg.2) as [s|] eqn:E; [|done]. intros _. exists s. split; [done|].
  by eapply Pack_length_le.
Qed.

(** The messages [w'] has sent since [w]. *)
Definition sent_since (w w' : World) (ok : string * fieldmap → Prop) : Prop :=
  ∃ new, sends_of w' = sends_of w ++ new ∧ Forall ok new.

Definition crosses_wire (msg : string * fieldmap) : Prop :=
  ∃ s, Pack msg.1 msg.2 = Ok s ∧ Z.of_nat (slen s) ≤ maxFrameSize.

Lemma format_wire {A} (p : progE A) cs w n :
  keeps_format p (λ r _, fine r) 1%nat → ready 1 w →
  sent_since w (crash n p cs w) crosses_wire ∧ fine (run p cs w).1.
Proof.
  intros Hp Hw. split; [|by destruct (format_run p _ cs 1%nat w Hp Hw)].
  destruct (format_crash p _ n cs 1%nat w Hp Hw) as (new & Hs & Hnew). exists new. split; [exact Hs|].
  eapply Forall_impl; [exact Hnew|]. apply packs_frame.
Qed.

(** C7. What the checks of validation.go leave to the tables.  Where every card of the card table packs
    ([cards_ok]), every merchant id has the 15 characters of DE 42, every recorded terminal id the 8 of
    DE 41, and the ZAK in use has 16 bytes ([ready]), a purchase, pre-authorization, refund, balance
    inquiry or completion that passes the checks puts only messages on the wire that the codec packs
    within a frame, wherever it stops and whatever fails on the way, and never ends in the error of a
    message that could not be packed or MACed.  None of these conditions is checked by the API: a
    merchant id of another length, which merchant.mid allows, makes an accepted purchase fail
    ([short_mid_fails]). *)
Theorem accepted_requests_pack {C : Calendar} {J : AdviceJSON} lmk encKey cards marshal unmarshal marshal_req
    sha256Hex adv_marshal adv_unmarshal hashRequest traceID key n cs w :
  let H := JCEModule lmk in let SQ := saf_queuer encKey in
  cards_ok cards → ready 1 w →
  (∀ req, checkPurchase req = [] →
     let p := CreatePurchase cards marshal unmarshal marshal_req sha256Hex traceID req key in
     sent_since w (crash n p cs w) crosses_wire ∧ fine (run p cs w).1) ∧
  (∀ req, accepted req →
     let p := Create cards adv_marshal adv_unmarshal hashRequest traceID req key in
     sent_since w (crash n p cs w) crosses_wire ∧ fine (run p cs w).1).
Proof.
  intros H SQ Hcards Hw. split; intros req Hreq; apply format_wire; try exact Hw.
  - by apply (format_CreatePurchase lmk).
  - by apply (format_Create lmk).
Qed.

(** ** The fixture, and a gateway to evaluate *)

Lemma DefaultCardTokens_ok : cards_ok DefaultCardTokens.
Proof.
  intros token c Hc. unfold DefaultCardTokens in Hc. apply elem_of_list_to_map_2 in Hc.
  repeat (apply elem_of_cons in Hc as [[= _ ->]|Hc]; [reflexivity|]). by apply elem_of_nil in Hc.
Qed.

Lemma demo_world_ready : ready 1 demo_world.
Proof.
  split; [reflexivity|]. split; [vm_compute; discriminate|]. split; [vm_compute; discriminate|].
  split; [reflexivity|]. split; [by apply map_Forall_singleton|apply map_Forall_empty].
Qed.

Definition demo_accepted : PurchaseRequest :=
  mkPurchase "TERM0001" "tok_limit" "CHIP_NO_PIN" "" "" (mkMoney maxAmount "704").
Definition demo_refund : PreAuthRequest :=
  mkPreAuth (mkCardPresent "TERM0001" "tok_low" "MANUAL_PIN" "" "") (mkMoney 1 "840").

Lemma accepted_requests_pack_witness :
  checkPurchase demo_accepted = [] ∧ accepted (ARefund demo_refund) ∧
  let stopped := crash 16 (@CreatePurchase demo_module demo_calendar demo_queuer DefaultCardTokens x_RRN (λ _, None)
                   p_CardToken id "" demo_accepted "key-1") [] demo_world in
  length (sends_of stopped) = 2%nat ∧ sent_since demo_world stopped crosses_wire.
Proof.
  pose proof (@accepted_requests_pack demo_calendar demo_json demo_lmk "" DefaultCardTokens x_RRN (λ _, None)
    p_CardToken id y_RRN (λ _, None) (λ _, "") "" "key-1" 16%nat [] demo_world DefaultCardTokens_ok demo_world_ready) as [H _].
  split; [vm_compute; reflexivity|]. split; [vm_compute; reflexivity|]. split; [vm_compute; reflexivity|].
  exact (proj1 (H demo_accepted eq_refl)).
Defined.

(** The hypothesis on merchant ids is needed: merchant.mid is a VARCHAR(15), DE 42 is fifteen
    characters and nothing pads it, so a purchase at a merchant with a shorter id is recorded and then fails. *)
Definition short_mid_db : DB :=
  mkDB ∅ 1 [] ∅ 1 ∅ 1 {[ "SHORT" := mkMerchantRow "Pho 24" "5812" ]} {[ "TERM0001" := "SHORT" ]}.

Example short_mid_fails :
  let '(r, w) := run (@CreatePurchase demo_module demo_calendar demo_queuer DefaultCardTokens x_RRN (λ _, None)
                   p_CardToken id "" demo_accepted "key-1") [] (with_db demo_world short_mid_db) in
  r = Err [mac_error] ∧ sends_of w = [] ∧ Status <$> (map_to_list (tran (w_db w))).*2 = [statusCreated].
Proof. vm_compute. done. Qed.

(** ** The handlers let nothing else through *)

Lemma decodeBody_Ok {A} `{JSONDecoder A} chk req (body : A) : decodeBody chk req = Ok body → chk body = [].
Proof.
  unfold decodeBody. destruct (DecodeJSON _) as [dst|]; [|done]. destruct (chk dst) eqn:E; [|done]. by intros [= <-].
Qed.

Lemma pathRRN_Ok req rrn : pathRRN req = Ok rrn → slen rrn = 12%nat.
Proof.
  unfold pathRRN. destruct (rrnPattern _) eqn:E; [|done]. intros [= <-]. unfold rrnPattern in E.
  apply andb_true_iff in E as [E _]. by apply Nat.eqb_eq.
Qed.

Section handlers.
Context (error_text : error → string) (uuid_Parse : string → bool).
Context {JP : JSONDecoder PurchaseRequest} {JA : JSONDecoder PreAuthRequest} {JC : JSONDecoder CompletionRequest}
        {JB : JSONDecoder BalanceInquiryRequest}.

Definition refused {A} (p : prog (answer A)) : Prop := ∃ b, p = Ret (Problem b) ∧ pb_Status b = 400.

Lemma guarded_cases {A B} (g : result problemBody A) (k : A → prog (answer B)) (P : Prop) :
  (∀ b, g = Err b → pb_Status b = 400) → (∀ a, g = Ok a → refused (k a) ∨ P) → refused (guarded g k) ∨ P.
Proof. intros Hg Hk. destruct g as [a|b]; [by apply Hk|]. left. exists b. split; [done|by apply Hg]. Qed.

Lemma key_400 req b : idempotencyKey uuid_Parse req = Err b → pb_Status b = 400.
Proof. unfold idempotencyKey. destruct (uuid_Parse _); [done|]. by intros [= <-]. Qed.

Lemma body_400 {A} `{JSONDecoder A} chk req b : decodeBody chk req = Err b → pb_Status b = 400.
Proof.
  unfold decodeBody. destruct (DecodeJSON _) as [dst|]; [destruct (chk dst); [done|]|]; by intros [= <-].
Qed.

Lemma rrn_400 req b : pathRRN req = Err b → pb_Status b = 400.
Proof. unfold pathRRN. destruct (rrnPattern _); [done|]. by intros [= <-]. Qed.

(** A handler either answers 400 without a call of any kind, or calls its service with the key of
    the header and a request that passed the checks. *)
Theorem handlers_guard svc adv req :
  (refused (handleCreatePurchase error_text uuid_Parse svc req) ∨
   ∃ body, checkPurchase body = [] ∧ uuid_Parse (idem_header req) = true ∧
     handleCreatePurchase error_text uuid_Parse svc req
     = respond error_text req 201 "purchase-failed" (port_CreatePurchase svc body (idem_header req))) ∧
  (refused (handleCreatePreAuth error_text uuid_Parse adv req) ∨
   ∃ body, accepted (APreAuth body) ∧ uuid_Parse (idem_header req) = true ∧
     handleCreatePreAuth error_text uuid_Parse adv req
     = respond error_text req 201 "pre-authorization-failed" (port_CreatePreAuth adv body (idem_header req))) ∧
  (refused (handleCreateRefund error_text uuid_Parse adv req) ∨
   ∃ body, accepted (ARefund body) ∧ uuid_Parse (idem_header req) = true ∧
     handleCreateRefund error_text uuid_Parse adv req
     = respond error_text req 201 "refund-failed" (port_CreateRefund adv body (idem_header req))) ∧
  (refused (handleCreateBalanceInquiry error_text uuid_Parse adv req) ∨
   ∃ body, accepted (ABalance body) ∧ uuid_Parse (idem_header req) = true ∧
     handleCreateBalanceInquiry error_text uuid_Parse adv req
     = respond error_text req 201 "balance-inquiry-failed" (port_CreateBalanceInquiry adv body (idem_header req))) ∧
  (refused (handleCreateCompletion error_text uuid_Parse adv req) ∨
   ∃ rrn body, accepted (ACompletion rrn body) ∧ uuid_Parse (idem_header req) = true ∧
     handleCreateCompletion error_text uuid_Parse adv req
     = respond error_text req 201 "completion-failed" (port_CreateCompletion adv rrn body (idem_header req))).
Proof.
  assert (Hkey : ∀ k, idempotencyKey uuid_Parse req = Ok k → k = idem_header req ∧ uuid_Parse (idem_header req) = true).
  { intros k. unfold idempotencyKey. destruct (uuid_Parse _) eqn:E; [|done]. by intros [= <-]. }
  split_and!; (apply guarded_cases; [apply key_400|]); intros key Hk; pose proof (Hkey key Hk) as [-> Hu].
  1-4: apply guarded_cases; [apply body_400|]; intros body Hb; right; exists body;
    pose proof (decodeBody_Ok _ _ _ Hb) as Hc; (split; [exact Hc|]); (split; [exact Hu|]);
    cbv [handleCreatePurchase handleCreatePreAuth handleCreateRefund handleCreateBalanceInquiry];
    rewrite Hk; cbn [guarded]; by rewrite Hb.
  apply guarded_cases; [apply rrn_400|]. intros rrn Hr.
  apply guarded_cases; [apply body_400|]. intros body Hb. right. exists rrn, body.
  split; [split; [exact (decodeBody_Ok _ _ _ Hb)|by apply (pathRRN_Ok req)]|]. split; [exact Hu|].
  unfold handleCreateCompletion. rewrite Hk. cbn [guarded]. rewrite Hr. cbn [guarded]. by rewrite Hb.
Qed.
End handlers.
