(* ===== verification/Chaos.v ===== *)
(** * Chaos: synthetic load and its money verdict

    [gateway-go/internal/chaos]: runner.go and verify.go, and the run handlers of [api/chaos.go].  A run
    is a script (Script.v) against a queue, an issuer and other callers of [Start]; runs live in
    memory only.  The HTTP clients of Toxiproxy and of the issuer are the environment. *)

From S2P Require Import Prelude Digits Net Lab Api Codec Mux KeyStore Mac Calendar Store Journey Prog Purchase Script.
Local Open Scope Z_scope.
Local Open Scope script_scope.

(** ** Constants and data *)

Definition statusRunning : string := "RUNNING".
Definition statusVerifying : string := "VERIFYING".
Definition statusPassed : string := "PASSED".
Definition statusFailed : string := "FAILED".
Definition failureLedgerMismatch : string := "LEDGER_MISMATCH".
Definition failureRunError : string := "RUN_ERROR".
Definition fixedAmountMinor : Z := 10000.
Definition currency : string := "704".
Definition terminalID : string := "00000042".
Definition safDrainPollInterval : duration := 500 * Millisecond.
Definition defaultSafDrainTimeout : duration := 65 * Second.

Record ChaosRun := mkRun {
  RunID : string; rStatus : string; Requested : Z; Completed : Z; rApproved : Z; rDeclined : Z; rReversed : Z;
  OpeningBalanceTotal : Z; ClosingBalanceTotal : Z; LedgerDiscrepancy : Z; FailureKind : option string;
  FailureDetail : option string; StartedAt : time; run_Seq : Z }.

(** How a run is stopped early: a [runError] with its detail, another error, a panic. *)
Inductive failure := Detailed (detail : string) | Plain | Panicked.

(** The run's context: alive, past its deadline, or cancelled by shutdown. *)
Inductive ctx_state := Live | Expired | Cancelled.

#[export] Instance ctx_state_eq_dec : EqDecision ctx_state.
Proof. solve_decision. Defined.

(** What a run asks of others, with the answer: the ledger balance of an issuer's card, a purchase by
    its idempotency key. *)
Inductive deed :=
| Asked (cardRef : string) (answer : result failure (Z * string))
| Bought (key : string) (req : PurchaseRequest) (answer : result failure Transaction).

(** The Runner, with what left it: the balances read and purchases made in order, and the snapshots
    broadcast. *)
Record Lab := mkLab {
  runs : gmap string ChaosRun; order : list string; active : string; serving : bool;
  ctx : ctx_state; clock : time;
  made : list deed;
  told : list ChaosRun }.

(** What the environment does at one call. *)
Record beat := mkBeat {
  b_db : option DB;                              (* tran_log and saf_queue, or an error *)
  b_txn : option Transaction;                    (* how the purchase ends *)
  b_balance : option (Z * string);               (* the ledger balance of the card asked for *)
  b_panic : bool;
  b_starts : list (string * Z);                  (* calls of Start meanwhile: random bytes, count *)
  b_stop : bool;                                 (* shutdown begins *)
  b_ctx : ctx_state; b_seen : bool;              (* the context, and whether select takes it *)
  b_took : duration; b_card : Z }.

Abbreviation flow := (@script Lab beat).
Abbreviation flowE A := (flow (result failure A)).

Definition set_runs (m : gmap string ChaosRun) (c : Lab) : Lab :=
  mkLab m (order c) (active c) (serving c) (ctx c) (clock c) (made c) (told c).

Definition note (d : deed) (c : Lab) : Lab :=
  mkLab (runs c) (order c) (active c) (serving c) (ctx c) (clock c) (made c ++ [d]) (told c).

(** ** runner.go: the runs in memory *)

Inductive start_error := ErrNotServing | ErrRunInProgress.

Definition new_run (id : string) (requested : Z) (now : time) : ChaosRun :=
  mkRun id statusRunning requested 0 0 0 0 0 0 0 None None now 0.

(** The bytes are those of crypto/rand. *)
Definition newRunID (bytes : string) : string := "run-" +:+ EncodeToString bytes.

(** Under the mutex; the run's context is a new one. *)
Definition Start (id : string) (requested : Z) (c : Lab) : result start_error ChaosRun * Lab :=
  if negb (serving c) then (Err ErrNotServing, c)
  else if negb (String.eqb (active c) "") then (Err ErrRunInProgress, c)
  else
    let run := new_run id requested (clock c) in
    (Ok run, mkLab (<[id := run]> (runs c)) (order c ++ [id]) id (serving c) Live (clock c) (made c) (told c)).

Definition Get_ (runID : string) (c : Lab) : option ChaosRun := runs c !! runID.

(** Newest first; [None] where the code would dereference nil. *)
Definition List_ (limit : Z) (c : Lab) : list (option ChaosRun) :=
  take (Z.to_nat limit) (map (λ id, runs c !! id) (reverse (order c))).

Definition is_final (r : ChaosRun) : bool := String.eqb (rStatus r) statusPassed || String.eqb (rStatus r) statusFailed.

Definition bump (r : ChaosRun) : ChaosRun :=
  mkRun (RunID r) (rStatus r) (Requested r) (Completed r) (rApproved r) (rDeclined r) (rReversed r)
    (OpeningBalanceTotal r) (ClosingBalanceTotal r) (LedgerDiscrepancy r) (FailureKind r) (FailureDetail r)
    (StartedAt r) (run_Seq r + 1).

Definition apply_update (runID : string) (mutate : ChaosRun → ChaosRun) (c : Lab) : Lab :=
  match runs c !! runID with
  | None => c                                            (* not reached: only drive calls it *)
  | Some live =>
      let live := bump (mutate live) in
      mkLab (<[runID := live]> (runs c)) (order c)
        (if is_final live && String.eqb (active c) runID then "" else active c)
        (serving c) (ctx c) (clock c) (made c) (told c ++ [live])
  end.

Definition update (runID : string) (mutate : ChaosRun → ChaosRun) : flow () := modify (apply_update runID mutate).

(** *** Time passes and others call *)

Definition try_starts (l : list (string * Z)) (c : Lab) : Lab :=
  fold_left (λ c s, (Start (newRunID s.1) s.2 c).2) l c.

Definition elapse (b : beat) (c : Lab) : Lab :=
  let c := try_starts (b_starts b) c in
  mkLab (runs c) (order c) (active c) (serving c && negb (b_stop b)) (if bool_decide (ctx c = Live) then b_ctx b else ctx c)
    (clock c + Z.max 0 (b_took b)) (made c) (told c).

(** A call that may panic. *)
Definition call {A} (f : beat → Lab → result failure A * Lab) : flowE A :=
  act (λ b c, let c := elapse b c in if b_panic b then (Err Panicked, c) else f b c).

(** ** The run *)

Definition statusReversed_ : string := "REVERSED".

Section run.
(** [ListPending], the port; the text of maxRunDuration. *)
Context (ListPending : dbcall (list SafRow * nat)) (seedCards : list (string * CardFixture))
        (safDrainTimeout : duration) (limit_text : string).

Definition runErr {A} (detail : string) (r : result failure A) : result failure A :=
  match r with
  | Ok a => Ok a
  | Err Plain => Err (Detailed detail)
  | Err f => Err f
  end.

Definition wrapped {A} (detail : string) (p : flowE A) : flowE A := r <~ p; yield (runErr detail r).

Definition reversalQueued (t : Transaction) : bool :=
  String.eqb (x_Status t) "TIMED_OUT" || String.eqb (x_Status t) "REVERSAL_PENDING"
  || (String.eqb (x_Status t) "DECLINED" && String.eqb (x_ResponseCode t) rcMacFailure).

Definition randIntn (n drawn : Z) : Z := if n <=? 1 then 0 else drawn mod n.

(** [None]: there is no card, and the index panics. *)
Definition randomPurchaseRequest (drawn : Z) : option PurchaseRequest :=
  card ← seedCards !! Z.to_nat (randIntn (Z.of_nat (length seedCards)) drawn);
  Some (mkPurchase terminalID card.1 "CHIP_PIN" "" "" (mkMoney fixedAmountMinor currency)).

(** *** waitForSafDrain *)

Definition poll : duration := Z.min safDrainPollInterval (Z.quot safDrainTimeout 10).

(** [_, depth, err := r.saf.ListPending(ctx)], and the clock after it. *)
Definition look : flow (result failure (option nat) * time) :=
  act (λ b c, let c := elapse b c in
    ((if b_panic b then Err Panicked
      else match b_db b with
           | None => Ok None
           | Some db => match (ListPending db).1 with Ok (_, depth) => Ok (Some depth) | Err _ => Ok None end
           end, clock c), c)).

(** The select between the context and the timer. *)
Definition pause : flow bool :=
  act (λ b c, let c := elapse b c in
    if negb (bool_decide (ctx c = Live)) && b_seen b then (true, c)
    else (false, mkLab (runs c) (order c) (active c) (serving c) (ctx c) (clock c + poll) (made c) (told c))).

Definition drain_round (phase : string) (deadline : time) (_ : ()) : flow (() + result failure ()) :=
  seen <~ look;
  match seen with
  | (Err f, _) => yield (inr (Err f))
  | (Ok depth, now) =>
      if match depth with Some O => true | _ => false end then yield (inr (Ok ()))
      else if deadline <? now then
        yield (inr (Err (Detailed
          (match depth with
           | None => "SAF not drained " +:+ phase +:+ " (the queue could not be read)"
           | Some n => "SAF not drained " +:+ phase +:+ " (" +:+ Itoa (Z.of_nat n) +:+ " pending)"
           end))))
      else
        stopped <~ pause;
        yield (if (stopped : bool) then inr (Err Plain) else inl ())
  end.

Definition waitForSafDrain (phase : string) : flowE () :=
  start <~ gets clock;
  forever (drain_round phase (start + safDrainTimeout)) ().

(** *** balanceTotal *)

Fixpoint balance_loop (cards : list (string * CardFixture)) (total : Z) (cur : string) : flowE Z :=
  match cards with
  | [] => yield (Ok total)
  | (token, card) :: cards =>
      if String.eqb (CardRef card) "" then yield (Err Plain)
      else
        bc <~! call (λ b c, let r := match b_balance b with Some bc => Ok bc | None => Err Plain end in
                            (r, note (Asked (CardRef card) r) c));
        let '(balance, cardCurrency) := bc in
        if negb (String.eqb cur "") && negb (String.eqb cardCurrency cur) then
          yield (Err (Detailed "the seed cards hold different currencies, so their balances can't be summed"))
        else balance_loop cards (wrap64 (total + balance)) cardCurrency
  end.

Definition balanceTotal : flowE Z := balance_loop seedCards 0 "".

(** *** fire *)

Definition create (key : string) : flowE Transaction :=
  call (λ b c,
    match randomPurchaseRequest (b_card b) with
    | None => (Err Panicked, c)
    | Some req =>
        let r := match b_txn b with Some t => Ok t | None => Err Plain end in
        (r, note (Bought key req r) c)
    end).

Definition count_purchase (status : string) (r : ChaosRun) : ChaosRun :=
  mkRun (RunID r) (rStatus r) (Requested r) (Completed r + 1)
    (if String.eqb status "APPROVED" then rApproved r + 1 else rApproved r)
    (if String.eqb status "APPROVED" then rDeclined r else if String.eqb status "DECLINED" then rDeclined r + 1 else rDeclined r)
    (rReversed r) (OpeningBalanceTotal r) (ClosingBalanceTotal r) (LedgerDiscrepancy r) (FailureKind r)
    (FailureDetail r) (StartedAt r) (run_Seq r).

Definition purchase_key (runID : string) (i : nat) : string := "chaos-" +:+ runID +:+ "-" +:+ Itoa (Z.of_nat i).

(** The loop from purchase [i] on, [n] to go. *)
Fixpoint fire_loop (runID : string) (n i : nat) (approvedTotal : Z) (rrns : list string) : flowE (Z * list string) :=
  match n with
  | O => yield (Ok (approvedTotal, rrns))
  | S n =>
      txn <~! create (purchase_key runID i);
      let approvedTotal := if String.eqb (x_Status txn) "APPROVED" then wrap64 (approvedTotal + Amount (x_Amount txn))
                           else approvedTotal in
      let rrns := if reversalQueued txn then app rrns [x_RRN txn] else rrns in
      update runID (count_purchase (x_Status txn)) ;;~
      fire_loop runID n (S i) approvedTotal rrns
  end.

Definition fire (runID : string) (requested : Z) : flowE (Z * list string) :=
  fire_loop runID (Z.to_nat requested) 0 0 [].

(** *** countReversed *)

Definition count_reversed (r : ChaosRun) : ChaosRun :=
  mkRun (RunID r) (rStatus r) (Requested r) (Completed r) (rApproved r) (rDeclined r) (rReversed r + 1)
    (OpeningBalanceTotal r) (ClosingBalanceTotal r) (LedgerDiscrepancy r) (FailureKind r) (FailureDetail r)
    (StartedAt r) (run_Seq r).

Fixpoint countReversed (runID : string) (rrns : list string) : flowE () :=
  match rrns with
  | [] => yield (Ok ())
  | rrn :: rrns =>
      row <~! call (λ b c, (match b_db b with
                            | None => Err Plain
                            | Some db => match (GetTran rrn db).1 with Ok row => Ok row | Err _ => Err Plain end
                            end, c));
      (if String.eqb (Store.Status row) statusReversed_ then update runID count_reversed else yield ()) ;;~
      countReversed runID rrns
  end.

(** *** The verdict *)

Definition set_status (status : string) (r : ChaosRun) : ChaosRun :=
  mkRun (RunID r) status (Requested r) (Completed r) (rApproved r) (rDeclined r) (rReversed r)
    (OpeningBalanceTotal r) (ClosingBalanceTotal r) (LedgerDiscrepancy r) (FailureKind r) (FailureDetail r)
    (StartedAt r) (run_Seq r).

Definition set_opening (opening : Z) (r : ChaosRun) : ChaosRun :=
  mkRun (RunID r) (rStatus r) (Requested r) (Completed r) (rApproved r) (rDeclined r) (rReversed r)
    opening (ClosingBalanceTotal r) (LedgerDiscrepancy r) (FailureKind r) (FailureDetail r)
    (StartedAt r) (run_Seq r).

Definition discrepancy (opening closing approvedTotal : Z) : Z :=
  wrap64 (wrap64 (closing - opening) - wrap64 (- approvedTotal)).

Definition verdict (opening closing approvedTotal : Z) (r : ChaosRun) : ChaosRun :=
  let d := discrepancy opening closing approvedTotal in
  mkRun (RunID r) (if d =? 0 then statusPassed else statusFailed) (Requested r) (Completed r) (rApproved r)
    (rDeclined r) (rReversed r) (OpeningBalanceTotal r) closing d
    (if d =? 0 then FailureKind r else Some failureLedgerMismatch)
    (if d =? 0 then FailureDetail r
     else Some ("issuer balances moved by " +:+ Itoa (wrap64 (closing - opening)) +:+ ", run outcomes expect "
                +:+ Itoa (wrap64 (- approvedTotal))
                +:+ " (the check assumes no other traffic on the seed cards during the run)"))
    (StartedAt r) (run_Seq r).

Definition verify_ (runID : string) (opening closing approvedTotal : Z) : flow () :=
  update runID (verdict opening closing approvedTotal).

Definition fail_detail (c : ctx_state) (f : failure) : string :=
  match c with
  | Expired => "the run exceeded its " +:+ limit_text +:+ " time limit"
  | Cancelled => "the gateway shut down during the run"
  | Live => match f with
            | Detailed d => d
            | Panicked => "the run stopped on an internal error"
            | Plain => "the run could not complete"
            end
  end.

Definition failed_run (detail : string) (r : ChaosRun) : ChaosRun :=
  mkRun (RunID r) statusFailed (Requested r) (Completed r) (rApproved r) (rDeclined r) (rReversed r)
    (OpeningBalanceTotal r) (ClosingBalanceTotal r) (LedgerDiscrepancy r) (Some failureRunError) (Some detail)
    (StartedAt r) (run_Seq r).

Definition failRun (runID : string) (f : failure) : flow () :=
  c <~ gets ctx;
  update runID (failed_run (fail_detail c f)).

Definition execute (runID : string) (requested : Z) : flowE () :=
  waitForSafDrain "before the run" ;;~!
  opening <~! wrapped "could not read the seed cards' opening balances from the issuer" balanceTotal;
  update runID (set_opening opening) ;;~
  fired <~! wrapped "a purchase could not be processed" (fire runID requested);
  let '(approvedTotal, reversalRRNs) := fired in
  update runID (set_status statusVerifying) ;;~
  waitForSafDrain "after the run" ;;~!
  wrapped "could not read the transaction log" (countReversed runID reversalRRNs) ;;~!
  closing <~! wrapped "could not read the seed cards' closing balances from the issuer" balanceTotal;
  verify_ runID opening closing approvedTotal ;;~ yield (Ok ()).

Definition drive (runID : string) (requested : Z) : flow () :=
  r <~ execute runID requested;
  match r with Ok _ => yield () | Err f => failRun runID f end.

(** Serve: whenever a Start is accepted, its run is driven; calls of Start go on meanwhile. *)
Definition idle_round (_ : ()) : flow (() + ()) :=
  run <~ act (λ b c, let c := elapse b c in (runs c !! active c, c));
  match run with
  | Some run => drive (RunID run) (Requested run) ;;~ yield (inl ())
  | None => yield (inl ())
  end.

Definition Serve : flow () := forever idle_round ().
End run.

(** ** One run at a time *)

(** Every run but the active one has its verdict, the active one has none yet, and the runs listed
    exist. *)
Record runs_ok (c : Lab) : Prop := {
  ro_id id r : runs c !! id = Some r → id ≠ "" ∧ RunID r = id;
  ro_final id r : runs c !! id = Some r → id ≠ active c → is_final r = true;
  ro_active : active c ≠ "" → ∃ r, runs c !! active c = Some r ∧ is_final r = false;
  ro_order : Forall (λ id, is_Some (runs c !! id)) (order c)
}.

Lemma Start_refused id requested c : active c ≠ "" → (Start id requested c).2 = c.
Proof. intros Ha. unfold Start. destruct (negb (serving c)); [done|]. by rewrite (proj2 (String.eqb_neq _ _) Ha). Qed.

Lemma Start_ok id requested c : id ≠ "" → runs_ok c → runs_ok (Start id requested c).2.
Proof.
  intros Hid [Hi Hf Ha Ho]. unfold Start. destruct (negb (serving c)); [done|].
  destruct (String.eqb_spec (active c) "") as [E|E]; cbn [negb snd]; [|done]. rewrite E in Hf. split; cbn.
  - intros k r Hk. destruct (decide (k = id)) as [->|Hne]; [by rewrite lookup_insert_eq in Hk; injection Hk as <-|].
    rewrite lookup_insert_ne in Hk by done. by apply Hi.
  - intros k r Hk Hne. rewrite lookup_insert_ne in Hk by done. apply (Hf k r Hk). by apply (Hi k r).
  - intros _. exists (new_run id requested (clock c)). by rewrite lookup_insert_eq.
  - apply Forall_app. split.
    + eapply Forall_impl; [exact Ho|]. intros k [r Hk]. destruct (decide (k = id)) as [->|Hne].
      * by rewrite lookup_insert_eq.
      * rewrite lookup_insert_ne by done. by exists r.
    + constructor; [|done]. by rewrite lookup_insert_eq.
Qed.

Lemma try_starts_ok l c : runs_ok c → runs_ok (try_starts l c).
Proof. revert c. induction l as [|s l IH]; intros c Hc; [done|]. cbn. apply IH. by apply Start_ok. Qed.

Lemma try_starts_refused l c : active c ≠ "" → try_starts l c = c.
Proof. intros Ha. induction l as [|s l IH]; [done|]. cbn. by rewrite Start_refused. Qed.

(** What an environment step leaves alone while a run is active. *)
Definition runs_view (c : Lab) : gmap string ChaosRun * list string * string := (runs c, order c, active c).

Lemma runs_ok_view c c' : runs_view c' = runs_view c → runs_ok c → runs_ok c'.
Proof. intros [= E1 E2 E3] [Hi Hf Ha Ho]. split; by rewrite ?E1, ?E2, ?E3. Qed.

Lemma elapse_view b c : active c ≠ "" → runs_view (elapse b c) = runs_view c.
Proof. intros Ha. unfold elapse. by rewrite try_starts_refused. Qed.

Lemma elapse_ok b c : runs_ok c → runs_ok (elapse b c).
Proof. intros Hc. eapply runs_ok_view; [|by apply (try_starts_ok (b_starts b))]. done. Qed.

(** A change of the active run that gives no verdict, or gives one. *)
Lemma apply_update_ok id mutate c :
  runs_ok c → active c = id → id ≠ "" → (∀ r, RunID (mutate r) = RunID r) → runs_ok (apply_update id mutate c).
Proof.
  intros [Hi Hf Ha Ho] E Hid Hm. destruct (Ha ltac:(by rewrite E)) as (r & Hr & Hrf). rewrite E in *.
  unfold apply_update. rewrite Hr, E, String.eqb_refl, andb_true_r. set (live := bump (mutate r)).
  assert (Hlive : RunID live = id) by (unfold live; cbn; rewrite Hm; by apply (Hi id r)).
  split; cbn.
  - intros k x Hk. destruct (decide (k = id)) as [->|Hne]; [rewrite lookup_insert_eq in Hk; by injection Hk as <-|].
    rewrite lookup_insert_ne in Hk by done. by apply Hi.
  - intros k x Hk Hne. destruct (decide (k = id)) as [->|Hne'].
    + rewrite lookup_insert_eq in Hk. injection Hk as <-. by destruct (is_final live).
    + rewrite lookup_insert_ne in Hk by done. by apply (Hf k x).
  - destruct (is_final live) eqn:El; [done|]. intros _. exists live. by rewrite lookup_insert_eq.
  - eapply Forall_impl; [exact Ho|]. intros k [x Hk]. destruct (decide (k = id)) as [->|Hne].
    + by rewrite lookup_insert_eq.
    + rewrite lookup_insert_ne by done. by exists x.
Qed.

(** ** Following a run *)

Definition tally (r : ChaosRun) : string * Z * Z * Z * Z * Z :=
  (rStatus r, Requested r, Completed r, rApproved r, rDeclined r, OpeningBalanceTotal r).

(** Run [id] is under way, with the tally [t], after the deeds [m]. *)
Record under_way (id : string) (t : string * Z * Z * Z * Z * Z) (m : list deed) (c : Lab) : Prop := {
  uw_ok : runs_ok c;
  uw_active : active c = id;
  uw_id : id ≠ "";
  uw_run : ∃ r, runs c !! id = Some r ∧ tally r = t;
  uw_made : made c = m
}.

Section follow.
Context (id : string).

Abbreviation under_way := (under_way id).

Lemma under_way_view t m c c' :
  runs_view c' = runs_view c → made c' = made c → under_way t m c → under_way t m c'.
Proof.
  intros Hv Hm [Hok Ha Hid Hr Hm']. pose proof (runs_ok_view c c' Hv Hok). injection Hv as E1 E2 E3.
  split; [done|by rewrite E3|done|by rewrite E1|by rewrite Hm].
Qed.

Lemma under_way_note d t m c : under_way t m c → under_way t (m ++ [d]) (note d c).
Proof.
  intros [Hok Ha Hid Hr Hm]. split; [|done..|cbn; by rewrite Hm]. eapply runs_ok_view; [|exact Hok]. done.
Qed.

Lemma under_way_elapse b t m c : under_way t m c → under_way t m (elapse b c).
Proof.
  intros H. assert (Ha : active c ≠ "") by (rewrite (uw_active _ _ _ _ H); by destruct H).
  eapply under_way_view; [by apply elapse_view| |done]. unfold elapse. by rewrite try_starts_refused.
Qed.

Lemma always_call {A} (f : beat → Lab → result failure A * Lab) t m (Q : result failure A → Lab → Prop) c :
  under_way t m c →
  (∀ b c', under_way t m c' → let '(r, c'') := f b c' in Q r c'') →
  (∀ c', under_way t m c' → Q (Err Panicked) c') →
  always any runs_ok (call f) Q c.
Proof.
  intros Hc Hf Hp. apply always_act; [by destruct Hc|]. intros b r c' _ E.
  cbn zeta in E.
  pose proof (under_way_elapse b t m c Hc) as He. destruct (b_panic b).
  - injection E as <- <-. by apply Hp.
  - specialize (Hf b _ He). rewrite E in Hf. exact Hf.
Qed.

Lemma always_update mutate t t' m (Q : () → Lab → Prop) c :
  under_way t m c → (∀ r, RunID (mutate r) = RunID r) →
  (∀ r, tally r = t → tally (mutate r) = t' ∧ is_final (mutate r) = false) →
  (∀ c', under_way t' m c' → Q () c') →
  always any runs_ok (update id mutate) Q c.
Proof.
  intros [Hok Ha Hid (r & Hr & Ht) Hm] Hmut Htally HQ. apply always_modify, HQ.
  destruct (Htally r Ht) as [Ht' Hf]. pose proof (apply_update_ok id mutate c Hok Ha Hid Hmut) as Hok'.
  unfold apply_update in *. rewrite Hr in *. change (is_final (bump (mutate r))) with (is_final (mutate r)) in *.
  rewrite Hf in *. cbn [andb] in *. split; [done|exact Ha|done| |exact Hm].
  exists (bump (mutate r)). cbn [runs]. rewrite lookup_insert_eq. by split.
Qed.
End follow.

Section phases.
Context (ListPending : dbcall (list SafRow * nat)) (seedCards : list (string * CardFixture))
        (safDrainTimeout : duration) (limit_text : string) (id : string).

Abbreviation under_way := (under_way id).

Lemma drain_always phase t m (Q : result failure () → Lab → Prop) c :
  under_way t m c → (∀ r c', under_way t m c' → Q r c') →
  always any runs_ok (waitForSafDrain ListPending safDrainTimeout phase) Q c.
Proof.
  intros Hc HQ. unfold waitForSafDrain. apply always_bind, always_gets.
  apply (always_forever _ _ (λ _ c', under_way t m c')); [by intros u c' [? ?]| |exact Hc].
  intros u c1 H1. unfold drain_round. apply always_bind. unfold look. apply always_act; [by destruct H1|].
  intros b [seen now] c2 _ E. cbn zeta in E. injection E as E1 <- <-. pose proof (under_way_elapse id b t m c1 H1) as H2.
  destruct seen as [depth|f]; [|by apply always_yield, HQ].
  destruct (match depth with Some O => true | _ => false end); [by apply always_yield, HQ|].
  case_if; [by apply always_yield, HQ|]. apply always_bind. unfold pause. apply always_act; [by destruct H2|].
  intros b2 stopped c3 _ E3. cbn zeta in E3. pose proof (under_way_elapse id b2 t m _ H2) as H3.
  destruct (negb _ && b_seen b2); injection E3 as <- <-; apply always_yield; [by apply HQ|].
  eapply under_way_view; [| |exact H3]; done.
Qed.

Lemma wrapped_always {A} I detail (p : flow (result failure A)) (Q : result failure A → Lab → Prop) c :
  always any I p (λ r, Q (runErr detail r)) c → always any I (wrapped detail p) Q c.
Proof.
  intros Hp. unfold wrapped. apply always_bind. eapply always_mono; [|exact Hp].
  intros r c' Hr. by apply always_yield.
Qed.

Lemma reversed_always rrns t m (Q : result failure () → Lab → Prop) c :
  t.1.1.1.1.1 = statusVerifying →
  under_way t m c → (∀ r c', under_way t m c' → Q r c') → always any runs_ok (countReversed id rrns) Q c.
Proof.
  intros Hst. revert c. induction rrns as [|rrn rrns IH]; intros c Hc HQ; cbn [countReversed]; [by apply always_yield, HQ|].
  apply always_bindE. eapply always_call; [exact Hc| |by intros c' Hc'; apply HQ].
  intros b c' Hc'. destruct (match b_db b with None => Err Plain | Some db => _ end) as [row|f]; [|by apply HQ].
  apply always_bind. destruct (String.eqb _ _).
  - eapply always_update; [exact Hc'|done| |].
    + intros r Hr. split; [exact Hr|]. unfold is_final. cbn. subst t. cbn in Hst. by rewrite Hst.
    + intros c2 H2. by apply IH.
  - apply always_yield. by apply IH.
Qed.
End phases.

(** ** Sums that wrap *)

Lemma wrap64_add a b : wrap64 (wrap64 a + b) = wrap64 (a + b).
Proof.
  unfold wrap64. f_equal.
  replace ((a + 2 ^ 63) mod 2 ^ 64 - 2 ^ 63 + b + 2 ^ 63) with ((a + 2 ^ 63) mod 2 ^ 64 + b) by lia.
  rewrite Z.add_mod_idemp_l by done. f_equal. lia.
Qed.

Lemma wrap64_neg a : wrap64 (- wrap64 a) = wrap64 (- a).
Proof.
  unfold wrap64. f_equal.
  replace (- ((a + 2 ^ 63) mod 2 ^ 64 - 2 ^ 63) + 2 ^ 63) with (2 ^ 64 - (a + 2 ^ 63) mod 2 ^ 64) by lia.
  rewrite Zminus_mod_idemp_r. replace (2 ^ 64 - (a + 2 ^ 63)) with (- a + 2 ^ 63) by lia. done.
Qed.

Lemma discrepancy_sum opening closing approved :
  discrepancy opening closing (wrap64 approved) = wrap64 (closing - opening + approved).
Proof.
  unfold discrepancy. rewrite wrap64_neg.
  replace (wrap64 (closing - opening) - wrap64 (- approved)) with (wrap64 (closing - opening) + - wrap64 (- approved)) by lia.
  rewrite wrap64_add. rewrite Z.add_comm. rewrite <- (wrap64_add (- wrap64 (- approved))).
  rewrite wrap64_neg, wrap64_add. f_equal. lia.
Qed.

Lemma moved_sum a b x : wrap64 (wrap64 a - wrap64 b + x) = wrap64 (a - b + x).
Proof.
  replace (wrap64 a - wrap64 b + x) with (wrap64 a + (- wrap64 b + x)) by lia. rewrite wrap64_add.
  replace (a + (- wrap64 b + x)) with (- wrap64 b + (a + x)) by lia. rewrite <- (wrap64_add (- wrap64 b)).
  rewrite wrap64_neg, wrap64_add. f_equal. lia.
Qed.

(** *** The balances of a reading *)

(** One question for each card, in order, each answered. *)
Definition readings (cards : list (string * CardFixture)) (answers : list (Z * string)) : list deed :=
  zip_with (λ card a, Asked (CardRef card.2) (Ok a)) cards answers.

Definition sum_of (answers : list (Z * string)) : Z := foldr Z.add 0 (map fst answers).

(** All of one currency, or of none. *)
Definition one_currency (cur : string) (answers : list (Z * string)) : Prop :=
  ∃ x, Forall (λ a, a.2 = "" ∨ a.2 = x) answers ∧ (cur = "" ∨ cur = x).

Section balances.
Context (id : string).

Lemma balance_always cards total cur t m (Q : result failure Z → Lab → Prop) c :
  under_way id t m c →
  (∀ answers c', length answers = length cards → one_currency cur answers →
     under_way id t (m ++ readings cards answers) c' → Q (Ok (wrap64 (total + sum_of answers))) c') →
  (∀ f m' c', under_way id t m' c' → Q (Err f) c') →
  always any runs_ok (balance_loop cards (wrap64 total) cur) Q c.
Proof.
  revert total cur m c. induction cards as [|[token card] cards IH]; intros total cur m c Hc HQ HE; cbn [balance_loop].
  { apply always_yield. rewrite <- (Z.add_0_r total). apply (HQ []); [done| |by rewrite app_nil_r].
    by exists cur; split; [|right]. }
  destruct (String.eqb (CardRef card) ""); [by apply always_yield; eapply HE|]. apply always_bindE.
  eapply always_call; [exact Hc| |by intros c' Hc'; eapply HE].
  intros b c' Hc'. cbv zeta. pose proof (under_way_note id (Asked (CardRef card)
    match b_balance b with Some bc => Ok bc | None => Err Plain end) t m c' Hc') as Hn.
  destruct (b_balance b) as [[balance cc]|]; [|by eapply HE].
  destruct (negb _ && negb _) eqn:Ecur; [by apply always_yield; eapply HE|].
  rewrite wrap64_add. eapply IH; [exact Hn| |exact HE].
  intros answers c2 Hlen (x & Hx & Hcc) H2.
  replace (total + balance + sum_of answers) with (total + sum_of ((balance, cc) :: answers)) by (unfold sum_of; cbn [map foldr fst]; lia).
  apply HQ; [by cbn; rewrite Hlen| |by rewrite <- app_assoc in H2].
  exists x. split; [by constructor|].
  destruct (String.eqb_spec cur "") as [->|]; [by left|]. destruct (String.eqb_spec cc cur) as [<-|]; [done|discriminate Ecur].
Qed.
End balances.

(** What the purchases of a run amount to. *)
Definition with_status (status : string) (txns : list Transaction) : Z :=
  Z.of_nat (length (List.filter (λ t, String.eqb (x_Status t) status) txns)).

Lemma with_status_cons s t txns : with_status s (t :: txns) = with_status s [t] + with_status s txns.
Proof. unfold with_status. simpl. destruct (String.eqb (x_Status t) s); simpl; lia. Qed.

Definition approved_sum (txns : list Transaction) : Z :=
  foldr Z.add 0 (map (λ t, if String.eqb (x_Status t) "APPROVED" then Amount (x_Amount t) else 0) txns).

(** The purchases of run [id] from the [i]th on, under the run's own keys. *)
Fixpoint shopping (id : string) (i : nat) (l : list (PurchaseRequest * Transaction)) : list deed :=
  match l with
  | [] => []
  | (req, txn) :: l => Bought (purchase_key id i) req (Ok txn) :: shopping id (S i) l
  end.

(** Of a card of the run's, for the fixed amount. *)
Definition of_a_card (seedCards : list (string * CardFixture)) (req : PurchaseRequest) : Prop :=
  ∃ drawn, randomPurchaseRequest seedCards drawn = Some req.

Section fire.
Context (seedCards : list (string * CardFixture)) (id : string).

Abbreviation under_way := (under_way id).

Lemma fire_always n i acc rrns m req a d op (Q : result failure (Z * list string) → Lab → Prop) c :
  under_way (statusRunning, req, Z.of_nat i, a, d, op) m c →
  (∀ l rrns' c', length l = n → Forall (λ p, of_a_card seedCards p.1) l →
     under_way (statusRunning, req, Z.of_nat i + Z.of_nat n, a + with_status "APPROVED" (map snd l),
                d + with_status "DECLINED" (map snd l), op) (m ++ shopping id i l) c' →
     Q (Ok (wrap64 (acc + approved_sum (map snd l)), rrns')) c') →
  (∀ f t' m' c', under_way t' m' c' → Q (Err f) c') →
  always any runs_ok (fire_loop seedCards id n i (wrap64 acc) rrns) Q c.
Proof.
  revert i acc rrns m a d c. induction n as [|n IH]; intros i acc rrns m a d c Hc HQ HE; cbn [fire_loop].
  { apply always_yield. rewrite <- (Z.add_0_r acc). apply (HQ []); [done|done|].
    change (with_status "APPROVED" (map snd [])) with 0. change (with_status "DECLINED" (map snd [])) with 0.
    by rewrite !Z.add_0_r, app_nil_r. }
  apply always_bindE. eapply always_call; [exact Hc| |intros c' Hc'; by eapply HE].
  intros b c' Hc'. destruct (randomPurchaseRequest seedCards (b_card b)) as [preq|] eqn:Epreq; [|by eapply HE].
  cbv zeta. pose proof (under_way_note id (Bought (purchase_key id i) preq
    match b_txn b with Some t => Ok t | None => Err Plain end) _ m c' Hc') as Hn.
  destruct (b_txn b) as [txn|]; [|by eapply HE].
  apply always_bind.
  eapply (always_update id _ _ (statusRunning, req, Z.of_nat (S i), a + with_status "APPROVED" [txn],
                                d + with_status "DECLINED" [txn], op)); [exact Hn|done| |].
  - intros r [= E1 E2 E3 E4 E5 E6]. split.
    + unfold tally, with_status. cbn [rStatus Requested Completed rApproved rDeclined OpeningBalanceTotal count_purchase List.filter].
      rewrite E1, E2, E3, E4, E5, E6.
      destruct (String.eqb_spec (x_Status txn) "APPROVED") as [Es|Es], (String.eqb_spec (x_Status txn) "DECLINED") as [Ed|Ed];
        try (rewrite Es in Ed; discriminate Ed); cbn [length]; repeat f_equal; lia.
    + unfold is_final. cbn [rStatus count_purchase]. by rewrite E1.
  - intros c2 H2.
    assert (Eacc : (if String.eqb (x_Status txn) "APPROVED" then wrap64 (wrap64 acc + Amount (x_Amount txn)) else wrap64 acc)
                   = wrap64 (acc + approved_sum [txn])).
    { unfold approved_sum. cbn [map foldr]. destruct (String.eqb _ _); [rewrite wrap64_add|]; f_equal; lia. }
    rewrite Eacc. apply (IH (S i) _ _ _ _ _ c2 H2); [|exact HE].
    intros l rrns' c3 Hl Hcards H3.
    replace (acc + approved_sum [txn] + approved_sum (map snd l)) with (acc + approved_sum (map snd ((preq, txn) :: l))).
    2: { unfold approved_sum. cbn [map foldr snd]. lia. }
    apply (HQ ((preq, txn) :: l)); [by cbn; rewrite Hl|by constructor; [exists (b_card b)|]|].
    cbn [shopping map snd]. rewrite <- app_assoc in H3. cbn [app] in H3.
    replace (Z.of_nat i + Z.of_nat (S n)) with (Z.of_nat (S i) + Z.of_nat n) by lia.
    rewrite !(with_status_cons _ txn (map snd l)), !Z.add_assoc. exact H3.
Qed.
End fire.

(** ** The verdict *)

(** What is known of run [r] of these cards, begun for [requested] purchases after the deeds [m0],
    when it ends with [m] done. *)
Definition judged (seedCards : list (string * CardFixture)) (id : string) (requested : Z) (m0 m : list deed) (r : ChaosRun) : Prop :=
  (rStatus r = statusFailed ∧ FailureKind r = Some failureRunError) ∨
  ∃ before l after,
    m = m0 ++ readings seedCards before ++ shopping id 0 l ++ readings seedCards after ∧
    length before = length seedCards ∧ length l = Z.to_nat requested ∧ length after = length seedCards ∧
    one_currency "" before ∧ one_currency "" after ∧ Forall (λ p, of_a_card seedCards p.1) l ∧
    Completed r = Z.of_nat (length l) ∧
    rApproved r = with_status "APPROVED" (map snd l) ∧ rDeclined r = with_status "DECLINED" (map snd l) ∧
    OpeningBalanceTotal r = wrap64 (sum_of before) ∧ ClosingBalanceTotal r = wrap64 (sum_of after) ∧
    LedgerDiscrepancy r = wrap64 (sum_of after - sum_of before + approved_sum (map snd l)) ∧
    ((rStatus r = statusPassed ∧ LedgerDiscrepancy r = 0) ∨
     (rStatus r = statusFailed ∧ FailureKind r = Some failureLedgerMismatch ∧ LedgerDiscrepancy r ≠ 0)).

Definition run_over (seedCards : list (string * CardFixture)) (id : string) (requested : Z) (m0 : list deed) (c : Lab) : Prop :=
  runs_ok c ∧ active c = "" ∧ ∃ r, runs c !! id = Some r ∧ judged seedCards id requested m0 (made c) r.

Section drive.
Context (ListPending : dbcall (list SafRow * nat)) (seedCards : list (string * CardFixture))
        (safDrainTimeout : duration) (limit_text : string) (id : string).

Abbreviation under_way := (under_way id).

Lemma always_final mutate t m (Q : () → Lab → Prop) c :
  under_way t m c → (∀ r, RunID (mutate r) = RunID r) → (∀ r, is_final (mutate r) = true) →
  (∀ r c', tally r = t → runs_ok c' → active c' = "" → runs c' !! id = Some (bump (mutate r)) → made c' = m → Q () c') →
  always any runs_ok (update id mutate) Q c.
Proof.
  intros [Hok Ha Hid (r & Hr & Ht) Hm] Hmut Hfin HQ. apply always_modify.
  pose proof (apply_update_ok id mutate c Hok Ha Hid Hmut) as Hok'.
  unfold apply_update in *. rewrite Hr in *. change (is_final (bump (mutate r))) with (is_final (mutate r)) in *.
  rewrite Hfin, Ha, String.eqb_refl in *. cbn [andb] in *. apply (HQ r _ Ht Hok'); [done| |exact Hm].
  cbn [runs]. by rewrite lookup_insert_eq.
Qed.

Lemma fail_always f requested m0 t m (Q : () → Lab → Prop) c :
  under_way t m c → (∀ c', run_over seedCards id requested m0 c' → Q () c') →
  always any runs_ok (failRun limit_text id f) Q c.
Proof.
  intros Hc HQ. unfold failRun. apply always_bind, always_gets. eapply always_final; [exact Hc|done|done|].
  intros r c' _ Hok Ha Hr Hm. apply HQ. split; [done|]. split; [done|]. eexists. split; [exact Hr|]. by left.
Qed.

Lemma verdict_final opening closing approved r : is_final (verdict opening closing approved r) = true.
Proof. unfold is_final, verdict. cbn [rStatus]. by destruct (_ =? 0). Qed.

Lemma drive_always requested m0 (Q : () → Lab → Prop) c :
  under_way (statusRunning, requested, 0, 0, 0, 0) m0 c → (∀ c', run_over seedCards id requested m0 c' → Q () c') →
  always any runs_ok (drive ListPending seedCards safDrainTimeout limit_text id requested) Q c.
Proof.
  intros Hc HQ. unfold drive. apply always_bind.
  assert (Hbad : ∀ f t m c', under_way t m c' →
    always any runs_ok (failRun limit_text id f) Q c') by (intros f t m c' Hc'; by eapply fail_always).
  unfold execute. apply always_bindE. eapply drain_always; [exact Hc|]. intros [u|f] c1 H1; [|by eapply Hbad].
  apply always_bindE, wrapped_always. unfold balanceTotal.
  apply (balance_always id seedCards 0 "" _ _ _ _ H1); [|by intros f m' c' Hc'; destruct f; eapply Hbad].
  intros before c2 Hb1 Hb2 H2. rewrite Z.add_0_l. cbn [runErr]. set (opening := wrap64 (sum_of before)) in *.
  apply always_bind. eapply (always_update id _ _ (statusRunning, requested, 0, 0, 0, opening)); [exact H2|done| |].
  { intros r [= E1 E2 E3 E4 E5 _]. unfold tally, is_final. cbn. by rewrite E1, E2, E3, E4, E5. }
  intros c3 H3. apply always_bindE, wrapped_always. unfold fire.
  apply (fire_always seedCards id (Z.to_nat requested) 0 0 [] _ requested 0 0 opening _ c3 H3).
  2: { intros f t' m' c' Hc'. destruct f; cbn [runErr]; by eapply Hbad. }
  intros l rrns c4 Hlen Hcards H4. cbn [runErr]. rewrite !Z.add_0_l in *.
  apply always_bind. eapply (always_update id _ _ (statusVerifying, _, _, _, _, _)); [exact H4|done| |].
  { intros r [= E1 E2 E3 E4 E5 E6]. unfold tally, is_final. cbn. by rewrite E2, E3, E4, E5, E6. }
  intros c5 H5. apply always_bindE. eapply drain_always; [exact H5|]. intros [u'|f] c6 H6; [|by eapply Hbad].
  apply always_bindE, wrapped_always. eapply reversed_always; [|exact H6|]; [done|].
  intros [u2|f] c7 H7; [|by destruct f; eapply Hbad]. cbn [runErr].
  apply always_bindE, wrapped_always. unfold balanceTotal.
  apply (balance_always id seedCards 0 "" _ _ _ _ H7); [|by intros f m' c' Hc'; destruct f; eapply Hbad].
  intros after c8 Ha1 Ha2 H8. rewrite Z.add_0_l. cbn [runErr].
  apply always_bind. unfold verify_. eapply always_final; [exact H8|done|apply verdict_final|].
  intros r c9 Ht Hok Ha Hr Hm. injection Ht as _ _ E3 E4 E5 E6. do 2 apply always_yield. apply HQ. split; [done|]. split; [done|].
  eexists. split; [exact Hr|]. right. exists before, l, after. cbn [bump verdict Completed rApproved rDeclined LedgerDiscrepancy
    ClosingBalanceTotal OpeningBalanceTotal rStatus FailureKind]. rewrite discrepancy_sum, E3, E4, E5, E6, Hlen. unfold opening.
  rewrite moved_sum. split_and!; try done; try lia; [by rewrite Hm, <- !app_assoc|].
  destruct (Z.eqb_spec (wrap64 (sum_of after - sum_of before + approved_sum (map snd l))) 0); [by left|by right].
Qed.
End drive.

(** ** Serving *)

Lemma newRunID_named bytes : newRunID bytes ≠ "".
Proof. done. Qed.

(** From an idle lab, calls of [Start] leave it idle or one new run active. *)
Lemma try_starts_new l c :
  active c = "" →
  made (try_starts l c) = made c ∧
  (active (try_starts l c) = "" ∨
   ∃ id requested, id ≠ "" ∧ active (try_starts l c) = id ∧
     runs (try_starts l c) !! id = Some (new_run id requested (clock c))).
Proof.
  induction l as [|[bytes n] l IH]; intros Ha; [by auto|]. unfold try_starts. cbn [fold_left fst snd].
  change (fold_left _ l ?x) with (try_starts l x). unfold Start at 1 2 3 4.
  destruct (negb (serving c)) eqn:Es; [by apply IH|]. rewrite Ha, String.eqb_refl. cbn [negb snd].
  rewrite try_starts_refused by done. split; [done|]. right. exists (newRunID bytes), n.
  split; [done|]. split; [done|]. cbn [runs]. by rewrite lookup_insert_eq.
Qed.

Definition idle (c : Lab) : Prop := runs_ok c ∧ active c = "".

Section serve.
Context (ListPending : dbcall (list SafRow * nat)) (seedCards : list (string * CardFixture))
        (safDrainTimeout : duration) (limit_text : string).

Lemma idle_round_always u c :
  idle c → always any runs_ok (idle_round ListPending seedCards safDrainTimeout limit_text u) (λ _, idle) c.
Proof.
  intros [Hok Ha]. unfold idle_round. apply always_bind, always_act; [done|]. intros b r c' _ E.
  cbn zeta in E. injection E as <- <-. pose proof (elapse_ok b c Hok) as Hok'.
  destruct (try_starts_new (b_starts b) c Ha) as [Hm [Hn|(id & requested & Hid & Hact & Hr)]].
  - change (active (try_starts (b_starts b) c)) with (active (elapse b c)) in Hn.
    change (runs (try_starts (b_starts b) c)) with (runs (elapse b c)).
    change (active (try_starts (b_starts b) c)) with (active (elapse b c)).
    destruct (runs (elapse b c) !! active (elapse b c)) eqn:El; [|by apply always_yield].
    exfalso. rewrite Hn in El. by destruct (ro_id _ Hok' _ _ El).
  - rewrite Hact, Hr.
    change (active (try_starts (b_starts b) c)) with (active (elapse b c)) in Hact.
    change (runs (try_starts (b_starts b) c)) with (runs (elapse b c)) in Hr.
    change (made (try_starts (b_starts b) c)) with (made (elapse b c)) in Hm.
    apply always_bind. cbn [new_run RunID Requested]. eapply drive_always.
    + split; [done|exact Hact|done| |reflexivity]. eexists. split; [exact Hr|done].
    + intros c2 (H1 & H2 & _). by apply always_yield.
Qed.

Lemma Serve_always c : idle c → always any runs_ok (Serve ListPending seedCards safDrainTimeout limit_text) (λ _, idle) c.
Proof.
  apply (always_forever any runs_ok (λ _, idle)); [by intros _ s [H _]|].
  intros u s Hs. eapply always_mono; [|by apply idle_round_always]. by intros [|].
Qed.
End serve.

(** ** Termination of a run *)

Section ends.
Context (ListPending : dbcall (list SafRow * nat)) (seedCards : list (string * CardFixture))
        (safDrainTimeout : duration) (limit_text : string).

Lemma within_seq {A B} n m (R : A → Prop) (p : flow A) (f : A → flow B) :
  within n p → (∀ c, always any (λ _, True) p (λ a _, R a) c) → (∀ a, R a → within m (f a)) →
  within (n + m) (sbind p f).
Proof.
  intros Hp HR Hf c cs Hn. destruct (Hp c cs) as (a & c1 & cs1 & E & Hl); [lia|]. unfold sbind. rewrite E.
  pose proof (HR c cs (any_all cs)) as H. rewrite E in H. destruct H as [_ H].
  destruct (Hf a H c1 cs1) as (b & c2 & cs2 & E' & Hl'); [lia|]. exists b, c2, cs2. split; [done|lia].
Qed.

Lemma elapse_clock b c : clock c ≤ clock (elapse b c).
Proof.
  assert (H : clock (try_starts (b_starts b) c) = clock c); [|unfold elapse; cbn [clock]; rewrite H; lia].
  generalize (b_starts b) as l. intros l. revert c. induction l as [|s l IH]; intros c; [done|].
  unfold try_starts. cbn [fold_left]. change (fold_left _ l ?x) with (try_starts l x). rewrite IH.
  unfold Start. by destruct (negb (serving c)), (negb (String.eqb (active c) "")).
Qed.

Lemma drain_takes_choices phase deadline : takes_choices (drain_round ListPending safDrainTimeout phase deadline).
Proof.
  intros u c cs. unfold drain_round, sbind, look, pause, act. destruct cs as [|b cs]; [done|]. cbn zeta.
  destruct (if b_panic b then _ else _) as [depth|f]; [|done].
  destruct (match depth with Some O => true | _ => false end); [done|]. destruct (deadline <? _); [done|].
  destruct cs as [|b2 cs]; [done|]. destruct (negb _ && b_seen b2); cbn; [done|lia].
Qed.

(** Rounds until the deadline has passed. *)
Definition drain_rounds : nat := S (Z.to_nat (safDrainTimeout / poll safDrainTimeout)).

Lemma drain_ends phase deadline k c cs :
  deadline < clock c + Z.of_nat k * poll safDrainTimeout → (2 * k + 1 ≤ length cs)%nat →
  ∃ r c' cs', forever (drain_round ListPending safDrainTimeout phase deadline) () c cs = Finished r c' cs'
            ∧ (length cs ≤ 2 * k + 1 + length cs')%nat.
Proof.
  revert c cs. induction k as [|k IH]; intros c cs Hd Hl; rewrite forever_eq by apply drain_takes_choices;
    destruct cs as [|b cs]; cbn [length] in Hl; try lia; unfold drain_round at 1, sbind, look, act; cbn zeta;
    pose proof (elapse_clock b c);
    (destruct (if b_panic b then _ else _) as [depth|f]; [|eexists _, _, _; split; [reflexivity|cbn [length]; lia]]);
    (destruct (match depth with Some O => true | _ => false end); [eexists _, _, _; split; [reflexivity|cbn [length]; lia]|]);
    (destruct (Z.ltb_spec deadline (clock (elapse b c))); [eexists _, _, _; split; [reflexivity|cbn [length]; lia]|]).
  { lia. }
  unfold pause, act. destruct cs as [|b2 cs]; cbn [length] in Hl; [lia|]. cbn zeta.
  destruct (negb _ && b_seen b2); [eexists _, _, _; split; [reflexivity|cbn [length]; lia]|]. unfold yield at 1.
  pose proof (elapse_clock b2 (elapse b c)).
  edestruct IH as (r & c' & cs' & E & Hl'); [| |exists r, c', cs'; split; [exact E|cbn [length]; lia]]; cbn [clock]; lia.
Qed.

Lemma drain_within phase : 10 ≤ safDrainTimeout →
  within (2 * drain_rounds + 1) (waitForSafDrain ListPending safDrainTimeout phase).
Proof.
  intros Ht c cs Hl. unfold waitForSafDrain, sbind, gets. apply drain_ends; [|done].
  assert (0 < poll safDrainTimeout).
  { unfold poll. apply Z.min_glb_lt; [done|]. apply Z.quot_str_pos. lia. }
  unfold drain_rounds. rewrite Nat2Z.inj_succ, Z2Nat.id by (apply Z.div_pos; lia).
  pose proof (Z.mul_succ_div_gt safDrainTimeout (poll safDrainTimeout)). lia.
Qed.

Lemma within_call {A} (f : beat → Lab → result failure A * Lab) : within 1 (call f).
Proof. apply within_act. Qed.

Lemma balance_within cards total cur : within (length cards) (balance_loop cards total cur).
Proof.
  revert total cur. induction cards as [|[token card] cards IH]; intros total cur; [apply within_yield|].
  cbn [balance_loop length]. destruct (String.eqb (CardRef card) ""); [apply within_yield|].
  change (S (length cards)) with (1 + length cards)%nat. apply within_bindE; [apply within_call|].
  intros [balance cc]. destruct (negb _ && negb _); [apply within_yield|apply IH].
Qed.

Lemma wrapped_within {A} n detail (p : flow (result failure A)) : within n p → within n (wrapped detail p).
Proof.
  intros Hp. rewrite <- (Nat.add_0_r n). apply within_bind; [done|]. intros r. apply within_yield.
Qed.

Lemma fire_within id n i acc rrns : within n (fire_loop seedCards id n i acc rrns).
Proof.
  revert i acc rrns. induction n as [|n IH]; intros i acc rrns; [apply within_yield|]. cbn [fire_loop].
  change (S n) with (1 + n)%nat. apply within_bindE; [apply within_call|]. intros txn.
  apply (within_bind (modify _) _ 0); [apply within_modify|]. intros _. apply IH.
Qed.

Lemma reversed_within id rrns : within (length rrns) (countReversed id rrns).
Proof.
  induction rrns as [|rrn rrns IH]; [apply within_yield|]. cbn [countReversed length].
  change (S (length rrns)) with (1 + length rrns)%nat. apply within_bindE; [apply within_call|]. intros row.
  apply (within_bind _ _ 0); [case_match; [apply within_modify|apply within_yield]|done].
Qed.

(** A purchase leaves at most one reversal to look for. *)
Definition few_rrns (k : nat) (r : result failure (Z * list string)) : Prop :=
  match r with Ok (_, l) => (length l ≤ k)%nat | Err _ => True end.

Lemma fire_rrns id n i acc rrns c :
  always any (λ _, True) (fire_loop seedCards id n i acc rrns) (λ r _, few_rrns (length rrns + n) r) c.
Proof.
  revert i acc rrns c. induction n as [|n IH]; intros i acc rrns c; cbn [fire_loop]; [apply always_yield; cbn; lia|].
  apply always_bindE, always_act; [done|]. intros b [txn|f] c' _ _; [|done].
  apply always_bind, always_modify. eapply always_mono; [|apply IH]. intros [[total l]|f] c2; [|done]. cbn.
  destruct (reversalQueued txn); rewrite ?length_app; cbn; lia.
Qed.

Lemma failRun_within id f : within 0 (failRun limit_text id f).
Proof. apply (within_bind _ _ 0 0); [apply within_gets|]. intros s. apply within_modify. Qed.

(** The choices a run of [requested] purchases takes. *)
Definition run_bound (requested : Z) : nat :=
  2 * (2 * drain_rounds + 1) + 2 * length seedCards + 2 * Z.to_nat requested.

Lemma drive_within id requested : 10 ≤ safDrainTimeout →
  within (run_bound requested) (drive ListPending seedCards safDrainTimeout limit_text id requested).
Proof.
  intros Ht. eapply within_le with (n := (_ + 0)%nat); [rewrite Nat.add_0_r; apply Nat.le_refl|].
  unfold drive. apply within_bind; [|intros [u|f]; [apply within_yield|apply failRun_within]]. unfold execute.
  eapply within_le with (n := (2 * drain_rounds + 1 + (length seedCards + (0 + (Z.to_nat requested + (0 + (2 * drain_rounds + 1
    + (Z.to_nat requested + (length seedCards + (0 + 0)))))))))%nat); [unfold run_bound; lia|].
  apply within_bindE; [by apply drain_within|]. intros _. apply within_bindE; [apply wrapped_within, balance_within|].
  intros opening. apply within_bind; [apply within_modify|]. intros _.
  apply (within_seq _ _ (few_rrns (Z.to_nat requested))); [apply wrapped_within, fire_within| |].
  { intros c. apply wrapped_always. eapply always_mono; [|apply (fire_rrns id _ 0 0 [])].
    intros [a|[]] c' H; exact H. }
  intros [[total rrns]|f] Hr; [|apply within_yield]. cbn in Hr.
  apply within_bind; [apply within_modify|]. intros _. apply within_bindE; [by apply drain_within|]. intros _.
  apply within_bindE; [apply wrapped_within; eapply within_le; [exact Hr|apply reversed_within]|]. intros _.
  apply within_bindE; [apply wrapped_within, balance_within|]. intros closing.
  apply within_bind; [apply within_modify|]. intros _. apply within_yield.
Qed.
End ends.

(** ** api/chaos.go: the runs *)

Definition maxChaosTransactions : Z := 10000.
Definition defaultChaosRunLimit : Z := 50.
Definition maxChaosRunLimit : Z := 200.

(** The body, and what a key is remembered with. *)
Record chaosRunBody := mkRunBody { rb_Transactions : Z }.
Record runReplay := mkReplay { rr_transactions : Z; rr_run : ChaosRun }.

Abbreviation runReplays := (gmap string runReplay).

Section api.
Context (uuid_Validate : string → bool) {JR : JSONDecoder chaosRunBody}.

Definition hasUUIDIdempotencyKey (req : http_request) : result problemBody () :=
  if uuid_Validate (idem_header req) then Ok ()
  else Err (problem req 400 problemIdempotencyKey "Idempotency-Key header must be a UUID").

Definition run_request (req : http_request) : result problemBody Z :=
  _ ← hasUUIDIdempotencyKey req;
  let bad := problem req 400 problemValidation "transactions must be an integer from 1 to 10000" in
  match DecodeJSON (http_body req) with
  | Err _ => Err bad
  | Ok body => if (rb_Transactions body <? 1) || (maxChaosTransactions <? rb_Transactions body) then Err bad
               else Ok (rb_Transactions body)
  end.

(** The lock is held across [Start], so a request is one step; [bytes] are newRunID's. *)
Definition handleStartChaosRun (req : http_request) (bytes : string) (replays : runReplays) (c : Lab)
    : answer ChaosRun * runReplays * Lab :=
  match run_request req with
  | Err p => (Problem p, replays, c)
  | Ok transactions =>
      match replays !! idem_header req with
      | Some prior =>
          (if negb (rr_transactions prior =? transactions) then
             Problem (problem req 422 "idempotency-key-mismatch" "Idempotency-Key was already used with a different request")
           else Answer 202 "" (rr_run prior), replays, c)
      | None =>
          match Start (newRunID bytes) transactions c with
          | (Err ErrRunInProgress, c) => (Problem (problem req 409 "conflict" "a chaos run is already in progress"), replays, c)
          | (Err ErrNotServing, c) => (Problem (problem req 500 problemInternal "could not start the chaos run"), replays, c)
          | (Ok run, c) => (Answer 202 "" run, <[idem_header req := mkReplay transactions run]> replays, c)
          end
      end
  end.

Definition handleListChaosRuns (req : http_request) (c : Lab) : answer (list (option ChaosRun)) :=
  answer_of (
    let raw := query_param req "limit" in
    if String.eqb raw "" then Ok (List_ defaultChaosRunLimit c)
    else
      let bad := problem req 400 problemValidation "limit must be an integer from 1 to 200" in
      match Atoi raw with
      | None => Err bad
      | Some n => if (n <? 1) || (maxChaosRunLimit <? n) then Err bad else Ok (List_ n c)
      end).

Definition handleGetChaosRun (req : http_request) (c : Lab) : answer ChaosRun :=
  answer_of (match Get_ (url_param req "runId") c with
             | Some run => Ok run
             | None => Err (problem req 404 problemNotFound "no such chaos run")
             end).

(** Requests one after another, the lab moving on between them. *)
Record post := mkPost { p_req : http_request; p_bytes : string; p_moves : Lab → Lab }.

Fixpoint serve_posts (l : list post) (replays : runReplays) (c : Lab) : list (string * answer ChaosRun) * runReplays :=
  match l with
  | [] => ([], replays)
  | p :: l =>
      let '(a, replays, c) := handleStartChaosRun (p_req p) (p_bytes p) replays c in
      let '(out, replays) := serve_posts l replays (p_moves p c) in
      ((idem_header (p_req p), a) :: out, replays)
  end.

Lemma start_remembers req bytes s c :
  let '(a, s', _) := handleStartChaosRun req bytes s c in
  (∀ k p, s !! k = Some p → s' !! k = Some p) ∧
  match a with
  | Answer _ _ run => ∃ n, s' !! idem_header req = Some (mkReplay n run)
  | Problem _ => True
  end.
Proof.
  unfold handleStartChaosRun. destruct (run_request req) as [n|p]; [|done].
  destruct (s !! idem_header req) as [[n' run]|] eqn:Es; cbn [rr_transactions rr_run].
  - split; [done|]. destruct (negb (n' =? n)); [done|by exists n'].
  - destruct (Start (newRunID bytes) n c) as [[run|[]] c']; [|done|done]. split.
    + intros k p Hk. rewrite lookup_insert_ne; [done|]. congruence.
    + exists n. by rewrite lookup_insert_eq.
Qed.

Lemma posts_remembered l s c k p loc st run :
  s !! k = Some p → (k, Answer st loc run) ∈ (serve_posts l s c).1 → run = rr_run p.
Proof.
  revert s c. induction l as [|x l IH]; intros s c Hk Hin; [by apply elem_of_nil in Hin|]. cbn [serve_posts] in Hin.
  pose proof (start_remembers (p_req x) (p_bytes x) s c) as Hx.
  destruct (handleStartChaosRun _ _ s c) as [[a s1] c1]. destruct Hx as [Hkeep Ha].
  specialize (IH s1 (p_moves x c1) (Hkeep _ _ Hk)). destruct (serve_posts l s1 _) as [out s2]. cbn [fst] in *.
  apply elem_of_cons in Hin as [[= -> <-]|Hin]; [|by apply IH].
  destruct Ha as [n Ha]. rewrite (Hkeep _ _ Hk) in Ha. by injection Ha as ->.
Qed.

Lemma posts_name_one l s c k st1 loc1 run1 st2 loc2 run2 :
  (k, Answer st1 loc1 run1) ∈ (serve_posts l s c).1 → (k, Answer st2 loc2 run2) ∈ (serve_posts l s c).1 → run1 = run2.
Proof.
  revert s c. induction l as [|x l IH]; intros s c H1 H2; [by apply elem_of_nil in H1|]. cbn [serve_posts] in H1, H2.
  pose proof (start_remembers (p_req x) (p_bytes x) s c) as Hx.
  destruct (handleStartChaosRun _ _ s c) as [[a s1] c1]. destruct Hx as [_ Ha].
  pose proof (posts_remembered l s1 (p_moves x c1)) as Hrest. specialize (IH s1 (p_moves x c1)).
  destruct (serve_posts l s1 _) as [out s2]. cbn [fst] in *.
  apply elem_of_cons in H1 as [[= E1 <-]|H1]; apply elem_of_cons in H2 as [[= E2 <-]|H2].
  - congruence.
  - subst k. destruct Ha as [n Ha]. symmetry. by apply (Hrest _ _ _ _ _ Ha H2).
  - subst k. destruct Ha as [n Ha]. by apply (Hrest _ _ _ _ _ Ha H1).
  - by apply IH.
Qed.
End api.

(** One Idempotency-Key names one chaos run: whatever requests come in whatever order, and
    however the runs move on between them, all the answers of a key that are not problems carry the
    same run, the one its first accepted request started. *)
Theorem key_names_one_run uuid_Validate (JR : JSONDecoder chaosRunBody) l c k st1 loc1 run1 st2 loc2 run2 :
  let out := (serve_posts uuid_Validate l ∅ c).1 in
  (k, Answer st1 loc1 run1) ∈ out → (k, Answer st2 loc2 run2) ∈ out → run1 = run2.
Proof. apply posts_name_one. Qed.

(** The runner works one run at a time, whatever calls of [Start] come at whatever moment and
    whatever stops a run: when it is left, only the active run lacks a verdict, no run is accepted
    while one is active, and every run listed exists. *)
Theorem one_run_at_a_time ListPending seedCards safDrainTimeout limit_text c cs :
  idle c →
  let c' := left_by (Serve ListPending seedCards safDrainTimeout limit_text c cs) in
  (∀ id r, runs c' !! id = Some r → is_final r = false → id = active c') ∧
  (active c' ≠ "" → ∀ id requested, ∃ e, Start id requested c' = (Err e, c')) ∧
  (∀ limit, Forall is_Some (List_ limit c')).
Proof.
  intros Hc c'. assert (Hok : runs_ok c').
  { apply (always_left any runs_ok _ (λ _, idle)); [apply any_all|by apply Serve_always|by intros u s [H _]]. }
  clearbody c'. destruct Hok as [Hi Hf _ Ho]. split_and!.
  - intros id r Hr Hn. destruct (decide (id = active c')) as [|Hne]; [done|]. by rewrite (Hf id r Hr Hne) in Hn.
  - intros Ha id requested. unfold Start. destruct (negb (serving c')); [by eexists|].
    rewrite (proj2 (String.eqb_neq _ _) Ha). by eexists.
  - intros limit. unfold List_. apply Forall_take, Forall_map. rewrite Forall_reverse. exact Ho.
Qed.

Definition nobody_listens : Lab := mkLab ∅ [] "" true Live 0 [] [].
Definition one_card : list (string * CardFixture) := [("tok-1", mkCard "9704000000000018" "2812" 5000000 "704" "ref-1")].
Definition queue_of (status : string) : DB :=
  mkDB ∅ 1 [] {[ 1 := mkSaf 1 1 "0420" "" status 0 20 0 "" 0 None ]} 2 ∅ 1 ∅ ∅.
Definition quiet (starts : list (string * Z)) (db : DB) (balance : Z) (txn : option Transaction) : beat :=
  mkBeat (Some db) txn (Some (balance, "704")) false starts false Live true 1 0.
Definition approved_txn : Transaction :=
  mkTransaction "626407000001" "000001" "PURCHASE" "APPROVED" "00" None (mkMoney 10000 "704") "970400******0018" "00000042"
    "" None 0 "" "" "" "".

(** A run of one purchase: the queue read empty, the opening balance, the purchase, the queue again,
    the closing balance. *)
Definition demo_beats (closing : Z) : list beat :=
  [quiet [] (queue_of sAcked) 0 None; quiet [] (queue_of sAcked) 50000 None; quiet [] (queue_of sAcked) 0 (Some approved_txn);
   quiet [("xy", 5)] (queue_of sAcked) 0 None; quiet [] (queue_of sAcked) closing None].

Definition demo_serve (closing : Z) : Lab :=
  left_by (Serve ListPending one_card defaultSafDrainTimeout "10m0s" nobody_listens
             (quiet [("ab", 1)] (queue_of sAcked) 0 None :: demo_beats closing)).

Example demo_passed :
  (λ r, (rStatus r, Completed r, rApproved r, LedgerDiscrepancy r)) <$> Get_ (newRunID "ab") (demo_serve 40000)
  = Some ("PASSED", 1, 1, 0) ∧ active (demo_serve 40000) = "".
Proof. split; vm_compute; reflexivity. Qed.

Example demo_mismatch :
  (λ r, (rStatus r, FailureKind r, LedgerDiscrepancy r)) <$> Get_ (newRunID "ab") (demo_serve 30000)
  = Some ("FAILED", Some "LEDGER_MISMATCH", -10000).
Proof. vm_compute; reflexivity. Qed.

Lemma nobody_idle : idle nobody_listens.
Proof. by split; [split|]. Qed.

Lemma one_run_at_a_time_witness :
  let c' := demo_serve 40000 in
  (∀ id r, runs c' !! id = Some r → is_final r = false → id = active c') ∧
  (active c' ≠ "" → ∀ id requested, ∃ e, Start id requested c' = (Err e, c')) ∧
  (∀ limit, Forall is_Some (List_ limit c')).
Proof.
  apply (one_run_at_a_time ListPending one_card defaultSafDrainTimeout "10m0s" nobody_listens _ nobody_idle).
Defined.

(** A run ends with its verdict, and the verdict is the money's.  From an accepted [Start], and
    whatever the queue, the issuer, the purchases and the context do, a long enough script finishes
    the run, which frees the runner.  Unless it ended [RUN_ERROR], the run read the issuer's balance
    of every seed card by its reference, then made every purchase asked for once, in order, under a
    key of its own, of a seed card and for the fixed amount, then read every balance again,
    with no other reading or purchase between; the counts are those of the purchases' answers; the
    opening and the closing totals are the sums of the balances the issuer gave, each reading in one
    currency as far as it is named; the discrepancy is what those balances moved by plus what was
    approved, as 64-bit integers; and the run passed exactly when it is 0. *)
Theorem verdict_follows_ledger ListPending seedCards safDrainTimeout limit_text bytes requested run c c1 cs :
  idle c → Start (newRunID bytes) requested c = (Ok run, c1) → 10 ≤ safDrainTimeout →
  (run_bound seedCards safDrainTimeout requested ≤ length cs)%nat →
  ∃ c' cs', drive ListPending seedCards safDrainTimeout limit_text (RunID run) requested c1 cs = Finished () c' cs' ∧
    active c' = "" ∧ ∃ r, runs c' !! RunID run = Some r ∧ judged seedCards (RunID run) requested (made c) (made c') r.
Proof.
  intros [Hok Ha] Hs Ht Hl.
  destruct (drive_within ListPending seedCards safDrainTimeout limit_text (RunID run) requested Ht c1 cs Hl)
    as ([] & c' & cs' & E & _). exists c', cs'. split; [exact E|].
  pose proof (Start_ok (newRunID bytes) requested c (newRunID_named bytes) Hok) as Hok1. rewrite Hs in Hok1. cbn [snd] in Hok1.
  unfold Start in Hs. rewrite Ha, String.eqb_refl in Hs. destruct (serving c); [|done]. cbn [negb] in Hs.
  injection Hs as <- <-. cbn [new_run RunID] in *.
  assert (H : always any runs_ok (drive ListPending seedCards safDrainTimeout limit_text (newRunID bytes) requested)
                (λ _, run_over seedCards (newRunID bytes) requested (made c))
                (mkLab (<[newRunID bytes := new_run (newRunID bytes) requested (clock c)]> (runs c))
                   (order c ++ [newRunID bytes]) (newRunID bytes) true Live (clock c) (made c) (told c))).
  { eapply drive_always; [|done]. split; [exact Hok1|done|done| |reflexivity].
    eexists. cbn [runs]. rewrite lookup_insert_eq. by split. }
  specialize (H cs (any_all cs)). rewrite E in H. by destruct H as [_ (_ & ? & ?)].
Qed.

Lemma verdict_follows_ledger_witness :
  let '(r, c1) := Start (newRunID "ab") 1 nobody_listens in
  (run_bound one_card defaultSafDrainTimeout 1 ≤ length (demo_beats 40000 ++ replicate 1000 (quiet [] (queue_of sDead) 0 None)))%nat ∧
  ∃ c' cs', drive ListPending one_card defaultSafDrainTimeout "10m0s" (newRunID "ab") 1 c1
              (demo_beats 40000 ++ replicate 1000 (quiet [] (queue_of sDead) 0 None)) = Finished () c' cs' ∧
    active c' = "" ∧ ∃ r, runs c' !! newRunID "ab" = Some r ∧ judged one_card (newRunID "ab") 1 [] (made c') r.
Proof.
  assert (Hb : (run_bound one_card defaultSafDrainTimeout 1
                ≤ length (demo_beats 40000 ++ replicate 1000 (quiet [] (queue_of sDead) 0 None)))%nat)
    by (apply Nat.leb_le; vm_compute; reflexivity).
  split; [exact Hb|].
  apply (verdict_follows_ledger ListPending one_card defaultSafDrainTimeout "10m0s" "ab" 1
           (new_run (newRunID "ab") 1 0) nobody_listens); [exact nobody_idle|reflexivity|done|exact Hb].
Defined.

(** ** What the drain waits for *)

Definition has_dead (db : DB) : Prop := ∃ id r, saf db !! id = Some r ∧ dead r = true.

Lemma dead_counted db l n : (ListPending db).1 = Ok (l, n) → (n = O ↔ ¬ has_dead db).
Proof.
  intros [= _ <-]. rewrite length_zero_iff_nil. split.
  - intros E (id & r & Hr & Hd). assert (Hin : List.In r (List.filter dead (map snd (by_id (saf db))))).
    { apply List.filter_In. split; [|done]. change r with (id, r).2. apply in_map, list_elem_of_In.
      unfold by_id. rewrite merge_sort_Permutation. by apply elem_of_map_to_list. }
    by rewrite E in Hin.
  - intros Hn. destruct (List.filter dead _) as [|r rs] eqn:E; [done|]. exfalso. apply Hn.
    assert (Hin : List.In r (List.filter dead (map snd (by_id (saf db))))) by (rewrite E; by left).
    apply List.filter_In in Hin as [Hin Hd]. apply in_map_iff in Hin as ([id r'] & <- & Hin).
    apply list_elem_of_In in Hin. unfold by_id in Hin. rewrite merge_sort_Permutation in Hin.
    exists id, r'. split; [by apply elem_of_map_to_list|exact Hd].
Qed.

Lemma look_dead b c seen now : (∀ db, b_db b = Some db → has_dead db) →
  ((if b_panic b then Err Panicked
    else match b_db b with
         | None => Ok None
         | Some db => match (ListPending db).1 with Ok (_, depth) => Ok (Some depth) | Err _ => Ok None end
         end), clock c) = (seen, now) → seen ≠ Ok (Some O).
Proof.
  intros Hb [= <- _]. destruct (b_panic b); [done|]. destruct (b_db b) as [db|] eqn:Eb; [|done].
  intros [= E]. apply (proj1 (dead_counted db _ _ eq_refl)); [exact E|by apply Hb].
Qed.

Lemma drain_stuck safDrainTimeout phase c :
  always (λ b, ∀ db, b_db b = Some db → has_dead db) (λ _, True) (waitForSafDrain ListPending safDrainTimeout phase)
    (λ r _, r ≠ Ok ()) c.
Proof.
  apply always_bind, always_gets, (always_forever _ _ (λ _ _, True)); [done| |done]. intros u s _.
  apply always_bind, always_act; [done|]. intros b [seen now] s2 Hb E. cbn zeta in E. injection E as E1 E2 <-.
  pose proof (look_dead b (elapse b s) seen now Hb ltac:(by rewrite <- E1, <- E2)) as Hseen.
  destruct seen as [depth|f]; [|by apply always_yield]. destruct depth as [[|n]|]; [done|..].
  all: destruct (_ <? now); [by apply always_yield|]; apply always_bind, always_act; [done|].
  all: intros b2 [] s3 _ _; by apply always_yield.
Qed.

(** With the queue's own ListPending, whose count is that of the DEAD rows, waitForSafDrain
    does not wait for the queue to empty.  It never succeeds while a row is dead-lettered, however
    long it polls and whatever else happens, so no run can start or be judged until an operator
    replays the row; and with none dead it succeeds at its first look, whatever is still owed to the
    issuer. *)
Theorem drain_waits_for_dead_letters safDrainTimeout phase c :
  (∀ cs c' cs', Forall (λ b, ∀ db, b_db b = Some db → has_dead db) cs →
     waitForSafDrain ListPending safDrainTimeout phase c cs ≠ Finished (Ok ()) c' cs') ∧
  (∀ b db cs, b_panic b = false → b_db b = Some db → ¬ has_dead db →
     waitForSafDrain ListPending safDrainTimeout phase c (b :: cs) = Finished (Ok ()) (elapse b c) cs).
Proof.
  split.
  - intros cs c' cs' Hcs E. pose proof (drain_stuck safDrainTimeout phase c cs Hcs) as H. rewrite E in H. by destruct H.
  - intros b db cs Hp Hb Hn. unfold waitForSafDrain, sbind, gets. rewrite forever_eq by apply drain_takes_choices.
    unfold drain_round, sbind, look, act. cbn zeta. rewrite Hp, Hb.
    pose proof (proj2 (dead_counted db _ _ eq_refl) Hn) as Hd.
    change ((ListPending db).1) with (@Ok error _ (List.filter owed (map snd (by_id (saf db))), length (List.filter dead (map snd (by_id (saf db)))))).
    cbv iota beta. by rewrite Hd.
Qed.

(** A row still owed to the issuer: the run begins at once. *)
Lemma drain_waits_for_dead_letters_witness :
  ListPending (queue_of sPending) = (Ok ([mkSaf 1 1 "0420" "" sPending 0 20 0 "" 0 None], 0%nat), queue_of sPending) ∧
  let b := quiet [] (queue_of sPending) 0 None in
  waitForSafDrain ListPending defaultSafDrainTimeout "before the run" nobody_listens [b]
  = Finished (Ok ()) (elapse b nobody_listens) [].
Proof.
  split; [vm_compute; reflexivity|].
  apply (proj2 (drain_waits_for_dead_letters defaultSafDrainTimeout "before the run" nobody_listens) _ (queue_of sPending));
    [reflexivity|reflexivity|].
  intros (id & r & Hr & Hd). cbn in Hr. apply lookup_singleton_Some in Hr as [_ <-]. discriminate Hd.
Defined.
