(* ===== verification/Scenario.v ===== *)
(** * Scenario: the chaos scenarios and the Toxiproxy client

    [gateway-go/internal/chaos]: scenario.go and toxiproxy_client.go, the scenario handlers of
    [api/chaos.go], and main.go's duplicate hook.  Toxiproxy is another program: the class [Toxiproxy]
    says what its admin API is documented to do, and the client is proved against it. *)

From S2P Require Import Prelude Digits Net Saf Lab Api.
From stdpp Require Import gmap strings.
Local Open Scope Z_scope.

(** ** scenario.go *)

Definition ScenarioSlowNetwork : string := "SLOW_NETWORK".
Definition ScenarioConnectionCut : string := "CONNECTION_CUT".
Definition ScenarioDropResponse : string := "DROP_RESPONSE".
Definition ScenarioDuplicateRequest : string := "DUPLICATE_REQUEST".
Definition ScenarioIssuerDown : string := "ISSUER_DOWN".
Definition ScenarioLateResponse : string := "LATE_RESPONSE".

Definition AllScenarios : list string :=
  [ScenarioSlowNetwork; ScenarioConnectionCut; ScenarioDropResponse; ScenarioDuplicateRequest; ScenarioIssuerDown;
   ScenarioLateResponse].

Record Scenario := mkScenario {
  sc_ID : string; Enabled : bool; Available : bool; EasyText : string; TechnicalText : string }.

Definition scenarioText : gmap string (string * string) := list_to_map [
  (ScenarioSlowNetwork, ("The network gets slow.", "3000ms latency toxic on the issuer link."));
  (ScenarioConnectionCut, ("The connection drops mid-transaction.", "reset_peer toxic on the issuer link."));
  (ScenarioDropResponse, ("The issuer's reply never arrives.",
     "Repoints the issuer link at a fake-issuer simulator that accepts the request and never replies."));
  (ScenarioDuplicateRequest, ("The same payment is sent twice.", "The gateway sends the same 0200 twice with the same STAN."));
  (ScenarioIssuerDown, ("The issuer is completely unreachable.", "reset_peer toxic on the whole issuer link."));
  (ScenarioLateResponse, ("The reply arrives after we've given up.", "latency toxic exceeding the 30s request timeout."))].

(** ** The admin API *)

Inductive payload :=
  | NoBody
  | ToxicBody (name type stream : string) (attributes : list (string * Z))
  | UpstreamBody (upstream : string).

Record admin_request := mkAdmin { ar_method : string; ar_url : string; ar_body : payload }.

(** The status, and what the body decodes to: the names of a list of toxics, the upstream of a
    proxy. *)
Record admin_response := mkAnswer { as_status : Z; as_names : option (list string); as_upstream : option string }.

Definition streamDownstream : string := "downstream".
Definition toxicLatency : string := "latency".

Definition toxicName (id : string) : string := "chaos-" +:+ id.

Record toxicSpec := mkSpec { toxicType : string; stream : string; attrs : list (string * Z) }.

Definition specFor (id : string) : option toxicSpec :=
  if String.eqb id ScenarioSlowNetwork then
    Some (mkSpec toxicLatency streamDownstream [(toxicLatency, 3000); ("jitter", 0)])
  else if String.eqb id ScenarioConnectionCut || String.eqb id ScenarioIssuerDown then
    Some (mkSpec "reset_peer" streamDownstream [("timeout", 0)])
  else if String.eqb id ScenarioLateResponse then
    Some (mkSpec toxicLatency streamDownstream [(toxicLatency, 35000); ("jitter", 0)])
  else None.

Record ToxiproxyClient := mkClient {
  adminAddr : string; proxyName : string; dropResponseAddr : string; realIssuerAddr : string;
  localState : gmap string bool }.

(** [NewToxiproxyClient], with [WithDropResponseAddr] or without it (""). *)
Definition NewToxiproxyClient (adminAddr proxyName dropAddr : string) : ToxiproxyClient :=
  mkClient adminAddr proxyName dropAddr "" ∅.

Definition proxyURL (c : ToxiproxyClient) : string := adminAddr c +:+ "/proxies/" +:+ proxyName c.
Definition toxicsURL (c : ToxiproxyClient) : string := adminAddr c +:+ "/proxies/" +:+ proxyName c +:+ "/toxics".

(** What fails: [what] is the text before the colon. *)
Inductive toxi_error :=
  | ErrScenarioNotImplemented
  | NotSent (what : string)
  | BadStatus (what : string) (status : Z)
  | NotDecoded (what : string)
  | Disabling (id : string) (e : toxi_error).

(** [errors.Is(err, ErrScenarioNotImplemented)]. *)
Fixpoint not_implemented (e : toxi_error) : bool :=
  match e with ErrScenarioNotImplemented => true | Disabling _ e => not_implemented e | _ => false end.

(** Toxiproxy, as the client's own proxy shows it: its toxics and its upstream.  What is documented
    of an answer, and that a request touches nothing but what it names. *)
Class Toxiproxy (T : Type) := {
  Do : admin_request → T → option admin_response * T;
  toxics : T → gset string;
  upstream : T → string
}.

Class ToxiproxyLaws (T : Type) `{Toxiproxy T} (admin proxy : string) := {
  add_law name type stream attrs t :
    let c := mkClient admin proxy "" "" ∅ in
    let '(r, t') := Do (mkAdmin "POST" (toxicsURL c) (ToxicBody name type stream attrs)) t in
    upstream t' = upstream t ∧ (∀ x, x ≠ name → x ∈ toxics t' ↔ x ∈ toxics t) ∧
    (∀ a, r = Some a → as_status a < 300 ∨ as_status a = 409 → name ∈ toxics t');
  remove_law name t :
    let c := mkClient admin proxy "" "" ∅ in
    let '(r, t') := Do (mkAdmin "DELETE" (toxicsURL c +:+ "/" +:+ name) NoBody) t in
    upstream t' = upstream t ∧ (∀ x, x ≠ name → x ∈ toxics t' ↔ x ∈ toxics t) ∧
    (∀ a, r = Some a → as_status a < 300 ∨ as_status a = 404 → name ∉ toxics t');
  list_law t :
    let c := mkClient admin proxy "" "" ∅ in
    let '(r, t') := Do (mkAdmin "GET" (toxicsURL c) NoBody) t in
    upstream t' = upstream t ∧ toxics t' = toxics t ∧
    (∀ a names, r = Some a → as_status a < 300 → as_names a = Some names → list_to_set names = toxics t);
  get_law t :
    let c := mkClient admin proxy "" "" ∅ in
    let '(r, t') := Do (mkAdmin "GET" (proxyURL c) NoBody) t in
    upstream t' = upstream t ∧ toxics t' = toxics t ∧
    (∀ a u, r = Some a → as_status a < 300 → as_upstream a = Some u → u = upstream t);
  update_law u t :
    let c := mkClient admin proxy "" "" ∅ in
    let '(r, t') := Do (mkAdmin "POST" (proxyURL c) (UpstreamBody u)) t in
    toxics t' = toxics t ∧ (upstream t' = upstream t ∨ upstream t' = u) ∧
    (∀ a, r = Some a → as_status a < 300 → upstream t' = u)
}.

(** ** toxiproxy_client.go *)

Section client.
Context {T : Type} `{Toxiproxy T}.

(** The client's methods: its own state and Toxiproxy's pass through. *)
Definition admin (A : Type) : Type := ToxiproxyClient → T → result toxi_error A * ToxiproxyClient * T.

(** The request, and its error handling: [fine] says which statuses are taken. *)
Definition send (what : string) (fine : Z → bool) (req : admin_request) (t : T) : result toxi_error admin_response * T :=
  match Do req t with
  | (None, t) => (Err (NotSent what), t)
  | (Some a, t) => (if fine (as_status a) then Ok a else Err (BadStatus what (as_status a)), t)
  end.

Definition addToxic (id : string) (spec : toxicSpec) : admin () := λ c t,
  match send ("add toxic " +:+ id) (λ s, (s <? 300) || (s =? 409))
          (mkAdmin "POST" (toxicsURL c) (ToxicBody (toxicName id) (toxicType spec) (stream spec) (attrs spec))) t with
  | (Ok _, t) => (Ok (), c, t)
  | (Err e, t) => (Err e, c, t)
  end.

Definition removeToxic (id : string) : admin () := λ c t,
  match send ("remove toxic " +:+ id) (λ s, (s <? 300) || (s =? 404))
          (mkAdmin "DELETE" (toxicsURL c +:+ "/" +:+ toxicName id) NoBody) t with
  | (Ok _, t) => (Ok (), c, t)
  | (Err e, t) => (Err e, c, t)
  end.

(** The map of the active names, [true] for each. *)
Definition activeToxicNames : admin (gset string) := λ c t,
  match send "list toxics" (λ s, s <? 300) (mkAdmin "GET" (toxicsURL c) NoBody) t with
  | (Err e, t) => (Err e, c, t)
  | (Ok a, t) => (match as_names a with Some names => Ok (list_to_set names) | None => Err (NotDecoded "decode toxics") end, c, t)
  end.

Definition currentUpstream : admin string := λ c t,
  match send ("get proxy " +:+ proxyName c) (λ s, s <? 300) (mkAdmin "GET" (proxyURL c) NoBody) t with
  | (Err e, t) => (Err e, c, t)
  | (Ok a, t) => (match as_upstream a with Some u => Ok u | None => Err (NotDecoded ("decode proxy " +:+ proxyName c)) end, c, t)
  end.

Definition updateUpstream (up : string) : admin () := λ c t,
  match send ("update proxy " +:+ proxyName c +:+ " upstream") (λ s, s <? 300) (mkAdmin "POST" (proxyURL c) (UpstreamBody up)) t with
  | (Ok _, t) => (Ok (), c, t)
  | (Err e, t) => (Err e, c, t)
  end.

Definition remember (current : string) (c : ToxiproxyClient) : ToxiproxyClient :=
  mkClient (adminAddr c) (proxyName c) (dropResponseAddr c) current (localState c).

Definition record (id : string) (enabled : bool) (c : ToxiproxyClient) : ToxiproxyClient :=
  mkClient (adminAddr c) (proxyName c) (dropResponseAddr c) (realIssuerAddr c) (<[id := enabled]> (localState c)).

Definition setDropResponse (enabled : bool) : admin () := λ c t,
  if negb enabled then
    if String.eqb (realIssuerAddr c) "" then (Ok (), c, t)
    else updateUpstream (realIssuerAddr c) c t
  else if String.eqb (realIssuerAddr c) "" then
    match currentUpstream c t with
    | (Err e, c, t) => (Err e, c, t)
    | (Ok current, c, t) => let c := remember current c in updateUpstream (dropResponseAddr c) c t
    end
  else updateUpstream (dropResponseAddr c) c t.

Definition SetScenario (id : string) (enabled : bool) : admin () := λ c t,
  if String.eqb id ScenarioDropResponse then
    if String.eqb (dropResponseAddr c) "" then
      if enabled then (Err ErrScenarioNotImplemented, c, t) else (Ok (), record id false c, t)
    else match setDropResponse enabled c t with
         | (Err e, c, t) => (Err e, c, t)
         | (Ok _, c, t) => (Ok (), record id enabled c, t)
         end
  else match specFor id with
       | None => (Ok (), record id enabled c, t)
       | Some spec => if enabled then addToxic id spec c t else removeToxic id c t
       end.

Fixpoint disable_loop (ids : list string) : admin () := λ c t,
  match ids with
  | [] => (Ok (), c, t)
  | id :: ids =>
      match SetScenario id false c t with
      | (Err e, c, t) => (Err (Disabling id e), c, t)
      | (Ok _, c, t) => disable_loop ids c t
      end
  end.

Definition DisableAll : admin () := disable_loop AllScenarios.

Definition has_toxic (id : string) : bool := match specFor id with Some _ => true | None => false end.

(** The loop's body: [localState[id]] is false when unset. *)
Definition scenario_of (c : ToxiproxyClient) (active : gset string) (id : string) : Scenario :=
  let text := default ("", "") (scenarioText !! id) in
  mkScenario id
    (if has_toxic id then bool_decide (toxicName id ∈ active) else default false (localState c !! id))
    (negb (String.eqb id ScenarioDropResponse) || negb (String.eqb (dropResponseAddr c) "")) text.1 text.2.

Definition ListScenarios : admin (list Scenario) := λ c t,
  match activeToxicNames c t with
  | (Err e, c, t) => (Err e, c, t)
  | (Ok active, c, t) => (Ok (map (scenario_of c active) AllScenarios), c, t)
  end.

(** ** api/chaos.go: the scenarios; main.go: the duplicate hook *)

Definition knownScenario (id : string) : bool := existsb (String.eqb id) AllScenarios.

Definition scenarioState (id : string) : admin Scenario := λ c t,
  match ListScenarios c t with
  | (Err e, c, t) => (Err e, c, t)
  | (Ok scenarios, c, t) =>
      (Ok (default (mkScenario id false false "" "") (List.find (λ s, String.eqb (sc_ID s) id) scenarios)), c, t)
  end.

Definition handleListChaosScenarios (req : http_request) (c : ToxiproxyClient) (t : T)
    : answer (list Scenario) * ToxiproxyClient * T :=
  match ListScenarios c t with
  | (Err _, c, t) => (Problem (problem req 500 problemInternal "could not read chaos scenario state"), c, t)
  | (Ok scenarios, c, t) => (writeJSONBody 200 scenarios, c, t)
  end.

(** The body's [enabled]: [None] when it does not decode or is missing. *)
Definition handleSetChaosScenario (uuid_Validate : string → bool) (enabled_of : string → option bool) (req : http_request)
    (c : ToxiproxyClient) (t : T) : answer Scenario * ToxiproxyClient * T :=
  if negb (uuid_Validate (idem_header req)) then
    (Problem (problem req 400 problemIdempotencyKey "Idempotency-Key header must be a UUID"), c, t)
  else
    let id := url_param req "scenarioId" in
    if negb (knownScenario id) then (Problem (problem req 404 problemNotFound "no such chaos scenario"), c, t)
    else match enabled_of (http_body req) with
         | None => (Problem (problem req 400 problemValidation ("body must be {" +:+ Quote "enabled" +:+ ": true|false}")), c, t)
         | Some enabled =>
             match SetScenario id enabled c t with
             | (Err e, c, t) =>
                 (Problem (if not_implemented e then
                             problem req 501 "scenario-unavailable" ("this stack cannot run " +:+ id +:+ " (no fake issuer configured)")
                           else problem req 500 problemInternal "could not apply the chaos scenario"), c, t)
             | (Ok _, c, t) =>
                 match scenarioState id c t with
                 | (Err _, c, t) => (Problem (problem req 500 problemInternal "could not read chaos scenario state"), c, t)
                 | (Ok updated, c, t) => (writeJSONBody 200 updated, c, t)
                 end
             end
         end.

(** What purchase.Service asks before each send. *)
Definition newChaosDuplicateHook (c : ToxiproxyClient) (t : T) : bool * ToxiproxyClient * T :=
  match ListScenarios c t with
  | (Err _, c, t) => (false, c, t)
  | (Ok scenarios, c, t) =>
      (match List.find (λ s, String.eqb (sc_ID s) ScenarioDuplicateRequest) scenarios with
       | Some s => Enabled s
       | None => false
       end, c, t)
  end.
End client.

(** ** Toggling *)

Lemma toxicName_inj a b : toxicName a = toxicName b → a = b.
Proof. intros E. by injection E. Qed.

Lemma AllScenarios_NoDup : NoDup AllScenarios.
Proof. apply (bool_decide_unpack _). vm_compute. exact I. Qed.

Lemma find_scenario c active id ids : id ∈ ids →
  List.find (λ s, String.eqb (sc_ID s) id) (map (scenario_of c active) ids) = Some (scenario_of c active id).
Proof.
  induction ids as [|x ids IH]; intros Hin; [by apply elem_of_nil in Hin|]. cbn [map List.find scenario_of sc_ID].
  destruct (String.eqb_spec x id) as [->|Hne]; [done|]. apply IH. by apply elem_of_cons in Hin as [->|?].
Qed.

Section toggling.
Context {T : Type} `{Toxiproxy T} (admin proxy : string) `{!ToxiproxyLaws T admin proxy}.

Definition talks_to (c : ToxiproxyClient) : Prop := adminAddr c = admin ∧ proxyName c = proxy.

(** Scenario [id] is on, at Toxiproxy or in the client. *)
Definition is_on (c : ToxiproxyClient) (t : T) (id : string) : bool :=
  if has_toxic id then bool_decide (toxicName id ∈ toxics t) else default false (localState c !! id).

Lemma toxicsURL_eq c : talks_to c → toxicsURL c = toxicsURL (mkClient admin proxy "" "" ∅).
Proof. intros [E1 E2]. unfold toxicsURL. by rewrite E1, E2. Qed.

Lemma proxyURL_eq c : talks_to c → proxyURL c = proxyURL (mkClient admin proxy "" "" ∅).
Proof. intros [E1 E2]. unfold proxyURL. by rewrite E1, E2. Qed.

(** What each request does, whatever the answer, and when it is taken. *)
Lemma addToxic_does id spec c t : talks_to c →
  let '(r, c', t') := addToxic id spec c t in
  c' = c ∧ upstream t' = upstream t ∧ (∀ x, x ≠ toxicName id → x ∈ toxics t' ↔ x ∈ toxics t) ∧
  (r = Ok () → toxicName id ∈ toxics t').
Proof.
  intros Hc. unfold addToxic, send. rewrite (toxicsURL_eq c Hc).
  pose proof (add_law (toxicName id) (toxicType spec) (stream spec) (attrs spec) t) as H1. cbv zeta in H1.
  destruct (Do _ t) as [[a|] t']; destruct H1 as (Hu & Hx & Ha); [|by split_and!].
  destruct (Z.ltb_spec (as_status a) 300) as [Hs|Hs]; [split_and!; [done..|intros _; apply (Ha a eq_refl); by left]|].
  destruct (Z.eqb_spec (as_status a) 409) as [Hs'|Hs']; [|by split_and!]. split_and!; [done..|intros _; apply (Ha a eq_refl); by right].
Qed.

Lemma removeToxic_does id c t : talks_to c →
  let '(r, c', t') := removeToxic id c t in
  c' = c ∧ upstream t' = upstream t ∧ (∀ x, x ≠ toxicName id → x ∈ toxics t' ↔ x ∈ toxics t) ∧
  (r = Ok () → toxicName id ∉ toxics t').
Proof.
  intros Hc. unfold removeToxic, send. rewrite (toxicsURL_eq c Hc).
  pose proof (remove_law (toxicName id) t) as H1. cbv zeta in H1.
  destruct (Do _ t) as [[a|] t']; destruct H1 as (Hu & Hx & Ha); [|by split_and!].
  destruct (Z.ltb_spec (as_status a) 300) as [Hs|Hs]; [split_and!; [done..|intros _; apply (Ha a eq_refl); by left]|].
  destruct (Z.eqb_spec (as_status a) 404) as [Hs'|Hs']; [|by split_and!]. split_and!; [done..|intros _; apply (Ha a eq_refl); by right].
Qed.

Lemma activeToxicNames_does c t : talks_to c →
  let '(r, c', t') := activeToxicNames c t in
  c' = c ∧ upstream t' = upstream t ∧ toxics t' = toxics t ∧ (∀ s, r = Ok s → s = toxics t).
Proof.
  intros Hc. unfold activeToxicNames, send. rewrite (toxicsURL_eq c Hc). pose proof (list_law t) as H1. cbv zeta in H1.
  destruct (Do _ t) as [[a|] t']; destruct H1 as (Hu & Hx & Ha); [|by split_and!].
  destruct (Z.ltb_spec (as_status a) 300); [|by split_and!]. destruct (as_names a) as [names|] eqn:En; split_and!; try done.
  intros s [= <-]. by apply (Ha a names).
Qed.

Lemma currentUpstream_does c t : talks_to c →
  let '(r, c', t') := currentUpstream c t in
  c' = c ∧ upstream t' = upstream t ∧ toxics t' = toxics t ∧ (∀ u, r = Ok u → u = upstream t).
Proof.
  intros Hc. unfold currentUpstream, send. rewrite (proxyURL_eq c Hc). pose proof (get_law t) as H1. cbv zeta in H1.
  destruct (Do _ t) as [[a|] t']; destruct H1 as (Hu & Hx & Ha); [|by split_and!].
  destruct (Z.ltb_spec (as_status a) 300); [|by split_and!]. destruct (as_upstream a) as [u|] eqn:En; split_and!; try done.
  intros s [= <-]. by apply (Ha a u).
Qed.

Lemma updateUpstream_does u c t : talks_to c →
  let '(r, c', t') := updateUpstream u c t in
  c' = c ∧ toxics t' = toxics t ∧ (upstream t' = upstream t ∨ upstream t' = u) ∧ (r = Ok () → upstream t' = u).
Proof.
  intros Hc. unfold updateUpstream, send. rewrite (proxyURL_eq c Hc). pose proof (update_law u t) as H1. cbv zeta in H1.
  destruct (Do _ t) as [[a|] t']; destruct H1 as (Hx & Hu & Ha); [|by split_and!].
  destruct (Z.ltb_spec (as_status a) 300); split_and!; try done. intros _. by apply (Ha a).
Qed.

(** The list read back is the state. *)
Lemma ListScenarios_does c t c' t' l : talks_to c → ListScenarios c t = (Ok l, c', t') →
  l = map (scenario_of c (toxics t)) AllScenarios ∧ c' = c ∧ toxics t' = toxics t.
Proof.
  intros Hc E. unfold ListScenarios in E. pose proof (activeToxicNames_does c t Hc) as Ha.
  destruct (activeToxicNames c t) as [[[a|e] c1] t1]; [|done]. destruct Ha as (-> & _ & Ht & Ha).
  injection E as <- <- <-. by rewrite (Ha a eq_refl).
Qed.

Lemma drop_is_local : has_toxic ScenarioDropResponse = false.
Proof. reflexivity. Qed.

Lemma is_on_toxics c c' t t' x : localState c' = localState c →
  (toxicName x ∈ toxics t' ↔ toxicName x ∈ toxics t) → is_on c' t' x = is_on c t x.
Proof. intros E Hx. unfold is_on. rewrite E. destruct (has_toxic x); [by apply bool_decide_ext|done]. Qed.

Lemma is_on_record id on c t x : talks_to c → x ≠ id → is_on (record id on c) t x = is_on c t x.
Proof. intros _ Hx. unfold is_on, record. cbn [localState]. by rewrite lookup_insert_ne. Qed.

Lemma is_on_recorded id on c t : has_toxic id = false → is_on (record id on c) t id = on.
Proof. intros Hl. unfold is_on, record. rewrite Hl. cbn [localState]. by rewrite lookup_insert_eq. Qed.

Lemma setDropResponse_does on c t : talks_to c →
  let '(_, c', t') := setDropResponse on c t in
  talks_to c' ∧ dropResponseAddr c' = dropResponseAddr c ∧ localState c' = localState c ∧ toxics t' = toxics t.
Proof.
  intros Hc. unfold setDropResponse.
  assert (Hup : ∀ u c t, talks_to c → let '(_, c', t') := updateUpstream u c t in
    talks_to c' ∧ dropResponseAddr c' = dropResponseAddr c ∧ localState c' = localState c ∧ toxics t' = toxics t).
  { intros u c1 t1 Hc1. pose proof (updateUpstream_does u c1 t1 Hc1) as Hu. destruct (updateUpstream u c1 t1) as [[r c2] t2].
    by destruct Hu as (-> & Hx & _). }
  destruct on; cbn [negb]; (destruct (String.eqb (realIssuerAddr c) ""); [|by apply Hup]); [|done].
  pose proof (currentUpstream_does c t Hc) as H1. destruct (currentUpstream c t) as [[[cur|e] c1] t1];
    destruct H1 as (-> & _ & Hx & _); [|done]. specialize (Hup (dropResponseAddr c) (remember cur c) t1 Hc).
  destruct (updateUpstream _ _ t1) as [[r c2] t2]. destruct Hup as (H2 & H3 & H4 & H5).
  split_and!; [done|exact H3|exact H4|congruence].
Qed.

(** A toggle that is taken sets its scenario, and no toggle touches another one. *)
Lemma SetScenario_does id on c t : talks_to c →
  let '(r, c', t') := SetScenario id on c t in
  talks_to c' ∧ dropResponseAddr c' = dropResponseAddr c ∧
  (∀ x, x ≠ id → is_on c' t' x = is_on c t x) ∧ (r = Ok () → is_on c' t' id = on).
Proof.
  intros Hc. unfold SetScenario. destruct (String.eqb_spec id ScenarioDropResponse) as [->|Hid].
  - destruct (String.eqb (dropResponseAddr c) "").
    + destruct on; [by split_and!|]. split_and!; [done|done|intros; by apply is_on_record|intros _; by apply is_on_recorded].
    + pose proof (setDropResponse_does on c t Hc) as H1. destruct (setDropResponse on c t) as [[[u|e] c1] t1];
        destruct H1 as (Hc1 & Hd & Hl & Hx).
      * split_and!; [done|done| |intros _; by apply is_on_recorded].
        intros x Hne. rewrite is_on_record by done. apply is_on_toxics; [done|by rewrite Hx].
      * split_and!; [done|done| |done]. intros x _. apply is_on_toxics; [done|by rewrite Hx].
  - destruct (specFor id) as [spec|] eqn:Es.
    + assert (Hh : has_toxic id = true) by (unfold has_toxic; by rewrite Es). destruct on.
      * pose proof (addToxic_does id spec c t Hc) as H1. destruct (addToxic id spec c t) as [[r c1] t1].
        destruct H1 as (-> & _ & Hx & Hr). split_and!; [done|done| |].
        -- intros x Hne. apply is_on_toxics; [done|]. apply Hx. intros E. by apply toxicName_inj in E.
        -- intros Er. unfold is_on. rewrite Hh. apply bool_decide_eq_true. by apply Hr.
      * pose proof (removeToxic_does id c t Hc) as H1. destruct (removeToxic id c t) as [[r c1] t1].
        destruct H1 as (-> & _ & Hx & Hr). split_and!; [done|done| |].
        -- intros x Hne. apply is_on_toxics; [done|]. apply Hx. intros E. by apply toxicName_inj in E.
        -- intros Er. unfold is_on. rewrite Hh. apply bool_decide_eq_false. by apply Hr.
    + split_and!; [done|done|intros; by apply is_on_record|intros _; apply is_on_recorded; unfold has_toxic; by rewrite Es].
Qed.

Lemma disable_loop_does ids c t : talks_to c → NoDup ids →
  let '(r, c', t') := disable_loop ids c t in
  talks_to c' ∧ dropResponseAddr c' = dropResponseAddr c ∧
  (∀ x, x ∉ ids → is_on c' t' x = is_on c t x) ∧ (r = Ok () → ∀ x, x ∈ ids → is_on c' t' x = false).
Proof.
  revert c t. induction ids as [|id ids IH]; intros c t Hc Hn; cbn [disable_loop].
  { split_and!; [done|done|done|]. intros _ x Hx. by apply elem_of_nil in Hx. }
  apply NoDup_cons in Hn as [Hid Hn]. pose proof (SetScenario_does id false c t Hc) as H1.
  destruct (SetScenario id false c t) as [[[u|e] c1] t1]; destruct H1 as (Hc1 & Hd & Hx & Hs).
  - specialize (IH c1 t1 Hc1 Hn). destruct (disable_loop ids c1 t1) as [[r c2] t2]. destruct IH as (Hc2 & Hd2 & Hx2 & Hs2).
    split_and!; [done|congruence| |].
    + intros x [Hne Hni]%not_elem_of_cons. rewrite Hx2 by done. by apply Hx.
    + intros Hr x [->|Hin]%elem_of_cons; [|by apply Hs2]. rewrite Hx2 by done. destruct u. by apply Hs.
  - split_and!; [done|done| |done]. intros x [Hne _]%not_elem_of_cons. by apply Hx.
Qed.

(** *** The issuer's address *)

(** Toxiproxy's upstream in a process that found [r] there: [r], or the fake issuer once [r] is
    remembered. *)
Definition repointed (r : string) (c : ToxiproxyClient) (t : T) : Prop :=
  (realIssuerAddr c = "" ∧ upstream t = r) ∨
  (realIssuerAddr c = r ∧ (upstream t = r ∨ upstream t = dropResponseAddr c)).

Lemma setDropResponse_upstream on c t r : talks_to c → r ≠ "" → repointed r c t →
  let '(res, c', t') := setDropResponse on c t in
  repointed r c' t' ∧ (res = Ok () → upstream t' = if on then dropResponseAddr c else r).
Proof.
  intros Hc Hr Hrep. unfold setDropResponse.
  assert (Hup : ∀ u c t, talks_to c → realIssuerAddr c = r → upstream t = r ∨ upstream t = dropResponseAddr c →
    u = r ∨ u = dropResponseAddr c →
    let '(res, c', t') := updateUpstream u c t in repointed r c' t' ∧ (res = Ok () → upstream t' = u)).
  { intros u c1 t1 Hc1 Hreal Hu Hval. pose proof (updateUpstream_does u c1 t1 Hc1) as H1.
    destruct (updateUpstream u c1 t1) as [[res c2] t2]. destruct H1 as (-> & _ & Hor & Hok). split; [|done].
    right. split; [done|]. destruct Hor as [->| ->]; [done|]. by destruct Hval; auto. }
  destruct (String.eqb_spec (realIssuerAddr c) "") as [E|E].
  - destruct Hrep as [[_ Hu]|[Hreal _]]; [|congruence]. destruct on; cbn [negb]; [|split; [by left|done]].
    pose proof (currentUpstream_does c t Hc) as H1. destruct (currentUpstream c t) as [[[cur|e] c1] t1];
      destruct H1 as (-> & Hu1 & _ & Hcur); [|split; [left; split; [done|congruence]|done]].
    rewrite (Hcur cur eq_refl), Hu. apply Hup; [done|done|left; congruence|by right].
  - destruct Hrep as [[Hreal _]|[Hreal Hu]]; [done|]. rewrite Hreal. destruct on; cbn [negb]; apply Hup; auto.
Qed.

Lemma SetScenario_upstream id on c t r : talks_to c → r ≠ "" → repointed r c t →
  let '(res, c', t') := SetScenario id on c t in
  repointed r c' t' ∧
  (id = ScenarioDropResponse → dropResponseAddr c ≠ "" → res = Ok () → upstream t' = if on then dropResponseAddr c else r).
Proof.
  intros Hc Hr Hrep. unfold SetScenario. destruct (String.eqb_spec id ScenarioDropResponse) as [->|Hid].
  - destruct (String.eqb_spec (dropResponseAddr c) ""); [by destruct on|].
    pose proof (setDropResponse_upstream on c t r Hc Hr Hrep) as H1.
    destruct (setDropResponse on c t) as [[[u|e] c1] t1]; destruct H1 as [Hrep1 Hok]; (split; [exact Hrep1|]); [|done].
    intros _ _ _. destruct u. by apply Hok.
  - destruct (specFor id) as [spec|]; [|by split]. destruct on.
    + pose proof (addToxic_does id spec c t Hc) as H1. destruct (addToxic id spec c t) as [[res c1] t1].
      destruct H1 as (-> & Hu & _). split; [|done]. unfold repointed. by rewrite Hu.
    + pose proof (removeToxic_does id c t Hc) as H1. destruct (removeToxic id c t) as [[res c1] t1].
      destruct H1 as (-> & Hu & _). split; [|done]. unfold repointed. by rewrite Hu.
Qed.

Lemma disable_loop_upstream ids c t r : talks_to c → r ≠ "" → repointed r c t →
  let '(_, c', t') := disable_loop ids c t in repointed r c' t'.
Proof.
  revert c t. induction ids as [|id ids IH]; intros c t Hc Hr Hrep; cbn [disable_loop]; [done|].
  pose proof (SetScenario_upstream id false c t r Hc Hr Hrep) as H1. pose proof (SetScenario_does id false c t Hc) as H2.
  destruct (SetScenario id false c t) as [[[u|e] c1] t1]; destruct H1 as [H1 _], H2 as [H2 _]; [|done]. by apply IH.
Qed.
End toggling.

(** Any toggles, whatever becomes of them. *)
Fixpoint toggle_all {T} `{Toxiproxy T} (l : list (string * bool)) (c : ToxiproxyClient) (t : T) : ToxiproxyClient * T :=
  match l with
  | [] => (c, t)
  | (id, on) :: l => let '(_, c, t) := SetScenario id on c t in toggle_all l c t
  end.

Lemma toggle_all_upstream {T} `{Toxiproxy T} admin proxy `{!ToxiproxyLaws T admin proxy} l c t r :
  talks_to admin proxy c → r ≠ "" → repointed r c t →
  let '(c', t') := toggle_all l c t in
  talks_to admin proxy c' ∧ repointed r c' t' ∧ dropResponseAddr c' = dropResponseAddr c.
Proof.
  revert c t. induction l as [|[id on] l IH]; intros c t Hc Hr Hrep; cbn [toggle_all]; [done|].
  pose proof (SetScenario_upstream admin proxy id on c t r Hc Hr Hrep) as H1.
  pose proof (SetScenario_does admin proxy id on c t Hc) as H2.
  destruct (SetScenario id on c t) as [[res c1] t1]. destruct H1 as [H1 _], H2 as (H2 & H3 & _).
  specialize (IH c1 t1 H2 Hr H1). destruct (toggle_all l c1 t1) as [c2 t2]. by rewrite <- H3.
Qed.

(** ** A Toxiproxy that answers every request *)

Definition demo_client (dropAddr : string) : ToxiproxyClient := NewToxiproxyClient "http://toxiproxy:8474" "issuer" dropAddr.

Definition demo_Do (req : admin_request) (t : gset string * string) : option admin_response * (gset string * string) :=
  let here := demo_client "" in
  match ar_body req with
  | ToxicBody name _ _ _ =>
      if bool_decide (name ∈ t.1) then (Some (mkAnswer 409 None None), t)
      else (Some (mkAnswer 200 None None), ({[name]} ∪ t.1, t.2))
  | UpstreamBody u => (Some (mkAnswer 200 None (Some u)), (t.1, u))
  | NoBody =>
      if String.eqb (ar_method req) "DELETE" then
        let name := str_drop (slen (toxicsURL here +:+ "/")) (ar_url req) in
        (Some (mkAnswer (if bool_decide (name ∈ t.1) then 204 else 404) None None), (t.1 ∖ {[name]}, t.2))
      else if String.eqb (ar_url req) (proxyURL here) then (Some (mkAnswer 200 None (Some t.2)), t)
      else (Some (mkAnswer 200 (Some (elements t.1)) None), t)
  end.

Definition demo_toxiproxy : Toxiproxy (gset string * string) := {| Do := demo_Do; toxics := fst; upstream := snd |}.

Lemma demo_laws : @ToxiproxyLaws (gset string * string) demo_toxiproxy "http://toxiproxy:8474" "issuer".
Proof.
  split; cbn -[String.append slen str_drop gset]; unfold demo_Do; cbn [ar_body ar_method ar_url].
  - intros name type stream attrs [ts up]. cbn [fst snd]. case_bool_decide as Hin; cbn [fst snd]; split_and!; try done; set_solver.
  - intros name [ts up]. change (String.eqb "DELETE" "DELETE") with true. cbv iota.
    set (p := toxicsURL (demo_client "") +:+ "/").
    change (toxicsURL _ +:+ "/" +:+ name) with (p +:+ name). rewrite str_drop_app. cbn [fst snd]. split_and!; [done|set_solver|].
    intros _ _ _. set_solver.
  - intros [ts up]. change (String.eqb "GET" "DELETE") with false.
    change (String.eqb (toxicsURL _) (proxyURL _)) with false. cbv iota. split_and!; [done|done|].
    intros a names [= <-] _ [= <-]. cbn [fst]. apply list_to_set_elements_L.
  - intros [ts up]. change (String.eqb "GET" "DELETE") with false.
    change (String.eqb (proxyURL _) (proxyURL _)) with true. cbv iota. split_and!; [done|done|]. by intros a u [= <-] _ [= <-].
  - intros u [ts up]. split_and!; [done|by right|done].
Qed.

Lemma fresh_talks dropAddr : talks_to "http://toxiproxy:8474" "issuer" (demo_client dropAddr).
Proof. done. Qed.

(** Toggling, seen by the client of the HTTP API.  A PUT answered with a body names the scenario
    asked for in the state asked for, a scenario the stack can run; the other scenarios are as they
    were, at Toxiproxy and in the gateway; and the list the next GET gives, when it can be read, is
    that state. *)
Theorem toggle_applies {T} `{Toxiproxy T} admin proxy `{!ToxiproxyLaws T admin proxy} uuid_Validate enabled_of req c t
    status loc s c' t' :
  talks_to admin proxy c →
  handleSetChaosScenario uuid_Validate enabled_of req c t = (Answer status loc s, c', t') →
  let id := url_param req "scenarioId" in
  id ∈ AllScenarios ∧ sc_ID s = id ∧ Some (Enabled s) = enabled_of (http_body req) ∧ is_on c' t' id = Enabled s ∧
  (Enabled s = true → Available s = true) ∧
  (∀ x, x ≠ id → is_on c' t' x = is_on c t x) ∧
  (∀ c2 t2 l, ListScenarios c' t' = (Ok l, c2, t2) → map (λ s, (sc_ID s, Enabled s)) l = map (λ x, (x, is_on c' t' x)) AllScenarios).
Proof.
  intros Hc Hh id. unfold handleSetChaosScenario in Hh. fold id in Hh. destruct (negb (uuid_Validate _)); [done|].
  destruct (knownScenario id) eqn:Hk; cbn [negb] in Hh; [|done].
  assert (Hin : id ∈ AllScenarios).
  { unfold knownScenario in Hk. apply existsb_exists in Hk as (x & Hx & ->%String.eqb_eq). by apply list_elem_of_In. }
  destruct (enabled_of (http_body req)) as [on|]; [|done].
  pose proof (SetScenario_does admin proxy id on c t Hc) as Hset.
  assert (Hdrop : id = ScenarioDropResponse → on = true → dropResponseAddr c = "" → (SetScenario id on c t).1.1 = Err ErrScenarioNotImplemented).
  { intros -> -> E. unfold SetScenario. by rewrite E. }
  destruct (SetScenario id on c t) as [[[u|e] c1] t1]; [|done]. destruct Hset as (Hc1 & Hd & Hx & Hs). destruct u.
  specialize (Hs eq_refl).
  unfold scenarioState in Hh. destruct (ListScenarios c1 t1) as [[[l|e] c2] t2] eqn:El; [|done]. injection Hh as _ _ Es <- <-.
  apply (ListScenarios_does admin proxy c1 t1 c2 t2 l Hc1) in El as (-> & -> & Ht).
  rewrite (find_scenario c1 _ id _ Hin) in Es. unfold default, Datatypes.id in Es. subst s.
  assert (He1 : Enabled (scenario_of c1 (toxics t1) id) = on) by exact Hs.
  assert (Ht2 : ∀ x, is_on c1 t2 x = is_on c1 t1 x) by (intros x; apply is_on_toxics; [done|by rewrite Ht]).
  split_and!; [done|done|by rewrite He1|by rewrite Ht2|..].
  - intros He. rewrite He1 in He. cbn [scenario_of Available]. destruct (String.eqb_spec id ScenarioDropResponse) as [Ei|]; [|done].
    destruct (String.eqb_spec (dropResponseAddr c1) "") as [Ed|]; [|done]. cbn. rewrite Hd in Ed. by specialize (Hdrop Ei He Ed).
  - intros x Hne. rewrite Ht2. by apply Hx.
  - intros c3 t3 l Hl. apply (ListScenarios_does admin proxy c1 t2 c3 t3 l Hc1) in Hl as (-> & _ & _). by rewrite map_map.
Qed.

(** The issuer's address survives the DROP_RESPONSE scenario within one process: whatever is
    toggled and whatever Toxiproxy answers, the link goes to the issuer or to the fake one, and a
    DROP_RESPONSE toggle that is taken sends it to the fake issuer or back to the issuer. *)
Theorem drop_response_restored {T} `{Toxiproxy T} admin proxy `{!ToxiproxyLaws T admin proxy} addr l on t c' t' res c2 t2 :
  upstream t ≠ "" → addr ≠ "" →
  toggle_all l (NewToxiproxyClient admin proxy addr) t = (c', t') →
  SetScenario ScenarioDropResponse on c' t' = (res, c2, t2) →
  (upstream t' = upstream t ∨ upstream t' = addr) ∧
  (res = Ok () → upstream t2 = if on then addr else upstream t).
Proof.
  intros Hu Ha Hall Hset.
  pose proof (toggle_all_upstream admin proxy l (NewToxiproxyClient admin proxy addr) t (upstream t)
                ltac:(done) Hu ltac:(by left)) as H1. rewrite Hall in H1. destruct H1 as (Hc & Hrep & Hd). cbn in Hd.
  pose proof (SetScenario_upstream admin proxy ScenarioDropResponse on c' t' (upstream t) Hc Hu Hrep) as H2. rewrite Hset in H2.
  destruct H2 as [_ H2]. rewrite Hd in H2. split; [|by apply H2].
  destruct Hrep as [[_ E]|[_ [E|E]]]; [by left|by left|right; by rewrite E].
Qed.

(** A restart during DROP_RESPONSE leaves it injected for good.  The new process finds the fake
    issuer as the proxy's upstream; its DisableAll succeeds and reports every scenario off, yet the
    link still goes to the fake issuer, and so it does after any further toggles, DROP_RESPONSE
    switched on and off included: the fake address is now remembered as the issuer's. *)
Theorem restart_keeps_fake_issuer {T} `{Toxiproxy T} admin proxy `{!ToxiproxyLaws T admin proxy} addr t c' t' :
  addr ≠ "" → upstream t = addr →
  DisableAll (NewToxiproxyClient admin proxy addr) t = (Ok (), c', t') →
  (∀ id, id ∈ AllScenarios → is_on c' t' id = false) ∧ upstream t' = addr ∧
  ∀ l, upstream (toggle_all l c' t').2 = addr.
Proof.
  intros Ha Hu Hdis. unfold DisableAll in Hdis. set (c := NewToxiproxyClient admin proxy addr) in *.
  pose proof (disable_loop_does admin proxy AllScenarios c t ltac:(done) AllScenarios_NoDup) as H1. rewrite Hdis in H1.
  destruct H1 as (Hc & Hd & _ & Hoff). cbn in Hd.
  pose proof (disable_loop_upstream admin proxy AllScenarios c t addr ltac:(done) Ha ltac:(by left)) as H2. rewrite Hdis in H2.
  assert (Hfake : ∀ c t, dropResponseAddr c = addr → repointed addr c t → upstream t = addr).
  { intros c1 t1 E [[_ H3]|[_ [H3|H3]]]; [done|done|by rewrite H3]. }
  split_and!; [by apply Hoff|by apply (Hfake c')|]. intros l.
  pose proof (toggle_all_upstream admin proxy l c' t' addr Hc Ha H2) as H3. destruct (toggle_all l c' t') as [c3 t3].
  destruct H3 as (_ & H3 & Hd3). apply (Hfake c3); [by rewrite Hd3|done].
Qed.

Definition demo_put : http_request :=
  mkHTTP "550e8400-e29b-41d4-a716-446655440000" "/v1/chaos/scenarios/SLOW_NETWORK" (λ _, "SLOW_NETWORK") (λ _, "") "true" "".
Definition demo_enabled (body : string) : option bool := if String.eqb body "true" then Some true else None.

Lemma toggle_applies_witness :
  let '(a, c', t') := @handleSetChaosScenario _ demo_toxiproxy (λ _, true) demo_enabled demo_put (demo_client "") (∅, "issuer:8000") in
  elements t'.1 = ["chaos-SLOW_NETWORK"] ∧ @is_on _ demo_toxiproxy c' t' ScenarioSlowNetwork = true ∧
  ∀ x, x ≠ ScenarioSlowNetwork → @is_on _ demo_toxiproxy c' t' x = @is_on _ demo_toxiproxy (demo_client "") (∅, "issuer:8000") x.
Proof.
  assert (Ea : let x := @handleSetChaosScenario _ demo_toxiproxy (λ _, true) demo_enabled demo_put (demo_client "") (∅, "issuer:8000") in
               match x.1.1 with Answer 200 "" s => Enabled s = true | _ => False end ∧ elements x.2.1 = ["chaos-SLOW_NETWORK"])
    by (vm_compute; split; reflexivity).
  destruct (@handleSetChaosScenario _ demo_toxiproxy (λ _, true) demo_enabled demo_put (demo_client "") (∅, "issuer:8000"))
    as [[a c'] t'] eqn:E. cbn [fst snd] in Ea. destruct Ea as [Ha Ht]. split; [exact Ht|].
  assert (Hs : ∃ s, a = Answer 200 "" s ∧ Enabled s = true).
  { destruct a as [st loc s|]; [|done]. exists s. repeat (case_match; try done). }
  destruct Hs as (s & -> & He).
  destruct (@toggle_applies _ demo_toxiproxy "http://toxiproxy:8474" "issuer" demo_laws (λ _, true) demo_enabled demo_put (demo_client "")
    (∅, "issuer:8000") 200 "" s c' t' (fresh_talks "") E) as (_ & _ & _ & H4 & _ & H6 & _).
  split; [by rewrite <- He, <- H4|exact H6].
Defined.

Definition demo_toggles : list (string * bool) := [(ScenarioDropResponse, true); (ScenarioLateResponse, true)].

Lemma drop_response_restored_witness :
  let '(c', t') := @toggle_all _ demo_toxiproxy demo_toggles (demo_client "gateway:19999") (∅, "issuer:8000") in
  t'.2 = "gateway:19999" ∧
  (@SetScenario _ demo_toxiproxy ScenarioDropResponse false c' t').2.2 = "issuer:8000".
Proof.
  assert (Hu : (@toggle_all _ demo_toxiproxy demo_toggles (demo_client "gateway:19999") (∅, "issuer:8000")).2.2 = "gateway:19999")
    by (vm_compute; reflexivity).
  assert (Hr : let s := @toggle_all _ demo_toxiproxy demo_toggles (demo_client "gateway:19999") (∅, "issuer:8000") in
               (@SetScenario _ demo_toxiproxy ScenarioDropResponse false s.1 s.2).1.1 = Ok ()) by (vm_compute; reflexivity).
  destruct (@toggle_all _ demo_toxiproxy demo_toggles (demo_client "gateway:19999") (∅, "issuer:8000")) as [c' t'] eqn:E.
  cbn [fst snd] in Hu, Hr. split; [exact Hu|].
  destruct (@SetScenario _ demo_toxiproxy ScenarioDropResponse false c' t') as [[r c2] t2] eqn:Es. cbn [fst] in Hr.
  exact (proj2 (@drop_response_restored _ demo_toxiproxy "http://toxiproxy:8474" "issuer" demo_laws "gateway:19999" demo_toggles
    false (∅, "issuer:8000") c' t' r c2 t2 ltac:(done) ltac:(done) E Es) Hr).
Defined.

(** The gateway stopped while DROP_RESPONSE was on. *)
Lemma restart_keeps_fake_issuer_witness :
  let '(r, c', t') := @DisableAll _ demo_toxiproxy (demo_client "gateway:19999") (∅, "gateway:19999") in
  r = Ok () ∧ t'.2 = "gateway:19999" ∧
  (@toggle_all _ demo_toxiproxy [(ScenarioDropResponse, true); (ScenarioDropResponse, false)] c' t').2.2 = "gateway:19999".
Proof.
  assert (Er : (@DisableAll _ demo_toxiproxy (demo_client "gateway:19999") (∅, "gateway:19999")).1.1 = Ok ()) by (vm_compute; reflexivity).
  destruct (@DisableAll _ demo_toxiproxy (demo_client "gateway:19999") (∅, "gateway:19999")) as [[r c'] t'] eqn:E.
  cbn [fst] in Er. subst r.
  destruct (@restart_keeps_fake_issuer _ demo_toxiproxy "http://toxiproxy:8474" "issuer" demo_laws "gateway:19999"
              (∅, "gateway:19999") c' t' ltac:(done) eq_refl E) as (_ & Hu & Hl).
  split; [done|]. split; [exact Hu|]. apply (Hl [(ScenarioDropResponse, true); (ScenarioDropResponse, false)]).
Defined.
