(* ===== verification/Ws.v ===== *)
(** * Ws: the broadcast hub

    [gateway-go/internal/ws/hub.go].  Connections come and go while broadcasts are made; a run is any
    interleaving of their steps, each one a lock section or a channel operation.  The WebSocket
    library and [json.Marshal] are parameters. *)

From S2P Require Import Prelude.
From stdpp Require Import gmap sets.
Local Open Scope nat_scope.

Section hub.
Context {D M : Type}.

Record Event := mkEvent { ev_ID : string; ev_Type : string; ev_OccurredAt : Z; ev_Data : D }.

(** [None]: the event does not marshal. *)
Context (Marshal : Event → option M).

(** [make(chan []byte, 16)]. *)
Definition clientBuffer : nat := 16.

(** Where the goroutine of a connection is in ServeHTTP: in the loop over its channel, after it, between
    [delete] and [close] of unsubscribe, and done. *)
Inductive phase := Streaming | Leaving | Deleted | Closed.

#[global] Instance phase_eq_dec : EqDecision phase.
Proof. solve_decision. Defined.

(** A connection's channel, and what happened to it: the number of broadcasts before it subscribed,
    and the messages written to its socket. *)
Record conn := mkConn { at_ : phase; buffer : list M; since : nat; written : list M }.

(** [conns] holds every channel ever made; [clients] the hub's map. *)
Record Hub := mkHub { clients : gset nat; conns : gmap nat conn; broadcasts : list M }.

Definition NewHub : Hub := mkHub ∅ ∅ [].

Definition ClientCount (h : Hub) : nat := size (clients h).

(** The key of a new channel is not that of another one. *)
Definition fresh_key (h : Hub) : nat := fresh (dom (conns h)).

Definition subscribe (h : Hub) : Hub :=
  let ch := fresh_key h in
  mkHub ({[ch]} ∪ clients h) (<[ch := mkConn Streaming [] (length (broadcasts h)) []]> (conns h)) (broadcasts h).

(** The two halves of unsubscribe: the map is the lock's, the channel is closed after it. *)
Definition unsubscribe (ch : nat) (h : Hub) : Hub :=
  mkHub (clients h ∖ {[ch]}) (conns h) (broadcasts h).

Definition move (ch : nat) (to : phase) (h : Hub) : Hub :=
  mkHub (clients h) (alter (λ c, mkConn to (buffer c) (since c) (written c)) ch (conns h)) (broadcasts h).

(** The select of one send: [None] where Go panics, on a closed channel. *)
Definition send (msg : M) (c : conn) : option conn :=
  if decide (at_ c = Closed) then None
  else if length (buffer c) <? clientBuffer then
    Some (mkConn (at_ c) (buffer c ++ [msg]) (since c) (written c))
  else Some c.

(** The loop over the clients, under the lock; the order of the map does not matter. *)
Definition send_all (msg : M) (h : Hub) : option Hub :=
  if decide (map_Forall (λ ch c, ch ∈ clients h → at_ c ≠ Closed) (conns h)) then
    Some (mkHub (clients h)
            (map_imap (λ ch c, if decide (ch ∈ clients h) then send msg c else Some c) (conns h))
            (broadcasts h ++ [msg]))
  else None.

Definition broadcastEvent (e : Event) (h : Hub) : option Hub :=
  match Marshal e with
  | None => Some h
  | Some msg => send_all msg h
  end.

(** The callers, with the id and the time the hub gives. *)
Definition BroadcastLinkStatus (id : string) (now : Z) (link : D) : Hub → option Hub := broadcastEvent (mkEvent id "link.status" now link).
Definition BroadcastNetworkEvent (id : string) (now : Z) (evt : D) : Hub → option Hub := broadcastEvent (mkEvent id "network.event" now evt).
Definition BroadcastTransaction (id : string) (now : Z) (eventType : string) (txn : D) : Hub → option Hub :=
  broadcastEvent (mkEvent id eventType now txn).
Definition BroadcastChaos (id : string) (now : Z) (eventType : string) (data : D) : Hub → option Hub :=
  broadcastEvent (mkEvent id eventType now data).

(** One turn of [for msg := range out]: the write succeeds, or ServeHTTP returns. *)
Definition turn (ch : nat) (ok : bool) (h : Hub) : Hub :=
  match conns h !! ch with
  | Some (mkConn Streaming (msg :: rest) s w) =>
      mkHub (clients h)
        (<[ch := if ok then mkConn Streaming rest s (w ++ [msg]) else mkConn Leaving rest s w]> (conns h)) (broadcasts h)
  | _ => h                                                (* blocked, or not in the loop *)
  end.

(** The steps of ServeHTTP's goroutines, and the broadcasts.  A step that its goroutine cannot make
    changes nothing. *)
Inductive happening :=
  | Connects                                              (* Upgrade succeeded: subscribe *)
  | Turn (ch : nat) (ok : bool)
  | Unregisters (ch : nat)
  | Closes (ch : nat)
  | Broadcasts (e : Event).

Definition step (x : happening) (h : Hub) : option Hub :=
  match x with
  | Connects => Some (subscribe h)
  | Turn ch ok => Some (turn ch ok h)
  | Unregisters ch =>
      Some (match at_ <$> conns h !! ch with Some Leaving => unsubscribe ch (move ch Deleted h) | _ => h end)
  | Closes ch => Some (match at_ <$> conns h !! ch with Some Deleted => move ch Closed h | _ => h end)
  | Broadcasts e => broadcastEvent e h
  end.

Fixpoint run (l : list happening) (h : Hub) : option Hub :=
  match l with
  | [] => Some h
  | x :: l => h ← step x h; run l h
  end.

(** ** What every connection sees *)

Definition conn_ok (h : Hub) (ch : nat) (c : conn) : Prop :=
  length (buffer c) ≤ clientBuffer ∧
  since c ≤ length (broadcasts h) ∧
  (written c ++ buffer c) `sublist_of` drop (since c) (broadcasts h).

(** Nothing broadcast since it subscribed is missing. *)
Definition whole (h : Hub) (c : conn) : Prop := written c ++ buffer c = drop (since c) (broadcasts h).

(** Whether [ch] has room for one more message at each broadcast of a run: fewer than 16 are waiting. *)
Definition has_room (ch : nat) (x : happening) (h : Hub) : bool :=
  match x, conns h !! ch with Broadcasts _, Some c => length (buffer c) <? 16 | _, _ => true end.

Fixpoint keeps_up (ch : nat) (l : list happening) (h : Hub) : bool :=
  match l with
  | [] => true
  | x :: l => has_room ch x h && match step x h with Some h => keeps_up ch l h | None => true end
  end.

Record hub_ok (h : Hub) : Prop := {
  ok_clients ch : ch ∈ clients h ↔ ∃ c, conns h !! ch = Some c ∧ (at_ c = Streaming ∨ at_ c = Leaving);
  ok_conns ch c : conns h !! ch = Some c → conn_ok h ch c
}.

Lemma NewHub_ok : hub_ok NewHub.
Proof.
  split; [|done]. intros ch. cbn. split; [by intros ?%not_elem_of_empty|]. by intros (c & Hc & _).
Qed.

Lemma subscribe_ok h : hub_ok h → hub_ok (subscribe h).
Proof.
  intros [Hcl Hco]. unfold subscribe. set (ch := fresh_key h).
  assert (Hf : conns h !! ch = None) by (apply not_elem_of_dom; exact (is_fresh (dom (conns h)))). split; cbn [clients conns].
  - intros k. destruct (decide (k = ch)) as [->|Hne].
    + rewrite lookup_insert_eq. split; [|set_solver]. intros _. eexists. split; [done|]. by left.
    + rewrite lookup_insert_ne by done. rewrite <- Hcl. set_solver.
  - intros k c Hk. destruct (decide (k = ch)) as [->|Hne].
    + rewrite lookup_insert_eq in Hk. injection Hk as <-. unfold conn_ok. cbn. rewrite drop_all. split_and!; auto; lia.
    + rewrite lookup_insert_ne in Hk by done. exact (Hco k c Hk).
Qed.

(** A change of one connection that leaves the others and the broadcasts alone. *)
Lemma conn_changed h cl ch c c' : hub_ok h → conns h !! ch = Some c →
  (∀ k, k ≠ ch → k ∈ cl ↔ k ∈ clients h) → (ch ∈ cl ↔ at_ c' = Streaming ∨ at_ c' = Leaving) → conn_ok h ch c' →
  hub_ok (mkHub cl (<[ch := c']> (conns h)) (broadcasts h)).
Proof.
  intros [Hcl Hco] Hc Hk Hch Hok. split; cbn [clients conns].
  - intros k. destruct (decide (k = ch)) as [->|Hne].
    + rewrite lookup_insert_eq, Hch. split; [intros H; by exists c'|by intros (x & [= <-] & H)].
    + rewrite lookup_insert_ne by done. by rewrite Hk.
  - intros k x Hx. destruct (decide (k = ch)) as [->|Hne].
    + rewrite lookup_insert_eq in Hx. by injection Hx as <-.
    + rewrite lookup_insert_ne in Hx by done. exact (Hco k x Hx).
Qed.

Lemma turn_ok ch ok h : hub_ok h → hub_ok (turn ch ok h).
Proof.
  intros Hh. unfold turn. destruct (conns h !! ch) as [[[| | |] [|msg rest] s w]|] eqn:Ec; try done.
  destruct (ok_conns h Hh ch _ Ec) as (Hlen & Hsince & Hsub). cbn in Hlen, Hsince, Hsub.
  eapply conn_changed; [done|exact Ec|done| |].
  - rewrite (ok_clients h Hh). destruct ok; (split; [intros _; auto|intros _; rewrite Ec; eexists; split; [done|by left]]).
  - destruct ok; unfold conn_ok; cbn; rewrite <- ?app_assoc; split_and!; [lia|done|done|lia|done|].
    etrans; [|exact Hsub]. apply sublist_app; [done|]. by apply sublist_cons.
Qed.

Lemma move_eq ch to h c : conns h !! ch = Some c →
  move ch to h = mkHub (clients h) (<[ch := mkConn to (buffer c) (since c) (written c)]> (conns h)) (broadcasts h).
Proof.
  intros Hc. unfold move. f_equal. apply map_eq. intros k. destruct (decide (k = ch)) as [->|Hne].
  - by rewrite lookup_alter_eq, lookup_insert_eq, Hc.
  - by rewrite lookup_alter_ne, lookup_insert_ne by done.
Qed.

Lemma send_all_ok msg h : hub_ok h → ∃ h', send_all msg h = Some h' ∧ hub_ok h'.
Proof.
  intros Hh. unfold send_all. rewrite decide_True.
  2: { intros ch c Hc Hin. apply (ok_clients h Hh) in Hin as (c' & Hc' & Ha). destruct Ha; congruence. }
  eexists. split; [done|]. split; cbn [clients conns broadcasts].
  + intros ch. rewrite map_lookup_imap, (ok_clients h Hh). destruct (conns h !! ch) as [c|]; [|done]. cbn [mbind option_bind].
    destruct (decide (ch ∈ clients h)); [|done]. unfold send.
    destruct (decide (at_ c = Closed)) as [Hcl|Hcl]; [split; [|by intros (? & ? & _)]; intros (x & [= <-] & [?|?]); congruence|].
    destruct (length (buffer c) <? clientBuffer); (split; intros (x & [= <-] & Ha); eexists; (split; [done|exact Ha])).
  + intros ch c'. rewrite map_lookup_imap. destruct (conns h !! ch) as [c|] eqn:Ec; [|done]. cbn [mbind option_bind].
    destruct (ok_conns h Hh ch c Ec) as (Hlen & Hsince & Hsub). unfold conn_ok.
    cbn [broadcasts]. rewrite length_app.
    destruct (decide (ch ∈ clients h)) as [Hin|Hin].
    * unfold send. destruct (decide (at_ c = Closed)); [done|].
      destruct (Nat.ltb_spec (length (buffer c)) clientBuffer); intros [= <-]; cbn [buffer since written at_].
      -- rewrite length_app, drop_app_le by done. cbn [length]. rewrite !(assoc_L app). split_and!; [lia|lia|by apply sublist_app].
      -- rewrite drop_app_le by done. split_and!; [lia|lia|]. by apply sublist_inserts_r.
    * intros [= <-]. rewrite drop_app_le by done. split_and!; [done|lia|by apply sublist_inserts_r].
Qed.

Lemma step_ok x h : hub_ok h → ∃ h', step x h = Some h' ∧ hub_ok h'.
Proof.
  intros Hh. destruct x as [|ch ok|ch|ch|e]; cbn [step].
  - eexists. split; [done|]. by apply subscribe_ok.
  - eexists. split; [done|]. by apply turn_ok.
  - eexists. split; [done|]. destruct (conns h !! ch) as [c|] eqn:Ec; [|done]. cbn [fmap option_fmap option_map].
    destruct (at_ c) eqn:Ea; [done| |done|done]. rewrite (move_eq ch Deleted h c Ec). unfold unsubscribe. cbn [clients conns broadcasts].
    eapply conn_changed; [done|exact Ec|set_solver| |exact (ok_conns h Hh ch c Ec)].
    split; [set_solver|]. cbn. by intros [?|?].
  - eexists. split; [done|]. destruct (conns h !! ch) as [c|] eqn:Ec; [|done]. cbn [fmap option_fmap option_map].
    destruct (at_ c) eqn:Ea; [done|done| |done]. rewrite (move_eq ch Closed h c Ec).
    eapply conn_changed; [done|exact Ec|done| |exact (ok_conns h Hh ch c Ec)].
    rewrite (ok_clients h Hh), Ec. cbn. split; [|by intros [?|?]]. intros (x & [= <-] & [Hx|Hx]); congruence.
  - unfold broadcastEvent. destruct (Marshal e) as [msg|]; [by apply send_all_ok|by eexists].
Qed.

Lemma run_ok l h : hub_ok h → ∃ h', run l h = Some h' ∧ hub_ok h'.
Proof.
  revert h. induction l as [|x l IH]; intros h Hh; [by exists h|]. cbn [run].
  destruct (step_ok x h Hh) as (h1 & E & H1). rewrite E. cbn [mbind option_bind]. by apply IH.
Qed.

(** A streaming connection that has everything still has it after a step at which it has room. *)
Lemma step_whole x h h' ch c' :
  hub_ok h → step x h = Some h' → has_room ch x h = true → conns h' !! ch = Some c' → at_ c' = Streaming →
  (∀ c, conns h !! ch = Some c → at_ c = Streaming → whole h c) → whole h' c'.
Proof.
  intros Hh Hs Hr Hc Ha Hw. destruct x as [|k ok|k|k|e]; cbn [step] in Hs.
  - injection Hs as <-. unfold subscribe in Hc |- *. cbn [conns] in Hc. destruct (decide (ch = fresh_key h)) as [->|Hne].
    + rewrite lookup_insert_eq in Hc. injection Hc as <-. unfold whole. cbn. by rewrite drop_all.
    + rewrite lookup_insert_ne in Hc by done. exact (Hw c' Hc Ha).
  - injection Hs as <-. unfold turn in Hc |- *.
    destruct (conns h !! k) as [[[| | |] [|msg rest] s w]|] eqn:Ek; try exact (Hw c' Hc Ha). cbn [conns] in Hc.
    destruct (decide (ch = k)) as [->|Hne]; [|rewrite lookup_insert_ne in Hc by done; exact (Hw c' Hc Ha)].
    rewrite lookup_insert_eq in Hc. injection Hc as <-. destruct ok; [|done].
    specialize (Hw _ Ek eq_refl). unfold whole in *. cbn in *. by rewrite <- app_assoc.
  - injection Hs as <-. destruct (conns h !! k) as [c|] eqn:Ek; [|exact (Hw c' Hc Ha)]. cbn [fmap option_fmap option_map] in *.
    destruct (at_ c) eqn:Eac; try exact (Hw c' Hc Ha). rewrite (move_eq k Deleted h c Ek) in Hc. cbn [unsubscribe conns] in Hc.
    destruct (decide (ch = k)) as [->|Hne]; [rewrite lookup_insert_eq in Hc; by injection Hc as <-|].
    rewrite lookup_insert_ne in Hc by done. exact (Hw c' Hc Ha).
  - injection Hs as <-. destruct (conns h !! k) as [c|] eqn:Ek; [|exact (Hw c' Hc Ha)]. cbn [fmap option_fmap option_map] in *.
    destruct (at_ c) eqn:Eac; try exact (Hw c' Hc Ha). rewrite (move_eq k Closed h c Ek) in Hc. cbn [conns] in Hc.
    destruct (decide (ch = k)) as [->|Hne]; [rewrite lookup_insert_eq in Hc; by injection Hc as <-|].
    rewrite lookup_insert_ne in Hc by done. exact (Hw c' Hc Ha).
  - unfold broadcastEvent in Hs. destruct (Marshal e) as [msg|]; [|injection Hs as <-; exact (Hw c' Hc Ha)].
    unfold send_all in Hs. destruct (decide _) as [_|]; [|done]. injection Hs as <-. cbn [conns broadcasts] in Hc |- *.
    rewrite map_lookup_imap in Hc. destruct (conns h !! ch) as [c|] eqn:Ec; [|done]. cbn [mbind option_bind] in Hc.
    unfold has_room in Hr. rewrite Ec in Hr. destruct (decide (ch ∈ clients h)) as [Hin|Hin].
    + unfold send in Hc. destruct (decide _); [done|]. unfold clientBuffer in Hc. rewrite Hr in Hc. injection Hc as <-.
      unfold whole. cbn [written buffer since broadcasts]. destruct (ok_conns h Hh ch c Ec) as (_ & Hsince & _).
      rewrite drop_app_le, (assoc_L app) by done. by rewrite (Hw c).
    + injection Hc as <-. destruct Hin. apply (ok_clients h Hh). exists c. split; [done|by left].
Qed.

Lemma run_whole l h ch :
  hub_ok h → keeps_up ch l h = true → (∀ c, conns h !! ch = Some c → at_ c = Streaming → whole h c) →
  ∀ h' c', run l h = Some h' → conns h' !! ch = Some c' → at_ c' = Streaming → whole h' c'.
Proof.
  revert h. induction l as [|x l IH]; intros h Hh Hk Hw h' c'; [by intros [= <-]; auto|]. cbn [run keeps_up] in *.
  apply andb_true_iff in Hk as [Hr Hk]. destruct (step_ok x h Hh) as (h1 & E & H1). rewrite E in Hk |- *.
  cbn [mbind option_bind]. apply IH; [done|done|]. intros c Hc Ha. by apply (step_whole x h h1 ch c).
Qed.

(** Steps without a broadcast leave a connection whose channel is empty where it is. *)
Lemma waits x h ch c : (∀ e, x ≠ Broadcasts e) → hub_ok h → conns h !! ch = Some c → at_ c = Streaming → buffer c = [] →
  ∃ h', step x h = Some h' ∧ hub_ok h' ∧ conns h' !! ch = Some c.
Proof.
  intros Hx Hh Hc Ha Hb. destruct (step_ok x h Hh) as (h' & E & Hh'). exists h'. split_and!; [done|done|].
  destruct x as [|k ok|k|k|e]; [..|by destruct (Hx e)]; cbn [step] in E; injection E as <-.
  - unfold subscribe. cbn [conns]. rewrite lookup_insert_ne; [done|]. intros E.
    assert (Hf : conns h !! fresh_key h = None) by (apply not_elem_of_dom; exact (is_fresh (dom (conns h)))).
    rewrite E in Hf. congruence.
  - unfold turn. destruct (conns h !! k) as [[[| | |] [|msg rest] s w]|] eqn:Ek; try done.
    cbn [conns]. rewrite lookup_insert_ne; [done|]. intros ->. rewrite Ek in Hc. by injection Hc as <-.
  - destruct (conns h !! k) as [c'|] eqn:Ek; [|done]. cbn [fmap option_fmap option_map].
    destruct (at_ c') eqn:Ea; try done. rewrite (move_eq k Deleted h c' Ek). cbn [unsubscribe conns].
    rewrite lookup_insert_ne; [done|]. intros ->. congruence.
  - destruct (conns h !! k) as [c'|] eqn:Ek; [|done]. cbn [fmap option_fmap option_map].
    destruct (at_ c') eqn:Ea; try done. rewrite (move_eq k Closed h c' Ek). cbn [conns].
    rewrite lookup_insert_ne; [done|]. intros ->. congruence.
Qed.
End hub.

(** C26. The hub's contract with its clients.  However connections come, stall, fail and go, and
    whatever is broadcast meanwhile, the hub never panics on a closed channel and never blocks a
    broadcaster; a connection holds at most 16 messages; what it was sent is, in order, part of what
    was broadcast since it subscribed; and it is all of that while the connection streams, if at none
    of the broadcasts 16 messages were already waiting for it. *)
Theorem every_client_in_order {D M} (Marshal : @Event D → option M) l :
  ∃ h, run Marshal l NewHub = Some h ∧
  ∀ ch c, conns h !! ch = Some c →
    length (buffer c) ≤ 16 ∧
    (written c ++ buffer c) `sublist_of` drop (since c) (broadcasts h) ∧
    (at_ c = Streaming → keeps_up Marshal ch l NewHub = true → written c ++ buffer c = drop (since c) (broadcasts h)).
Proof.
  destruct (run_ok Marshal l NewHub NewHub_ok) as (h & E & Hh). exists h. split; [exact E|].
  intros ch c Hc. destruct (ok_conns h Hh ch c Hc) as (H1 & _ & H2). split_and!; [done|done|].
  intros Ha Hk. by apply (run_whole Marshal l NewHub ch NewHub_ok Hk).
Qed.

(** A connection that is gone is noticed by the next write only: until a broadcast, whatever else
    happens, it stays in the hub and in ClientCount. *)
Theorem gone_client_is_kept {D M} (Marshal : @Event D → option M) l h ch c :
  Forall (λ x, ∀ e, x ≠ Broadcasts e) l → hub_ok h → conns h !! ch = Some c → at_ c = Streaming → buffer c = [] →
  ∃ h', run Marshal l h = Some h' ∧ ch ∈ clients h'.
Proof.
  intros Hl Hh Hc Ha Hb. revert h Hh Hc. induction Hl as [|x l Hx Hl IH]; intros h Hh Hc.
  - exists h. split; [done|]. apply (ok_clients h Hh). exists c. split; [done|by left].
  - destruct (waits Marshal x h ch c Hx Hh Hc Ha Hb) as (h1 & E & H1 & Hc1). cbn [run]. rewrite E. by apply IH.
Qed.

Definition demo_say (n : nat) : @happening nat := Broadcasts (mkEvent "id" "chaos.changed" 0%Z n).
Definition demo_marshal (e : @Event nat) : option nat := Some (ev_Data e).

(** Seventeen broadcasts to a connection that takes none: the last is dropped. *)
Example slow_client :
  let l := Connects :: map demo_say (seq 0 17) in
  ((λ h, (ClientCount h, (λ c, length (buffer c)) <$> conns h !! 0)) <$> run demo_marshal l NewHub, keeps_up demo_marshal 0 l NewHub)
  = (Some (1, Some 16), false).
Proof. vm_compute. reflexivity. Qed.

(** Sixteen broadcasts, of which the second of two connections sees twelve, and takes six; the first one fails. *)
Definition demo_traffic : list (@happening nat) :=
  Connects :: map demo_say (seq 0 4) ++ Connects :: map demo_say (seq 4 6) ++ repeat (Turn 1 true) 6
  ++ Turn 0 false :: Unregisters 0 :: Closes 0 :: map demo_say (seq 10 6).

Lemma every_client_in_order_witness :
  keeps_up demo_marshal 1 demo_traffic NewHub = true ∧
  ((λ h, (λ c, (written c, buffer c)) <$> conns h !! 1) <$> run demo_marshal demo_traffic NewHub)
    = Some (Some (seq 4 6, seq 10 6)) ∧
  ∃ h, run demo_marshal demo_traffic NewHub = Some h ∧
  ∀ ch c, conns h !! ch = Some c →
    length (buffer c) ≤ 16 ∧
    (written c ++ buffer c) `sublist_of` drop (since c) (broadcasts h) ∧
    (at_ c = Streaming → keeps_up demo_marshal ch demo_traffic NewHub = true →
     written c ++ buffer c = drop (since c) (broadcasts h)).
Proof.
  split; [vm_compute; reflexivity|]. split; [vm_compute; reflexivity|].
  exact (every_client_in_order demo_marshal demo_traffic).
Defined.
