(* ===== verification/PciScan.v ===== *)
(** * PciScan: the scan for card data

    [scripts/pci-scan]: detectors.go and main.go, the check that no log, fixture or database dump
    holds a card number, a PIN block or track data.  The file system is a parameter.  A regular
    expression is a matcher at a position; [find_all] is [FindAllString]. *)

From S2P Require Import Prelude Digits Mask Purchase.
Local Open Scope nat_scope.

(** ** detectors.go *)

Record Finding := mkFinding { Detector : string; File : string; Line : nat; Masked : string }.

(** Whether the last byte of [s], or the one before it when [s] is empty, is a word character. *)
Fixpoint ends_word (prev : bool) (s : string) : bool :=
  match s with "" => prev | String c s => ends_word (is_word c) s end.

(** A matcher gives the length of the match that starts here, never 0. *)
Fixpoint find_all (matcher : bool → string → option nat) (fuel : nat) (prev : bool) (s : string) : list string :=
  match fuel with
  | O => []
  | S fuel =>
      match s with
      | "" => []
      | String c rest =>
          match matcher prev s with
          | Some n => str_take n s :: find_all matcher fuel (ends_word prev (str_take n s)) (str_drop n s)
          | None => find_all matcher fuel (is_word c) rest
          end
      end
  end.

Definition FindAllString (matcher : bool → string → option nat) (s : string) : list string :=
  find_all matcher (slen s) false s.

(** [\b\d{13,19}\b] is also the expression of obs/mask.go. *)
Definition panRunRe : bool → string → option nat := panLike.

(** The byte arithmetic of [digits[i]-'0'] wraps. *)
Definition digit_of (c : ascii) : Z := ((Z_of_ascii c - 48) mod 256)%Z.

Definition luhn_digit (double : bool) (d : Z) : Z :=
  if double then (if (9 <? d * 2)%Z then d * 2 - 9 else d * 2)%Z else d.

(** From the right. *)
Fixpoint luhn_loop (digits : list ascii) (double : bool) (sum : Z) : Z :=
  match digits with
  | [] => sum
  | c :: digits => luhn_loop digits (negb double) (sum + luhn_digit double (digit_of c))
  end.

Definition luhnValid (digits : string) : bool :=
  (luhn_loop (reverse (String.list_ascii_of_string digits)) false 0 mod 10 =? 0)%Z.

Definition maskPAN (pan : string) : string := str_take 6 pan +:+ "******" +:+ str_drop (slen pan - 4) pan.

Definition ScanPAN (text : string) : list Finding :=
  map (λ m, mkFinding "pan" "" 0 (maskPAN m)) (List.filter luhnValid (FindAllString panRunRe text)).

Definition in_range (lo hi c : ascii) : bool := ((Z_of_ascii lo <=? Z_of_ascii c) && (Z_of_ascii c <=? Z_of_ascii hi))%Z.
Definition is_hex (c : ascii) : bool := is_digit c || in_range "A" "F" c || in_range "a" "f" c.
Definition is_pin_len (c : ascii) : bool := in_range "4" "9" c || in_range "A" "C" c || in_range "a" "c" c.

(** [\b0[4-9A-Ca-c][0-9A-Fa-f]{14}\b]. *)
Definition pinBlockRe (prev : bool) (s : string) : option nat :=
  match s with
  | String c0 (String c1 rest) =>
      if negb prev && Ascii.eqb c0 "0" && is_pin_len c1 && (slen (str_take 14 rest) =? 14) &&
         str_forall is_hex (str_take 14 rest) && negb (starts_word (str_drop 14 rest))
      then Some 16 else None
  | _ => None
  end.

Definition ScanPinBlock (text : string) : list Finding :=
  map (λ _, mkFinding "pinblock" "" 0 "[redacted pin block]") (FindAllString pinBlockRe text).

(** [;(\d{13,19})=\d+\?]: the number ends at the equals sign and the digits after it at the question
    mark, so both are whole runs of digits. *)
Definition track2Re (_ : bool) (s : string) : option nat :=
  match s with
  | String c0 rest =>
      let n := digit_run rest in
      match str_drop n rest with
      | String eq more =>
          let k := digit_run more in
          match str_drop k more with
          | String q _ =>
              if Ascii.eqb c0 ";" && (13 <=? n) && (n <=? 19) && Ascii.eqb eq "=" && (1 <=? k) && Ascii.eqb q "?"
              then Some (n + k + 3) else None
          | "" => None
          end
      | "" => None
      end
  | "" => None
  end.

(** The first group of a match. *)
Definition track2_pan (m : string) : string := str_take (digit_run (str_drop 1 m)) (str_drop 1 m).

Definition ScanTrack2 (text : string) : list Finding :=
  map (λ pan, mkFinding "track2" "" 0 (maskPAN pan)) (List.filter luhnValid (map track2_pan (FindAllString track2Re text))).

(** ** main.go *)

(** [bufio.ScanLines]: the lines without their newline, then without one carriage return. *)
Fixpoint raw_lines (s : string) : list string :=
  match s with
  | "" => []
  | String c s =>
      if Ascii.eqb c "010" then "" :: raw_lines s
      else match raw_lines s with [] => [String c ""] | l :: ls => String c l :: ls end
  end.

Definition drop_cr (l : string) : string :=
  let body := str_take (slen l - 1) l in
  if String.eqb (str_drop (slen l - 1) l) (String "013" "") then body else l.

Definition maxLine : Z := (1024 * 1024)%Z.

(** [None]: a line does not fit the scanner's buffer. *)
Definition scan_lines (content : string) : option (list string) :=
  let ls := raw_lines content in
  if forallb (λ l, (Z.of_nat (slen l) <? maxLine)%Z) ls then Some (map drop_cr ls) else None.

Definition detectors : list (string → list Finding) := [ScanPAN; ScanPinBlock; ScanTrack2].

Definition found_at (path : string) (lineNo : nat) (f : Finding) : Finding := mkFinding (Detector f) path lineNo (Masked f).

Definition scan_line (path : string) (lineNo : nat) (line : string) : list Finding :=
  concat (map (λ fn, map (found_at path lineNo) (fn line)) detectors).

Fixpoint number_lines (path : string) (lineNo : nat) (ls : list string) : list Finding :=
  match ls with
  | [] => []
  | l :: ls => scan_line path lineNo l ++ number_lines path (S lineNo) ls
  end.

(** [strings.HasSuffix]. *)
Definition HasSuffix (s suffix : string) : bool :=
  (slen suffix <=? slen s) && String.eqb (str_drop (slen s - slen suffix) s) suffix.

(** What WalkDir hands to its callback, and os.Stat's answer. *)
Inductive walk_entry := WalkError | Folder | Entry (path : string).
Inductive stat_result := Missing | Unreadable | AFile | ADir (walk : list walk_entry).

Section walk.
Context (Stat : string → stat_result) (ReadFile : string → option string) (ToSlash : string → string).

Definition scanFile (path : string) (allowlist : list string) : option (list Finding) :=
  if existsb (HasSuffix (ToSlash path)) allowlist then Some []
  else content ← ReadFile path; ls ← scan_lines content; Some (number_lines path 1 ls).

Fixpoint walk_dir (l : list walk_entry) (allowlist : list string) : option (list Finding) :=
  match l with
  | [] => Some []
  | WalkError :: _ => None
  | Folder :: l => walk_dir l allowlist
  | Entry path :: l => fs ← scanFile path allowlist; rest ← walk_dir l allowlist; Some (fs ++ rest)
  end.

Fixpoint Walk (paths allowlist : list string) : option (list Finding) :=
  match paths with
  | [] => Some []
  | root :: paths =>
      fs ← match Stat root with
           | Missing => Some []
           | Unreadable => None
           | AFile => scanFile root allowlist
           | ADir l => walk_dir l allowlist
           end;
      rest ← Walk paths allowlist;
      Some (fs ++ rest)
  end.

Definition non_empty (p : string) : bool := negb (String.eqb p "").

(** The command line without empty words, the default paths without one, and the dump. *)
Definition scan_paths (args : list string) (dump : string) : list string :=
  let paths := List.filter non_empty args in
  let paths := match paths with [] => ["infra/logs"; "contracts/fixtures"] | _ => paths end in
  if non_empty dump then paths ++ [dump] else paths.

(** The exit code; the findings are printed before it. *)
Definition main (args : list string) (dump : string) : Z :=
  match Walk (scan_paths args dump) ["contracts/fixtures/cards.json"] with
  | None => 1
  | Some [] => 0
  | Some _ => 1
  end.
End walk.

(** ** What the detectors find *)

Lemma find_all_nil s fuel prev : slen s ≤ fuel → has_pan prev s = false → find_all panRunRe fuel prev s = [].
Proof.
  revert fuel prev. induction s as [|c s IH]; intros [|fuel] prev Hf H; try done. cbn [find_all]. cbn [has_pan] in H.
  apply orb_false_iff in H as [H1 H2]. unfold panRunRe. destruct (panLike prev (String c s)); [done|].
  apply IH; [cbn in Hf; lia|done].
Qed.

(** Track data holds a card number between its markers. *)
Lemma track2_has_pan prev prev' s n : track2Re prev s = Some n → has_pan prev' s = true.
Proof.
  unfold track2Re. destruct s as [|c0 rest]; [done|]. destruct (str_drop (digit_run rest) rest) as [|eq more] eqn:Ed; [done|].
  destruct (str_drop (digit_run more) more) as [|q tail]; [done|]. case_if; [|done]. intros _.
  rewrite !andb_true_iff, !Nat.leb_le in Hb. destruct Hb as (((((H1 & H2) & H3) & H4) & _) & _).
  apply Ascii.eqb_eq in H1 as ->. apply Ascii.eqb_eq in H4 as ->. cbn [has_pan]. change (is_word ";") with false.
  assert (Hp : panLike false rest = Some (digit_run rest)).
  { unfold panLike. rewrite Ed. change (starts_word (String "=" more)) with false.
    by rewrite (proj2 (Nat.leb_le _ _) H2), (proj2 (Nat.leb_le _ _) H3). }
  destruct rest as [|d rest]; [cbn in H2; lia|]. cbn [has_pan]. by rewrite Hp, orb_true_r.
Qed.

Lemma find_all_track2 s fuel prev : slen s ≤ fuel → has_pan prev s = false → find_all track2Re fuel prev s = [].
Proof.
  revert fuel prev. induction s as [|c s IH]; intros [|fuel] prev Hf H; try done. cbn [find_all].
  destruct (track2Re prev (String c s)) as [n|] eqn:E; [by rewrite (track2_has_pan prev prev _ n E) in H|].
  cbn [has_pan] in H. apply orb_false_iff in H as [_ H2]. apply IH; [cbn in Hf; lia|done].
Qed.

Lemma digit_run_app x t : digit_run (x +:+ t) = if str_forall is_digit x then slen x + digit_run t else digit_run x.
Proof.
  induction x as [|c x IH]; [done|]. cbn [String.append digit_run str_forall String.length]. rewrite cons_app. cbn [digit_run].
  destruct (is_digit c); [|done]. cbn [andb]. rewrite IH. by destruct (str_forall is_digit x).
Qed.

Lemma ends_word_digits prev x : x ≠ "" → str_forall is_digit x = true → ends_word prev x = true.
Proof.
  revert prev. induction x as [|c x IH]; intros prev Hx Hd; [done|]. cbn [ends_word str_forall] in *.
  apply andb_true_iff in Hd as [Hc Hd]. destruct x as [|c' x]; [by apply is_digit_word|by apply IH].
Qed.

Lemma str_drop_short n x t : n < slen x → starts_word (str_drop n (x +:+ t)) = starts_word (str_drop n x).
Proof.
  revert n. induction x as [|c x IH]; intros n Hn; [cbn in Hn; lia|]. rewrite cons_app. destruct n as [|n]; [done|].
  cbn [str_drop]. apply IH. cbn in Hn. lia.
Qed.

Lemma digit_run_short x : str_forall is_digit x = false → digit_run x < slen x.
Proof.
  induction x as [|c x IH]; [done|]. cbn [str_forall digit_run String.length]. destruct (is_digit c); [|lia].
  intros H. specialize (IH H). lia.
Qed.

(** A match does not reach over the end of a word. *)
Lemma panLike_app prev x t : x ≠ "" → ends_word prev x = false → panLike prev (x +:+ t) = panLike prev x.
Proof.
  intros Hx He. assert (Hd : str_forall is_digit x = false).
  { destruct (str_forall is_digit x) eqn:E; [|done]. by rewrite ends_word_digits in He. }
  unfold panLike. rewrite digit_run_app, Hd. by rewrite str_drop_short by by apply digit_run_short.
Qed.

Lemma ends_word_app prev a b : ends_word prev (a +:+ b) = ends_word (ends_word prev a) b.
Proof. revert prev. induction a as [|c a IH]; intros prev; [done|]. rewrite cons_app. cbn [ends_word]. apply IH. Qed.

Lemma find_all_fuel fuel fuel' prev s : slen s ≤ fuel → slen s ≤ fuel' →
  find_all panRunRe fuel prev s = find_all panRunRe fuel' prev s.
Proof.
  revert fuel' prev s. induction fuel as [|fuel IH]; intros [|fuel'] prev s H1 H2; [done|by destruct s; cbn in H1; [|lia]|
    by destruct s; cbn in H2; [|lia]|]. cbn [find_all]. destruct s as [|c s]; [done|]. change panRunRe with panLike in *.
  destruct (panLike prev (String c s)) as [n|] eqn:E.
  - apply panLike_length in E as [E1 E2]. f_equal. apply IH; rewrite slen_drop; cbn [String.length] in *; lia.
  - apply IH; cbn [String.length] in *; lia.
Qed.

Lemma str_take_le n x t : n ≤ slen x → str_take n (x +:+ t) = str_take n x.
Proof.
  revert n. induction x as [|c x IH]; intros [|n] H; cbn in H; try lia; try done. rewrite cons_app. cbn. by rewrite IH by lia.
Qed.

Lemma str_drop_le n x t : n ≤ slen x → str_drop n (x +:+ t) = str_drop n x +:+ t.
Proof.
  revert n. induction x as [|c x IH]; intros [|n] H; cbn in H; try lia; try done. rewrite cons_app. cbn [str_drop]. by rewrite IH by lia.
Qed.

(** The search of a text whose first part ends in no word is the search of its parts. *)
Lemma find_all_app fuel prev x t : slen (x +:+ t) ≤ fuel → ends_word prev x = false →
  find_all panRunRe fuel prev (x +:+ t) = find_all panRunRe fuel prev x ++ find_all panRunRe fuel false t.
Proof.
  revert prev x. induction fuel as [|fuel IH]; intros prev x Hf He; [done|].
  destruct x as [|c x]; [cbn in He; by rewrite He|].
  rewrite slen_app in Hf. assert (Ht : slen t ≤ fuel) by (cbn in Hf; lia).
  rewrite (find_all_fuel (S fuel) fuel false t) by lia. cbn [find_all]. rewrite cons_app. change panRunRe with panLike in *.
  change (String c (x +:+ t)) with (String c x +:+ t). rewrite panLike_app by done.
  destruct (panLike prev (String c x)) as [n|] eqn:E.
  - apply panLike_length in E as [E1 E2]. rewrite str_take_le, str_drop_le by done.
    set (a := str_take n (String c x)) in *. set (b := str_drop n (String c x)) in *.
    cbn [app]. f_equal. apply IH.
    + rewrite slen_app. unfold b. rewrite slen_drop. cbn [String.length] in *. lia.
    + rewrite <- ends_word_app. unfold a, b. by rewrite str_take_drop.
  - apply IH; [rewrite slen_app; cbn in Hf; lia|exact He].
Qed.

(** A text that does not start with a word has the same matches after a word. *)
Lemma find_all_prev fuel prev prev' y : starts_word y = false →
  find_all panRunRe fuel prev y = find_all panRunRe fuel prev' y.
Proof.
  intros Hy. destruct fuel as [|fuel]; [done|]. destruct y as [|c y]; [done|]. cbn [find_all starts_word] in *.
  assert (Hn : ∀ p, panRunRe p (String c y) = None); [|by rewrite !Hn].
  intros p. unfold panRunRe, panLike. cbn [digit_run]. destruct (is_digit c) eqn:E; [by rewrite (is_digit_word _ E) in Hy|].
  cbn. by rewrite andb_false_r.
Qed.

Lemma panLike_card pan y : str_forall is_digit pan = true → 13 ≤ slen pan ≤ 19 → starts_word y = false →
  panLike false (pan +:+ y) = Some (slen pan).
Proof.
  intros Hd Hl Hy. assert (Hr : digit_run (pan +:+ y) = slen pan).
  { rewrite digit_run_app, Hd. destruct y as [|c y]; [cbn; lia|]. cbn [digit_run]. cbn [starts_word] in Hy.
    destruct (is_digit c) eqn:E; [by rewrite (is_digit_word _ E) in Hy|lia]. }
  unfold panLike. rewrite Hr, str_drop_app, Hy, (proj2 (Nat.leb_le 13 _)), (proj2 (Nat.leb_le _ 19)) by lia. done.
Qed.

(** A card number between characters that make no word is one match. *)
Lemma FindAll_card x pan y :
  ends_word false x = false → starts_word y = false → str_forall is_digit pan = true → 13 ≤ slen pan ≤ 19 →
  FindAllString panRunRe (x +:+ (pan +:+ y)) = FindAllString panRunRe x ++ pan :: FindAllString panRunRe y.
Proof.
  intros Hx Hy Hd Hl. unfold FindAllString. rewrite find_all_app by done.
  set (fuel := slen (x +:+ (pan +:+ y))).
  assert (Hfuel : slen x + slen pan + slen y = fuel) by (unfold fuel; rewrite !slen_app; lia).
  rewrite (find_all_fuel fuel (slen x) false x) by lia. f_equal.
  destruct fuel as [|fuel']; [lia|]. cbn [find_all].
  destruct (pan +:+ y) as [|c rest] eqn:E; [destruct pan; [cbn in Hl; lia|done]|]. change panRunRe with panLike.
  rewrite <- E, panLike_card, str_take_app, str_drop_app by done. f_equal. change panLike with panRunRe.
  rewrite (find_all_prev _ _ false y Hy). apply find_all_fuel; lia.
Qed.

(** ** Luhn *)

Lemma luhn_loop_sum l d n : luhn_loop l d n = (n + luhn_loop l d 0)%Z.
Proof.
  revert d n. induction l as [|c l IH]; intros d n; cbn [luhn_loop]; [lia|].
  rewrite IH, (IH _ (0 + luhn_digit d (digit_of c))%Z). lia.
Qed.

Fixpoint luhn_parity {A} (l : list A) (d : bool) : bool := match l with [] => d | _ :: l => luhn_parity l (negb d) end.

Lemma luhn_loop_app l1 l2 d n : luhn_loop (l1 ++ l2) d n = luhn_loop l2 (luhn_parity l1 d) (luhn_loop l1 d n).
Proof. revert d n. induction l1 as [|c l1 IH]; intros d n; [done|]. cbn [app luhn_loop luhn_parity]. apply IH. Qed.

Definition digit_chars : list ascii := ["0"; "1"; "2"; "3"; "4"; "5"; "6"; "7"; "8"; "9"]%char.

Lemma digit_char c : is_digit c = true → c ∈ digit_chars.
Proof. destruct c as [[] [] [] [] [] [] [] []]; intros H; vm_compute in H; try discriminate H; repeat first [by left|right]. Qed.

(** Another digit in the same place counts differently. *)
Lemma luhn_digit_inj d c c' : is_digit c = true → is_digit c' = true → c ≠ c' →
  ((luhn_digit d (digit_of c) - luhn_digit d (digit_of c')) mod 10 ≠ 0)%Z.
Proof.
  intros Hc%digit_char Hc'%digit_char Hne.
  assert (Hall : forallb (λ c, forallb (λ c', Ascii.eqb c c' ||
     negb ((luhn_digit d (digit_of c) - luhn_digit d (digit_of c')) mod 10 =? 0)%Z) digit_chars) digit_chars = true)
    by (destruct d; vm_compute; reflexivity).
  rewrite forallb_forall in Hall. specialize (Hall c). rewrite forallb_forall in Hall.
  specialize (Hall (proj1 (list_elem_of_In _ _) Hc) c' (proj1 (list_elem_of_In _ _) Hc')).
  apply orb_true_iff in Hall as [->%Ascii.eqb_eq|H]; [done|]. apply negb_true_iff, Z.eqb_neq in H. exact H.
Qed.

Lemma list_ascii_app a b : String.list_ascii_of_string (a +:+ b) = (String.list_ascii_of_string a ++ String.list_ascii_of_string b).
Proof. induction a as [|c a IH]; [done|]. rewrite cons_app. cbn. by rewrite IH. Qed.

(** The check digit catches every single wrong digit. *)
Theorem luhn_catches_wrong_digit x c c' y :
  is_digit c = true → is_digit c' = true → c ≠ c' →
  luhnValid (x +:+ String c y) = true → luhnValid (x +:+ String c' y) = false.
Proof.
  intros Hc Hc' Hne. unfold luhnValid. rewrite !list_ascii_app, !reverse_app. cbn [String.list_ascii_of_string].
  rewrite !reverse_cons, <- !app_assoc, !luhn_loop_app. cbn [luhn_loop].
  set (d := luhn_parity _ false). set (s := luhn_loop (reverse (String.list_ascii_of_string y)) false 0).
  set (r := reverse (String.list_ascii_of_string x)).
  assert (E : ∀ n, luhn_loop ([] ++ r) (luhn_parity [c] d) n = (n + luhn_loop r (negb d) 0)%Z) by (intros n; apply luhn_loop_sum).
  cbn [app luhn_parity] in *. rewrite (luhn_loop_sum r (negb d) (s + luhn_digit d (digit_of c))).
  rewrite (luhn_loop_sum r (negb d) (s + luhn_digit d (digit_of c'))).
  rewrite Z.eqb_eq, Z.eqb_neq. intros H1 H2. apply (luhn_digit_inj d c c' Hc Hc' Hne).
  set (u := luhn_loop r (negb d) 0) in *. set (a := luhn_digit d (digit_of c)) in *. set (b := luhn_digit d (digit_of c')) in *.
  clearbody u a b s. Z.div_mod_to_equations. lia.
Qed.

(** ** The scan *)

Lemma scan_line_card path n x pan y :
  ends_word false x = false → starts_word y = false → str_forall is_digit pan = true → 13 ≤ slen pan ≤ 19 →
  luhnValid pan = true → mkFinding "pan" path n (maskPAN pan) ∈ scan_line path n (x +:+ (pan +:+ y)).
Proof.
  intros Hx Hy Hd Hl Hv. unfold scan_line, detectors. cbn [map concat]. apply elem_of_app. left.
  unfold ScanPAN. rewrite map_map. apply list_elem_of_In, in_map_iff. exists pan. split; [done|].
  apply List.filter_In. split; [|done]. apply list_elem_of_In. rewrite FindAll_card by done.
  apply elem_of_app. right. by left.
Qed.

Lemma number_lines_elem path n ls i l f : ls !! i = Some l → f ∈ scan_line path (n + i) l → f ∈ number_lines path n ls.
Proof.
  revert n i. induction ls as [|l' ls IH]; intros n [|i] Hi Hf; cbn in Hi |- *; try done; apply elem_of_app.
  - injection Hi as ->. left. by rewrite Nat.add_0_r in Hf.
  - right. apply (IH (S n) i Hi). by rewrite Nat.add_succ_comm.
Qed.

Lemma scan_paths_elem args dump path : path ∈ args → path ≠ "" → path ∈ scan_paths args dump.
Proof.
  intros Hin Hne. assert (Hp : path ∈ List.filter non_empty args).
  { apply list_elem_of_In, List.filter_In. split; [by apply list_elem_of_In|]. unfold non_empty. by apply negb_true_iff, String.eqb_neq. }
  unfold scan_paths. destruct (List.filter non_empty args) as [|p ps]; [by apply elem_of_nil in Hp|].
  destruct (non_empty dump); [apply elem_of_app; by left|exact Hp].
Qed.

Section scan.
Context (Stat : string → stat_result) (ReadFile : string → option string) (ToSlash : string → string).

Lemma Walk_finds paths allowlist path f :
  path ∈ paths → Stat path = AFile → (∀ fs, scanFile ReadFile ToSlash path allowlist = Some fs → f ∈ fs) →
  ∀ fs, Walk Stat ReadFile ToSlash paths allowlist = Some fs → f ∈ fs.
Proof.
  intros Hin Hs Hf. induction paths as [|root paths IH]; intros fs E; [by apply elem_of_nil in Hin|]. cbn [Walk] in E.
  destruct (match Stat root with Missing => _ | Unreadable => _ | AFile => _ | ADir l => _ end) as [fs1|] eqn:E1; [|done].
  cbn [mbind option_bind] in E. destruct (Walk Stat ReadFile ToSlash paths allowlist) as [fs2|]; [|done].
  injection E as <-. apply elem_of_app. apply elem_of_cons in Hin as [->|Hin]; [left; rewrite Hs in E1; by apply Hf|right; by apply IH].
Qed.

(** A card number in a scanned file fails the build.  Whatever else is scanned, in whatever
    state the rest is, and whether or not a file cannot be read: when a file named on the command
    line and not allowlisted has a line with a Luhn-valid run of 13 to 19 digits between characters
    that make no word, the scan exits 1; and unless it stops on an error, the number is reported
    with its file and line, shown by its first six and last four digits. *)
Theorem leaked_card_fails_the_build args dump path content i line x pan y :
  path ∈ args → path ≠ "" → Stat path = AFile → HasSuffix (ToSlash path) "contracts/fixtures/cards.json" = false →
  ReadFile path = Some content → raw_lines content !! i = Some line → drop_cr line = x +:+ (pan +:+ y) →
  ends_word false x = false → starts_word y = false → str_forall is_digit pan = true → 13 ≤ slen pan ≤ 19 →
  luhnValid pan = true →
  main Stat ReadFile ToSlash args dump = 1%Z ∧
  ∀ fs, scanFile ReadFile ToSlash path ["contracts/fixtures/cards.json"] = Some fs →
    mkFinding "pan" path (S i) (maskPAN pan) ∈ fs.
Proof.
  intros Hin Hne Hs Ha Hr Hi Hl Hx Hy Hd Hlen Hv.
  assert (Hf : ∀ fs, scanFile ReadFile ToSlash path ["contracts/fixtures/cards.json"] = Some fs →
    mkFinding "pan" path (S i) (maskPAN pan) ∈ fs).
  { intros fs E. unfold scanFile in E. cbn [existsb] in E. rewrite Ha, Hr in E. cbn [orb mbind option_bind] in E.
    unfold scan_lines in E. destruct (forallb _ _); [|done]. cbn [mbind option_bind] in E. injection E as <-.
    eapply (number_lines_elem path 1 _ i (drop_cr line)).
    - change (list_lookup i (map drop_cr (raw_lines content))) with (map drop_cr (raw_lines content) !! i).
      change (map drop_cr (raw_lines content)) with (drop_cr <$> raw_lines content). by rewrite list_lookup_fmap, Hi.
    - rewrite Hl. by apply scan_line_card. }
  split; [|exact Hf]. unfold main.
  pose proof (Walk_finds _ _ path _ (scan_paths_elem args dump path Hin Hne) Hs Hf) as Hw. destruct (Walk Stat ReadFile ToSlash _ _) as [fs|]; [|done].
  specialize (Hw fs eq_refl). destruct fs; [by apply elem_of_nil in Hw|done].
Qed.
End scan.

Definition demo_log : string := "started" +:+ String "010" ("paid PAN=4111111111111111, ok" +:+ String "013" (String "010" "")).
Definition demo_stat (p : string) : stat_result := if String.eqb p "gateway.log" then AFile else Missing.
Definition demo_read (p : string) : option string := if String.eqb p "gateway.log" then Some demo_log else None.

Lemma leaked_card_fails_the_build_witness :
  main demo_stat demo_read id ["gateway.log"] "" = 1%Z ∧
  ∀ fs, scanFile demo_read id "gateway.log" ["contracts/fixtures/cards.json"] = Some fs →
    mkFinding "pan" "gateway.log" 2 "411111******1111" ∈ fs.
Proof.
  apply (leaked_card_fails_the_build demo_stat demo_read id ["gateway.log"] "" "gateway.log" demo_log 1
           ("paid PAN=4111111111111111, ok" +:+ String "013" "") "paid PAN=" "4111111111111111" ", ok");
    try (vm_compute; reflexivity); [by left|done|vm_compute; lia].
Defined.

(** What the gateway masks, the scan finds clean: a text that went through MaskPAN gives no card
    number and no track data to report, whatever it held. *)
Theorem masked_text_is_clean s : ScanPAN (MaskPAN s) = [] ∧ ScanTrack2 (MaskPAN s) = [].
Proof.
  pose proof (MaskPAN_no_pan s) as Hp. unfold ScanPAN, ScanTrack2, FindAllString. split.
  - by rewrite find_all_nil.
  - by rewrite find_all_track2.
Qed.

(** The scan cannot see the cards it is there for.  No card of the simulator passes the Luhn check,
    so whatever surrounds its number in a log, the scan reports what it reports of the text before
    and of the text after, and nothing for the card. *)
Theorem simulator_cards_go_unseen token card x y :
  DefaultCardTokens !! token = Some card → ends_word false x = false → starts_word y = false →
  ScanPAN (x +:+ (PAN card +:+ y)) = ScanPAN x ++ ScanPAN y.
Proof.
  intros Hc Hx Hy.
  assert (H : str_forall is_digit (PAN card) = true ∧ slen (PAN card) = 16 ∧ luhnValid (PAN card) = false).
  { unfold DefaultCardTokens in Hc. apply elem_of_list_to_map_2 in Hc.
    repeat (apply elem_of_cons in Hc as [[= _ ->]|Hc]; [by vm_compute|]). by apply elem_of_nil in Hc. }
  destruct H as (Hd & Hl & Hv). unfold ScanPAN. rewrite FindAll_card by (done || lia).
  rewrite List.filter_app, map_app. cbn [List.filter]. by rewrite Hv.
Qed.

Lemma simulator_cards_go_unseen_witness :
  DefaultCardTokens !! "tok_normal" = Some (mkCard "9704360000004417" "2811" 5000000 "704" "crd_normal0001") ∧
  ScanPAN ("pan=" +:+ ("9704360000004417" +:+ " approved")) = [].
Proof.
  split; [vm_compute; reflexivity|].
  apply (simulator_cards_go_unseen "tok_normal" (mkCard "9704360000004417" "2811" 5000000 "704" "crd_normal0001") "pan=" " approved");
    vm_compute; reflexivity.
Defined.

Example scan_track2 :
  map Masked (ScanTrack2 "x;4111111111111111=28112010000?") = ["411111******1111"] ∧
  map Detector (ScanPinBlock "block 041234FFFFFFFFFF.") = ["pinblock"].
Proof. split; vm_compute; reflexivity. Qed.
