(* ===== verification/Float.v ===== *)
(** * Float: Go's float64

    The standard library's [spec_float] in binary64: every operation rounds to nearest even, as IEEE 754
    and Go say, and is computed exactly. *)

From Stdlib Require Import Floats.SpecFloat.
From S2P Require Import Prelude Digits.
Local Open Scope Z_scope.

Definition float64 : Type := spec_float.
(** [float64(n)] *)
Definition Float64 (n : Z) : float64 := binary_normalize 53 1024 n 0 false.
Definition fdiv (a b : float64) : float64 := SFdiv 53 1024 a b.
Definition fmul (a b : float64) : float64 := SFmul 53 1024 a b.
Definition fadd (a b : float64) : float64 := SFadd 53 1024 a b.
Definition fsub (a b : float64) : float64 := SFsub 53 1024 a b.
Definition fltb (a b : float64) : bool := SFltb a b.

(** The literal [n/10^k]: the nearest float64, as long as [n] and [10^k] are float64s. *)
Definition decimal (n : Z) (k : Z) : float64 := fdiv (Float64 n) (Float64 (10 ^ k)).

(** [int64(x)]: towards zero; of what is out of range the language says nothing, and no use gets there. *)
Definition truncate (x : float64) : Z :=
  match x with
  | S754_finite s m e =>
      let n := if 0 <=? e then Z.pos m * 2 ^ e else Z.pos m / 2 ^ (- e) in if s then - n else n
  | _ => 0
  end.

(** [math.Ceil], as an integer. *)
Definition Ceil (x : float64) : Z :=
  match x with
  | S754_finite s m e =>
      if 0 <=? e then (if s then - (Z.pos m * 2 ^ e) else Z.pos m * 2 ^ e)
      else if s then - (Z.pos m / 2 ^ (- e)) else - (- Z.pos m / 2 ^ (- e))
  | _ => 0
  end.

Example truncate_ex : truncate (fmul (decimal 15 1) (Float64 3)) = 4 ∧ Ceil (decimal 15 1) = 2.
Proof. vm_compute. split; reflexivity. Qed.
