(* ===== verification/Overview.v ===== *)
(** * Overview: the dashboard's aggregates

    [gateway-go/internal/store/overview.go], [api/overview.go], and [Backdate] of tranlog.go, which the
    demo seed uses to fill it.  [percentile_cont] and [make_interval] are PostgreSQL's. *)

From Stdlib Require Import Floats.SpecFloat.
From S2P Require Import Prelude Digits Float Net KeyStore Calendar Store Journey Api.
Local Open Scope Z_scope.

(** ** store/overview.go *)

Definition throughputBuckets : Z := 24.
Definition throughputBucketSeconds : Z := 150.
Definition stateApproved : string := "APPROVED".
Definition stateDeclined : string := "DECLINED".
Definition stateTimedOut : string := "TIMED_OUT".

Record ThroughputSample := mkSample { sample_At : time; TPS : float64 }.
Record DeclineReasonCount := mkReason { reason_ResponseCode : string; Count : Z }.

Record OverviewStats := mkStats {
  TransactionsToday : Z; TransactionsDeltaPct : option float64; ApprovalRate : float64;
  P50LatencyMs : Z; P99LatencyMs : Z; Throughput : list ThroughputSample; DeclineReasons : list DeclineReasonCount }.

Record BusinessDay := mkBusinessDay { bd_Date : time; Previous : time; OpenedAt : time; PreviousOpenedAt : time }.

(** [count( * )] of the rows of tran_log. *)
Definition rows (db : DB) : list TranLogRow := map snd (by_id (tran db)).
Definition count_rows (p : TranLogRow → bool) (db : DB) : Z := Z.of_nat (length (List.filter p (rows db))).

Definition on_date (d : time) (r : TranLogRow) : bool := BusinessDate r =? d.
Definition in_state (s : string) (r : TranLogRow) : bool := String.eqb (Status r) s.

(** The count and the approval rate; 0 without an outcome. *)
Definition overviewCounts (date : time) (db : DB) : Z * float64 :=
  let approved := count_rows (λ r, on_date date r && in_state stateApproved r) db in
  let declined := count_rows (λ r, on_date date r && in_state stateDeclined r) db in
  (count_rows (on_date date) db,
   if 0 <? approved + declined then fdiv (Float64 approved) (Float64 (approved + declined)) else S754_zero false).

Definition overviewDeltaPct (now : time) (day : BusinessDay) (today : Z) (db : DB) : option float64 :=
  let until := PreviousOpenedAt day + (now - OpenedAt day) in
  let yesterday := count_rows (λ r, on_date (Previous day) r && (CreatedAt r <=? until)) db in
  if yesterday =? 0 then None else Some (fdiv (Float64 (today - yesterday)) (Float64 yesterday)).

(** The join: every SENT entry of a row of the date with every final entry of the row. *)
Definition latencies (date : time) (db : DB) : list duration :=
  sent ← List.filter (λ kv, String.eqb (ToStatus kv.2) "SENT") (history db);
  terminal ← List.filter (λ kv : Z * StateTransition, (kv.1 =? sent.1)
      && (String.eqb (ToStatus kv.2) stateApproved || String.eqb (ToStatus kv.2) stateDeclined
          || String.eqb (ToStatus kv.2) stateTimedOut)) (history db);
  match tran db !! sent.1 with
  | Some t => if on_date date t then [At terminal.2 - At sent.2] else []
  | None => []
  end.

(** [GROUP BY]: each value once, with its count. *)
Definition group_by {A} `{EqDecision A} (l : list A) : list (A * Z) :=
  map (λ a, (a, Z.of_nat (length (List.filter (λ b, bool_decide (a = b)) l)))) (remove_dups l).

Definition throughput_window : duration := throughputBuckets * throughputBucketSeconds * Second.

(** [floor(EXTRACT(EPOCH FROM (now - created_at)) / 150)]. *)
Definition age (now created : time) : Z := (now - created) / (throughputBucketSeconds * Second).

Definition age_counts (now : time) (db : DB) : list (Z * Z) :=
  group_by (map (λ r, age now (CreatedAt r))
             (List.filter (λ r, (now - throughput_window <? CreatedAt r) && (CreatedAt r <=? now)) (rows db))).

(** The loop over the rows of the result. *)
Definition bucket_counts (groups : list (Z * Z)) : list Z :=
  fold_left (λ counts g, if (0 <=? g.1) && (g.1 <? throughputBuckets)
                         then <[Z.to_nat (throughputBuckets - 1 - g.1) := g.2]> counts else counts)
    groups (replicate (Z.to_nat throughputBuckets) 0).

Definition sample (now : time) (i : nat) (count : Z) : ThroughputSample :=
  mkSample (now - (throughputBuckets - Z.of_nat i) * throughputBucketSeconds * Second)
           (fdiv (Float64 count) (Float64 throughputBucketSeconds)).

Definition overviewThroughput (now : time) (db : DB) : list ThroughputSample :=
  imap (sample now) (bucket_counts (age_counts now db)).

(** [ORDER BY count( * ) DESC]; a NULL response code is "". *)
Definition count_ge (a b : string * Z) : Prop := b.2 ≤ a.2.
#[export] Instance count_ge_dec : RelDecision count_ge.
Proof. intros a b. unfold count_ge. apply _. Defined.

Definition overviewDeclineReasons (date : time) (db : DB) : list DeclineReasonCount :=
  map (λ g, mkReason g.1 g.2)
    (merge_sort count_ge (group_by (map ResponseCode
       (List.filter (λ r, on_date date r && in_state stateDeclined r && negb (String.eqb (ResponseCode r) "")) (rows db))))).

Section overview.
(** [int64] of [percentile_cont(p)] over the milliseconds of the durations, 0 of none. *)
Context (percentile_cont : Z → list duration → Z).

Definition overviewLatencyPercentiles (date : time) (db : DB) : Z * Z :=
  (percentile_cont 50 (latencies date db), percentile_cont 99 (latencies date db)).

Definition Overview (now : time) (day : BusinessDay) (db : DB) : OverviewStats :=
  let '(today, rate) := overviewCounts (bd_Date day) db in
  let delta := overviewDeltaPct now day today db in
  let '(p50, p99) := overviewLatencyPercentiles (bd_Date day) db in
  mkStats today delta rate p50 p99 (overviewThroughput now db) (overviewDeclineReasons (bd_Date day) db).
End overview.

(** ** api/overview.go *)

Definition businessDay `{Cal : Calendar.Calendar} (now : time) : BusinessDay :=
  let today := Calendar.Current now in
  let previous := Calendar.Previous today in
  mkBusinessDay today previous (Calendar.OpenedAt today) (Calendar.OpenedAt previous).

Record declineReasonDTO := mkReasonDTO { rd_ResponseCode : string; rd_Label : string; Share : float64 }.

Record overviewDTO := mkOverviewDTO {
  od_BusinessDate : string; od_Today : Z; od_Delta : option float64; od_Rate : float64; od_P50 : Z; od_P99 : Z;
  od_LedgerMatches : bool; od_Throughput : list ThroughputSample; od_Reasons : list declineReasonDTO }.

Definition totalDeclined (l : list DeclineReasonCount) : Z := foldr Z.add 0 (map Count l).

Definition toOverviewDTO (stats : OverviewStats) : overviewDTO :=
  let total := totalDeclined (DeclineReasons stats) in
  mkOverviewDTO "" (TransactionsToday stats) (TransactionsDeltaPct stats) (ApprovalRate stats) (P50LatencyMs stats)
    (P99LatencyMs stats) true (Throughput stats)
    (map (λ dr, mkReasonDTO (reason_ResponseCode dr) (EasyTextForRC (reason_ResponseCode dr))
                  (if 0 <? total then fdiv (Float64 (Count dr)) (Float64 total) else S754_zero false)) (DeclineReasons stats)).

(** The reader's answer, at the time the handler reads. *)
Definition handleGetOverview `{Cal : Calendar.Calendar} (reader : time → BusinessDay → result error OverviewStats)
    (req : http_request) (now : time) : answer overviewDTO :=
  let day := businessDay now in
  match reader now day with
  | Err err => Problem (internalProblem req "overview-read-failed" err)
  | Ok stats =>
      let d := toOverviewDTO stats in
      writeJSONBody 200
        (mkOverviewDTO (Format (bd_Date day)) (od_Today d) (od_Delta d) (od_Rate d) (od_P50 d) (od_P99 d)
           (od_LedgerMatches d) (od_Throughput d) (od_Reasons d))
  end.

(** ** tranlog.go: Backdate *)

Definition shift_row (s : duration) (r : TranLogRow) : TranLogRow :=
  mkTran (ID r) (RRN r) (Type_ r) (Status r) (tAmount r) (tCurrency r) (MaskedPAN r) (TerminalID r) (MerchantID r)
    (MerchantName r) (NetworkSTAN r) (ResponseCode r) (AuthCode r) (CreatedAt r + s) (LateResponseCode r)
    (Z.add s <$> LateResponseAt r) (MTI r) (ProcessingCode r) (POSEntryMode r) (Z.add s <$> SentAt r)
    (Z.add s <$> RespondedAt r) (CardToken r) (ApprovedAmount r) (Balance r) (OriginalRRN r) (TraceID r)
    (ReversalReasonCode r) (CompletedBy r) (BusinessDate r).

Definition shift_transition (s : duration) (st : StateTransition) : StateTransition :=
  mkTransition (FromStatus st) (ToStatus st) (At st + s).

Definition shift_saf (s : duration) (q : SafRow) : SafRow :=
  mkSaf (s_id q) (TranID q) (s_mti q) (Payload q) (s_status q) (Attempts q) (MaxAttempts q) (NextRetryAt q + s)
    (LastError q) (s_created q + s) (Z.add s <$> AckedAt q).

(** The three statements. *)
Definition backdateStatements (id : Z) (s : duration) (db : DB) : DB :=
  mkDB (alter (shift_row s) id (tran db)) (next_tran db)
    (map (λ kv : Z * StateTransition, if kv.1 =? id then (kv.1, shift_transition s kv.2) else kv) (history db))
    ((λ q, if TranID q =? id then shift_saf s q else q) <$> saf db) (next_saf db) (idem db) (next_token db)
    (merchants db) (terminals db).

Section backdate.
(** [make_interval(secs => d.Seconds())]: the duration as PostgreSQL rounds it. *)
Context (make_interval : duration → duration).

Definition Backdate (rrn : string) (at_ : time) : dbcall () := λ db,
  match List.find (λ kv : Z * TranLogRow, String.eqb (RRN kv.2) rrn) (by_id (tran db)) with
  | None => (Err [ErrNotFound], db)
  | Some (id, r) => (Ok (), backdateStatements id (make_interval (at_ - CreatedAt r)) db)
  end.
End backdate.

(** ** The throughput chart *)

Lemma group_by_NoDup {A} `{EqDecision A} (l : list A) : NoDup (map fst (group_by l)).
Proof. unfold group_by. rewrite map_map, map_id. apply NoDup_remove_dups. Qed.

Lemma group_by_elem {A} `{EqDecision A} (l : list A) a n :
  (a, n) ∈ group_by l ↔ a ∈ l ∧ n = Z.of_nat (length (List.filter (λ b, bool_decide (a = b)) l)).
Proof.
  unfold group_by. rewrite list_elem_of_In, in_map_iff. split.
  - intros (x & [= <- <-] & Hx). by rewrite <- list_elem_of_In, elem_of_remove_dups in Hx.
  - intros [Ha ->]. exists a. by rewrite <- list_elem_of_In, elem_of_remove_dups.
Qed.

Lemma filter_absent {A} `{EqDecision A} (l : list A) a : a ∉ l → List.filter (λ b, bool_decide (a = b)) l = [].
Proof.
  induction l as [|b l IH]; intros Ha; [done|]. apply not_elem_of_cons in Ha as [Hb Ha]. cbn.
  rewrite bool_decide_false by done. by apply IH.
Qed.

(** A bucket holds the count of its group, or what it held. *)
Lemma bucket_fold groups (counts : list Z) i :
  NoDup (map fst groups) → length counts = Z.to_nat throughputBuckets → (i < Z.to_nat throughputBuckets)%nat →
  let key := throughputBuckets - 1 - Z.of_nat i in
  let out := fold_left (λ counts g, if (0 <=? g.1) && (g.1 <? throughputBuckets)
                         then <[Z.to_nat (throughputBuckets - 1 - g.1) := g.2]> counts else counts) groups counts in
  length out = Z.to_nat throughputBuckets ∧
  (∀ n, (key, n) ∈ groups → out !! i = Some n) ∧ ((∀ n, (key, n) ∉ groups) → out !! i = counts !! i).
Proof.
  intros Hn Hl Hi key. revert counts Hl. induction groups as [|[a m] groups IH]; intros counts Hl; cbn [fold_left map fst snd].
  - split_and!; [done| |done]. intros n Hin. by apply elem_of_nil in Hin.
  - cbn [map fst] in Hn. apply NoDup_cons in Hn as [Ha Hn]. unfold throughputBuckets in *.
    set (counts' := if (0 <=? a) && (a <? 24) then <[Z.to_nat (24 - 1 - a) := m]> counts else counts).
    assert (Hl' : length counts' = Z.to_nat 24) by (unfold counts'; destruct (_ && _); rewrite ?length_insert; done).
    destruct (IH Hn counts' Hl') as (H1 & H2 & H3). split; [exact H1|].
    assert (Hno : key = a → ∀ n, (key, n) ∉ groups).
    { intros -> n Hin. apply Ha. apply list_elem_of_In, in_map_iff. exists (a, n). by rewrite <- list_elem_of_In. }
    split.
    + intros n [[= Ek ->]|Hin]%elem_of_cons; [|by apply H2]. rewrite (H3 (Hno Ek)). unfold counts'.
      replace ((0 <=? a) && (a <? 24)) with true by (symmetry; apply andb_true_iff; rewrite Z.leb_le, Z.ltb_lt; lia).
      replace (Z.to_nat (24 - 1 - a)) with i by lia. apply list_lookup_insert_eq. lia.
    + intros Hnone. rewrite H3 by (intros n Hin; by apply (Hnone n), elem_of_cons; right). unfold counts'.
      destruct ((0 <=? a) && (a <? 24)) eqn:E; [|done]. apply andb_true_iff in E as [E1%Z.leb_le E2%Z.ltb_lt].
      apply list_lookup_insert_ne. intros Ei. apply (Hnone m). apply elem_of_cons. left. f_equal. lia.
Qed.

Lemma bucket_counts_lookup ages i : (i < Z.to_nat throughputBuckets)%nat →
  bucket_counts (group_by ages) !! i
  = Some (Z.of_nat (length (List.filter (λ a, bool_decide (throughputBuckets - 1 - Z.of_nat i = a)) ages))).
Proof.
  intros Hi. destruct (bucket_fold (group_by ages) (replicate (Z.to_nat throughputBuckets) 0) i (group_by_NoDup ages)
    (length_replicate _ _) Hi) as (_ & Hin & Hout). fold (bucket_counts (group_by ages)) in Hin, Hout.
  destruct (decide (throughputBuckets - 1 - Z.of_nat i ∈ ages)) as [Ha|Ha].
  - apply Hin. by apply group_by_elem.
  - rewrite filter_absent by done. rewrite Hout; [by apply lookup_replicate_2|].
    intros n [H _]%group_by_elem. done.
Qed.

Lemma bucket_counts_length ages : length (bucket_counts (group_by ages)) = Z.to_nat throughputBuckets.
Proof.
  destruct (bucket_fold (group_by ages) (replicate (Z.to_nat throughputBuckets) 0) 0 (group_by_NoDup ages)
    (length_replicate _ _) ltac:(by apply Nat.ltb_lt)) as [H _]. exact H.
Qed.

(** The rows of bucket [i], [(now - (24-i)*150s, now - (23-i)*150s]]. *)
Definition in_bucket (now : time) (i : nat) (r : TranLogRow) : bool :=
  let start := now - (throughputBuckets - Z.of_nat i) * throughputBucketSeconds * Second in
  (start <? CreatedAt r) && (CreatedAt r <=? start + throughputBucketSeconds * Second).
Definition in_window (now : time) (r : TranLogRow) : bool :=
  (now - throughput_window <? CreatedAt r) && (CreatedAt r <=? now).

Lemma age_bucket now i r : (i < Z.to_nat throughputBuckets)%nat →
  in_window now r && bool_decide (throughputBuckets - 1 - Z.of_nat i = age now (CreatedAt r)) = in_bucket now i r.
Proof.
  unfold in_bucket, in_window, age, throughput_window, throughputBuckets, throughputBucketSeconds, Second, Millisecond.
  intros Hi. apply eq_bool_prop_intro. rewrite !andb_True, !Is_true_true, !Z.ltb_lt, !Z.leb_le, bool_decide_eq_true.
  set (c := CreatedAt r). Z.div_mod_to_equations. lia.
Qed.

Lemma filter_filter_map {A B} (p : B → bool) (f : A → B) (l : list A) :
  length (List.filter p (map f l)) = length (List.filter (λ a, p (f a)) l).
Proof. induction l as [|a l IH]; [done|]. cbn. destruct (p (f a)); cbn; by rewrite IH. Qed.

Lemma filter_and {A} (p q : A → bool) l : List.filter q (List.filter p l) = List.filter (λ a, p a && q a) l.
Proof. induction l as [|a l IH]; [done|]. cbn. destruct (p a); cbn; [by destruct (q a); rewrite IH|done]. Qed.

Lemma bucket_rows now db i : (i < Z.to_nat throughputBuckets)%nat →
  bucket_counts (age_counts now db) !! i = Some (count_rows (in_bucket now i) db).
Proof.
  intros Hi. unfold age_counts. rewrite bucket_counts_lookup by done. rewrite filter_filter_map, filter_and.
  unfold count_rows. do 3 f_equal. apply filter_ext. intros r. by apply age_bucket.
Qed.

(** Every row of the window is in one bucket. *)
Lemma one_bucket now r : in_window now r = true →
  foldr Z.add 0 (map (λ i, if in_bucket now i r then 1 else 0) (seq 0 24)) = 1.
Proof.
  intros Hw. set (j := Z.to_nat (throughputBuckets - 1 - age now (CreatedAt r))).
  assert (Hj : (j < 24)%nat ∧ ∀ i, (i < 24)%nat → in_bucket now i r = bool_decide (i = j)).
  { assert (Ha : 0 ≤ age now (CreatedAt r) < 24).
    { revert Hw. unfold in_window, age, throughput_window, throughputBuckets, throughputBucketSeconds, Second, Millisecond.
      rewrite andb_true_iff, Z.ltb_lt, Z.leb_le. intros Hw. Z.div_mod_to_equations. lia. }
    unfold j, throughputBuckets. split; [lia|]. intros i Hi.
    rewrite <- (age_bucket now i r), Hw by (unfold throughputBuckets; lia). cbn [andb]. apply bool_decide_ext. unfold throughputBuckets. lia. }
  destruct Hj as [Hj Hb].
  assert (E : map (λ i, if in_bucket now i r then 1 else 0) (seq 0 24) = map (λ i, if bool_decide (i = j) then 1 else 0) (seq 0 24)).
  { apply map_ext_in. intros i Hi%in_seq. by rewrite Hb by lia. }
  rewrite E. clearbody j. clear -Hj. do 24 (destruct j as [|j]; [reflexivity|]). lia.
Qed.

Lemma no_bucket now r : in_window now r = false → ∀ i, (i < 24)%nat → in_bucket now i r = false.
Proof. intros Hw i Hi. rewrite <- (age_bucket now i r) by (unfold throughputBuckets; lia). by rewrite Hw. Qed.

Lemma count_cons (p : TranLogRow → bool) r l :
  Z.of_nat (length (List.filter p (r :: l))) = (if p r then 1 else 0) + Z.of_nat (length (List.filter p l)).
Proof. cbn [List.filter]. destruct (p r); cbn [length]; lia. Qed.

Lemma sum_add {A} (f g : A → Z) l : foldr Z.add 0 (map (λ i, f i + g i) l) = foldr Z.add 0 (map f l) + foldr Z.add 0 (map g l).
Proof. induction l as [|a l IH]; [done|]. cbn. rewrite IH. lia. Qed.

Lemma buckets_sum now (l : list TranLogRow) :
  foldr Z.add 0 (map (λ i, Z.of_nat (length (List.filter (in_bucket now i) l))) (seq 0 24))
  = Z.of_nat (length (List.filter (in_window now) l)).
Proof.
  induction l as [|r l IH]; [reflexivity|].
  rewrite (map_ext _ _ (λ i, count_cons (in_bucket now i) r l)), count_cons, sum_add, IH. f_equal.
  destruct (in_window now r) eqn:Hw; [by apply one_bucket|].
  rewrite (map_ext_in _ (λ _, 0)); [reflexivity|]. intros i Hi%in_seq. by rewrite (no_bucket now r Hw) by lia.
Qed.

(** The throughput chart is dense, in order and counts every transaction of the last hour in one
    bar: there are 24 samples; sample [i] starts 150*(24-i) seconds before now and is the number of
    transactions created in the 150 seconds after its start, its end included, divided by 150; and
    the numbers add up to the transactions created in the window. *)
Theorem throughput_counts_each_once now db :
  let n i := count_rows (in_bucket now i) db in
  length (overviewThroughput now db) = 24%nat ∧
  (∀ i, (i < 24)%nat → overviewThroughput now db !! i
     = Some (mkSample (now - (24 - Z.of_nat i) * 150 * Second) (fdiv (Float64 (n i)) (Float64 150)))) ∧
  foldr Z.add 0 (map n (seq 0 24)) = count_rows (in_window now) db.
Proof.
  intros n. unfold overviewThroughput. rewrite length_imap. split_and!.
  - apply bucket_counts_length.
  - intros i Hi. rewrite list_lookup_imap, bucket_rows by (unfold throughputBuckets; lia). reflexivity.
  - apply buckets_sum.
Qed.

(** ** Backdating *)

(** Counting does not depend on the order of the rows. *)
Lemma count_rows_list p db :
  count_rows p db = Z.of_nat (length (List.filter p (map snd (map_to_list (tran db))))).
Proof.
  unfold count_rows, rows, by_id. f_equal.
  assert (H : map snd (merge_sort id_le (map_to_list (tran db))) ≡ₚ map snd (map_to_list (tran db)))
    by (apply Permutation_map; apply merge_sort_Permutation).
  induction H as [|x l l' H IH|x y l|l l' l'' H1 IH1 H2 IH2]; cbn; try congruence.
  - destruct (p x); cbn; by rewrite IH.
  - by destruct (p x), (p y).
Qed.

Lemma count_insert p (m : gmap Z TranLogRow) id r : m !! id = None →
  Z.of_nat (length (List.filter p (map snd (map_to_list (<[id := r]> m)))))
  = (if p r then 1 else 0) + Z.of_nat (length (List.filter p (map snd (map_to_list m)))).
Proof.
  intros Hid. rewrite <- count_cons. f_equal. change (r :: map snd (map_to_list m)) with (map snd ((id, r) :: map_to_list m)).
  assert (H : map snd (map_to_list (<[id := r]> m)) ≡ₚ map snd ((id, r) :: map_to_list m))
    by (apply Permutation_map; by apply map_to_list_insert).
  induction H as [|x l l' H IH|x y l|l l' l'' H1 IH1 H2 IH2]; cbn; try congruence.
  - destruct (p x); cbn; by rewrite IH.
  - by destruct (p x), (p y).
Qed.

Lemma count_alter p f id db db' : tran db' = alter f id (tran db) → (∀ r, p (f r) = p r) → count_rows p db' = count_rows p db.
Proof.
  intros E Hp. rewrite !count_rows_list, E. destruct (tran db !! id) as [r|] eqn:Hr.
  - assert (E1 : alter f id (tran db) = <[id := f r]> (delete id (tran db))).
    { apply map_eq. intros k. destruct (decide (k = id)) as [->|Hne].
      - by rewrite lookup_alter_eq, lookup_insert_eq, Hr.
      - by rewrite lookup_alter_ne, lookup_insert_ne, lookup_delete_ne by done. }
    assert (E2 : tran db = <[id := r]> (delete id (tran db))) by by rewrite insert_delete_id.
    rewrite E1, (count_insert p _ id (f r)) by apply lookup_delete_eq. rewrite E2 at 2.
    rewrite (count_insert p _ id r), Hp by apply lookup_delete_eq. done.
  - assert (E1 : alter f id (tran db) = tran db); [|by rewrite E1].
    apply map_eq. intros k. destruct (decide (k = id)) as [->|Hne]; [by rewrite lookup_alter_eq, Hr|by rewrite lookup_alter_ne].
Qed.

Lemma filter_map_same {A} (p : A → bool) (g : A → A) l : (∀ a, p (g a) = p a) →
  List.filter p (map g l) = map g (List.filter p l).
Proof. intros Hp. induction l as [|a l IH]; [done|]. cbn. rewrite Hp. destruct (p a); cbn; by rewrite IH. Qed.

Lemma bind_map {A B} (g : A → A) (f f' : A → list B) l : (∀ a, a ∈ l → f' (g a) = f a) → (map g l ≫= f') = (l ≫= f).
Proof.
  intros Hf. induction l as [|a l IH]; [done|]. cbn. rewrite Hf by by left. rewrite IH; [done|].
  intros b Hb. apply Hf. by right.
Qed.

Lemma backdated_latencies date id s db : latencies date (backdateStatements id s db) = latencies date db.
Proof.
  unfold latencies. set (g := λ kv : Z * StateTransition, if kv.1 =? id then (kv.1, shift_transition s kv.2) else kv).
  change (history (backdateStatements id s db)) with (map g (history db)).
  assert (Hg : ∀ kv, (g kv).1 = kv.1 ∧ ToStatus (g kv).2 = ToStatus kv.2 ∧ At (g kv).2 = At kv.2 + (if kv.1 =? id then s else 0)).
  { intros [k st]. unfold g. cbn [fst snd]. destruct (k =? id); cbn; split_and!; try done; lia. }
  rewrite filter_map_same by (intros kv; by destruct (Hg kv) as (_ & -> & _)).
  apply bind_map. intros sent _. destruct (Hg sent) as (E1 & _ & E3).
  rewrite filter_map_same by (intros kv; destruct (Hg kv) as (-> & -> & _); done). rewrite E1.
  apply bind_map. intros terminal Hin. apply list_elem_of_In, List.filter_In in Hin as [_ Ht].
  apply andb_true_iff in Ht as [Ht%Z.eqb_eq _]. destruct (Hg terminal) as (_ & _ & ->). rewrite E3, Ht.
  cbn [tran backdateStatements]. destruct (decide (sent.1 = id)) as [Ei|Ei].
  - rewrite Ei, lookup_alter_eq, Z.eqb_refl. destruct (tran db !! id) as [r|]; [|done]. cbn [fmap option_fmap option_map].
    change (on_date date (shift_row s r)) with (on_date date r). destruct (on_date date r); [|done]. f_equal. lia.
  - rewrite lookup_alter_ne by done. rewrite (proj2 (Z.eqb_neq _ _) Ei). destruct (tran db !! sent.1) as [r|]; [|done].
    destruct (on_date date r); [|done]. f_equal. lia.
Qed.

(** Rewriting the times of any transactions. *)
Fixpoint backdate_all (make_interval : duration → duration) (l : list (string * time)) (db : DB) : DB :=
  match l with
  | [] => db
  | (rrn, at_) :: l => backdate_all make_interval l (Backdate make_interval rrn at_ db).2
  end.

Lemma backdate_all_ind (P : DB → Prop) make_interval l db :
  (∀ id s db, P db → P (backdateStatements id s db)) → P db → P (backdate_all make_interval l db).
Proof.
  intros HP. revert db. induction l as [|[rrn at_] l IH]; intros db H; [done|]. cbn [backdate_all]. apply IH.
  unfold Backdate. destruct (List.find _ _) as [[id r]|]; [by apply HP|done].
Qed.

(** Backdating moves a transaction without changing its story: whatever is backdated to when, the
    latencies the Overview reads, the number of transactions of every business date and their
    approval rate stay what they were. *)
Theorem backdate_keeps_the_figures make_interval l db date :
  latencies date (backdate_all make_interval l db) = latencies date db ∧
  overviewCounts date (backdate_all make_interval l db) = overviewCounts date db.
Proof.
  apply (backdate_all_ind (λ db', latencies date db' = latencies date db ∧ overviewCounts date db' = overviewCounts date db)); [|done].
  intros id s db' [H1 H2]. split; [by rewrite backdated_latencies|]. rewrite <- H2. unfold overviewCounts.
  by rewrite !(count_alter _ (shift_row s) id db' (backdateStatements id s db') eq_refl) by done.
Qed.

(** The demo's yesterday never reaches the Overview.  When all transactions were recorded on the
    business date, as a seed's are, then after any backdating, a day back included, the Overview
    still counts all of them today and finds none the day before, so the day-over-day change
    is missing. *)
Theorem backdated_days_count_today make_interval l db now day :
  map_Forall (λ _ r, BusinessDate r = bd_Date day) (tran db) → Previous day ≠ bd_Date day →
  let db' := backdate_all make_interval l db in
  (overviewCounts (bd_Date day) db').1 = Z.of_nat (size (tran db)) ∧
  ∀ today, overviewDeltaPct now day today db' = None.
Proof.
  intros Hall Hne db'.
  assert (Hdb : map_Forall (λ _ r, BusinessDate r = bd_Date day) (tran db') ∧ size (tran db') = size (tran db)).
  { apply (backdate_all_ind (λ d, map_Forall (λ _ r, BusinessDate r = bd_Date day) (tran d) ∧ size (tran d) = size (tran db)));
      [|by split]. intros id s d [H1 H2]. cbn [tran backdateStatements]. split.
    - intros k r Hr. destruct (decide (k = id)) as [->|Hk].
      + rewrite lookup_alter_eq in Hr. destruct (tran d !! id) as [r'|] eqn:E; [|done]. injection Hr as <-. exact (H1 id r' E).
      + rewrite lookup_alter_ne in Hr by done. exact (H1 k r Hr).
    - rewrite <- H2. rewrite <- !size_dom. by rewrite dom_alter. }
  destruct Hdb as [Hall' Hsize]. clearbody db'.
  assert (Hd : ∀ r, r ∈ map snd (map_to_list (tran db')) → BusinessDate r = bd_Date day).
  { intros r Hr. apply list_elem_of_In, in_map_iff in Hr as ([k r'] & <- & Hin). apply list_elem_of_In, elem_of_map_to_list in Hin.
    exact (Hall' k r' Hin). }
  split.
  - cbn [overviewCounts fst]. rewrite count_rows_list, <- Hsize, <- length_map_to_list, <- (length_map snd (map_to_list (tran db'))).
    f_equal. clear -Hd. induction (map snd (map_to_list (tran db'))) as [|r rs IH]; [done|]. cbn.
    unfold on_date at 1. rewrite Hd by by left. rewrite Z.eqb_refl. cbn. rewrite IH; [done|]. intros r' Hr'. apply Hd. by right.
  - intros today. unfold overviewDeltaPct.
    assert (E : count_rows (λ r, on_date (Previous day) r && (CreatedAt r <=? PreviousOpenedAt day + (now - OpenedAt day))) db' = 0);
      [|by rewrite E].
    rewrite count_rows_list. clear -Hd Hne. induction (map snd (map_to_list (tran db'))) as [|r rs IH]; [done|]. cbn.
    unfold on_date at 1. rewrite Hd by by left. rewrite (proj2 (Z.eqb_neq _ _)) by done. cbn. apply IH.
    intros r' Hr'. apply Hd. by right.
Qed.

Definition demo_today : BusinessDay := mkBusinessDay (20 * Day) (19 * Day) (20 * Day - 7 * Hour) (19 * Day - 7 * Hour).
Definition demo_tran : TranLogRow :=
  mkTran 1 "626407000001" "PURCHASE" "APPROVED" 10000 "704" "970436******4417" "00000042" "GOCPHO000000001" "" "000001" "00" ""
    (20 * Day + Hour) "" None "0200" "000000" "051" (Some (20 * Day + Hour)) (Some (20 * Day + Hour + Second)) "tok_normal"
    None None "" "" "" "" (20 * Day).
Definition demo_seeded : DB := mkDB {[ 1 := demo_tran ]} 2 [] ∅ 1 ∅ 1 ∅ ∅.

(** Moved to the day before, and still counted today. *)
Lemma backdated_days_count_today_witness :
  let db' := backdate_all id [("626407000001", 19 * Day + 2 * Hour)] demo_seeded in
  map CreatedAt (rows db') = [19 * Day + 2 * Hour] ∧ (overviewCounts (20 * Day) db').1 = 1 ∧
  ∀ today, overviewDeltaPct (20 * Day + 3 * Hour) demo_today today db' = None.
Proof.
  split; [vm_compute; reflexivity|].
  apply (backdated_days_count_today id [("626407000001", 19 * Day + 2 * Hour)] demo_seeded (20 * Day + 3 * Hour) demo_today);
    [|vm_compute; discriminate].
  apply map_Forall_singleton. reflexivity.
Defined.

Example demo_share : SFcompare (fdiv (Float64 1) (Float64 4)) (S754_finite false 4503599627370496 (-54)) = Some Eq.
Proof. vm_compute. reflexivity. Qed.
