(* ===== verification/Config.v ===== *)
(** * Config: the configuration and the keys it boots with

    [gateway-go/internal/config/config.go], and the start of [cmd/gateway/main.go] that registers the
    configured working keys.  The standard library's parsers the configuration is read with are written
    out: durations, times of day, base64, splitting and URLs.  The time zone database is a parameter, and
    so is the host of a URL in brackets, whose rules the releases of Go since 1.25 changed. *)

From S2P Require Import Prelude Digits Float Net Codec KeyStore Store Aes Mac Script Rotation.
Local Open Scope Z_scope.
Local Open Scope script_scope.

(** ** strings *)

Definition char_is (c d : ascii) : bool := Z_of_ascii c =? Z_of_ascii d.

(** [strings.Cut] at one byte. *)
Fixpoint Cut (sep : ascii) (s : string) : string * string * bool :=
  match s with
  | "" => ("", "", false)
  | String c s => if char_is c sep then ("", s, true)
                  else let '(before, after, found) := Cut sep s in (String c before, after, found)
  end.

(** [strings.Split] at one byte. *)
Fixpoint Split (sep : ascii) (s : string) : list string :=
  match s with
  | "" => [""]
  | String c s =>
      if char_is c sep then "" :: Split sep s
      else match Split sep s with w :: l => String c w :: l | [] => [String c ""] end
  end.

Definition HasPrefix (s p : string) : bool := String.eqb (str_take (slen p) s) p.
Definition HasSuffix (s p : string) : bool := (slen p <=? slen s)%nat && String.eqb (str_drop (slen s - slen p) s) p.

(** The encodings of the characters [unicode.IsSpace] knows. *)
Definition bytes (l : list Z) : string := foldr (λ n s, String (ascii_of_Z n) s) "" l.
Definition spaces : list string :=
  map (λ n, bytes [n]) [9; 10; 11; 12; 13; 32] ++
  map (λ n, bytes [194; n]) [133; 160] ++ [bytes [225; 154; 128]] ++
  map (λ n, bytes [226; 128; n]) [128; 129; 130; 131; 132; 133; 134; 135; 136; 137; 138; 168; 169; 175] ++
  [bytes [226; 129; 159]; bytes [227; 128; 128]].

Fixpoint trim_left (fuel : nat) (s : string) : string :=
  match fuel with
  | O => s
  | S fuel => match List.find (HasPrefix s) spaces with Some p => trim_left fuel (str_drop (slen p) s) | None => s end
  end.
Fixpoint trim_right (fuel : nat) (s : string) : string :=
  match fuel with
  | O => s
  | S fuel => match List.find (HasSuffix s) spaces with
              | Some p => trim_right fuel (str_take (slen s - slen p) s) | None => s end
  end.

(** [strings.TrimSpace]: a space is at least one byte, so the length bounds the rounds. *)
Definition TrimSpace (s : string) : string := trim_right (slen s) (trim_left (slen s) s).

(** ** time.ParseDuration *)

Fixpoint leadingInt (x : Z) (s : string) : option (Z * string) :=
  match s with
  | String c rest =>
      if is_digit c then
        if 2 ^ 63 / 10 <? x then None
        else let x := x * 10 + digit_val c in if 2 ^ 63 <? x then None else leadingInt x rest
      else Some (x, s)
  | "" => Some (x, "")
  end.

(** After an overflow the digits are passed over. *)
Fixpoint leadingFraction (x : Z) (scale : float64) (overflow : bool) (s : string) : Z * float64 * string :=
  match s with
  | String c rest =>
      if is_digit c then
        if overflow then leadingFraction x scale true rest
        else if (2 ^ 63 - 1) / 10 <? x then leadingFraction x scale true rest
        else let y := x * 10 + digit_val c in
             if 2 ^ 63 <? y then leadingFraction x scale true rest
             else leadingFraction y (fmul scale (Float64 10)) false rest
      else (x, scale, s)
  | "" => (x, scale, "")
  end.

Fixpoint leadingUnit (s : string) : string * string :=
  match s with
  | String c rest =>
      if char_is c "." || is_digit c then ("", s) else let '(u, rest) := leadingUnit rest in (String c u, rest)
  | "" => ("", "")
  end.

(** [unitMap]; the micro sign and the Greek letter mu are both known. *)
Definition unitMap : list (string * Z) :=
  [("ns", 1); ("us", 1000); ("µs", 1000); ("μs", 1000); ("ms", Millisecond); ("s", Second); ("m", Minute); ("h", Hour)].

Definition assoc {A} (k : string) (l : list (string * A)) : option A := snd <$> List.find (λ kv, String.eqb kv.1 k) l.

Definition wrapU64 (n : Z) : Z := n mod 2 ^ 64.

(** One number and its unit: what it adds, and what is left. *)
Definition durationPart (s : string) : option (Z * string) :=
  match s with
  | "" => None
  | String c _ =>
      if negb (char_is c "." || is_digit c) then None
      else
        '(v, s1) ← leadingInt 0 s;
        let pre := negb (slen s1 =? slen s)%nat in
        let '(f, scale, s2, post) := match s1 with
          | String c2 r => if char_is c2 "." then let '(f, scale, s2) := leadingFraction 0 (Float64 1) false r in
                                                 (f, scale, s2, negb (slen s2 =? slen r)%nat)
                           else (0, Float64 1, s1, false)
          | "" => (0, Float64 1, s1, false) end in
        if negb pre && negb post then None
        else
          let '(u, rest) := leadingUnit s2 in
          if String.eqb u "" then None
          else
            unit ← assoc u unitMap;
            if 2 ^ 63 / unit <? v then None
            else
              let v := v * unit in
              let v := if 0 <? f then wrapU64 (v + truncate (fmul (Float64 f) (fdiv (Float64 unit) scale))) else v in
              if (0 <? f) && (2 ^ 63 <? v) then None else Some (v, rest)
  end.

(** The loop; every part takes at least one byte. *)
Fixpoint durationParts (fuel : nat) (d : Z) (s : string) : option Z :=
  match s, fuel with
  | "", _ => Some d
  | _, O => None
  | _, S fuel =>
      '(v, rest) ← durationPart s;
      let d := wrapU64 (d + v) in
      if 2 ^ 63 <? d then None else durationParts fuel d rest
  end.

Definition ParseDuration (s : string) : option duration :=
  let '(neg, s) := match s with
                   | String c r => if char_is c "-" then (true, r) else if char_is c "+" then (false, r) else (false, s)
                   | "" => (false, s) end in
  if String.eqb s "0" then Some 0
  else if String.eqb s "" then None
  else
    d ← durationParts (slen s) 0 s;
    if neg : bool then Some (- d) else if 2 ^ 63 - 1 <? d then None else Some d.

(** ** time.Parse at the layout 15:04:05 *)

Definition getnum (fixed : bool) (s : string) : option (Z * string) :=
  match s with
  | String a (String b rest) =>
      if negb (is_digit a) then None
      else if is_digit b then Some (digit_val a * 10 + digit_val b, rest)
      else if fixed then None else Some (digit_val a, String b rest)
  | String a "" => if is_digit a && negb fixed then Some (digit_val a, "") else None
  | "" => None
  end.

Definition skip_char (c : ascii) (s : string) : option string :=
  match s with String d rest => if char_is c d then Some rest else None | "" => None end.

Fixpoint drop_digits (s : string) : string :=
  match s with String c rest => if is_digit c then drop_digits rest else s | "" => "" end.

(** A fraction after the seconds is read though the layout has none. *)
Definition skip_fraction (s : string) : string :=
  match s with
  | String c (String d rest) =>
      if (char_is c "." || char_is c ",") && is_digit d then drop_digits rest else s
  | _ => s
  end.

(** The hour, the minute and the second. *)
Definition ParseTimeOnly (s : string) : option (Z * Z * Z) :=
  '(hour, s) ← getnum false s;
  if 24 <=? hour then None else
  s ← skip_char ":" s;
  '(minute, s) ← getnum true s;
  if 60 <=? minute then None else
  s ← skip_char ":" s;
  '(second, s) ← getnum true s;
  if 60 <=? second then None else
  if String.eqb (skip_fraction s) "" then Some (hour, minute, second) else None.

(** ** base64.StdEncoding *)

Definition std64 (c : ascii) : option Z :=
  let n := Z_of_ascii c in
  if (65 <=? n) && (n <=? 90) then Some (n - 65)
  else if (97 <=? n) && (n <=? 122) then Some (n - 71)
  else if is_digit c then Some (n + 4)
  else if n =? 43 then Some 62
  else if n =? 47 then Some 63 else None.

Definition octet (v i : Z) : ascii := ascii_of_Z (v / 256 ^ i mod 256).

(** Padding is required, and nothing may follow it; the bits left over are not checked. *)
Fixpoint std_groups (s : string) : option string :=
  match s with
  | "" => Some ""
  | String a (String b (String c (String d rest))) =>
      a ← std64 a; b ← std64 b;
      if char_is c "=" then
        if char_is d "=" && String.eqb rest "" then Some (String (octet ((a * 64 + b) / 16) 0) "") else None
      else
        c ← std64 c;
        if char_is d "=" then
          let v := ((a * 64 + b) * 64 + c) / 4 in
          if String.eqb rest "" then Some (String (octet v 1) (String (octet v 0) "")) else None
        else
          d ← std64 d;
          let v := ((a * 64 + b) * 64 + c) * 64 + d in
          rest ← std_groups rest;
          Some (String (octet v 2) (String (octet v 1) (String (octet v 0) rest)))
  | _ => None
  end.

Fixpoint skip_newlines (s : string) : string :=
  match s with
  | "" => ""
  | String c s => if (Z_of_ascii c =? 10) || (Z_of_ascii c =? 13) then skip_newlines s else String c (skip_newlines s)
  end.

Definition StdDecodeString (s : string) : option string := std_groups (skip_newlines s).

(** ** url.Parse *)

Module Url.

Definition is_alnum (c : ascii) : bool := is_digit (upper_char c) || (65 <=? Z_of_ascii (upper_char c)) && (Z_of_ascii (upper_char c) <=? 90).
Definition one_of (set : string) (c : ascii) : bool := existsb (char_is c) (String.list_ascii_of_string set).

Definition getScheme_char (c : ascii) : bool := is_alnum c && negb (is_digit c).

(** [None] is the missing scheme's error. *)
Fixpoint getScheme_loop (raw : string) (i : nat) (acc s : string) : option (string * string) :=
  match s with
  | "" => Some ("", raw)
  | String c rest =>
      if getScheme_char c then getScheme_loop raw (S i) (acc +:+ String c "") rest
      else if is_digit c || one_of "+-." c then
        if (i =? 0)%nat then Some ("", raw) else getScheme_loop raw (S i) (acc +:+ String c "") rest
      else if char_is c ":" then if (i =? 0)%nat then None else Some (acc, rest)
      else Some ("", raw)
  end.
Definition getScheme (raw : string) : option (string * string) := getScheme_loop raw 0 "" raw.

Definition lower_char (c : ascii) : ascii :=
  let n := Z_of_ascii c in if (65 <=? n) && (n <=? 90) then ascii_of_Z (n + 32) else c.

Inductive encoding := encodePath | encodeHost | encodeUserPassword | encodeFragment.

Definition host_char (c : ascii) : bool :=
  (128 <=? Z_of_ascii c) || is_alnum c || one_of "!$&'()*+,;=:[]<>" c || char_is c "034" || one_of "-_.~" c.

(** [unescape]; of a host only bytes that are not ASCII, and the percent sign, may be escaped. *)
Fixpoint unescape (mode : encoding) (s : string) : option string :=
  match s with
  | "" => Some ""
  | String c rest =>
      if char_is c "%" then
        match rest with
        | String a (String b rest) =>
            if negb (is_hex a && is_hex b) then None
            else
              let high := digit_val (upper_char a) in
              if (match mode with encodeHost => true | _ => false end) && (high <? 8) && negb (char_is a "2" && char_is b "5") then None
              else t ← unescape mode rest; Some (String (ascii_of_Z (16 * high + digit_val (upper_char b))) t)
        | _ => None
        end
      else if (match mode with encodeHost => true | _ => false end) && negb (host_char c) then None
      else t ← unescape mode rest; Some (String c t)
  end.

Definition contains (c : ascii) (s : string) : bool := existsb (char_is c) (String.list_ascii_of_string s).

(** At the last occurrence of a byte: what is before and after it. *)
Fixpoint cut_last (c : ascii) (s : string) : option (string * string) :=
  match s with
  | "" => None
  | String d rest =>
      match cut_last c rest with
      | Some (before, after) => Some (String d before, after)
      | None => if char_is d c then Some ("", rest) else None
      end
  end.

Definition validUserinfo (s : string) : bool := str_forall (λ c, is_alnum c || one_of "-._:~!$&'()*+,;=%@" c) s.

Section url.
Context (bracketHost : string → option string).

Definition parseHost (host : string) : option string :=
  if contains "[" host then bracketHost host
  else
    if match cut_last ":" host with Some (_, port) => str_forall is_digit port | None => true end
    then unescape encodeHost host else None.

(** The host. *)
Definition parseAuthority (authority : string) : option string :=
  match cut_last "@" authority with
  | None => parseHost authority
  | Some (userinfo, h) =>
      host ← parseHost h;
      if negb (validUserinfo userinfo) then None
      else
        let '(user, password, _) := Cut ":" userinfo in
        _ ← unescape encodeUserPassword user; _ ← unescape encodeUserPassword password; Some host
  end.

Definition count (c : ascii) (s : string) : nat := length (List.filter (char_is c) (String.list_ascii_of_string s)).

(** Scheme and host. *)
Definition parse (raw : string) : option (string * string) :=
  if negb (str_forall (λ c, (32 <=? Z_of_ascii c) && negb (Z_of_ascii c =? 127)) raw) then None
  else if String.eqb raw "*" then Some ("", "")
  else
    '(scheme, rest) ← getScheme raw;
    let scheme := str_map lower_char scheme in
    let rest := if HasSuffix rest "?" && (count "?" rest =? 1)%nat then str_take (slen rest - 1) rest else (Cut "?" rest).1.1 in
    if negb (HasPrefix rest "/") && negb (String.eqb scheme "") then Some (scheme, "")
    else if negb (HasPrefix rest "/") && contains ":" (Cut "/" rest).1.1 then None
    else
      '(host, path) ←
        (if (negb (String.eqb scheme "") || negb (HasPrefix rest "///")) && HasPrefix rest "//" then
           let '(authority, path, found) := Cut "/" (str_drop 2 rest) in
           host ← parseAuthority authority; Some (host, if (found : bool) then String "/" path else "")
         else Some ("", rest));
      _ ← unescape encodePath path; Some (scheme, host).

Definition Parse (raw : string) : option (string * string) :=
  let '(u, frag, _) := Cut "#" raw in
  out ← parse u; _ ← unescape encodeFragment frag; Some out.

End url.
End Url.

(** ** config.go *)

Definition defaultKeyLifetimes : string := "ZMK=365,ZPK=30,ZAK=30".
Definition maxKeyLifetimeDays : Z := 3650.
Definition maxEchoTimeout : duration := 15 * Second.

(** The errors, by what their texts say. *)
Inductive ConfigError :=
  | NotDuration (name : string) | NotPositive (name : string)
  | EchoTooLong (got : duration) | BadAttempts (got : string)
  | BadAdminURL (got : string)
  | Required (name : string)
  | NotHex (name : string) | NotAESKey (name : string) (len : nat)
  | NotBase64 | NotAES256 (len : nat)
  | BadPair (raw : string) | UnknownKeyType (keyType : string) | BadDays (keyType : string) (days : Z)
  | ListedTwice (keyType : string)
  | BadCutoverTime | BadCutoverTZ.

Section config.
Context {Location : Type} (LoadLocation : string → option Location) (bracketHost : string → option string).

Record Config := mkConfig {
  ServiceName : string; HTTPAddr : string; MetricsAddr : string; ShutdownTimeout : duration; TracingEnabled : bool;
  IssuerAddr : string; DatabaseURL : string; SafEncKey : option string; ToxiproxyAdminAddr : string;
  IssuerProxyName : string; ChaosFakeIssuerAddr : string; IssuerAdminURL : string; c_EchoTimeout : duration;
  RotationSendAttempts : Z; ChaosRunMaxDuration : duration; LMKTestValueHex : string; ZMK : string;
  InitialZAK : option string; InitialZPK : option string; CORSAllowedOrigin : string;
  KeyLifetimeDays : gmap string Z; CutoverTime : duration; CutoverTZ : Location }.

Definition valueOr (v fallback : string) : string := if String.eqb v "" then fallback else v.

(** A step of [Load]: its error ends it. *)
Definition or_error {A} (e : ConfigError) (o : option A) : result ConfigError A :=
  match o with Some a => Ok a | None => Err e end.
Definition guard_ (b : bool) (e : ConfigError) : result ConfigError () := if b then Ok () else Err e.

Definition positiveDuration (getenv : string → string) (name fallback : string) : result ConfigError duration :=
  d ← or_error (NotDuration name) (ParseDuration (valueOr (getenv name) fallback));
  _ ← guard_ (0 <? d) (NotPositive name);
  Ok d.

Definition httpURL (raw : string) : result ConfigError string :=
  match Url.Parse bracketHost raw with
  | Some (scheme, host) =>
      if (String.eqb scheme "http" || String.eqb scheme "https") && negb (String.eqb host "") then Ok raw
      else Err (BadAdminURL raw)
  | None => Err (BadAdminURL raw)
  end.

Definition loadLinkTimings (getenv : string → string) : result ConfigError (duration * Z) :=
  echo ← positiveDuration getenv "ECHO_TIMEOUT" "10s";
  _ ← guard_ (echo <=? maxEchoTimeout) (EchoTooLong echo);
  let bad := BadAttempts (getenv "ROTATION_SEND_ATTEMPTS") in
  attempts ← or_error bad (ParseInt (valueOr (getenv "ROTATION_SEND_ATTEMPTS") "3"));
  _ ← guard_ ((1 <=? attempts) && (attempts <=? 10)) bad;
  Ok (echo, attempts).

Definition known : list string := ["ZMK"; "ZPK"; "ZAK"; "TPK"; "TAK"; "CVK"; "PVK"].

Fixpoint lifetimes_loop (out : gmap string Z) (pairs : list string) : result ConfigError (gmap string Z) :=
  match pairs with
  | [] => Ok out
  | raw :: pairs =>
      let '(keyType, daysText, ok) := Cut "=" (TrimSpace raw) in
      match (if ok : bool then ParseInt daysText else None) with
      | None => Err (BadPair raw)
      | Some days =>
          if negb (existsb (String.eqb keyType) known) then Err (UnknownKeyType keyType)
          else if (days <? 1) || (maxKeyLifetimeDays <? days) then Err (BadDays keyType days)
          else match out !! keyType with
               | Some _ => Err (ListedTwice keyType)
               | None => lifetimes_loop (<[keyType := days]> out) pairs
               end
      end
  end.

Definition keyLifetimes (raw : string) : result ConfigError (gmap string Z) := lifetimes_loop ∅ (Split "," raw).

Definition aes_length (n : nat) : bool := (n =? 16)%nat || (n =? 24)%nat || (n =? 32)%nat.

Definition optionalAESKeyHex (getenv : string → string) (name : string) : result ConfigError (option string) :=
  let raw := getenv name in
  if String.eqb raw "" then Ok None
  else
    key ← or_error (NotHex name) (DecodeString raw);
    _ ← guard_ (aes_length (slen key)) (NotAESKey name (slen key));
    Ok (Some key).

Definition safEncKey (getenv : string → string) : result ConfigError (option string) :=
  let raw := getenv "SAF_ENC_KEY" in
  if String.eqb raw "" then Ok None
  else
    key ← or_error NotBase64 (StdDecodeString raw);
    _ ← guard_ (slen key =? 32)%nat (NotAES256 (slen key));
    Ok (Some key).

Definition loadOptionalKeys (getenv : string → string)
    : result ConfigError (option string * gmap string Z * option string * option string) :=
  saf ← safEncKey getenv;
  lifetimes ← keyLifetimes (valueOr (getenv "KEY_LIFETIME_DAYS") defaultKeyLifetimes);
  zak ← optionalAESKeyHex getenv "ZAK_HEX";
  zpk ← optionalAESKeyHex getenv "ZPK_HEX";
  Ok (saf, lifetimes, zak, zpk).

Definition loadCutover (getenv : string → string) : result ConfigError (duration * Location) :=
  '(hour, minute, second) ← or_error BadCutoverTime (ParseTimeOnly (valueOr (getenv "CUTOVER_TIME") "23:59:59"));
  tz ← or_error BadCutoverTZ (LoadLocation (valueOr (getenv "CUTOVER_TZ") "Asia/Ho_Chi_Minh"));
  Ok (hour * Hour + minute * Minute + second * Second, tz).

Definition required (getenv : string → string) (name : string) : result ConfigError string :=
  _ ← guard_ (negb (String.eqb (getenv name) "")) (Required name); Ok (getenv name).

Definition Load (getenv : string → string) : result ConfigError Config :=
  shutdown ← positiveDuration getenv "SHUTDOWN_TIMEOUT" "30s";
  run ← positiveDuration getenv "CHAOS_RUN_MAX_DURATION" "10m";
  '(echo, attempts) ← loadLinkTimings getenv;
  admin ← httpURL (valueOr (getenv "ISSUER_ADMIN_URL") "http://issuer:8081");
  lmk ← required getenv "LMK_TEST_VALUE_HEX";
  zmkHex ← required getenv "ZMK_HEX";
  zmk ← or_error (NotHex "ZMK_HEX") (DecodeString zmkHex);
  '(saf, lifetimes, zak, zpk) ← loadOptionalKeys getenv;
  '(cutover, tz) ← loadCutover getenv;
  Ok (mkConfig (valueOr (getenv "OTEL_SERVICE_NAME") "gateway") (valueOr (getenv "HTTP_ADDR") ":8080")
        (valueOr (getenv "METRICS_ADDR") ":9464") shutdown (negb (String.eqb (getenv "OTEL_EXPORTER_OTLP_ENDPOINT") ""))
        (valueOr (getenv "ISSUER_ADDR") "toxiproxy:18000") (getenv "DATABASE_URL") saf
        (valueOr (getenv "TOXIPROXY_ADMIN_ADDR") "http://toxiproxy:8474") (valueOr (getenv "ISSUER_PROXY_NAME") "issuer")
        (getenv "CHAOS_FAKE_ISSUER_ADDR") admin echo attempts run lmk zmk zak zpk (getenv "CORS_ALLOWED_ORIGIN")
        lifetimes cutover tz).

(** ** cmd/gateway/main.go: the initial working keys *)

Context {H : Module_}.

(** The calls log what they did. *)
Fixpoint provision_all (keys : list (string * option string)) : flowE () :=
  match keys with
  | [] => yield (Ok ())
  | (keyType, clear) :: keys => ProvisionInitialKey keyType clear ;;~! provision_all keys
  end.

Definition provisionInitialKeys (cfg : Config) : flowE () :=
  provision_all [("ZAK", InitialZAK cfg); ("ZPK", InitialZPK cfg)].

(** Without an ACTIVE ZAK it warns and goes on. *)
Definition loadActiveZAK (cfg : Config) : flowE () :=
  provisionInitialKeys cfg ;;~! Reload "ZAK" ;;~ yield (Ok ()).
End config.

(** ** What an accepted configuration satisfies *)

Lemma or_error_Ok {A} e (o : option A) a : or_error e o = Ok a → o = Some a.
Proof. unfold or_error. destruct o; congruence. Qed.

Lemma guard_Ok b e u : guard_ b e = Ok u → b = true.
Proof. unfold guard_. destruct b; congruence. Qed.

Ltac config_step :=
  match goal with
  | H : or_error _ _ = Ok _ |- _ => apply or_error_Ok in H
  | H : guard_ _ _ = Ok _ |- _ => apply guard_Ok in H
  | H : (let '(_, _) := ?p in _) = Ok _ |- _ => destruct p
  end.
Ltac invert_load := repeat (progress invert_ok || config_step).

Lemma durationParts_range fuel d s d' : 0 ≤ d ≤ 2 ^ 63 → durationParts fuel d s = Some d' → 0 ≤ d' ≤ 2 ^ 63.
Proof.
  revert d s. induction fuel as [|fuel IH]; intros d s Hd; destruct s as [|c s]; cbn [durationParts]; try congruence.
  destruct (durationPart (String c s)) as [[v rest]|]; cbn [mbind option_bind]; [|done].
  destruct (Z.ltb_spec (2 ^ 63) (wrapU64 (d + v))); [done|]. apply IH. split; [apply Z.mod_pos_bound; lia|done].
Qed.

Lemma ParseDuration_range s d : ParseDuration s = Some d → - 2 ^ 63 ≤ d < 2 ^ 63.
Proof.
  unfold ParseDuration. destruct (match s with "" => _ | String c r => _ end) as [neg r].
  destruct (String.eqb r "0"); [intros [= <-]; lia|]. destruct (String.eqb r ""); [done|].
  destruct (durationParts (slen r) 0 r) as [n|] eqn:E; cbn [mbind option_bind]; [|done].
  apply durationParts_range in E; [|lia]. destruct neg; [intros [= <-]; lia|].
  destruct (Z.ltb_spec (2 ^ 63 - 1) n); [done|]. intros [= <-]. lia.
Qed.

Lemma positiveDuration_Ok getenv name fallback d :
  positiveDuration getenv name fallback = Ok d → 0 < d < 2 ^ 63.
Proof.
  unfold positiveDuration. intros Hd. invert_load. apply ParseDuration_range in Hm. apply Z.ltb_lt in Hm0. lia.
Qed.

Lemma optionalAESKeyHex_Ok getenv name key : optionalAESKeyHex getenv name = Ok key →
  match key with
  | None => getenv name = ""
  | Some k => DecodeString (getenv name) = Some k ∧ aes_length (slen k) = true
  end.
Proof.
  unfold optionalAESKeyHex. destruct (String.eqb_spec (getenv name) "") as [E|E]; [by intros [= <-]|].
  intros Hk. invert_load. done.
Qed.

Lemma safEncKey_Ok getenv key : safEncKey getenv = Ok key →
  match key with None => getenv "SAF_ENC_KEY" = "" | Some k => slen k = 32%nat end.
Proof.
  unfold safEncKey. destruct (String.eqb_spec (getenv "SAF_ENC_KEY") "") as [E|E]; [by intros [= <-]|].
  intros Hk. invert_load. by apply Nat.eqb_eq.
Qed.

Definition lifetime_ok (keyType : string) (days : Z) : Prop := keyType ∈ known ∧ 1 ≤ days ≤ maxKeyLifetimeDays.

Lemma lifetimes_loop_Ok pairs out lifetimes :
  map_Forall lifetime_ok out → lifetimes_loop out pairs = Ok lifetimes → map_Forall lifetime_ok lifetimes.
Proof.
  revert out. induction pairs as [|p pairs IH]; intros out Hout; cbn [lifetimes_loop]; [by intros [= <-]|].
  destruct (Cut "=" (TrimSpace p)) as [[keyType daysText] ok].
  destruct (if ok then ParseInt daysText else None) as [days|]; [|done].
  destruct (existsb (String.eqb keyType) known) eqn:Hk; cbn [negb]; [|done].
  destruct ((days <? 1) || (maxKeyLifetimeDays <? days)) eqn:Hd; [done|].
  destruct (out !! keyType); [done|]. apply IH. apply map_Forall_insert_2; [|done].
  apply orb_false_iff in Hd as [Hd1%Z.ltb_ge Hd2%Z.ltb_ge]. split; [|lia].
  apply existsb_exists in Hk as (k & Hin & <-%String.eqb_eq). by apply list_elem_of_In.
Qed.

Lemma digit_val_range c : is_digit c = true → 0 ≤ digit_val c ≤ 9.
Proof.
  unfold digit_val. intros Hc. rewrite Hc. unfold is_digit in Hc. apply andb_true_iff in Hc as [H1%Z.leb_le H2%Z.leb_le]. lia.
Qed.

Lemma getnum_nonneg fixed s n rest : getnum fixed s = Some (n, rest) → 0 ≤ n.
Proof.
  unfold getnum. destruct s as [|a [|b s]]; [done| |].
  - destruct (is_digit a) eqn:Ha; cbn [andb]; [|done]. destruct (negb fixed); [|done]. intros [= <- <-].
    pose proof (digit_val_range a Ha). lia.
  - destruct (is_digit a) eqn:Ha; cbn [negb]; [|done]. pose proof (digit_val_range a Ha).
    destruct (is_digit b) eqn:Hb; [pose proof (digit_val_range b Hb); intros [= <- <-]; lia|].
    destruct fixed; [done|]. intros [= <- <-]. lia.
Qed.

Lemma ParseTimeOnly_range s hour minute second :
  ParseTimeOnly s = Some (hour, minute, second) → 0 ≤ hour < 24 ∧ 0 ≤ minute < 60 ∧ 0 ≤ second < 60.
Proof.
  unfold ParseTimeOnly. destruct (getnum false s) as [[h s1]|] eqn:E1; cbn [mbind option_bind]; [|done].
  destruct (Z.leb_spec 24 h); [done|]. destruct (skip_char ":" s1) as [s2|]; cbn [mbind option_bind]; [|done].
  destruct (getnum true s2) as [[m s3]|] eqn:E2; cbn [mbind option_bind]; [|done].
  destruct (Z.leb_spec 60 m); [done|]. destruct (skip_char ":" s3) as [s4|]; cbn [mbind option_bind]; [|done].
  destruct (getnum true s4) as [[n s5]|] eqn:E3; cbn [mbind option_bind]; [|done].
  destruct (Z.leb_spec 60 n); [done|]. destruct (String.eqb (skip_fraction s5) ""); [|done]. intros [= <- <- <-].
  apply getnum_nonneg in E1, E2, E3. lia.
Qed.

Section accepted.
Context {Location : Type} (LoadLocation : string → option Location) (bracketHost : string → option string).

Lemma loadLinkTimings_Ok getenv echo attempts :
  loadLinkTimings getenv = Ok (echo, attempts) → 0 < echo ≤ maxEchoTimeout ∧ 1 ≤ attempts ≤ 10.
Proof.
  unfold loadLinkTimings. intros Hl. invert_load.
  repeat match goal with
  | H : _ && _ = true |- _ => apply andb_true_iff in H as [?%Z.leb_le ?%Z.leb_le]
  | H : (_ <=? _) = true |- _ => apply Z.leb_le in H
  | H : positiveDuration _ _ _ = Ok _ |- _ => apply positiveDuration_Ok in H
  | H : (_, _) = (_, _) |- _ => injection H as -> ->
  end. lia.
Qed.

Lemma httpURL_Ok raw url : httpURL bracketHost raw = Ok url →
  url = raw ∧ ∃ scheme host, Url.Parse bracketHost raw = Some (scheme, host) ∧ scheme ∈ ["http"; "https"] ∧ host ≠ "".
Proof.
  unfold httpURL. destruct (Url.Parse bracketHost raw) as [[scheme host]|]; [|done].
  destruct (String.eqb_spec host ""); [by rewrite andb_false_r|]. rewrite andb_true_r.
  destruct (String.eqb_spec scheme "http") as [->|].
  { intros [= <-]. split; [done|]. eexists _, _. split_and!; [done|set_solver|done]. }
  destruct (String.eqb_spec scheme "https") as [->|]; [|done].
  intros [= <-]. split; [done|]. eexists _, _. split_and!; [done|set_solver|done].
Qed.

Lemma loadCutover_Ok getenv at_ tz : loadCutover LoadLocation getenv = Ok (at_, tz) →
  0 ≤ at_ < 24 * Hour ∧ LoadLocation (valueOr (getenv "CUTOVER_TZ") "Asia/Ho_Chi_Minh") = Some tz.
Proof.
  unfold loadCutover. intros Hl. invert_load.
  match goal with H : ParseTimeOnly _ = Some _ |- _ => apply ParseTimeOnly_range in H end.
  split; [|done]. unfold Hour, Minute, Second, Millisecond. lia.
Qed.

(** What has been checked. *)
Record config_ok (getenv : string → string) (cfg : Config (Location := Location)) : Prop := {
  ok_shutdown : 0 < ShutdownTimeout cfg; ok_run : 0 < ChaosRunMaxDuration cfg;
  ok_echo : 0 < c_EchoTimeout cfg ∧ 2 * c_EchoTimeout cfg < 35 * Second;
  ok_attempts : 1 ≤ RotationSendAttempts cfg ≤ 10;
  ok_admin : ∃ scheme host, Url.Parse bracketHost (IssuerAdminURL cfg) = Some (scheme, host) ∧
               scheme ∈ ["http"; "https"] ∧ host ≠ "";
  ok_lmk : LMKTestValueHex cfg ≠ "";
  ok_saf : match SafEncKey cfg with Some k => slen k = 32%nat | None => getenv "SAF_ENC_KEY" = "" end;
  ok_zak : match InitialZAK cfg with
           | Some k => DecodeString (getenv "ZAK_HEX") = Some k ∧ slen k ∈ [16; 24; 32]%nat
           | None => getenv "ZAK_HEX" = "" end;
  ok_zpk : match InitialZPK cfg with
           | Some k => DecodeString (getenv "ZPK_HEX") = Some k ∧ slen k ∈ [16; 24; 32]%nat
           | None => getenv "ZPK_HEX" = "" end;
  ok_zmk : DecodeString (getenv "ZMK_HEX") = Some (ZMK cfg) ∧ getenv "ZMK_HEX" ≠ "";
  ok_lifetimes : map_Forall lifetime_ok (KeyLifetimeDays cfg);
  ok_cutover : 0 ≤ CutoverTime cfg < 24 * Hour
}.

Lemma aes_length_in n : aes_length n = true ↔ n ∈ [16; 24; 32]%nat.
Proof.
  unfold aes_length. rewrite !orb_true_iff, !Nat.eqb_eq, !elem_of_cons, elem_of_nil. naive_solver.
Qed.

Lemma Load_Ok getenv cfg : Load LoadLocation bracketHost getenv = Ok cfg → config_ok getenv cfg.
Proof.
  unfold Load, required. intros Hl. invert_load.
  repeat match goal with
  | H : loadOptionalKeys _ = Ok _ |- _ => unfold loadOptionalKeys in H; invert_load
  | H : (_, _, _, _) = (_, _, _, _) |- _ => injection H as -> -> -> ->
  | H : negb (String.eqb _ _) = true |- _ => apply negb_true_iff, String.eqb_neq in H
  | H : positiveDuration _ _ _ = Ok _ |- _ => apply positiveDuration_Ok in H
  | H : loadLinkTimings _ = Ok _ |- _ => apply loadLinkTimings_Ok in H as [[] ?]
  | H : httpURL _ _ = Ok _ |- _ => apply httpURL_Ok in H as [-> ?]
  | H : loadCutover _ _ = Ok _ |- _ => apply loadCutover_Ok in H as [? ?]
  | H : safEncKey _ = Ok _ |- _ => apply safEncKey_Ok in H
  | H : keyLifetimes _ = Ok _ |- _ => apply lifetimes_loop_Ok in H; [|apply map_Forall_empty]
  | H : optionalAESKeyHex _ _ = Ok ?k |- _ => apply optionalAESKeyHex_Ok in H
  end.
  constructor; cbn [ShutdownTimeout ChaosRunMaxDuration c_EchoTimeout RotationSendAttempts IssuerAdminURL LMKTestValueHex
    SafEncKey InitialZAK InitialZPK ZMK KeyLifetimeDays CutoverTime]; try tauto; try done.
  1: unfold maxEchoTimeout, Second, Millisecond in *; lia.
  all: match goal with |- match ?k with _ => _ end => destruct k; [by rewrite <- aes_length_in|done] end.
Qed.

(** C32. What [Load] has checked of a configuration it accepts: the three durations are positive and two echo
    round trips fit the 35 s an answer has, a rotation is sent 1 to 10 times, the issuer's
    administration is an http or https URL with a host, the LMK is set, the ZMK is set and is the
    hexadecimal written, a queue key is 32 bytes, a configured working key has 16, 24 or 32 bytes and is
    the one written, every key lifetime is 1 to 3650 days of a known type, and the business date rolls
    within the day.  This is not all the gateway needs: no length of the ZMK is checked, the LMK is
    only when the process starts, and a working key of 24 or 32 bytes loads although no MAC can be
    computed with it ([configured_zak_in_use]). *)
Theorem accepted_config_is_sound getenv cfg :
  Load LoadLocation bracketHost getenv = Ok cfg → config_ok getenv cfg.
Proof. exact (Load_Ok getenv cfg). Qed.
End accepted.

(** ** A start on a fresh key_store *)

(** Every statement is run, and the random source gives every nonce. *)
Definition calm_start (m : move) : Prop := healthy m ∧ ∃ nonce, m_nonce m = Some nonce ∧ slen nonce = NonceSize.

Lemma healthy_run {A} det (f : time → Vault → result error A * Vault) v m cs : cancelled v = false → healthy m →
  statement det f v (m :: cs) = Finished (f (clock (elapse m v)) (elapse m v)).1 (f (clock (elapse m v)) (elapse m v)).2 cs.
Proof.
  intros Hv [Hf Hc]. unfold statement, act. cbn zeta.
  assert (E : cancelled (elapse m v) = false) by (cbn; by rewrite Hv, Hc).
  rewrite E, andb_false_r, Hf. by destruct (f _ _).
Qed.

Section start.
Context (lmk : string) (Hlmk : aes_length (slen lmk) = true).
Local Abbreviation M := (JCEModule lmk).

Lemma wrap_ok nonce key : ∃ wrapped, @WrapUnderLMK M (Some nonce) key = Ok wrapped.
Proof.
  cbn. unfold jce_WrapUnderLMK, EncryptBytes, newGCM, aes_NewCipher. unfold aes_length in Hlmk. rewrite Hlmk.
  bind_step. by eexists.
Qed.

Lemma kcv_ok key : aes_length (slen key) = true → ∃ kcv, @hsm_kcv M key = Ok kcv.
Proof.
  intros Hk. unfold hsm_kcv. cbn. unfold jce_ComputeKCV, aes_NewCipher. unfold aes_length in Hk. rewrite Hk. by eexists.
Qed.

(** A configured key becomes the last row, ACTIVE, and unwraps to itself. *)
Lemma provision_fresh kt key v m1 m2 cs :
  aes_length (slen key) = true → kt ∈ ["ZAK"; "ZPK"] → existsb (active_of kt "") (KeyStore.rows (keys v)) = false →
  cancelled v = false → calm_start m1 → calm_start m2 →
  ∃ p v' row, @ProvisionInitialKey M kt (Some key) v (m1 :: m2 :: cs) = Finished (Ok p) v' cs ∧
    cancelled v' = false ∧ KeyStore.rows (keys v') = KeyStore.rows (keys v) ++ [row] ∧
    KeyType row = kt ∧ k_status row = KeyStore.ACTIVE ∧ @clear_key M row = Some key.
Proof.
  intros Hk Hkt Hno Hv [_ (nonce & Hn & Hl)] [H2 _]. destruct (wrap_ok nonce key) as [wrapped Hw].
  destruct (kcv_ok key Hk) as [kcv Hkcv]. unfold ProvisionInitialKey, sbindE, sbind, hsm_wrap, act.
  rewrite Hn, Hw. cbn [map_err]. unfold yield. rewrite Hkcv, (healthy_run false _ v m2 cs) by done.
  unfold ensure_active, EnsureActive. cbn [keys elapse]. rewrite Hno.
  assert (E : existsb (String.eqb kt) key_types = true) by (revert Hkt; rewrite !elem_of_cons, elem_of_nil; intros [->|[->|[]]]; reflexivity).
  rewrite E. cbn [fst snd]. eexists _, _, _. split; [reflexivity|].
  cbn [cancelled set_keys elapse keys KeyStore.rows KeyType k_status KeyUnderLMKHex].
  split_and!; try done; [by rewrite Hv; destruct H2 as [_ ->]|]. eapply clear_key_wrapped; [exact Hl|exact Hw|reflexivity].
Qed.
End start.

Section boot.
Context {Location : Type} (LoadLocation : string → option Location) (bracketHost : string → option string).
Context (lmk : string) (Hlmk : aes_length (slen lmk) = true).
Local Abbreviation M := (JCEModule lmk).

(** Reloading takes the ACTIVE ZAK when it is the first of the table. *)
Lemma reload_first key row rest v m cs :
  cancelled v = false → healthy m → KeyStore.rows (keys v) = row :: rest →
  KeyType row = "ZAK" → k_status row = KeyStore.ACTIVE → @clear_key M row = Some key →
  ∃ v', @Reload M "ZAK" v (m :: cs) = Finished (Ok ()) v' cs ∧ zak v' = Some key.
Proof.
  intros Hv Hm Hrows Ht Hs Hc. unfold Reload. cbn [negb String.eqb Ascii.eqb Bool.eqb]. unfold sbindE, sbind.
  rewrite (healthy_run false _ v m cs) by done. unfold key_list. cbn [fst snd keys elapse].
  unfold List_. rewrite Hrows. cbn [List.find]. unfold has_status. rewrite Ht, Hs. cbn [String.eqb Ascii.eqb Bool.eqb andb].
  unfold clear_key in Hc. destruct (DecodeString (KeyUnderLMKHex row)) as [c|]; cbn [mbind option_bind] in Hc; [|done].
  destruct (@Unwrap M c) as [z|e]; [|done]. injection Hc as ->. by eexists.
Qed.

(** The configured ZAK is the key in use after a start on a fresh key_store: the start goes well with
    any key the configuration accepts.  But it accepts 24 and 32 bytes too, and no message can be
    MACed with such a key: the gateway then comes up and every request it has to MAC fails. *)
Theorem configured_zak_in_use getenv cfg key v cs :
  Load LoadLocation bracketHost getenv = Ok cfg → NewJCEModule (LMKTestValueHex cfg) = Ok lmk →
  InitialZAK cfg = Some key → KeyStore.rows (keys v) = [] → cancelled v = false →
  Forall calm_start cs → (5 ≤ length cs)%nat →
  ∃ v' cs', @loadActiveZAK _ M cfg v cs = Finished (Ok ()) v' cs' ∧ ActiveZAK v' = key ∧
    ∀ mti fields f, slen key ≠ 16%nat → @attachMAC M key mti fields ≠ Ok f.
Proof.
  intros Hload _ Hkey Hrows Hv Hcs Hlen. pose proof (Load_Ok _ _ _ _ Hload) as Hok.
  pose proof (ok_zak _ _ _ Hok) as Hz. rewrite Hkey in Hz. destruct Hz as [_ Hz%aes_length_in].
  pose proof (ok_zpk _ _ _ Hok) as Hp. destruct cs as [|m1 [|m2 [|m3 [|m4 [|m5 cs]]]]]; try (cbn in Hlen; lia).
  repeat (apply Forall_cons in Hcs as [? Hcs]).
  destruct (provision_fresh lmk Hlmk "ZAK" key v m1 m2 (m3 :: m4 :: m5 :: cs)) as (p & v1 & row & E1 & Hv1 & Hr1 & Ht & Hs & Hc);
    [done|set_solver|by rewrite Hrows|done..|]. rewrite Hrows in Hr1. cbn [app] in Hr1.
  assert (Hreload : ∃ v' cs', (@provisionInitialKeys _ M cfg ;;~! @Reload M "ZAK" ;;~ yield (Ok ()))%script v
            (m1 :: m2 :: m3 :: m4 :: m5 :: cs) = Finished (Ok ()) v' cs' ∧ zak v' = Some key).
  { unfold provisionInitialKeys, provision_all, sbindE, sbind. rewrite Hkey, E1. destruct (InitialZPK cfg) as [zpk|].
    - destruct Hp as [_ Hp%aes_length_in].
      destruct (provision_fresh lmk Hlmk "ZPK" zpk v1 m3 m4 (m5 :: cs)) as (p2 & v2 & row2 & E2 & Hv2 & Hr2 & _);
        [done|set_solver| |done..|].
      { rewrite Hr1. cbn [existsb]. unfold active_of, same_pair. by rewrite Ht. }
      rewrite E2. unfold yield. rewrite Hr1 in Hr2.
      destruct (reload_first key row [row2] v2 m5 cs) as (v3 & E3 & Hz3); [done|by destruct H3|done..|].
      rewrite E3. by eexists _, _.
    - cbn [ProvisionInitialKey]. unfold yield.
      destruct (reload_first key row [] v1 m3 (m4 :: m5 :: cs)) as (v3 & E3 & Hz3); [done|by destruct H1|done..|].
      rewrite E3. by eexists _, _. }
  destruct Hreload as (v' & cs' & E & Hz'). exists v', cs'. split; [exact E|]. split; [unfold ActiveZAK; by rewrite Hz'|].
  intros mti fields f Hne Ha. unfold attachMAC in Ha. invert_ok.
  pose proof (jce_ComputeMAC_cases lmk v0 key) as Hm2. destruct (@ComputeMAC M v0 key); [|done]. tauto.
Qed.
End boot.

(** ** The loops end: every part of a duration takes a byte *)

Lemma leadingInt_rest x s v rest : leadingInt x s = Some (v, rest) → (slen rest ≤ slen s)%nat.
Proof.
  revert x. induction s as [|c s IH]; intros x; cbn [leadingInt]; [by intros [= <- <-]|].
  destruct (is_digit c); [|by intros [= <- <-]]. destruct (_ <? x); [done|]. cbn zeta. destruct (_ <? _); [done|].
  intros E%IH. cbn [slen]. lia.
Qed.

Lemma leadingFraction_rest x scale overflow s : (slen (leadingFraction x scale overflow s).2 ≤ slen s)%nat.
Proof.
  revert x scale overflow. induction s as [|c s IH]; intros x scale overflow; cbn [leadingFraction]; [done|].
  destruct (is_digit c); [|done]. cbn [slen]. cbn zeta. destruct overflow; [|destruct (_ <? x); [|destruct (_ <? _)]];
    (eapply Nat.le_trans; [apply IH|lia]).
Qed.

Lemma leadingUnit_rest s u rest : leadingUnit s = (u, rest) → (slen u + slen rest = slen s)%nat.
Proof.
  revert u rest. induction s as [|c s IH]; intros u rest; cbn [leadingUnit]; [by intros [= <- <-]|].
  destruct (_ || _); [by intros [= <- <-]|]. destruct (leadingUnit s) as [u' rest'] eqn:E. intros [= <- <-].
  specialize (IH u' rest' eq_refl). cbn [slen]. lia.
Qed.

Lemma durationPart_rest s v rest : durationPart s = Some (v, rest) → (slen rest < slen s)%nat.
Proof.
  unfold durationPart. destruct s as [|c0 s0]; [done|]. set (s := String c0 s0). destruct (negb _); [done|].
  destruct (leadingInt 0 s) as [[v1 s1]|] eqn:E1; cbn [mbind option_bind]; [|done]. apply leadingInt_rest in E1. cbn zeta.
  assert (H2 : ∀ r, (slen r ≤ slen s1)%nat → ∀ (f : Z) scale post,
    (if negb (negb (slen s1 =? slen s)%nat) && negb post then None else
       let '(u, rest) := leadingUnit r in
       if String.eqb u "" then None else
       unit ← assoc u unitMap;
       if 2 ^ 63 / unit <? v1 then None
       else let v2 := v1 * unit in
            let v3 := if 0 <? f then wrapU64 (v2 + truncate (fmul (Float64 f) (fdiv (Float64 unit) scale))) else v2 in
            if (0 <? f) && (2 ^ 63 <? v3) then None else Some (v3, rest)) = Some (v, rest) → (slen rest < slen s)%nat).
  { intros r Hr f scale post. destruct (_ && _); [done|]. destruct (leadingUnit r) as [u r2] eqn:Eu.
    apply leadingUnit_rest in Eu. destruct (String.eqb_spec u "") as [|Hu]; [done|].
    destruct (assoc u unitMap); cbn [mbind option_bind]; [|done]. destruct (_ <? v1); [done|]. cbn zeta.
    destruct (_ && _); [done|]. intros [= _ <-]. destruct u; [done|]. cbn [slen] in Eu. lia. }
  destruct s1 as [|c1 r1]; [by apply H2|]. destruct (char_is c1 "."); [|by apply H2].
  pose proof (leadingFraction_rest 0 (Float64 1) false r1) as H3.
  destruct (leadingFraction 0 (Float64 1) false r1) as [[f scale] s2]. apply H2. cbn [snd slen] in *. lia.
Qed.

(** More fuel than the length of the text changes nothing. *)
Lemma durationParts_fuel n d s : durationParts (n + slen s) d s = durationParts (slen s) d s.
Proof.
  assert (H : ∀ fuel fuel' s d, (slen s ≤ fuel)%nat → (slen s ≤ fuel')%nat → durationParts fuel d s = durationParts fuel' d s).
  { clear. induction fuel as [|fuel IH]; intros fuel' s d Hf Hf'.
    - destruct s; [by destruct fuel'|cbn in Hf; lia].
    - destruct s as [|c s]; [by destruct fuel'|]. destruct fuel' as [|fuel']; [cbn in Hf'; lia|]. cbn [durationParts].
      destruct (durationPart (String c s)) as [[v rest]|] eqn:E; cbn [mbind option_bind]; [|done].
      apply durationPart_rest in E. cbn zeta. destruct (_ <? _); [done|]. apply IH; cbn [slen] in *; lia. }
  apply H; lia.
Qed.

(** ** Configurations to evaluate *)

Definition demo_env (l : list (string * string)) (k : string) : string := default "" (assoc k l).
Definition demo_load (l : list (string * string)) : result ConfigError (Config (Location := ())) :=
  Load (λ _, Some ()) (λ _, None) (demo_env l).
Definition demo_keys : list (string * string) :=
  [("LMK_TEST_VALUE_HEX", "000102030405060708090a0b0c0d0e0f101112131415161718191a1b1c1d1e1f");
   ("ZMK_HEX", "3286f59aa74092995a585fd944be6c794b2de041874f2752c5a7895502d472b8")].
Definition demo_long_zak : list (string * string) :=
  ("ZAK_HEX", "3286f59aa74092995a585fd944be6c794b2de041874f2752c5a7895502d472b8") :: demo_keys.
Definition default_config : Config (Location := ()) :=
  mkConfig "" "" "" 0 false "" "" None "" "" "" "" 0 0 0 "" "" None None "" ∅ 0 ().
Definition config_of (l : list (string * string)) : Config (Location := ()) :=
  match demo_load l with Ok c => c | Err _ => default_config end.

Lemma config_loads l : is_ok (demo_load l) = true → demo_load l = Ok (config_of l).
Proof. unfold config_of. by destruct (demo_load l). Qed.

Lemma accepted_config_is_sound_witness : config_ok (λ _, None) (demo_env demo_keys) (config_of demo_keys).
Proof.
  refine (accepted_config_is_sound (λ _, Some ()) (λ _, None) _ _ (config_loads demo_keys _)). vm_compute. reflexivity.
Defined.

(** The errors come in the order the settings are read. *)
Example demo_errors :
  demo_load [] = Err (Required "LMK_TEST_VALUE_HEX") ∧
  demo_load (("ECHO_TIMEOUT", "15.1s") :: demo_keys) = Err (EchoTooLong 15100000000) ∧
  demo_load (("KEY_LIFETIME_DAYS", "ZPK=30,ZPK=31") :: demo_keys) = Err (ListedTwice "ZPK") ∧
  demo_load (("KEY_LIFETIME_DAYS", "ZPK=0") :: demo_keys) = Err (BadDays "ZPK" 0) ∧
  demo_load (("ZAK_HEX", "00") :: demo_keys) = Err (NotAESKey "ZAK_HEX" 1) ∧
  demo_load (("SHUTDOWN_TIMEOUT", "soon") :: []) = Err (NotDuration "SHUTDOWN_TIMEOUT").
Proof. split_and!; vm_compute; reflexivity. Qed.

(** "want HH:MM:SS", yet an hour of one digit and a fraction pass. *)
Example demo_cutover :
  is_ok (demo_load (("CUTOVER_TIME", "9:00:00.5") :: demo_keys)) = true ∧
  CutoverTime (config_of (("CUTOVER_TIME", "9:00:00.5") :: demo_keys)) = 9 * Hour.
Proof. split; vm_compute; reflexivity. Qed.

(** Two parts of 2^63 ns wrap around, and the duration is 0. *)
Example demo_duration_wraps : ParseDuration "9223372036854775808ns9223372036854775808ns" = Some 0.
Proof. vm_compute. reflexivity. Qed.

Definition long_key : string := default "" (InitialZAK (config_of demo_long_zak)).
Definition long_lmk : string := default "" (DecodeString (LMKTestValueHex (config_of demo_long_zak))).

Lemma configured_zak_in_use_witness :
  slen long_key = 32%nat ∧
  ∃ v' cs', @loadActiveZAK _ (JCEModule long_lmk) (config_of demo_long_zak) empty_vault (repeat good 5) = Finished (Ok ()) v' cs' ∧
    ActiveZAK v' = long_key ∧
    ∀ mti fields f, slen long_key ≠ 16%nat → @attachMAC (JCEModule long_lmk) long_key mti fields ≠ Ok f.
Proof.
  split; [vm_compute; reflexivity|].
  assert (Hg : calm_start good) by (split; [done|by exists "000000000000"]).
  refine (configured_zak_in_use (λ _, Some ()) (λ _, None) long_lmk _ (demo_env demo_long_zak) (config_of demo_long_zak) long_key
            empty_vault (repeat good 5) (config_loads demo_long_zak _) _ _ eq_refl eq_refl _ _);
    [vm_compute; reflexivity..| |by apply Nat.leb_le].
  repeat (apply Forall_cons; split; [exact Hg|]). apply Forall_nil_2.
Defined.
