(* ===== verification/Seed.v ===== *)
(** * Seed: the plan of a demo day

    [gateway-go/internal/seed/plan.go].  The random numbers of [math/rand] are a class: a generator is a
    state, every draw answers and moves it, and the laws are what the package documents of the
    draws.  Weights and remainders are float64s. *)

From S2P Require Import Prelude Digits Float Net KeyStore Calendar Store.
Local Open Scope Z_scope.

(** ** math/rand *)

Class Rand (R : Type) := {
  Int63n : Z → R → Z * R;
  Intn : Z → R → Z * R;
  RandFloat64 : R → float64 * R;
  Perm : nat → R → list nat * R
}.

(** [Int63n] and [Intn] draw from [\[0, n)], [Perm] a permutation of [0..n-1]. *)
Class RandLaws (R : Type) {G : Rand R} := {
  Int63n_range n r : 0 < n → 0 ≤ (Int63n n r).1 < n;
  Intn_range n r : 0 < n → 0 ≤ (Intn n r).1 < n;
  Perm_perm n r : (Perm n r).1 ≡ₚ seq 0 n
}.

(** ** plan.go *)

Definition ExpectApproved : string := "APPROVED".
Definition secondCardToken : string := "tok_second".
Definition limitCardToken : string := "tok_limit".
Definition LimitPerTransaction : Z := 500000.

Record Txn := mkTxn {
  CardToken : string; TerminalID : string; Amount : Z; At : time; Expect : string; Cancel : bool }.

Definition bucketCount : nat := 24.
Definition bucketWidth : duration := 150 * Second.
Definition lastHourCount : Z := 96.
Definition earlierTodayCount : nat := 34.
Definition yesterdayCount : nat := 116.
Definition cancellationsToday : nat := 2.
Definition amountStep : Z := 500.
Definition normalCardBudget : Z := 1500000.
Definition limitCardBudget : Z := 15000000.

Definition lastHourShape : list Z :=
  [12; 15; 14; 18; 22; 20; 19; 25; 28; 26; 31; 34; 30; 29; 33; 38; 35; 32; 30; 27; 29; 31; 28; 26].

Record merchantProfile := mkMerchant { terminalID : string; weight : float64; min_ : Z; max_ : Z }.

Definition merchants : list merchantProfile :=
  [mkMerchant "00000042" (decimal 30 2) 35000 95000;
   mkMerchant "00000043" (decimal 10 2) 85000 450000;
   mkMerchant "00000044" (decimal 12 2) 150000 650000;
   mkMerchant "00000045" (decimal 8 2) 200000 600000;
   mkMerchant "00000046" (decimal 15 2) 45000 85000;
   mkMerchant "00000047" (decimal 15 2) 30000 150000;
   mkMerchant "00000048" (decimal 10 2) 60000 380000].

(** The maps, in the order [assign] reads them. *)
Definition todayDeclines : list (string * nat) := [("51", 4%nat); ("61", 2%nat); ("62", 1%nat); ("54", 1%nat)].
Definition yesterdayDeclines : list (string * nat) := [("51", 3%nat); ("61", 2%nat); ("62", 1%nat); ("54", 1%nat)].

(** [sort.SliceStable]: every element goes before the first one that must come after it. *)
Fixpoint insert_stable {A} (less : A → A → bool) (x : A) (l : list A) : list A :=
  match l with
  | [] => [x]
  | y :: l' => if less x y then x :: l else y :: insert_stable less x l'
  end.
Definition SliceStable {A} (less : A → A → bool) (l : list A) : list A :=
  fold_left (λ sorted x, insert_stable less x sorted) l [].

(** *** The last hour's proportions, by largest remainder *)

Definition shape_total : Z := foldr Z.add 0 lastHourShape.
Definition exact_share (v : Z) : float64 := fdiv (Float64 (v * lastHourCount)) (Float64 shape_total).
Definition first_counts : list Z := map (λ v, Z.max 1 (truncate (exact_share v))) lastHourShape.
Definition remainders : list float64 := map (λ v, let e := exact_share v in fsub e (Float64 (truncate e))) lastHourShape.
Definition remainder_of (i : nat) : float64 := nth i remainders (Float64 0).
Definition share_order : list nat := SliceStable (λ a b, fltb (remainder_of b) (remainder_of a)) (seq 0 bucketCount).

(** The loop over the order; it runs once per transaction still missing. *)
Fixpoint hand_out (missing : nat) (k : nat) (counts : list Z) : list Z :=
  match missing with
  | O => counts
  | S missing => hand_out missing ((k + 1) mod bucketCount) (alter (Z.add 1) (nth k share_order 0%nat) counts)
  end.

Definition lastHourCounts : list Z :=
  hand_out (Z.to_nat (lastHourCount - foldr Z.add 0 first_counts)) 0 first_counts.

Section plan.
Context {R : Type} {G : Rand R}.

(** *** The planner *)

Record planner := mkPlanner { rng : R; spent : gmap string Z }.

Definition planning (A : Type) : Type := planner → A * planner.
Definition pure {A} (a : A) : planning A := λ p, (a, p).
Definition pthen {A B} (m : planning A) (f : A → planning B) : planning B := λ p, let '(a, p) := m p in f a p.
Local Notation "x <- m ; k" := (pthen m (λ x, k)) (at level 100, m at next level, right associativity).

Local Notation "m ;; k" := (pthen m (λ _, k)) (at level 100, right associativity).

Definition draw {A} (f : R → A * R) : planning A := λ p, let '(a, r) := f (rng p) in (a, mkPlanner r (spent p)).
Definition spend (card : string) (amount : Z) : planning () := λ p,
  ((), mkPlanner (rng p) (<[card := wrap64 (default 0 (spent p !! card) + amount)]> (spent p))).
Definition spent_on (card : string) : planning Z := λ p, (default 0 (spent p !! card), p).

Fixpoint repeatM {A} (n : nat) (m : planning A) : planning (list A) :=
  match n with O => pure [] | S n => a <- m; l <- repeatM n m; pure (a :: l) end.
Fixpoint mapM {A B} (f : A → planning B) (l : list A) : planning (list B) :=
  match l with [] => pure [] | a :: l => b <- f a; bs <- mapM f l; pure (b :: bs) end.

(** *** The times *)

Definition bucket_start (now : time) (i : nat) : time := now - Z.of_nat (bucketCount - i) * bucketWidth.

Definition bucket_times (now : time) (ic : nat * Z) : planning (list time) :=
  repeatM (Z.to_nat ic.2)
    (n <- draw (Int63n (bucketWidth - Second)); pure (bucket_start now ic.1 + (n + Second))).

Definition lastHourTimes (now : time) : planning (list time) :=
  ls <- mapM (bucket_times now) (zip (seq 0 bucketCount) lastHourCounts); pure (concat ls).

Definition uniformTimes (from to : time) (n : nat) : planning (list time) :=
  let span := to - from in
  repeatM n (if span <=? 0 then pure from else k <- draw (Int63n span); pure (from + k)).

Definition earlierTodayTimes (now dayStart : time) : planning (list time) :=
  let end_ := now - Hour in
  if negb (dayStart <? end_) then uniformTimes (now - Hour + Second) now earlierTodayCount
  else uniformTimes dayStart end_ earlierTodayCount.

(** *** Cards, terminals and amounts *)

Definition amount (minAmount maxAmount : Z) : planning Z :=
  n <- draw (Int63n ((maxAmount - minAmount) `quot` amountStep + 1)); pure (minAmount + n * amountStep).

Fixpoint pick_merchant (r : float64) (l : list merchantProfile) : option merchantProfile :=
  match l with
  | [] => None
  | m :: l => if fltb r (weight m) then Some m else pick_merchant (fsub r (weight m)) l
  end.
Definition merchant_at (i : nat) : merchantProfile := nth i merchants (mkMerchant "" (Float64 0) 0 0).
Definition merchant : planning merchantProfile :=
  r <- draw RandFloat64; pure (default (merchant_at 0) (pick_merchant r merchants)).

(** A draw is made only when the conditions before it hold. *)
Definition lucky (b : bool) (below : float64) : planning bool :=
  if b then r <- draw RandFloat64; pure (fltb r below) else pure false.

Definition approvalCard (amount : Z) : planning string :=
  normal <- spent_on "tok_normal";
  ok <- lucky ((amount <=? 95000) && (wrap64 (normal + amount) <=? normalCardBudget)) (decimal 5 1);
  if ok : bool then spend "tok_normal" amount ;; pure "tok_normal"
  else
    limit <- spent_on limitCardToken;
    ok <- lucky ((amount <=? LimitPerTransaction) && (wrap64 (limit + amount) <=? limitCardBudget)) (decimal 25 2);
    if ok : bool then spend limitCardToken amount ;; pure limitCardToken
    else spend secondCardToken amount ;; pure secondCardToken.

(** [At] is set by [assign]. *)
Definition txnFor (expect : string) : planning Txn :=
  if String.eqb expect "51" then
    i <- draw (Intn 2); let m := merchant_at (1 + Z.to_nat i) in
    a <- amount 150000 1300000; pure (mkTxn "tok_low" (terminalID m) a zero_time expect false)
  else if String.eqb expect "61" then
    i <- draw (Intn 2); let m := merchant_at (2 + Z.to_nat i) in
    a <- amount (LimitPerTransaction + 20000) 650000; pure (mkTxn limitCardToken (terminalID m) a zero_time expect false)
  else if String.eqb expect "62" || String.eqb expect "54" then
    m <- merchant; a <- amount (min_ m) (max_ m);
    pure (mkTxn (if String.eqb expect "62" then "tok_blocked" else "tok_expired") (terminalID m) a zero_time expect false)
  else
    m <- merchant; a <- amount (min_ m) (max_ m); card <- approvalCard a;
    pure (mkTxn card (terminalID m) a zero_time ExpectApproved false).

Definition set_At (t : Txn) (at_ : time) : Txn := mkTxn (CardToken t) (TerminalID t) (Amount t) at_ (Expect t) (Cancel t).

(** The declines, in the order they are placed. *)
Definition codes (declines : list (string * nat)) : list string := d ← declines; replicate d.2 d.1.

(** Both windows have more transactions than declines, so the positions do not run out. *)
Definition place_declines (pos : list nat) (cs : list string) (outcomes : list string) : list string :=
  fold_left (λ o ic, <[ic.1 := ic.2]> o) (zip pos cs) outcomes.

Definition assign (times : list time) (declines : list (string * nat)) : planning (list Txn) :=
  pos <- draw (Perm (length times));
  mapM (λ oa, t <- txnFor oa.1; pure (set_At t oa.2))
    (zip (place_declines pos (codes declines) (replicate (length times) ExpectApproved)) times).

Definition to_second (t : Txn) : Txn := mkTxn secondCardToken (TerminalID t) (Amount t) (At t) (Expect t) true.

Fixpoint mark_loop (order : list nat) (n : nat) (txns : list Txn) : planning (list Txn) :=
  match order, n with
  | [], _ | _, O => pure txns
  | i :: order, S n' =>
      match txns !! i with
      | None => pure txns                                  (* the order permutes the indices *)
      | Some t =>
          if negb (String.eqb (Expect t) ExpectApproved) then mark_loop order n txns
          else if negb (String.eqb (CardToken t) secondCardToken) then
            spend (CardToken t) (- Amount t) ;; spend secondCardToken (Amount t) ;;
            mark_loop order n' (<[i := to_second t]> txns)
          else mark_loop order n' (<[i := to_second t]> txns)
      end
  end.

Definition markCancellations (txns : list Txn) (n : nat) : planning (list Txn) :=
  order <- draw (Perm (length txns)); mark_loop order n txns.

(** [now.Truncate(24h)]: days are counted from an instant a whole number of days before 1970. *)
Definition dayStart (now : time) : time := now - now mod (24 * Hour).

Definition build (now : time) : planning (list Txn) :=
  last <- lastHourTimes now;
  earlier <- earlierTodayTimes now (dayStart now);
  yesterdayTimes <- uniformTimes (dayStart now - 24 * Hour) (now - 24 * Hour) yesterdayCount;
  today <- assign (last ++ earlier) todayDeclines;
  today <- markCancellations today cancellationsToday;
  yesterday <- assign yesterdayTimes yesterdayDeclines;
  pure (SliceStable (λ a b, At a <? At b) (today ++ yesterday)).

Definition Build (now : time) (r : R) : list Txn := (build now (mkPlanner r ∅)).1.
End plan.

(** ** Every plan *)

(** The proportions are computed once and for all. *)
Definition last_hour_counts : list Z := Eval vm_compute in lastHourCounts.
Lemma lastHourCounts_eq : lastHourCounts = last_hour_counts.
Proof. vm_compute. reflexivity. Qed.
Lemma lastHourCounts_sum : foldr Z.add 0 lastHourCounts = lastHourCount ∧ Forall (λ c, 1 ≤ c) lastHourCounts.
Proof. rewrite lastHourCounts_eq. split; [reflexivity|]. repeat constructor; done. Qed.

Section every_plan.
Context {R : Type} {G : Rand R} {L : RandLaws R}.
Local Notation "x <- m ; k" := (pthen m (λ x, k)) (at level 100, m at next level, right associativity).

(** From [p], [m] ends with [Q]. *)
Definition gives {A} (m : planning (R := R) A) (Q : A → planner → Prop) (p : planner) : Prop := let '(a, p') := m p in Q a p'.

Lemma gives_pure {A} (a : A) (Q : A → planner → Prop) p : Q a p → gives (pure a) Q p.
Proof. done. Qed.

Lemma gives_then {A B} (m : planning A) (f : A → planning B) Q p :
  gives m (λ a p', gives (f a) Q p') p → gives (pthen m f) Q p.
Proof. unfold gives, pthen. by destruct (m p). Qed.

Lemma gives_mono {A} (m : planning A) (Q Q' : A → planner → Prop) p :
  gives m Q p → (∀ a p', Q a p' → Q' a p') → gives m Q' p.
Proof. unfold gives. destruct (m p). auto. Qed.

Lemma gives_draw {A} (f : R → A * R) (Q : A → planner → Prop) p :
  (∀ a r, a = (f (rng p)).1 → Q a (mkPlanner r (spent p))) → gives (draw f) Q p.
Proof. unfold gives, draw. intros H. destruct (f (rng p)) as [a r] eqn:E. by apply H. Qed.

(** Draws leave the budgets as they are. *)
Definition frugal {A} (P : A → Prop) (m : planning A) : Prop := ∀ p, gives m (λ a p', P a ∧ spent p' = spent p) p.

Lemma frugal_gives {A} (P : A → Prop) m (Q : A → planner → Prop) p :
  frugal P m → (∀ a p', P a ∧ spent p' = spent p → Q a p') → gives m Q p.
Proof. intros Hm HQ. eapply gives_mono; [apply Hm|exact HQ]. Qed.

Lemma frugal_then {A B} (P : A → Prop) (Q : B → Prop) m (f : A → planning B) :
  frugal P m → (∀ a, P a → frugal Q (f a)) → frugal Q (pthen m f).
Proof.
  intros Hm Hf p. apply gives_then. eapply gives_mono; [apply Hm|]. intros a p' [Ha Hs].
  eapply gives_mono; [by apply Hf|]. intros b p'' [Hb Hs']. split; [done|congruence].
Qed.

Lemma frugal_pure {A} (P : A → Prop) a : P a → frugal P (pure a).
Proof. intros Ha p. by apply gives_pure. Qed.

Lemma frugal_draw {A} (P : A → Prop) (f : R → A * R) : (∀ r, P (f r).1) → frugal P (draw f).
Proof. intros Hf p. apply gives_draw. intros a r ->. by split. Qed.

Lemma frugal_repeat {A} (P : A → Prop) n m : frugal P m → frugal (λ l, length l = n ∧ Forall P l) (repeatM n m).
Proof.
  intros Hm. induction n as [|n IH]; cbn [repeatM]; [by apply frugal_pure|].
  eapply frugal_then; [exact Hm|]. intros a Ha. eapply frugal_then; [exact IH|]. intros l [Hl Hf].
  apply frugal_pure. split; [cbn; lia|by constructor].
Qed.

Lemma frugal_map {A B} (P : A → B → Prop) (f : A → planning B) l :
  (∀ a, a ∈ l → frugal (P a) (f a)) → frugal (Forall2 P l) (mapM f l).
Proof.
  induction l as [|a l IH]; intros Hf; cbn [mapM]; [by apply frugal_pure|].
  eapply frugal_then; [apply Hf; by left|]. intros b Hb. eapply frugal_then; [apply IH; intros; apply Hf; by right|].
  intros bs Hbs. apply frugal_pure. by constructor.
Qed.

(** *** Times *)

Definition in_bar (now : time) (i : nat) (t : time) : Prop := bucket_start now i < t ≤ bucket_start now i + bucketWidth.

Lemma bucket_times_ok now ic :
  frugal (λ l, length l = Z.to_nat ic.2 ∧ Forall (in_bar now ic.1) l) (bucket_times now ic).
Proof.
  apply frugal_repeat. eapply (frugal_then (λ n, 0 ≤ n < bucketWidth - Second)).
  - apply frugal_draw. intros r. apply Int63n_range. reflexivity.
  - intros n Hn. apply frugal_pure. unfold in_bar, bucketWidth, Second, Millisecond in *. lia.
Qed.

(** Every bar of the chart gets a transaction; all are of the last hour. *)
Definition last_hour_ok (now : time) (l : list time) : Prop :=
  length l = Z.to_nat lastHourCount ∧ Forall (λ t, now - Hour < t ≤ now) l ∧
  ∀ i, (i < bucketCount)%nat → ∃ t, t ∈ l ∧ in_bar now i t.

Lemma bar_in_hour now i t : (i < bucketCount)%nat → in_bar now i t → now - Hour < t ≤ now.
Proof. unfold in_bar, bucket_start, bucketCount, bucketWidth, Hour, Minute, Second, Millisecond. lia. Qed.

Lemma concat_bars now (ics : list (nat * Z)) ls :
  Forall2 (λ ic l, length l = Z.to_nat ic.2 ∧ Forall (in_bar now ic.1) l) ics ls →
  Forall (λ ic, (ic.1 < bucketCount)%nat ∧ 1 ≤ ic.2) ics →
  length (concat ls) = Z.to_nat (foldr Z.add 0 (map snd ics)) ∧ 0 ≤ foldr Z.add 0 (map snd ics) ∧
  Forall (λ t, now - Hour < t ≤ now) (concat ls) ∧
  ∀ ic, ic ∈ ics → ∃ t, t ∈ concat ls ∧ in_bar now ic.1 t.
Proof.
  induction 1 as [|ic l ics ls [Hl Hb] _ IH]; intros Hics.
  - split_and!; [done|done|by constructor|]. intros ic Hin. by apply elem_of_nil in Hin.
  - apply Forall_cons in Hics as [[Hi Hc] Hics]. destruct (IH Hics) as (H1 & H2 & H3 & H4). cbn [concat map foldr].
    rewrite length_app. split_and!; [lia|lia| |].
    + apply Forall_app. split; [|exact H3]. eapply Forall_impl; [exact Hb|]. intros t. by apply bar_in_hour.
    + intros ic' [->|Hin]%elem_of_cons.
      * destruct l as [|t l]; [cbn in Hl; lia|]. exists t. apply Forall_cons in Hb as [Ht _]. split; [by left|done].
      * destruct (H4 ic' Hin) as (t & Ht & Hbar). exists t. split; [|done]. apply elem_of_app. by right.
Qed.

Lemma lastHourTimes_ok now : frugal (last_hour_ok now) (lastHourTimes now).
Proof.
  unfold lastHourTimes. rewrite lastHourCounts_eq. eapply frugal_then; [apply frugal_map; intros ic _; apply bucket_times_ok|].
  intros ls Hls. apply frugal_pure.
  destruct (concat_bars now _ ls Hls) as (H1 & _ & H2 & H3).
  { apply Forall_forall. intros ic Hic. revert ic Hic. apply Forall_forall. repeat constructor; cbn; try lia; by apply Nat.ltb_lt. }
  split_and!; [exact H1|exact H2|]. intros i Hi.
  assert (Hin : ∃ c, (i, c) ∈ zip (seq 0 bucketCount) last_hour_counts).
  { destruct (lookup_lt_is_Some_2 last_hour_counts i Hi) as [c Hc]. exists c. apply list_elem_of_lookup. exists i.
    apply lookup_zip_with_Some. exists i, c. split_and!; [done| |done]. by apply lookup_seq_lt. }
  destruct Hin as [c Hc]. exact (H3 _ Hc).
Qed.

Lemma uniformTimes_ok from to n :
  frugal (λ l, length l = n ∧ Forall (λ t, from ≤ t ∧ (t < to ∨ t = from)) l) (uniformTimes from to n).
Proof.
  apply frugal_repeat. destruct (Z.leb_spec (to - from) 0) as [Hs|Hs].
  - apply frugal_pure. lia.
  - eapply (frugal_then (λ k, 0 ≤ k < to - from)); [apply frugal_draw; intros r; by apply Int63n_range|].
    intros k Hk. apply frugal_pure. lia.
Qed.

Lemma dayStart_le now : dayStart now ≤ now < dayStart now + 24 * Hour.
Proof. unfold dayStart. pose proof (Z.mod_pos_bound now (24 * Hour) ltac:(reflexivity)). lia. Qed.

Lemma earlierTodayTimes_ok now :
  frugal (λ l, length l = earlierTodayCount ∧ Forall (λ t, dayStart now - Hour ≤ t ≤ now) l) (earlierTodayTimes now (dayStart now)).
Proof.
  unfold earlierTodayTimes. pose proof (dayStart_le now).
  assert (Hh : 0 < Hour ∧ Second < Hour ∧ 0 < Second) by (split_and!; reflexivity).
  destruct (Z.ltb_spec (dayStart now) (now - Hour)); cbn [negb]; intros p;
    (eapply gives_mono; [apply uniformTimes_ok|]); intros l p' [[Hl Hf] Hs]; (split; [|done]); (split; [done|]);
    (eapply Forall_impl; [exact Hf|]); cbn beta; intros t; lia.
Qed.

(** *** Transactions *)

(** Every planned purchase has the card, the terminal and the amount that give the outcome it expects. *)
Inductive planned_card : string → string → Z → Prop :=
  | plan_normal a : a ≤ 95000 → planned_card ExpectApproved "tok_normal" a
  | plan_limit a : a ≤ LimitPerTransaction → planned_card ExpectApproved limitCardToken a
  | plan_second a : planned_card ExpectApproved secondCardToken a
  | plan_low a : 150000 ≤ a → planned_card "51" "tok_low" a
  | plan_over_limit a : LimitPerTransaction < a → planned_card "61" limitCardToken a
  | plan_blocked a : planned_card "62" "tok_blocked" a
  | plan_expired a : planned_card "54" "tok_expired" a.

Record txn_ok (t : Txn) : Prop := {
  at_terminal : TerminalID t ∈ map terminalID merchants;
  in_range : 30000 ≤ Amount t ≤ 1300000;
  card_fits : planned_card (Expect t) (CardToken t) (Amount t);
  cancel_ok : Cancel t = true → Expect t = ExpectApproved ∧ CardToken t = secondCardToken
}.

(** What a card is planned to spend. *)
Definition spends (card : string) (t : Txn) : Z :=
  if String.eqb (Expect t) ExpectApproved && String.eqb (CardToken t) card then Amount t else 0.
Definition total (card : string) (l : list Txn) : Z := foldr Z.add 0 (map (spends card) l).

Lemma total_app card l l' : total card (l ++ l') = total card l + total card l'.
Proof. unfold total. induction l as [|t l IH]; cbn [app map foldr]; [done|]. rewrite IH. lia. Qed.

Lemma total_one card t : total card [t] = spends card t.
Proof. unfold total. cbn. lia. Qed.

Lemma spends_range card t : txn_ok t → 0 ≤ spends card t ≤ 1300000.
Proof. intros Ht. pose proof (in_range t Ht). unfold spends. destruct (_ && _); lia. Qed.

Lemma total_range card l : Forall txn_ok l → 0 ≤ total card l ≤ 1300000 * Z.of_nat (length l).
Proof.
  unfold total. induction 1 as [|t l Ht _ IH]; cbn [map foldr length]; [lia|]. pose proof (spends_range card t Ht). lia.
Qed.

(** The planner has planned [l]. *)
Record planned (l : list Txn) (p : planner (R := R)) : Prop := {
  pl_ok : Forall txn_ok l;
  pl_spent : ∀ card, default 0 (spent p !! card) = total card l;
  pl_normal : total "tok_normal" l ≤ normalCardBudget;
  pl_limit : total limitCardToken l ≤ limitCardBudget;
  pl_few : (length l ≤ 1000)%nat
}.

Lemma planned_spent l p p' : spent p' = spent p → planned l p → planned l p'.
Proof. intros E []. constructor; try done. intros card. by rewrite E. Qed.

(** A decline spends nothing. *)
Lemma planned_decline l p t : planned l p → txn_ok t → Expect t ≠ ExpectApproved → (length l < 1000)%nat → planned (l ++ [t]) p.
Proof.
  intros [] Ht He Hl.
  assert (E : ∀ card, total card (l ++ [t]) = total card l).
  { intros card. rewrite total_app, total_one. unfold spends. rewrite (proj2 (String.eqb_neq _ _) He). cbn [andb]. lia. }
  constructor; rewrite ?E; try done; [by apply Forall_app; split; [|constructor]| |by rewrite length_app; cbn; lia].
  intros card. by rewrite E.
Qed.

(** An approval spends its amount on its card. *)
Lemma planned_approval l p t p' :
  planned l p → txn_ok t → Expect t = ExpectApproved → (length l < 1000)%nat →
  (CardToken t = "tok_normal" → default 0 (spent p !! "tok_normal") + Amount t ≤ normalCardBudget) →
  (CardToken t = limitCardToken → default 0 (spent p !! limitCardToken) + Amount t ≤ limitCardBudget) →
  spent p' = <[CardToken t := wrap64 (default 0 (spent p !! CardToken t) + Amount t)]> (spent p) →
  planned (l ++ [t]) p'.
Proof.
  intros [Hok Hsp Hn Hlim Hfew] Ht He Hl Hbn Hbl Hp'.
  assert (E : ∀ card, total card (l ++ [t]) = total card l + (if String.eqb (CardToken t) card then Amount t else 0)).
  { intros card. rewrite total_app, total_one. unfold spends. by rewrite He, String.eqb_refl. }
  pose proof (in_range t Ht) as Hr. rewrite Hsp in Hbn, Hbl.
  constructor; [by apply Forall_app; split; [|constructor]| | | |by rewrite length_app; cbn; lia].
  - intros card. rewrite Hp', E. destruct (String.eqb_spec (CardToken t) card) as [<-|Hc].
    + rewrite lookup_insert_eq, Hsp. cbn [default]. apply wrap64_id. unfold in_int64.
      pose proof (total_range (CardToken t) l Hok). lia.
    + rewrite lookup_insert_ne by done. rewrite Hsp. lia.
  - rewrite E. destruct (String.eqb_spec (CardToken t) "tok_normal") as [Ec|]; [specialize (Hbn Ec); lia|lia].
  - rewrite E. destruct (String.eqb_spec (CardToken t) limitCardToken) as [Ec|]; [specialize (Hbl Ec); lia|lia].
Qed.

Lemma amount_ok lo hi : lo ≤ hi → frugal (λ a, lo ≤ a ≤ hi) (amount lo hi).
Proof.
  intros Hle. unfold amount. pose proof (Z.quot_pos (hi - lo) amountStep ltac:(lia) ltac:(done)) as Hq.
  eapply (frugal_then (λ n, 0 ≤ n < (hi - lo) `quot` amountStep + 1)).
  - apply frugal_draw. intros r. apply Int63n_range. lia.
  - intros n Hn. apply frugal_pure. unfold amountStep in *. pose proof (Z.mul_quot_le (hi - lo) 500 ltac:(lia) ltac:(lia)). lia.
Qed.

(** The merchants with their ranges. *)
Definition merchant_ok (m : merchantProfile) : Prop :=
  terminalID m ∈ map terminalID merchants ∧ 30000 ≤ min_ m ≤ max_ m ∧ max_ m ≤ 650000.

Lemma merchants_ok : Forall merchant_ok merchants.
Proof.
  apply Forall_forall. intros m Hm. split; [by apply list_elem_of_In, in_map, list_elem_of_In|].
  revert m Hm. apply Forall_forall. repeat (constructor; [cbn; lia|]). constructor.
Qed.

Lemma merchant_at_ok i : (i < 7)%nat → merchant_ok (merchant_at i).
Proof.
  intros Hi. pose proof merchants_ok as H. rewrite Forall_forall in H. apply H. apply list_elem_of_In. by apply nth_In.
Qed.

Lemma pick_merchant_in r l m : pick_merchant r l = Some m → m ∈ l.
Proof.
  revert r. induction l as [|m' l IH]; intros r; cbn; [done|].
  destruct (fltb r (weight m')); [intros [= ->]; by left|]. intros H. right. by eapply IH.
Qed.

Lemma merchant_drawn : frugal merchant_ok merchant.
Proof.
  eapply (frugal_then (λ _, True)); [by apply frugal_draw|]. intros r _. apply frugal_pure.
  destruct (pick_merchant r merchants) as [m|] eqn:E; cbn [default]; [|apply merchant_at_ok; lia].
  apply pick_merchant_in in E. pose proof merchants_ok as H. rewrite Forall_forall in H. by apply H.
Qed.

Lemma approvalCard_ok l p a m at_ :
  planned l p → (length l < 1000)%nat → merchant_ok m → min_ m ≤ a ≤ max_ m →
  gives (approvalCard a) (λ card p', planned (l ++ [mkTxn card (terminalID m) a at_ ExpectApproved false]) p') p.
Proof.
  intros Hp Hl (Hm1 & Hm2 & Hm3) Ha.
  assert (Hwrap : ∀ card, wrap64 (default 0 (spent p !! card) + a) = default 0 (spent p !! card) + a).
  { intros card. rewrite (pl_spent _ _ Hp). apply wrap64_id. pose proof (total_range card l (pl_ok _ _ Hp)). unfold in_int64. lia. }
  assert (Hok : ∀ card, planned_card ExpectApproved card a → txn_ok (mkTxn card (terminalID m) a at_ ExpectApproved false)).
  { intros card Hc. constructor; cbn; [done|lia|done|done]. }
  unfold approvalCard. apply gives_then. unfold gives at 1, spent_on.
  set (b1 := (a <=? 95000) && _). apply gives_then.
  apply (gives_mono _ (λ ok p', (ok = true → b1 = true) ∧ spent p' = spent p)).
  { unfold lucky. destruct b1; [|by apply gives_pure]. apply gives_then, gives_draw. intros r r' _. by apply gives_pure. }
  intros ok p1 [Hok1 Hs1]. destruct ok.
  { specialize (Hok1 eq_refl). unfold b1 in Hok1. apply andb_true_iff in Hok1 as [H1%Z.leb_le H2%Z.leb_le]. rewrite Hwrap in H2.
    apply gives_then. unfold gives at 1, spend. apply gives_pure.
    apply (planned_approval l p); cbn [CardToken Amount Expect spent]; try done; [by apply Hok, plan_normal|by rewrite Hs1]. }
  apply gives_then. unfold gives at 1, spent_on. rewrite Hs1. set (b2 := (a <=? LimitPerTransaction) && _). apply gives_then.
  apply (gives_mono _ (λ ok p', (ok = true → b2 = true) ∧ spent p' = spent p)).
  { unfold lucky. destruct b2; [|by apply gives_pure]. apply gives_then, gives_draw. intros r r' _. by apply gives_pure. }
  intros ok p2 [Hok2 Hs2]. destruct ok.
  - specialize (Hok2 eq_refl). unfold b2 in Hok2. apply andb_true_iff in Hok2 as [H1%Z.leb_le H2%Z.leb_le]. rewrite Hwrap in H2.
    apply gives_then. unfold gives at 1, spend. apply gives_pure.
    apply (planned_approval l p); cbn [CardToken Amount Expect spent]; try done; [by apply Hok, plan_limit|by rewrite Hs2].
  - apply gives_then. unfold gives at 1, spend. apply gives_pure.
    apply (planned_approval l p); cbn [CardToken Amount Expect spent]; try done; [by apply Hok, plan_second|by rewrite Hs2].
Qed.

Definition outcome (expect : string) : Prop := expect ∈ ["51"; "61"; "62"; "54"; ExpectApproved].

(** [txnFor] plans one more, at the time it is then given. *)
Lemma txnFor_ok l p expect at_ :
  outcome expect → planned l p → (length l < 1000)%nat →
  gives (txnFor expect) (λ t p', planned (l ++ [set_At t at_]) p' ∧ Expect t = expect ∧ Cancel t = false) p.
Proof.
  intros Ho Hp Hl.
  assert (Hdec : ∀ m lo hi card b, merchant_ok m → 30000 ≤ lo ≤ hi → hi ≤ 1300000 → expect ≠ ExpectApproved →
     (∀ a, lo ≤ a → planned_card expect card a) → ∀ p1, spent p1 = spent p →
     gives (a <- amount lo hi; pure (mkTxn card (terminalID m) a b expect false))
       (λ t p', planned (l ++ [set_At t at_]) p' ∧ Expect t = expect ∧ Cancel t = false) p1).
  { intros m lo hi card b (Hm & _) Hlo Hhi He Hc p1 Hs. apply gives_then. eapply gives_mono; [apply amount_ok; lia|].
    intros a p2 [Ha Hs2]. apply gives_pure. split; [|done]. apply planned_decline; cbn [set_At Expect]; try done.
    - by apply (planned_spent l p); [congruence|].
    - constructor; cbn; [done|lia|apply Hc; lia|done]. }
  revert Ho. unfold outcome. rewrite !elem_of_cons, elem_of_nil.
  intros [->|[->|[->|[->|[->|[]]]]]]; unfold txnFor; cbn [String.eqb Ascii.eqb Bool.eqb orb].
  - apply gives_then, gives_draw. intros i r ->. pose proof (Intn_range 2 (rng p) ltac:(lia)).
    apply (Hdec (merchant_at (1 + Z.to_nat (Intn 2 (rng p)).1)) 150000 1300000); try done; [apply merchant_at_ok; lia|].
    intros a. apply plan_low.
  - apply gives_then, gives_draw. intros i r ->. pose proof (Intn_range 2 (rng p) ltac:(lia)).
    apply (Hdec (merchant_at (2 + Z.to_nat (Intn 2 (rng p)).1)) (LimitPerTransaction + 20000) 650000); try done; [apply merchant_at_ok; lia|].
    intros a Ha. apply plan_over_limit. lia.
  - apply gives_then. eapply gives_mono; [apply merchant_drawn|]. intros m p1 [Hm Hs].
    apply (Hdec m (min_ m) (max_ m)); try done; [by apply Hm|destruct Hm as (_ & _ & ?); lia|intros; apply plan_blocked].
  - apply gives_then. eapply gives_mono; [apply merchant_drawn|]. intros m p1 [Hm Hs].
    apply (Hdec m (min_ m) (max_ m)); try done; [by apply Hm|destruct Hm as (_ & _ & ?); lia|intros; apply plan_expired].
  - apply gives_then. eapply gives_mono; [apply merchant_drawn|]. intros m p1 [Hm Hs]. apply gives_then.
    eapply gives_mono; [apply amount_ok; destruct Hm as (_ & ? & _); lia|]. intros a p2 [Ha Hs2]. apply gives_then.
    eapply gives_mono; [apply (approvalCard_ok l p2 a m at_); [|done..]|].
    { by apply (planned_spent l p); [congruence|]. }
    intros card p3 Hp3. apply gives_pure. by split.
Qed.

(** *** assign *)

Lemma mapM_planned (oas : list (string * time)) l p :
  Forall (λ oa, outcome oa.1) oas → planned l p → (length l + length oas ≤ 1000)%nat →
  gives (mapM (λ oa, t <- txnFor oa.1; pure (set_At t oa.2)) oas)
    (λ ts p', planned (l ++ ts) p' ∧ map Expect ts = map fst oas ∧ map At ts = map snd oas ∧
              Forall (λ t, Cancel t = false) ts) p.
Proof.
  revert l p. induction oas as [|[o a] oas IH]; intros l p Ho Hp Hl; cbn [mapM].
  - apply gives_pure. by rewrite app_nil_r.
  - apply Forall_cons in Ho as [Ho Hos]. cbn [length fst snd] in *. apply gives_then, gives_then.
    eapply gives_mono; [apply (txnFor_ok l p o a); [done|done|lia]|]. intros t p1 (Hp1 & He & Hc). apply gives_pure, gives_then.
    eapply gives_mono; [apply (IH (l ++ [set_At t a]) p1); [done|done|rewrite length_app; cbn; lia]|].
    intros ts p2 (Hp2 & H1 & H2 & H3). apply gives_pure. rewrite <- app_assoc in Hp2. cbn [map fst snd].
    split_and!; [exact Hp2|by rewrite H1, <- He|by rewrite H2|by constructor].
Qed.

(** Distinct positions: the codes replace as many approvals. *)
Lemma place_permutation pos cs xs m outcomes :
  NoDup pos → length cs = m → (m ≤ length pos)%nat →
  (∀ i, i ∈ take m pos → outcomes !! i = Some ExpectApproved) →
  ∀ n, outcomes ≡ₚ xs ++ replicate (m + n) ExpectApproved →
  place_declines pos cs outcomes ≡ₚ xs ++ cs ++ replicate n ExpectApproved.
Proof.
  revert cs xs m outcomes. induction pos as [|i pos IH]; intros cs xs m outcomes Hnd Hm Hle Hin n Hp.
  { cbn [length] in Hle. destruct cs; [|cbn in Hm; lia]. cbn in Hm. subst m. exact Hp. }
  destruct cs as [|c cs]; [cbn in Hm; subst m; exact Hp|]. cbn [length] in *. destruct m as [|m]; [lia|]. injection Hm as Hm.
  apply NoDup_cons in Hnd as [Hi Hnd]. unfold place_declines. cbn [zip zip_with fold_left fst snd].
  assert (E : outcomes !! i = Some ExpectApproved) by (apply Hin; cbn [take]; by left).
  rewrite (IH cs (xs ++ [c]) m (<[i := c]> outcomes) Hnd Hm ltac:(lia)) with (n := n).
  - by rewrite <- app_assoc.
  - intros j Hj. rewrite list_lookup_insert_ne; [apply Hin; cbn [take]; by right|]. intros <-. apply Hi.
    eapply elem_of_submseteq; [exact Hj|]. apply sublist_submseteq, sublist_take.
  - assert (E1 : outcomes ≡ₚ ExpectApproved :: delete i outcomes) by (by apply delete_Permutation).
    assert (E2 : <[i := c]> outcomes ≡ₚ c :: delete i outcomes).
    { rewrite insert_take_drop by (by eapply lookup_lt_Some). rewrite delete_take_drop. by rewrite <- Permutation_middle. }
    rewrite E2. assert (E3 : delete i outcomes ≡ₚ xs ++ replicate (m + n) ExpectApproved).
    { apply (Permutation_cons_inv (a := ExpectApproved)). rewrite <- E1, Hp. cbn [replicate Nat.add].
      by rewrite <- Permutation_middle. }
    rewrite E3, <- app_assoc. cbn [app]. by rewrite <- Permutation_middle.
Qed.

Lemma assign_ok l p times declines :
  Forall outcome (codes declines) → (length (codes declines) ≤ length times)%nat → planned l p →
  (length l + length times ≤ 1000)%nat →
  gives (assign times declines)
    (λ ts p', planned (l ++ ts) p' ∧ map At ts = times ∧
       map Expect ts ≡ₚ codes declines ++ replicate (length times - length (codes declines)) ExpectApproved ∧
       Forall (λ t, Cancel t = false) ts) p.
Proof.
  intros Hc Hle Hp Hl. unfold assign. apply gives_then, gives_draw. intros pos r ->.
  set (n := length times) in *. set (m := length (codes declines)) in *.
  pose proof (Perm_perm n (rng p)) as Hpos. set (pos := (Perm n (rng p)).1) in *.
  assert (Hplace : place_declines pos (codes declines) (replicate n ExpectApproved)
            ≡ₚ codes declines ++ replicate (n - m) ExpectApproved).
  { apply (place_permutation pos (codes declines) [] m); [| |by rewrite Hpos, length_seq| |].
    - rewrite Hpos. apply NoDup_seq.
    - done.
    - intros i Hi. apply lookup_replicate_2.
      assert (Hin : i ∈ pos) by (eapply elem_of_submseteq; [exact Hi|apply sublist_submseteq, sublist_take]).
      rewrite Hpos, elem_of_seq in Hin. lia.
    - cbn [app]. by replace (m + (n - m))%nat with n by lia. }
  set (outs := place_declines _ _ _) in *.
  assert (Hlen : length outs = n) by (rewrite Hplace, length_app, length_replicate; unfold m in *; lia).
  eapply gives_mono; [apply (mapM_planned (zip outs times) l)|].
  - apply Forall_forall. intros [o a] Hin. apply elem_of_zip_l in Hin. cbn [fst].
    rewrite Hplace in Hin. apply elem_of_app in Hin as [Hin|Hin].
    + rewrite Forall_forall in Hc. by apply Hc.
    + apply elem_of_replicate_inv in Hin as ->. unfold outcome. set_solver.
  - by apply (planned_spent l p).
  - rewrite length_zip_with, Hlen. lia.
  - intros ts p' (H1 & H2 & H3 & H4). split_and!; [exact H1| | |exact H4].
    + rewrite H3. change (map snd (zip outs times)) with ((zip outs times).*2). by rewrite snd_zip by lia.
    + rewrite H2. change (map fst (zip outs times)) with ((zip outs times).*1). by rewrite fst_zip by lia.
Qed.

(** *** Cancellations *)

Definition cancels (l : list Txn) : nat := length (List.filter Cancel l).

Definition approved_at (expects : list string) (i : nat) : bool :=
  match expects !! i with Some e => String.eqb e ExpectApproved | None => false end.

Lemma total_insert card l i t t' : l !! i = Some t → total card (<[i := t']> l) = total card l - spends card t + spends card t'.
Proof.
  unfold total. revert i. induction l as [|x l IH]; intros i Hi; [done|]. destruct i as [|i].
  - injection Hi as ->. cbn. lia.
  - change (<[S i := t']> (x :: l)) with (x :: <[i := t']> l). cbn [map foldr]. rewrite (IH i Hi). lia.
Qed.

Lemma cancels_insert l i t t' : l !! i = Some t → Cancel t = false → Cancel t' = true → cancels (<[i := t']> l) = S (cancels l).
Proof.
  unfold cancels. intros Hi Ht Ht'. revert i Hi. induction l as [|x l IH]; intros i Hi; [done|]. destruct i as [|i].
  - injection Hi as ->. cbn. by rewrite Ht, Ht'.
  - change (<[S i := t']> (x :: l)) with (x :: <[i := t']> l). cbn [List.filter].
    destruct (Cancel x); cbn [length]; by rewrite (IH i Hi).
Qed.

Lemma map_insert_same {B} (f : Txn → B) l i t t' : l !! i = Some t → f t' = f t → map f (<[i := t']> l) = map f l.
Proof.
  intros Hi Hf. change (map f) with (fmap (M := list) f). rewrite list_fmap_insert, Hf. apply list_insert_id.
  by rewrite list_lookup_fmap, Hi.
Qed.

Lemma default_Some {A} (d a : A) : default d (Some a) = a.
Proof. done. Qed.

(** Moving an approval to the second card only frees budget. *)
Lemma planned_to_second txns p i t p' :
  planned txns p → txns !! i = Some t → Expect t = ExpectApproved →
  (∀ card, default 0 (spent p' !! card) = default 0 (spent p !! card)
      - (if String.eqb (CardToken t) card then Amount t else 0) + (if String.eqb secondCardToken card then Amount t else 0)) →
  planned (<[i := to_second t]> txns) p'.
Proof.
  intros [Hok Hsp Hn Hlim Hfew] Hi He Hp'.
  assert (Ht : txn_ok t) by (rewrite Forall_forall in Hok; apply Hok; by apply list_elem_of_lookup_2 in Hi).
  assert (E : ∀ card, total card (<[i := to_second t]> txns) = total card txns
      - (if String.eqb (CardToken t) card then Amount t else 0) + (if String.eqb secondCardToken card then Amount t else 0)).
  { intros card. rewrite (total_insert card txns i t) by done. unfold spends. cbn [to_second Expect CardToken Amount].
    by rewrite He, String.eqb_refl. }
  pose proof (in_range t Ht). constructor.
  - apply Forall_insert; [done|]. constructor; cbn; [apply Ht|done|rewrite He; apply plan_second|done].
  - intros card. by rewrite Hp', Hsp, E.
  - rewrite E. cbn [String.eqb secondCardToken Ascii.eqb Bool.eqb]. destruct (String.eqb _ _); lia.
  - rewrite E. cbn [String.eqb secondCardToken limitCardToken Ascii.eqb Bool.eqb]. destruct (String.eqb _ _); lia.
  - by rewrite length_insert.
Qed.

Lemma mark_loop_ok order n txns p :
  NoDup order → Forall (λ i, (i < length txns)%nat) order →
  (∀ i t, i ∈ order → txns !! i = Some t → Cancel t = false) → planned txns p →
  gives (mark_loop order n txns)
    (λ ts p', planned ts p' ∧ map At ts = map At txns ∧ map Expect ts = map Expect txns ∧
       cancels ts = (cancels txns + Nat.min n (length (List.filter (approved_at (map Expect txns)) order)))%nat) p.
Proof.
  revert n txns p. induction order as [|i order IH]; intros n txns p Hnd Hlt Hc Hp; cbn [mark_loop].
  { apply gives_pure. split_and!; try done. cbn. lia. }
  destruct n as [|n']; [apply gives_pure; split_and!; try done; lia|].
  apply NoDup_cons in Hnd as [Hni Hnd]. apply Forall_cons in Hlt as [Hi Hlt].
  destruct (lookup_lt_is_Some_2 txns i Hi) as [t Ht]. rewrite Ht. cbn [List.filter].
  assert (Ea : approved_at (map Expect txns) i = String.eqb (Expect t) ExpectApproved).
  { unfold approved_at. change (map Expect txns) with (Expect <$> txns). by rewrite list_lookup_fmap, Ht. }
  rewrite Ea. destruct (String.eqb_spec (Expect t) ExpectApproved) as [He|He]; cbn [negb].
  2: { apply IH; try done. intros j u Hj. apply Hc. by right. }
  assert (Hnext : ∀ p', planned (<[i := to_second t]> txns) p' →
    gives (mark_loop order n' (<[i := to_second t]> txns))
      (λ ts p'', planned ts p'' ∧ map At ts = map At txns ∧ map Expect ts = map Expect txns ∧
         cancels ts = (cancels txns + Nat.min (S n') (length (i :: List.filter (approved_at (map Expect txns)) order)))%nat) p').
  { intros p' Hp'. eapply gives_mono; [apply (IH n' (<[i := to_second t]> txns)); [done| | |done]|].
    - by rewrite length_insert.
    - intros j u Hj Hu. rewrite list_lookup_insert_ne in Hu by (intros ->; done). eapply Hc; [by right|exact Hu].
    - intros ts p'' (H1 & H2 & H3 & H4). rewrite (map_insert_same At txns i t) in H2 by done.
      rewrite (map_insert_same Expect txns i t) in H3, H4 by done.
      rewrite (cancels_insert txns i t (to_second t) Ht (Hc i t ltac:(by left) Ht) eq_refl) in H4.
      split_and!; [done..|]. rewrite H4. cbn [length]. lia. }
  destruct (String.eqb_spec (CardToken t) secondCardToken) as [Es|Es]; cbn [negb].
  - apply Hnext. apply (planned_to_second txns p i t); try done. intros card. rewrite Es. destruct (String.eqb secondCardToken card); lia.
  - apply gives_then. unfold gives at 1, spend. apply gives_then. unfold gives at 1, spend. cbn [spent rng]. apply Hnext.
    assert (Hok : txn_ok t) by (pose proof (pl_ok _ _ Hp) as H; rewrite Forall_forall in H; apply H; by apply list_elem_of_lookup_2 in Ht).
    pose proof (in_range t Hok) as Hr.
    assert (Hb : ∀ card, 0 ≤ default 0 (spent p !! card) ≤ 1300000000).
    { intros card. rewrite (pl_spent _ _ Hp). pose proof (total_range card txns (pl_ok _ _ Hp)). pose proof (pl_few _ _ Hp). lia. }
    apply (planned_to_second txns p i t); try done. intros card. cbn [spent].
    destruct (String.eqb_spec secondCardToken card) as [<-|Hsc].
    + rewrite lookup_insert_eq, lookup_insert_ne by done. rewrite default_Some.
      rewrite (proj2 (String.eqb_neq _ _)) by done. pose proof (Hb secondCardToken).
      rewrite wrap64_id by (unfold in_int64; lia). lia.
    + rewrite lookup_insert_ne by done. destruct (String.eqb_spec (CardToken t) card) as [<-|Hcc].
      * rewrite lookup_insert_eq, default_Some. pose proof (Hb (CardToken t)). rewrite wrap64_id by (unfold in_int64; lia). lia.
      * rewrite lookup_insert_ne by done. lia.
Qed.

(** *** The whole plan *)

Lemma approvals_in_order (expects : list string) order :
  order ≡ₚ seq 0 (length expects) →
  length (List.filter (approved_at expects) order) = length (List.filter (λ e, String.eqb e ExpectApproved) expects).
Proof.
  intros Hp.
  assert (E : List.filter (approved_at expects) order ≡ₚ List.filter (approved_at expects) (seq 0 (length expects))).
  { clear -Hp. induction Hp as [|x l l' _ IH|x y l|l l' l'' _ IH1 _ IH2]; cbn; [done| | |by rewrite IH1].
    - destruct (approved_at expects x); [by rewrite IH|done].
    - destruct (approved_at expects x), (approved_at expects y); try done. apply Permutation_swap. }
  rewrite E. clear E Hp order.
  assert (H : ∀ pre, length (List.filter (approved_at (pre ++ expects)) (seq (length pre) (length expects)))
                     = length (List.filter (λ e, String.eqb e ExpectApproved) expects)).
  { induction expects as [|e l IH]; intros pre; [done|]. cbn [length seq List.filter].
    assert (Ee : approved_at (pre ++ e :: l) (length pre) = String.eqb e ExpectApproved).
    { unfold approved_at. by rewrite list_lookup_middle. }
    rewrite Ee. specialize (IH (pre ++ [e])). rewrite length_app, <- app_assoc in IH. cbn [length app] in IH.
    rewrite Nat.add_comm in IH. cbn [Nat.add] in IH. destruct (String.eqb e ExpectApproved); cbn [length]; by rewrite IH. }
  exact (H []).
Qed.

Lemma filter_length_Permutation {A} (f : A → bool) l l' : l ≡ₚ l' → length (List.filter f l) = length (List.filter f l').
Proof.
  induction 1 as [|x l l' _ IH|x y l|l l' l'' _ IH1 _ IH2]; cbn; [done| | |congruence].
  - destruct (f x); cbn; by rewrite IH.
  - by destruct (f x), (f y).
Qed.

Lemma total_Permutation card l l' : l ≡ₚ l' → total card l = total card l'.
Proof. unfold total. induction 1; cbn [map foldr]; lia. Qed.

Lemma cancels_none l : Forall (λ t, Cancel t = false) l → cancels l = 0%nat.
Proof. unfold cancels. induction 1 as [|t l Ht _ IH]; [done|]. cbn. by rewrite Ht. Qed.

Lemma insert_stable_Permutation {A} (less : A → A → bool) x l : insert_stable less x l ≡ₚ x :: l.
Proof.
  induction l as [|y l IH]; cbn; [done|]. destruct (less x y); [done|]. rewrite IH. apply Permutation_swap.
Qed.

Lemma SliceStable_Permutation {A} (less : A → A → bool) l : SliceStable less l ≡ₚ l.
Proof.
  unfold SliceStable. assert (H : ∀ acc, fold_left (λ s x, insert_stable less x s) l acc ≡ₚ acc ++ l).
  { induction l as [|x l IH]; intros acc; cbn [fold_left]; [by rewrite app_nil_r|].
    rewrite IH, insert_stable_Permutation. cbn. by rewrite <- Permutation_middle. }
  by rewrite H.
Qed.

Definition by_time (a b : Txn) : Prop := At a ≤ At b.

Lemma insert_by_time x l : StronglySorted by_time l → StronglySorted by_time (insert_stable (λ a b, At a <? At b) x l).
Proof.
  induction 1 as [|y l Hl IH Hy]; cbn [insert_stable]; [by repeat constructor|].
  destruct (Z.ltb_spec (At x) (At y)) as [Hlt|Hge].
  - constructor; [by constructor|]. constructor; [unfold by_time; lia|].
    eapply Forall_impl; [exact Hy|]. unfold by_time. intros; lia.
  - constructor; [done|]. rewrite (insert_stable_Permutation _ x l). by constructor.
Qed.

Lemma SliceStable_sorted l : StronglySorted by_time (SliceStable (λ a b, At a <? At b) l).
Proof.
  unfold SliceStable. assert (H : ∀ acc, StronglySorted by_time acc →
    StronglySorted by_time (fold_left (λ s x, insert_stable (λ a b, At a <? At b) x s) l acc)).
  { induction l as [|x l IH]; intros acc Hacc; [done|]. cbn [fold_left]. by apply IH, insert_by_time. }
  apply H. constructor.
Qed.

Lemma codes_outcomes declines : (declines = todayDeclines ∨ declines = yesterdayDeclines) → Forall outcome (codes declines).
Proof. intros [->| ->]; unfold codes, outcome; cbn; repeat constructor; set_solver. Qed.

(** What a plan promises. *)
Record plan_ok (now : time) (plan : list Txn) : Prop := {
  plan_size : length plan = 246%nat;
  plan_sorted : StronglySorted by_time plan;
  plan_txns : Forall txn_ok plan;
  plan_outcomes : map Expect plan ≡ₚ codes todayDeclines ++ codes yesterdayDeclines ++ replicate 231 ExpectApproved;
  plan_cancels : cancels plan = 2%nat;
  plan_normal_budget : total "tok_normal" plan ≤ normalCardBudget;
  plan_limit_budget : total limitCardToken plan ≤ limitCardBudget;
  plan_window : Forall (λ t, dayStart now - 24 * Hour ≤ At t ≤ now) plan;
  plan_bars : ∀ i, (i < bucketCount)%nat → ∃ t, t ∈ plan ∧ in_bar now i (At t)
}.

Lemma Forall_at (P : time → Prop) l : Forall P (map At l) → Forall (λ t, P (At t)) l.
Proof. induction l as [|t l IH]; cbn; [done|]. rewrite !Forall_cons. tauto. Qed.

(** The days of a plan, before sorting. *)
Lemma plan_parts_ok now last earlier yt today yesterday p :
  last_hour_ok now last → length earlier = earlierTodayCount → Forall (λ t, dayStart now - Hour ≤ t ≤ now) earlier →
  length yt = yesterdayCount →
  Forall (λ t, dayStart now - 24 * Hour ≤ t ∧ (t < now - 24 * Hour ∨ t = dayStart now - 24 * Hour)) yt →
  planned (today ++ yesterday) p → map At today = last ++ earlier → map At yesterday = yt →
  map Expect today ≡ₚ codes todayDeclines ++ replicate 122 ExpectApproved →
  map Expect yesterday ≡ₚ codes yesterdayDeclines ++ replicate 109 ExpectApproved →
  cancels today = 2%nat → Forall (λ t, Cancel t = false) yesterday →
  plan_ok now (SliceStable (λ a b, At a <? At b) (today ++ yesterday)).
Proof.
  intros (Hl1 & Hl2 & Hl3) He1 He2 Hy1 Hy2 Hp Ht Hy Het Hey Hct Hcy. destruct Hp as [Hok Hsp Hn Hlim _].
  pose proof (SliceStable_Permutation (λ a b, At a <? At b) (today ++ yesterday)) as Hperm.
  pose proof (dayStart_le now) as Hd. assert (Hh : 0 < Hour) by reflexivity.
  assert (Htot : ∀ card, total card (SliceStable (λ a b, At a <? At b) (today ++ yesterday)) = total card (today ++ yesterday)).
  { intros card. by apply total_Permutation. }
  constructor.
  - rewrite Hperm, length_app, <- (length_map At today), <- (length_map At yesterday), Ht, Hy, length_app. unfold time in *.
    rewrite Hl1, He1, Hy1. reflexivity.
  - apply SliceStable_sorted.
  - by rewrite Hperm.
  - rewrite Hperm, map_app, Het, Hey. change 231%nat with (122 + 109)%nat. rewrite replicate_add.
    rewrite <- !app_assoc. apply Permutation_app_head. rewrite !app_assoc. apply Permutation_app_tail, Permutation_app_comm.
  - unfold cancels in *. rewrite (filter_length_Permutation _ _ _ Hperm), List.filter_app, length_app, Hct.
    fold (cancels yesterday). by rewrite cancels_none.
  - by rewrite Htot.
  - by rewrite Htot.
  - rewrite Hperm. apply Forall_app. split.
    + apply (Forall_at (λ t, dayStart now - 24 * Hour ≤ t ≤ now)). rewrite Ht. apply Forall_app.
      split; [eapply Forall_impl; [exact Hl2|]|eapply Forall_impl; [exact He2|]]; cbn beta; intros; lia.
    + apply (Forall_at (λ t, dayStart now - 24 * Hour ≤ t ≤ now)). rewrite Hy. eapply Forall_impl; [exact Hy2|]. cbn beta. intros; lia.
  - intros i Hi. destruct (Hl3 i Hi) as (t & Hin & Hbar).
    assert (Ht' : t ∈ map At today) by (rewrite Ht; apply elem_of_app; by left).
    apply list_elem_of_In, in_map_iff in Ht' as (x & <- & Hx). exists x. split; [|done].
    rewrite Hperm. apply elem_of_app. left. by apply list_elem_of_In.
Qed.

Lemma Build_ok now (r : R) : plan_ok now (Build now r).
Proof.
  assert (Hgoal : gives (build now) (λ plan _, plan_ok now plan) (mkPlanner r ∅)).
  { unfold build. apply gives_then. apply (frugal_gives _ _ _ _ (lastHourTimes_ok now)). intros last p1 [Hl Hs1]. apply gives_then.
    apply (frugal_gives _ _ _ _ (earlierTodayTimes_ok now)). intros earlier p2 [[He1 He2] Hs2]. apply gives_then.
    apply (frugal_gives _ _ _ _ (uniformTimes_ok _ _ _)). intros yt p3 [[Hy1 Hy2] Hs3]. apply gives_then.
    assert (Hlen : length (last ++ earlier) = 130%nat).
    { destruct Hl as [Hl' _]. rewrite length_app. unfold lastHourCount, earlierTodayCount, time in *. lia. }
    eapply gives_mono; [apply (assign_ok [] p3)|].
    { apply codes_outcomes. by left. }
    { rewrite Hlen. apply Nat.leb_le. reflexivity. }
    { constructor; try done; [|cbn; lia]. intros card. by rewrite Hs3, Hs2, Hs1. }
    { rewrite Hlen. cbn. lia. }
    rewrite Hlen. change (130 - length (codes todayDeclines))%nat with 122%nat. cbn [app].
    intros today p4 (Hp4 & Ht1 & Ht2 & Ht3). apply gives_then. unfold markCancellations. apply gives_then, gives_draw.
    intros order r' ->. pose proof (Perm_perm (length today) (rng p4)) as Hperm.
    assert (Hlt : length today = 130%nat) by (by rewrite <- (length_map At today), Ht1).
    eapply gives_mono; [apply (mark_loop_ok _ _ today)|].
    { rewrite Hperm. apply NoDup_seq. }
    { rewrite Hperm. apply Forall_forall. intros i Hi%elem_of_seq. lia. }
    { intros i t _ Ht. rewrite Forall_forall in Ht3. apply Ht3. by apply list_elem_of_lookup_2 in Ht. }
    { by apply (planned_spent today p4). }
    intros today' p5 (Hp5 & Hm1 & Hm2 & Hm3). apply gives_then.
    rewrite approvals_in_order in Hm3 by (by rewrite length_map).
    rewrite (filter_length_Permutation _ _ _ Ht2), (cancels_none today Ht3) in Hm3.
    change (length (List.filter _ _)) with 122%nat in Hm3.
    assert (Hlt' : length today' = 130%nat) by (by rewrite <- (length_map At today'), Hm1, length_map).
    eapply gives_mono; [apply (assign_ok today' p5)|].
    { apply codes_outcomes. by right. }
    { unfold time in *. rewrite Hy1. apply Nat.leb_le. reflexivity. }
    { done. }
    { unfold time in *. rewrite Hlt', Hy1. apply Nat.leb_le. reflexivity. }
    unfold time in *. rewrite Hy1. change (yesterdayCount - length (codes yesterdayDeclines))%nat with 109%nat.
    intros yesterday p6 (Hp6 & Hy3 & Hy4 & Hy5). apply gives_pure.
    eapply (plan_parts_ok now last earlier yt today' yesterday p6); try done; [exact (eq_trans Hm1 Ht1)|by rewrite Hm2]. }
  unfold gives in Hgoal. unfold Build. by destruct (build now (mkPlanner r ∅)).
Qed.

(** C28. Every plan keeps what the seed is written for, whatever is drawn: 246 purchases in time order,
    each with the card, terminal and amount that bring the outcome it expects; 15 declines in the
    planned mix; two cancellations, of approvals on the second card; approvals on the two small cards
    within their budgets, so that nothing else is declined; none after now; and no empty bar in the
    chart of the last hour. *)
Theorem every_plan_keeps_its_promises now (r : R) : plan_ok now (Build now r).
Proof. apply Build_ok. Qed.
End every_plan.

(** ** A generator to evaluate *)

(** A linear congruential generator; its permutations are rotations. *)
Definition lcg (r : Z) : Z := (r * 6364136223846793005 + 1442695040888963407) mod 2 ^ 64.
Definition rotate (k n : nat) : list nat := seq k (n - k) ++ seq 0 k.
#[export] Instance demo_rand : Rand Z := {|
  Int63n n r := (r / 65536 mod n, lcg r);
  Intn n r := (r / 65536 mod n, lcg r);
  RandFloat64 r := (fdiv (Float64 (r / 65536 mod 2 ^ 40)) (Float64 (2 ^ 40)), lcg r);
  Perm n r := (rotate (Z.to_nat (r mod Z.of_nat (S n))) n, lcg r)
|}.

#[export] Instance demo_rand_laws : RandLaws Z.
Proof.
  constructor.
  - intros n r Hn. by apply Z.mod_pos_bound.
  - intros n r Hn. by apply Z.mod_pos_bound.
  - intros n r. cbn [Perm demo_rand fst]. unfold rotate.
    pose proof (Z.mod_pos_bound r (Z.of_nat (S n)) ltac:(lia)) as Hk. set (k := Z.to_nat (r mod Z.of_nat (S n))).
    rewrite Permutation_app_comm, <- seq_app. by replace (k + (n - k))%nat with n by (unfold k; lia).
Qed.

Definition demo_now : time := 20717 * Day + 7 * Hour + 30 * Minute.

Lemma every_plan_keeps_its_promises_witness : plan_ok demo_now (Build demo_now 42).
Proof. exact (every_plan_keeps_its_promises demo_now 42). Defined.

(** The first purchase of a plan, and what the plan asks of each card. *)
Example demo_plan :
  let plan := Build demo_now 42 in
  (length plan, cancels plan, (total "tok_normal" plan <=? normalCardBudget), length (List.filter Cancel plan)) = (246%nat, 2%nat, true, 2%nat) ∧
  last_hour_counts = [2; 2; 2; 3; 3; 3; 3; 4; 4; 4; 5; 5; 5; 4; 5; 6; 5; 5; 5; 4; 4; 5; 4; 4].
Proof. vm_compute. split; reflexivity. Qed.
