(* ===== verification/SeedRun.v ===== *)
(** * SeedRun: a run of the seed against a running stack

    [gateway-go/internal/seed/runner.go] and fixture.go, over the plan of Seed.v.  The gateway, the issuer
    and the database are whatever answers: a run is a script, every call takes the next reply, and the
    state is the clock and the calls made with their replies. *)

From S2P Require Import Prelude Digits Float Net KeyStore Calendar Store Script Seed.
Local Open Scope Z_scope.
Local Open Scope script_scope.

(** ** fixture.go *)

Record Card := mkCard { Token : string; Ref : string; PIN : string; card_status : string; card_balance : Z }.
Record Terminal := mkTerminal { t_id : string; t_merchant : string; t_name : string; t_mcc : string }.
Record Fixture := mkFixture { Cards : list Card; Terminals : list Terminal }.

Definition Fixture_Card (f : Fixture) (token : string) : option Card := List.find (λ c, String.eqb (Token c) token) (Cards f).
Definition Fixture_Terminal (f : Fixture) (id : string) : option Terminal := List.find (λ t, String.eqb (t_id t) id) (Terminals f).

(** ** runner.go *)

Definition linkSignedOn : string := "SIGNED_ON".
Definition dailyLimitOnCap : Z := 50000000.
Definition earlyAbortAfter : nat := 5.


Record purchaseResponse := mkPurchase { RRN : string; p_Status : string; ResponseCode : string }.
Definition no_purchase : purchaseResponse := mkPurchase "" "" "".

(** What leaves the process: two statements of the repositories and seven HTTP requests, each with the
    parts of its body that vary. *)
Inductive call :=
  | UpsertFromFixture (terminals : list FixtureTerminal)
  | GetLinks | SignOn
  | GetCard (ref : string)
  | PutLimits (ref etag : string) (perTransaction daily : Z)
  | PostPurchase (txn : Txn)
  | PostCancellation (rrn : string)
  | GetTransaction (rrn : string)
  | BackdateCall (rrn : string) (at_ : time)
  | Wait.

(** A reply: the time that passes, whether the call failed (or, for a wait, the context ended), and what
    an HTTP answer holds. *)
Record reply := mkReply {
  took : duration; failed : bool; status : Z; etag : string; links : list (string * string); body : purchaseResponse }.

Record World := mkWorld { now_ : time; calls : list (call * reply) }.

Inductive RunError :=
  | CallFailed (c : call)                      (* the transport's, the decoder's or the database's error *)
  | BadStatus (c : call) (status : Z)
  | NoIssuerLink
  | LinkStuck (state : string)
  | ContextDone
  | NoCard
  | AllMissed
  | InStage (stage : string) (e : RunError).

Abbreviation run_of A := (@script World reply A).
Abbreviation runE A := (@script World reply (result RunError A)).

Definition issue (c : call) : run_of reply :=
  act (λ r w, (r, mkWorld (now_ w + Z.max 0 (took r)) (calls w ++ [(c, r)]))).

(** [do]: a failure, or the status and what was decoded, which is nothing from 300 on. *)
Definition do_ (c : call) : runE reply :=
  r <~ issue c;
  if failed r then yield (Err (CallFailed c))
  else if status r <? 300 then yield (Ok r)
  else yield (Ok (mkReply (took r) false (status r) (etag r) [] no_purchase)).

Definition want (c : call) (expected : Z) : runE reply :=
  r <~! do_ c; if status r =? expected then yield (Ok r) else yield (Err (BadStatus c (status r))).

(** [select] of the context's end and [time.After], which lets at least its duration pass. *)
Definition wait (d : duration) : run_of reply :=
  act (λ r w, (r, mkWorld (now_ w + (if failed r then Z.max 0 (took r) else Z.max d (took r))) (calls w ++ [(Wait, r)]))).

Definition Now : run_of time := gets now_.

Definition in_stage {A} (stage : string) (p : runE A) : runE A :=
  r <~ p; yield (match r with Ok a => Ok a | Err e => Err (InStage stage e) end).

Record Summary := mkSummary { Planned : Z; Outcomes : gmap string Z; Reversed : Z; Mismatches : list string }.

Record seeded := mkSeeded { s_txn : Txn; s_rrn : string }.

Section runner.
Context (fixture : Fixture) (SettleTimeout PollInterval : duration).
(** The order in which a Go map is iterated. *)
Context (map_order : gset string → list string).

Definition fixtureTerminals : list FixtureTerminal :=
  map (λ t, mkFixtureTerminal (t_id t) (t_merchant t) (t_name t) (t_mcc t)) (Terminals fixture).

Definition issuerLinkState : runE string :=
  r <~! want GetLinks 200;
  match List.find (λ l : string * string, String.eqb l.1 "issuer") (links r) with
  | Some l => yield (Ok l.2)
  | None => yield (Err NoIssuerLink)
  end.

Definition signOn : runE () := want SignOn 200 ;;~! yield (Ok ()).

(** One round; the argument is [signOnSent]. *)
Definition sign_round (deadline : time) (sent : bool) : run_of (bool + result RunError ()) :=
  state <~ issuerLinkState;
  match state with
  | Err e => yield (inr (Err e))
  | Ok state =>
      if String.eqb state linkSignedOn then yield (inr (Ok ()))
      else if negb sent && String.eqb state "CONNECTED" then
        r <~ signOn;
        match r with Err e => yield (inr (Err e)) | Ok _ => yield (inl true) end
      else
        now <~ Now;
        if negb (now <? deadline) then yield (inr (Err (LinkStuck state)))
        else r <~ wait PollInterval; if failed r then yield (inr (Err ContextDone)) else yield (inl sent)
  end.

Definition ensureSignedOn : runE () :=
  now <~ Now; forever (sign_round (now + SettleTimeout)) false.

Definition setLimit : runE () :=
  match Fixture_Card fixture limitCardToken with
  | None => yield (Err NoCard)
  | Some card =>
      r <~! want (GetCard (Ref card)) 200;
      want (PutLimits (Ref card) (etag r) LimitPerTransaction dailyLimitOnCap) 200 ;;~! yield (Ok ())
  end.

Definition purchase (txn : Txn) : runE purchaseResponse :=
  r <~! want (PostPurchase txn) 201; yield (Ok (body r)).

Definition outcome_of (got : purchaseResponse) : string :=
  if negb (String.eqb (p_Status got) ExpectApproved) then ResponseCode got else p_Status got.

Definition mismatch_text (txn : Txn) (got : purchaseResponse) : string :=
  CardToken txn +:+ " " +:+ TerminalID txn +:+ " " +:+ Itoa (Amount txn) +:+ " at " +:+ RRN got +:+ ": want " +:+ Expect txn
  +:+ ", got " +:+ p_Status got +:+ "/" +:+ ResponseCode got.

Definition count_outcome (o : string) (sum : Summary) : Summary :=
  mkSummary (Planned sum) (<[o := default 0 (Outcomes sum !! o) + 1]> (Outcomes sum)) (Reversed sum) (Mismatches sum).
Definition add_mismatch (m : string) (sum : Summary) : Summary :=
  mkSummary (Planned sum) (Outcomes sum) (Reversed sum) (Mismatches sum ++ [m]).

(** The loop over the plan: the summary as far as it got, and the purchases done or the error. *)
Fixpoint purchaseAll (plan : list Txn) (done : list seeded) (sum : Summary) : run_of (Summary * result RunError (list seeded)) :=
  match plan with
  | [] => yield (sum, Ok done)
  | txn :: plan =>
      got <~ purchase txn;
      match got with
      | Err e => yield (sum, Err (InStage "purchase" e))
      | Ok got =>
          let sum := count_outcome (outcome_of got) sum in
          let missed := negb (String.eqb (outcome_of got) (Expect txn)) in
          let sum := if missed then add_mismatch (mismatch_text txn got) sum else sum in
          if missed && (length (Mismatches sum) =? earlyAbortAfter)%nat && (length done <? earlyAbortAfter)%nat
          then yield (sum, Err AllMissed)
          else purchaseAll plan (if negb (String.eqb (RRN got) "") then done ++ [mkSeeded txn (RRN got)] else done) sum
      end
  end.

Fixpoint cancelPlanned (done : list seeded) : runE () :=
  match done with
  | [] => yield (Ok ())
  | s :: done =>
      if Cancel (s_txn s) then in_stage "cancel" (want (PostCancellation (s_rrn s)) 202) ;;~! cancelPlanned done
      else cancelPlanned done
  end.

Fixpoint dropReversed (rrns : list string) (pending : gset string) : run_of (gset string) :=
  match rrns with
  | [] => yield pending
  | rrn :: rrns =>
      r <~ do_ (GetTransaction rrn);
      let reversed := match r with
                      | Ok r => (status r =? 200) && String.eqb (p_Status (body r)) "REVERSED"
                      | Err _ => false
                      end in
      dropReversed rrns (if reversed then pending ∖ {[rrn]} else pending)
  end.

(** One round: what is pending and, at the end, how many were reversed. *)
Definition await_round (deadline : time) (total : Z) (pending : gset string) : run_of (gset string + Z) :=
  now <~ Now;
  if bool_decide (pending = ∅) || negb (now <? deadline) then yield (inr (total - Z.of_nat (size pending)))
  else
    pending <~ dropReversed (map_order pending) pending;
    if bool_decide (pending = ∅) then yield (inr total)
    else r <~ wait PollInterval; if failed r then yield (inr (total - Z.of_nat (size pending))) else yield (inl pending).

Definition cancelled_rrns (done : list seeded) : gset string :=
  list_to_set (map s_rrn (List.filter (λ s, Cancel (s_txn s)) done)).

Definition awaitReversals (done : list seeded) : run_of Z :=
  let pending := cancelled_rrns done in
  now <~ Now; forever (await_round (now + SettleTimeout) (Z.of_nat (size pending))) pending.

Fixpoint backdateAll (shift : duration) (done : list seeded) : runE () :=
  match done with
  | [] => yield (Ok ())
  | s :: done =>
      let c := BackdateCall (s_rrn s) (At (s_txn s) + shift) in
      r <~ issue c;
      if failed r then yield (Err (InStage "backdate" (CallFailed c))) else backdateAll shift done
  end.

Definition no_summary : Summary := mkSummary 0 ∅ 0 [].

(** The first three steps: merchants, link, limit. *)
Definition prepare : runE () :=
  in_stage "upsert" (r <~ issue (UpsertFromFixture fixtureTerminals);
    yield (if failed r then Err (CallFailed (UpsertFromFixture fixtureTerminals)) else Ok ())) ;;~!
  in_stage "sign on" ensureSignedOn ;;~!
  in_stage "limit" setLimit.

Context {R : Type} {G : Rand R} (rand : R).

Definition Run : run_of (Summary * option RunError) :=
  prepared <~ prepare;
  match prepared with
  | Err e => yield (no_summary, Some e)
  | Ok _ =>
      planNow <~ Now;
      let plan := Build planNow rand in
      bought <~ purchaseAll plan [] (mkSummary (Z.of_nat (length plan)) ∅ 0 []);
      let '(sum, bought) := bought in
      match bought with
      | Err e => yield (sum, Some e)
      | Ok done =>
          cancelled <~ cancelPlanned done;
          match cancelled with
          | Err e => yield (sum, Some e)
          | Ok _ =>
              reversed <~ awaitReversals done;
              let sum := mkSummary (Planned sum) (Outcomes sum) reversed (Mismatches sum) in
              now <~ Now;
              backdated <~ backdateAll (now - planNow) done;
              yield (sum, match backdated with Ok _ => None | Err e => Some e end)
          end
      end
  end.
End runner.

(** ** What a finished run did *)

#[local] Opaque Build.

Abbreviation transcript := (list (call * reply)).

(** [p] adds calls to the log that, with its result, satisfy [P]. *)
Definition logs {A} (p : run_of A) (P : transcript → A → Prop) : Prop :=
  ∀ w, always any (λ _, True) p (λ a w', ∃ new, calls w' = calls w ++ new ∧ P new a) w.

Lemma logs_mono {A} (p : run_of A) (P Q : transcript → A → Prop) : (∀ l a, P l a → Q l a) → logs p P → logs p Q.
Proof.
  intros HPQ Hp w. eapply always_mono; [|apply Hp]. intros a w' (new & E & H). exists new. split; [done|by apply HPQ].
Qed.

Lemma logs_yield {A} (a : A) (Q : transcript → A → Prop) : Q [] a → logs (yield a) Q.
Proof. intros HQ w. apply always_yield. exists []. by rewrite app_nil_r. Qed.

Lemma logs_bind {A B} (p : run_of A) (f : A → run_of B) (P : transcript → A → Prop) Q :
  logs p P → (∀ l a, P l a → logs (f a) (λ l' b, Q (l ++ l') b)) → logs (sbind p f) Q.
Proof.
  intros Hp Hf w. apply always_bind. eapply always_mono; [|apply Hp]. intros a w1 (l & E & H).
  eapply always_mono; [|apply (Hf l a H)]. intros b w2 (l' & E' & H'). exists (l ++ l'). split; [|done].
  by rewrite E', E, <- app_assoc.
Qed.

Lemma logs_bindE {A B} (p : runE A) (f : A → runE B) (P : transcript → result RunError A → Prop) Q :
  logs p P → (∀ l a, P l (Ok a) → logs (f a) (λ l' b, Q (l ++ l') b)) → (∀ l e, P l (Err e) → Q l (Err e)) →
  logs (sbindE p f) Q.
Proof.
  intros Hp Hf He. eapply logs_bind; [exact Hp|]. intros l [a|e] H; [by apply Hf|]. apply logs_yield. rewrite app_nil_r. by apply He.
Qed.

Lemma logs_Now (Q : transcript → time → Prop) : (∀ t, Q [] t) → logs Now Q.
Proof. intros HQ w. apply always_gets. exists []. by rewrite app_nil_r. Qed.

Lemma logs_issue c (Q : transcript → reply → Prop) : (∀ r, Q [(c, r)] r) → logs (issue c) Q.
Proof. intros HQ w. apply always_act; [done|]. intros r a w' _ [= <- <-]. by exists [(c, r)]. Qed.

Lemma logs_wait d (Q : transcript → reply → Prop) : (∀ r, Q [(Wait, r)] r) → logs (wait d) Q.
Proof. intros HQ w. apply always_act; [done|]. intros r a w' _ [= <- <-]. by exists [(Wait, r)]. Qed.

(** What [do] makes of a reply. *)
Definition understood (c : call) (r : reply) : result RunError reply :=
  if failed r then Err (CallFailed c)
  else if status r <? 300 then Ok r else Ok (mkReply (took r) false (status r) (etag r) [] no_purchase).

Lemma logs_do c (Q : transcript → result RunError reply → Prop) : (∀ r, Q [(c, r)] (understood c r)) → logs (do_ c) Q.
Proof.
  unfold understood. intros HQ. apply (logs_bind _ _ (λ l r, l = [(c, r)])); [by apply logs_issue|]. intros l r ->. specialize (HQ r).
  destruct (failed r); [by apply logs_yield|]. destruct (_ <? _); by apply logs_yield.
Qed.

Lemma logs_want c n (Q : transcript → result RunError reply → Prop) :
  n < 300 → (∀ r, failed r = false → status r = n → Q [(c, r)] (Ok r)) → (∀ r e, Q [(c, r)] (Err e)) → logs (want c n) Q.
Proof.
  intros Hn HQ He. eapply logs_bindE; [apply (logs_do c (λ l x, ∃ r, l = [(c, r)] ∧ x = understood c r)); by eexists|..].
  - intros l r (r0 & -> & E). unfold understood in E. destruct (failed r0) eqn:Ef; [done|].
    destruct (Z.ltb_spec (status r0) 300); injection E as ->; cbn [status].
    + destruct (Z.eqb_spec (status r0) n); apply logs_yield; rewrite app_nil_r; [by apply HQ|apply He].
    + destruct (Z.eqb_spec (status r0) n); [lia|]. apply logs_yield. rewrite app_nil_r. apply He.
  - intros l e (r0 & -> & _). apply He.
Qed.

Lemma logs_stage {A} s (p : runE A) (Q : transcript → result RunError A → Prop) :
  logs p (λ l r, match r with Ok a => Q l (Ok a) | Err e => ∀ e', Q l (Err e') end) → logs (in_stage s p) Q.
Proof.
  intros Hp. eapply logs_bind; [exact Hp|]. intros l [a|e] H; apply logs_yield; rewrite app_nil_r; [done|apply H].
Qed.

Lemma logs_forever {A B} (round : A → run_of (A + B)) (J : transcript → A → Prop) (Q : transcript → B → Prop) a :
  J [] a → (∀ l a, J l a → logs (round a) (λ l' x, match x with inl a => J (l ++ l') a | inr b => Q (l ++ l') b end)) →
  logs (forever round a) Q.
Proof.
  intros Ha Hr w. apply (always_forever _ _ (λ a w', ∃ l, calls w' = calls w ++ l ∧ J l a)); [done| |].
  - intros a' w' (l & E & H). eapply always_mono; [|apply (Hr l a' H)]. intros x w'' (l' & E' & H').
    assert (E2 : calls w'' = calls w ++ l ++ l') by (by rewrite E', E, <- app_assoc).
    destruct x; by exists (l ++ l').
  - exists []. by rewrite app_nil_r.
Qed.

(** A call that was answered as it had to be. *)
Definition went_well (cr : call * reply) : Prop :=
  failed cr.2 = false ∧
  match cr.1 with
  | GetLinks | SignOn | GetCard _ | PutLimits _ _ _ _ => status cr.2 = 200
  | PostPurchase _ => status cr.2 = 201
  | PostCancellation _ => status cr.2 = 202
  | _ => True
  end.

Definition shows_signed_on (cr : call * reply) : Prop :=
  cr.1 = GetLinks ∧ ∃ to, List.find (λ l : string * string, String.eqb l.1 "issuer") (links cr.2) = Some (to, "SIGNED_ON").

(** The purchases that were made, from the replies. *)
Definition made (plan : list Txn) (rs : list reply) : list seeded :=
  List.filter (λ s, negb (String.eqb (s_rrn s) "")) (zip_with (λ txn r, mkSeeded txn (RRN (body r))) plan rs).
(** What the summary reports of them. *)
Definition missed (txn : Txn) (r : reply) : bool := negb (String.eqb (outcome_of (body r)) (Expect txn)).
Definition mismatches (plan : list Txn) (rs : list reply) : list string :=
  concat (zip_with (λ txn r, if missed txn r then [mismatch_text txn (body r)] else []) plan rs).
Definition counted (o : string) (rs : list reply) : Z :=
  Z.of_nat (length (List.filter (λ r, String.eqb (outcome_of (body r)) o) rs)).

(** The polls for the cancelled purchases, and those they saw reversed. *)
Definition polling (cr : call * reply) : Prop := match cr.1 with Wait | GetTransaction _ => True | _ => False end.
Definition saw_reversed (cr : call * reply) : option string :=
  match cr.1 with
  | GetTransaction rrn =>
      if negb (failed cr.2) && (status cr.2 =? 200) && String.eqb (p_Status (body cr.2)) "REVERSED" then Some rrn else None
  | _ => None
  end.
Definition seen_reversed (l : transcript) : gset string := list_to_set (omap saw_reversed l).

Lemma seen_reversed_app l l' : seen_reversed (l ++ l') = seen_reversed l ∪ seen_reversed l'.
Proof. unfold seen_reversed. by rewrite omap_app, list_to_set_app_L. Qed.

Section finished.
Context (fixture : Fixture) (SettleTimeout PollInterval : duration) (map_order : gset string → list string).

(** The calls before the plan: the merchants and terminals, the link until it is signed on, the limit. *)
Definition prepared (l : transcript) : Prop :=
  ∃ up on card got put, l = up :: on ++ [(GetCard (Ref card), got);
                                         (PutLimits (Ref card) (etag got) LimitPerTransaction dailyLimitOnCap, put)] ∧
    Forall went_well l ∧ up.1 = UpsertFromFixture (fixtureTerminals fixture) ∧
    Forall (λ cr, cr.1 ∈ [GetLinks; SignOn; Wait]) on ∧ (∃ cr, last on = Some cr ∧ shows_signed_on cr) ∧
    Fixture_Card fixture limitCardToken = Some card.

Definition signing (l : transcript) : Prop := Forall (λ cr, went_well cr ∧ cr.1 ∈ [GetLinks; SignOn; Wait]) l.

Lemma signing_snoc l c r :
  signing l → went_well (c, r) → c ∈ [GetLinks; SignOn; Wait] → signing (l ++ [(c, r)]).
Proof. intros Hl Hw Hc. apply Forall_app. split; [done|]. by constructor. Qed.

Lemma sign_round_logs deadline sent l : signing l →
  logs (sign_round PollInterval deadline sent)
    (λ l' x, match x with inl _ => signing (l ++ l')
             | inr r => r = Ok () → signing (l ++ l') ∧ ∃ cr, last (l ++ l') = Some cr ∧ shows_signed_on cr end).
Proof.
  intros Hl. unfold sign_round, issuerLinkState.
  eapply logs_bind with (P := λ l' x, match x with Err _ => True | Ok state =>
    ∃ r, l' = [(GetLinks, r)] ∧ went_well (GetLinks, r) ∧ (state = linkSignedOn → shows_signed_on (GetLinks, r)) end).
  { eapply logs_bindE with (P := λ l' x, match x with Err _ => True | Ok r => l' = [(GetLinks, r)] ∧ went_well (GetLinks, r) end);
      [apply logs_want; [lia|by intros r|done]| |done].
    intros l1 r [-> Hr]. destruct (List.find _ (links r)) as [[to state]|] eqn:Ef; apply logs_yield; [|done].
    exists r. split_and!; [done|done|]. cbn [snd]. intros ->. split; [done|]. exists to. exact Ef. }
  intros l1 [state|e] H; [|by apply logs_yield]. destruct H as (r & -> & Hr & Hs).
  assert (H1 : signing (l ++ [(GetLinks, r)])) by (apply signing_snoc; [done|done|set_solver]).
  destruct (String.eqb_spec state linkSignedOn) as [E|_].
  { apply logs_yield. cbn [app]. intros _. split; [done|]. exists (GetLinks, r). rewrite last_snoc. split; [done|by apply Hs]. }
  destruct (negb sent && String.eqb state "CONNECTED").
  - unfold signOn. eapply logs_bind with (P := λ l' x, match x with Err _ => True | Ok _ =>
      ∃ r', l' = [(SignOn, r')] ∧ went_well (SignOn, r') end).
    { eapply logs_bindE with (P := λ l' x, match x with Err _ => True | Ok r => l' = [(SignOn, r)] ∧ went_well (SignOn, r) end);
        [apply logs_want; [lia|by intros r'|done]| |done]. intros l2 r' [-> Hr']. apply logs_yield. by exists r'. }
    intros l2 [u|e] H; apply logs_yield; [|done]. destruct H as (r' & -> & Hr'). cbn [app]. change ([(GetLinks, r); (SignOn, r')]) with ([(GetLinks, r)] ++ [(SignOn, r')]).
    rewrite (assoc_L (++)). apply signing_snoc; [done|done|set_solver].
  - eapply logs_bind with (P := λ l' _, l' = []); [by apply logs_Now|]. intros ? now ->.
    destruct (negb _); [by apply logs_yield|].
    eapply logs_bind with (P := λ l' r', l' = [(Wait, r')]); [by apply logs_wait|]. intros ? r' ->.
    destruct (failed r') eqn:Ef; apply logs_yield; [done|]. cbn [app]. 
    change ([(GetLinks, r); (Wait, r')]) with ([(GetLinks, r)] ++ [(Wait, r')]). rewrite (assoc_L (++)).
    apply signing_snoc; [done|done|set_solver].
Qed.

Lemma prepare_logs : logs (prepare fixture SettleTimeout PollInterval) (λ l r, r = Ok () → prepared l).
Proof.
  unfold prepare. eapply logs_bindE with (P := λ l r, r = Ok () →
    ∃ up, l = [up] ∧ went_well up ∧ up.1 = UpsertFromFixture (fixtureTerminals fixture)).
  { apply logs_stage. eapply logs_bind with (P := λ l r, l = [(UpsertFromFixture (fixtureTerminals fixture), r)]);
      [by apply logs_issue|]. intros ? r ->. apply logs_yield. destruct (failed r) eqn:Ef; [by intros e|]. intros _. by eexists. }
  2: { by intros l e _. }
  intros l1 [] H. destruct (H eq_refl) as (up & -> & Hup & Hc).
  eapply logs_bindE with (P := λ l r, r = Ok () → signing l ∧ ∃ cr, last l = Some cr ∧ shows_signed_on cr).
  { apply logs_stage. unfold ensureSignedOn. eapply logs_bind with (P := λ l' _, l' = []); [by apply logs_Now|]. intros ? now ->.
    eapply logs_mono; [|apply (logs_forever _ (λ l _, signing l) (λ l r, r = Ok () → signing l ∧ ∃ cr, last l = Some cr ∧ shows_signed_on cr))].
    - intros l [[]|e] Hl; [exact Hl|by intros e' ?].
    - constructor.
    - intros l sent Hl. by apply sign_round_logs. }
  2: { by intros l e _. }
  intros on [] Hon. destruct (Hon eq_refl) as [Hs Hlast]. apply Forall_and in Hs as [Hwell Hin]. apply logs_stage. unfold setLimit.
  destruct (Fixture_Card fixture limitCardToken) as [card|] eqn:Ecard; [|by apply logs_yield].
  eapply logs_bindE with (P := λ l x, match x with Err _ => True | Ok r => l = [(GetCard (Ref card), r)] ∧ went_well (GetCard (Ref card), r) end);
    [apply logs_want; [lia|by intros r|done]| |by intros l e _ e' ?].
  intros ? got [-> Hgot].
  eapply logs_bindE with (P := λ l x, match x with Err _ => True | Ok r =>
      l = [(PutLimits (Ref card) (etag got) LimitPerTransaction dailyLimitOnCap, r)] ∧
      went_well (PutLimits (Ref card) (etag got) LimitPerTransaction dailyLimitOnCap, r) end);
    [apply logs_want; [lia|by intros r|done]| |by intros l e _ e' ?].
  intros ? put [-> Hput]. apply logs_yield. intros _. exists up, on, card, got, put. cbn [app]. split_and!; try done.
  apply Forall_cons. split; [done|]. apply Forall_app. split; [done|].
  apply Forall_cons. split; [done|]. by apply Forall_singleton.
Qed.

Lemma count_outcome_counts o o' sum :
  default 0 (Outcomes (count_outcome o sum) !! o') = default 0 (Outcomes sum !! o') + (if String.eqb o o' then 1 else 0).
Proof.
  unfold count_outcome. cbn [Outcomes]. destruct (String.eqb_spec o o') as [->|Hne]; [by rewrite lookup_insert_eq|].
  rewrite lookup_insert_ne by done. lia.
Qed.

Lemma purchaseAll_logs plan done_ sum :
  logs (purchaseAll plan done_ sum)
    (λ l r, ∀ done', r.2 = Ok done' →
       ∃ rs, length rs = length plan ∧ l = zip (map PostPurchase plan) rs ∧ Forall went_well l ∧
         done' = done_ ++ made plan rs ∧ Mismatches r.1 = Mismatches sum ++ mismatches plan rs ∧ Planned r.1 = Planned sum ∧
         ∀ o, default 0 (Outcomes r.1 !! o) = default 0 (Outcomes sum !! o) + counted o rs).
Proof.
  revert done_ sum. induction plan as [|txn plan IH]; intros done_ sum; cbn [purchaseAll].
  - apply logs_yield. intros done' [= <-]. exists []. cbn. rewrite !app_nil_r. split_and!; try done. intros o. unfold counted. cbn. lia.
  - unfold purchase. eapply logs_bind with (P := λ l x, match x with Err _ => True | Ok got =>
      ∃ r, got = body r ∧ l = [(PostPurchase txn, r)] ∧ went_well (PostPurchase txn, r) end).
    { eapply logs_bindE with (P := λ l x, match x with Err _ => True | Ok r => l = [(PostPurchase txn, r)] ∧ went_well (PostPurchase txn, r) end);
        [apply logs_want; [lia|by intros r|done]| |done]. intros ? r [-> Hr]. apply logs_yield. by exists r. }
    intros l [got|e] H; [|by apply logs_yield]. destruct H as (r & -> & -> & Hr). cbn zeta.
    match goal with |- logs (if ?b then _ else _) _ => destruct b end; [by apply logs_yield|].
    eapply logs_mono; [|apply IH]. intros l' [sum' res] H done' Hd. destruct (H done' Hd) as (rs & H1 & -> & H3 & H4 & H5 & H6 & H7).
    exists (r :: rs). cbn [length map zip zip_with]. split_and!; [by rewrite H1|done|by constructor| | | |].
    + rewrite H4. unfold made. cbn [zip_with List.filter s_rrn]. destruct (negb (String.eqb (RRN (body r)) "")); [by rewrite <- app_assoc|done].
    + cbn [fst] in H5 |- *. rewrite H5. unfold mismatches. cbn [zip_with concat]. unfold missed.
      destruct (negb (String.eqb (outcome_of (body r)) (Expect txn))); cbn [Mismatches add_mismatch count_outcome app]; [by rewrite <- app_assoc|done].
    + cbn [fst] in H6 |- *. rewrite H6. by destruct (negb (String.eqb (outcome_of (body r)) (Expect txn))).
    + intros o. cbn [fst] in H7 |- *. rewrite H7.
      assert (E2 : Outcomes (if negb (String.eqb (outcome_of (body r)) (Expect txn))
                             then add_mismatch (mismatch_text txn (body r)) (count_outcome (outcome_of (body r)) sum)
                             else count_outcome (outcome_of (body r)) sum) = Outcomes (count_outcome (outcome_of (body r)) sum))
        by (by destruct (negb (String.eqb (outcome_of (body r)) (Expect txn)))).
      rewrite E2, count_outcome_counts. unfold counted. cbn [List.filter]. destruct (String.eqb _ o); cbn [length]; lia.
Qed.

Lemma cancelPlanned_logs done_ :
  logs (cancelPlanned done_)
    (λ l r, r = Ok () → map fst l = map (λ s, PostCancellation (s_rrn s)) (List.filter (λ s, Cancel (s_txn s)) done_) ∧
                        Forall went_well l).
Proof.
  induction done_ as [|s done_ IH]; cbn [cancelPlanned List.filter]; [by apply logs_yield|].
  destruct (Cancel (s_txn s)); [|exact IH].
  eapply logs_bindE with (P := λ l x, match x with Err _ => True | Ok r =>
    l = [(PostCancellation (s_rrn s), r)] ∧ went_well (PostCancellation (s_rrn s), r) end).
  - apply logs_stage, logs_want; [lia|by intros r|by intros r e e'].
  - intros ? r [-> Hr]. eapply logs_mono; [|exact IH]. intros l [[]|e] H; [|done]. intros _. destruct (H eq_refl) as [H1 H2].
    cbn [app map fst]. split; [by rewrite H1|by constructor].
  - done.
Qed.

Lemma dropReversed_logs rrns pending :
  logs (dropReversed rrns pending) (λ l pending', pending' = pending ∖ seen_reversed l ∧ Forall polling l).
Proof.
  revert pending. induction rrns as [|rrn rrns IH]; intros pending; cbn [dropReversed].
  { apply logs_yield. split; [|constructor]. unfold seen_reversed. set_solver. }
  eapply logs_bind; [apply (logs_do _ (λ l x, ∃ r, l = [(GetTransaction rrn, r)] ∧
    match x with Ok r => (status r =? 200) && String.eqb (p_Status (body r)) "REVERSED" | Err _ => false end
    = match saw_reversed (GetTransaction rrn, r) with Some _ => true | None => false end))|].
  - intros r. exists r. split; [done|]. unfold saw_reversed, understood. cbn [fst snd]. destruct (failed r); [done|]. cbn [negb andb].
    destruct (Z.ltb_spec (status r) 300); cbn [status body]; [by destruct (_ && _)|].
    by rewrite (proj2 (Z.eqb_neq (status r) 200)) by lia.
  - intros l x (r & -> & Hx). cbn zeta. rewrite Hx. eapply logs_mono; [|apply IH]. intros l' pending' [-> Hl].
    split; [|by constructor]. rewrite seen_reversed_app. unfold seen_reversed at 2. cbn [omap list_omap].
    assert (Hs : ∀ x, saw_reversed (GetTransaction rrn, r) = Some x → x = rrn).
    { unfold saw_reversed. cbn [fst snd]. intros y. destruct (_ && _); [by intros [= <-]|done]. }
    destruct (saw_reversed (GetTransaction rrn, r)) as [y|]; [rewrite (Hs y eq_refl)|]; cbn [list_to_set]; set_solver.
Qed.

Lemma size_seen (X S : gset string) : Z.of_nat (size X) - Z.of_nat (size (X ∖ S)) = Z.of_nat (size (X ∩ S)).
Proof.
  pose proof (size_union (X ∖ S) (X ∩ S) ltac:(set_solver)) as H.
  replace ((X ∖ S) ∪ (X ∩ S)) with X in H; [lia|]. apply leibniz_equiv. intros x.
  destruct (decide (x ∈ S)); set_solver.
Qed.

Lemma awaitReversals_logs done_ :
  logs (awaitReversals SettleTimeout PollInterval map_order done_)
    (λ l n, Forall polling l ∧ n = Z.of_nat (size (cancelled_rrns done_ ∩ seen_reversed l))).
Proof.
  unfold awaitReversals. set (X := cancelled_rrns done_). eapply logs_bind with (P := λ l' _, l' = []); [by apply logs_Now|]. intros ? now ->.
  apply (logs_forever _ (λ l pending, pending = X ∖ seen_reversed l ∧ Forall polling l)).
  { split; [|constructor]. unfold seen_reversed. set_solver. }
  intros l pending [-> Hl]. unfold await_round. eapply logs_bind with (P := λ l' _, l' = []); [by apply logs_Now|]. intros ? now' ->.
  destruct (bool_decide _ || _); [apply logs_yield; cbn [app]; rewrite app_nil_r, size_seen; done|].
  eapply logs_bind; [apply dropReversed_logs|]. intros l1 p1 [-> Hl1].
  assert (E : X ∖ seen_reversed l ∖ seen_reversed l1 = X ∖ seen_reversed (l ++ l1)) by (rewrite seen_reversed_app; set_solver).
  rewrite E. destruct (bool_decide _) eqn:Eb.
  - apply logs_yield. cbn [app]. rewrite app_nil_r. split; [by apply Forall_app|].
    apply bool_decide_eq_true in Eb. rewrite <- size_seen, Eb, size_empty. lia.
  - eapply logs_bind with (P := λ l' r, l' = [(Wait, r)]); [by apply logs_wait|]. intros ? r ->.
    assert (E2 : seen_reversed (l ++ l1 ++ [(Wait, r)]) = seen_reversed (l ++ l1)).
    { rewrite (assoc_L (++)), seen_reversed_app. unfold seen_reversed at 2. cbn. set_solver. }
    assert (Hp : Forall polling (l ++ l1 ++ [(Wait, r)])).
    { apply Forall_app. split; [done|]. apply Forall_app. split; [done|]. by apply Forall_singleton. }
    destruct (failed r); apply logs_yield; cbn [app]; rewrite E2; [by rewrite size_seen|done].
Qed.

Lemma backdateAll_logs shift done_ :
  logs (backdateAll shift done_)
    (λ l r, r = Ok () → map fst l = map (λ s, BackdateCall (s_rrn s) (At (s_txn s) + shift)) done_ ∧ Forall went_well l).
Proof.
  induction done_ as [|s done_ IH]; cbn [backdateAll]; [by apply logs_yield|].
  eapply logs_bind; [by apply (logs_issue _ (λ l r, l = [(BackdateCall (s_rrn s) (At (s_txn s) + shift), r)]))|]. intros ? r ->.
  destruct (failed r) eqn:Ef; [by apply logs_yield|]. eapply logs_mono; [|exact IH]. intros l res H Hr. destruct (H Hr) as [H1 H2].
  cbn [app map fst]. split; [by rewrite H1|by constructor].
Qed.

Context {R : Type} {G : Rand R} (rand : R).

(** What a run that ended well did: every call it made, in order, and what was answered.  It prepared the
    stack, posted one plan, each purchase answered 201, cancelled the planned ones, each accepted with 202,
    polled for their reversals, and moved every purchase made to its planned time by one shift; the
    summary counts these answers. *)
Definition did_its_plan (w w' : World) (sum : Summary) : Prop :=
  ∃ planNow shift prep rs cancels polls backdates,
    let plan := Build planNow rand in
    let done_ := made plan rs in
    calls w' = calls w ++ prep ++ zip (map PostPurchase plan) rs ++ cancels ++ polls ++ backdates ∧
    prepared prep ∧
    length rs = length plan ∧ Forall went_well (zip (map PostPurchase plan) rs) ∧
    map fst cancels = map (λ s, PostCancellation (s_rrn s)) (List.filter (λ s, Cancel (s_txn s)) done_) ∧
    Forall went_well cancels ∧ Forall polling polls ∧
    map fst backdates = map (λ s, BackdateCall (s_rrn s) (At (s_txn s) + shift)) done_ ∧ Forall went_well backdates ∧
    Planned sum = Z.of_nat (length plan) ∧ Mismatches sum = mismatches plan rs ∧
    (∀ o, default 0 (Outcomes sum !! o) = counted o rs) ∧
    Reversed sum = Z.of_nat (size (cancelled_rrns done_ ∩ seen_reversed polls)).

Lemma Run_did w :
  always any (λ _, True) (Run fixture SettleTimeout PollInterval map_order rand)
    (λ r w', r.2 = None → did_its_plan w w' r.1) w.
Proof.
  unfold Run. apply always_bind. eapply always_mono; [|apply prepare_logs]. intros [[]|e] w1 (prep & E1 & H1); [|by apply always_yield].
  apply always_bind, always_gets, always_bind. eapply always_mono; [|apply purchaseAll_logs].
  intros [sum1 bought] w2 (l2 & E2 & H2). destruct bought as [done_|e]; [|by apply always_yield].
  destruct (H2 done_ eq_refl) as (rs & H3 & -> & H5 & H6 & H7 & H8 & H9). cbn [app fst] in *.
  apply always_bind. eapply always_mono; [|apply cancelPlanned_logs].
  intros [[]|e] w3 (cancels & E3 & H10); [|by apply always_yield]. destruct (H10 eq_refl) as [H11 H12].
  apply always_bind. eapply always_mono; [|apply awaitReversals_logs]. intros reversed w4 (polls & E4 & H13 & H14). cbn zeta.
  apply always_bind, always_gets, always_bind. eapply always_mono; [|apply backdateAll_logs].
  intros [[]|e] w5 (backdates & E5 & H15); apply always_yield; [|done]. destruct (H15 eq_refl) as [H16 H17]. intros _.
  eexists _, _, prep, rs, cancels, polls, backdates. cbn zeta. subst done_. cbn [fst Planned Mismatches Outcomes Reversed]. split_and!.
  - rewrite E5, E4, E3, E2, E1. by rewrite <- !(assoc_L (++)).
  - by apply H1.
  - exact H3.
  - exact H5.
  - exact H11.
  - exact H12.
  - exact H13.
  - exact H16.
  - exact H17.
  - exact H8.
  - exact H7.
  - intros o. rewrite H9. cbn [Outcomes]. rewrite lookup_empty. cbn [default from_option]. lia.
  - exact H14.
Qed.
End finished.

(** ** A stack that can't authorise *)

(** The calls that change what the dashboard shows. *)
Definition tells (c : call) : bool :=
  match c with PostPurchase _ | PostCancellation _ | BackdateCall _ _ => true | _ => false end.
Definition story (w : World) : list (call * reply) := List.filter (λ cr, tells cr.1) (calls w).

Lemma story_posts txn r w n : story (mkWorld n (calls w ++ [(PostPurchase txn, r)])) = story w ++ [(PostPurchase txn, r)].
Proof. unfold story. cbn [calls]. by rewrite List.filter_app. Qed.

(** While every answered purchase has an RRN, the run gives up only after five that all missed. *)
Lemma purchaseAll_gives_up plan done_ sum w :
  (length (Mismatches sum) ≤ length done_)%nat →
  always (λ r, RRN (body r) ≠ "") (λ _, True) (purchaseAll plan done_ sum)
    (λ r w', r.2 = Err AllMissed → length done_ = length (Mismatches sum) ∧ (length done_ < earlyAbortAfter)%nat ∧
       (length (story w') + length done_ = length (story w) + earlyAbortAfter)%nat ∧
       length (Mismatches r.1) = earlyAbortAfter) w.
Proof.
  revert done_ sum w. induction plan as [|txn plan IH]; intros done_ sum w Hle; cbn [purchaseAll]; [by apply always_yield|].
  apply always_bind. unfold purchase, want, do_. apply always_bindE, always_bindE, always_bind, always_act; [done|].
  intros r a w' Hr [= <- <-]. destruct (failed r); [apply always_yield, always_yield; done|].
  destruct (Z.ltb_spec (status r) 300); apply always_yield; cbn [status].
  2: { destruct (Z.eqb_spec (status r) 201); [lia|]. apply always_yield. by apply always_yield. }
  destruct (status r =? 201); apply always_yield; [|by apply always_yield]. apply always_yield.
  rewrite (proj2 (String.eqb_neq _ _) Hr). cbn [negb].
  set (sum1 := if negb _ then _ else _).
  assert (Hm : length (Mismatches sum1) = (length (Mismatches sum) + (if negb (String.eqb (outcome_of (body r)) (Expect txn)) then 1 else 0))%nat).
  { unfold sum1. destruct (negb _); cbn; rewrite ?length_app; cbn; lia. }
  destruct (negb (String.eqb (outcome_of (body r)) (Expect txn))) eqn:Emiss; cbn [andb].
  - destruct (_ && _) eqn:E.
    + apply always_yield. intros _. apply andb_true_iff in E as [E1%Nat.eqb_eq E2%Nat.ltb_lt]. cbn [fst].
      rewrite story_posts, length_app. cbn [length]. unfold earlyAbortAfter in *. lia.
    + eapply always_mono; [|apply IH; rewrite length_app; cbn [length]; lia].
      intros res w'' H1 Hres. destruct (H1 Hres) as (H2 & H3 & H4 & H5). rewrite story_posts in H4.
      rewrite !length_app in *. cbn [length] in *. lia.
  - eapply always_mono; [|apply IH; rewrite length_app; cbn [length]; lia].
    intros res w'' H1 Hres. destruct (H1 Hres) as (H2 & _). rewrite length_app in H2. cbn [length] in H2. lia.
Qed.

Definition missed_reply (r : reply) (txn : Txn) : bool := missed txn r.
Definition misses (txn : Txn) (r : reply) : Prop := failed r = false ∧ status r = 201 ∧ missed txn r = true.

(** A purchase that missed: the run gives up, or goes on. *)
Lemma purchaseAll_missed txn plan done_ sum w r cs :
  misses txn r →
  let sum1 := add_mismatch (mismatch_text txn (body r)) (count_outcome (outcome_of (body r)) sum) in
  let w1 := mkWorld (now_ w + Z.max 0 (took r)) (calls w ++ [(PostPurchase txn, r)]) in
  purchaseAll (txn :: plan) done_ sum w (r :: cs)
  = if (length (Mismatches sum1) =? earlyAbortAfter)%nat && (length done_ <? earlyAbortAfter)%nat then Finished (sum1, Err AllMissed) w1 cs
    else purchaseAll plan (if negb (String.eqb (RRN (body r)) "") then done_ ++ [mkSeeded txn (RRN (body r))] else done_) sum1 w1 cs.
Proof.
  intros (Hf & Hs & Hm). cbn zeta. cbn [purchaseAll]. unfold purchase, want, do_, issue, act, sbindE, sbind, yield. rewrite Hf, Hs.
  cbn [Z.ltb Z.compare Z.eqb Pos.compare Pos.compare_cont Pos.eqb]. rewrite Hs. cbn [Z.eqb Pos.eqb].
  unfold missed in Hm. rewrite Hm. cbn [andb]. by destruct (_ && _).
Qed.

Lemma purchaseAll_missing n plan done_ sum w rs cs :
  length rs = n → (n ≤ length plan)%nat → (0 < n)%nat → Forall2 misses (take n plan) rs →
  (length (Mismatches sum) + n = earlyAbortAfter)%nat → (length done_ ≤ length (Mismatches sum))%nat →
  ∃ sum' w', purchaseAll plan done_ sum w (rs ++ cs) = Finished (sum', Err AllMissed) w' cs ∧
    story w' = story w ++ zip (map PostPurchase (take n plan)) rs.
Proof.
  revert n plan done_ sum w. induction rs as [|r rs IH]; intros n plan done_ sum w Hn Hle Hpos Hm Hs Hd; [cbn in Hn; lia|].
  destruct plan as [|txn plan]; [cbn in Hle; lia|]. destruct n as [|n]; [lia|]. injection Hn as Hn. cbn [take length] in *.
  apply Forall2_cons in Hm as [H1 Hm]. cbn [app]. rewrite purchaseAll_missed by done. cbn zeta.
  cbn [Mismatches add_mismatch count_outcome]. rewrite length_app. cbn [length].
  destruct n as [|n].
  - destruct rs; [|done]. rewrite (proj2 (Nat.eqb_eq _ _)), (proj2 (Nat.ltb_lt _ _)) by lia. cbn [andb app].
    eexists _, _. split; [reflexivity|]. rewrite story_posts. reflexivity.
  - rewrite (proj2 (Nat.eqb_neq _ _)) by lia. cbn [andb].
    destruct (IH (S n) plan (if negb (String.eqb (RRN (body r)) "") then done_ ++ [mkSeeded txn (RRN (body r))] else done_)
      (add_mismatch (mismatch_text txn (body r)) (count_outcome (outcome_of (body r)) sum))
      (mkWorld (now_ w + Z.max 0 (took r)) (calls w ++ [(PostPurchase txn, r)]))) as (sum' & w' & E & Hw); try done; try lia.
    { cbn [Mismatches add_mismatch count_outcome]. rewrite length_app. cbn. lia. }
    { cbn [Mismatches add_mismatch count_outcome]. rewrite length_app. destruct (negb _); rewrite ?length_app; cbn; lia. }
    exists sum', w'. split; [exact E|]. rewrite Hw, story_posts, <- app_assoc. reflexivity.
Qed.

(** A stack that can't authorise is left after five purchases.  When the first five are answered but all
    miss the outcome planned for them, no sixth is posted and the run reports it; and, while every
    answer has an RRN, it gives up only then: with one hit among the first five it goes on, however
    many miss later. *)
Theorem hopeless_stack_is_left plan w rs cs planned_ :
  let fresh := mkSummary planned_ ∅ 0 [] in
  (length rs = earlyAbortAfter → Forall2 misses (take earlyAbortAfter plan) rs →
   ∃ sum w', purchaseAll plan [] fresh w (rs ++ cs) = Finished (sum, Err AllMissed) w' cs ∧
     story w' = story w ++ zip (map PostPurchase (take earlyAbortAfter plan)) rs) ∧
  (∀ sum w' cs', Forall (λ r, RRN (body r) ≠ "") cs →
   purchaseAll plan [] fresh w cs = Finished (sum, Err AllMissed) w' cs' →
   length (story w') = (length (story w) + earlyAbortAfter)%nat ∧ length (Mismatches sum) = earlyAbortAfter).
Proof.
  intros fresh. split.
  - intros Hl Hm. apply (purchaseAll_missing earlyAbortAfter); try done; [|unfold earlyAbortAfter; lia].
    apply Forall2_length in Hm. rewrite length_take in Hm. lia.
  - intros sum w' cs' Hr E. pose proof (purchaseAll_gives_up plan [] fresh w ltac:(done) cs Hr) as H. rewrite E in H.
    destruct H as [_ H]. destruct (H eq_refl) as (_ & _ & H3 & H4). cbn [length] in H3. split; [lia|exact H4].
Qed.

(** ** A run ends *)

Definition ends_with {A} (n : nat) (p : run_of A) (Q : A → Prop) : Prop :=
  ∀ w cs, (n ≤ length cs)%nat → ∃ a w' cs', p w cs = Finished a w' cs' ∧ (length cs ≤ n + length cs')%nat ∧ Q a.

Lemma within_ends {A} n (p : run_of A) (Q : A → Prop) :
  within n p → (∀ w, always any (λ _, True) p (λ a _, Q a) w) → ends_with n p Q.
Proof.
  intros Hw Ha w cs Hl. destruct (Hw w cs Hl) as (a & w' & cs' & E & Hc). exists a, w', cs'. split_and!; [done..|].
  specialize (Ha w cs (any_all cs)). rewrite E in Ha. apply Ha.
Qed.

Lemma ends_bind {A B} n m (p : run_of A) (f : A → run_of B) Q :
  ends_with n p Q → (∀ a, Q a → within m (f a)) → within (n + m) (sbind p f).
Proof.
  intros Hp Hf w cs Hl. destruct (Hp w cs ltac:(lia)) as (a & w' & cs' & E & Hc & HQ). unfold sbind. rewrite E.
  destruct (Hf a HQ w' cs' ltac:(lia)) as (b & w'' & cs'' & E' & Hc'). exists b, w'', cs''. split; [exact E'|lia].
Qed.

Section ends.
Context (fixture : Fixture) (SettleTimeout PollInterval : duration) (map_order : gset string → list string).
Context (k : nat) (Hpoll : 0 < PollInterval) (Hk : SettleTimeout ≤ Z.of_nat k * PollInterval).
Context (Horder : ∀ X, map_order X ≡ₚ elements X).

Lemma within_issue c : within 1 (issue c).
Proof. apply within_act. Qed.
Lemma within_do c : within 1 (do_ c).
Proof.
  apply (within_bind _ _ 1 0); [apply within_issue|]. intros r. destruct (failed r); [apply within_yield|].
  destruct (_ <? _); apply within_yield.
Qed.
Lemma within_want c n : within 1 (want c n).
Proof. apply (within_bindE _ _ 1 0); [apply within_do|]. intros r. destruct (_ =? _); apply within_yield. Qed.
Lemma within_stage {A} n s (p : runE A) : within n p → within n (in_stage s p).
Proof. intros Hp. rewrite <- (Nat.add_0_r n). apply within_bind; [done|]. intros r. apply within_yield. Qed.

(** A request takes one reply, and the clock does not go back. *)
Lemma want_run c n w cs : (1 ≤ length cs)%nat →
  ∃ a w' cs', want c n w cs = Finished a w' cs' ∧ length cs = S (length cs') ∧ now_ w ≤ now_ w'.
Proof.
  destruct cs as [|r cs]; [cbn; lia|]. intros _. unfold want, do_, issue, act, sbindE, sbind, yield.
  destruct (failed r); [|destruct (status r <? 300); destruct (_ =? _)]; (eexists _, _, _; split; [reflexivity|split; [done|cbn; lia]]).
Qed.

Lemma sign_ends deadline j n sent w cs :
  deadline - now_ w ≤ Z.of_nat j * PollInterval → (2 * j + (if sent : bool then 1 else 3) ≤ length cs)%nat → (length cs < n)%nat →
  ∃ r w' cs', rounds n (sign_round PollInterval deadline) sent w cs = Finished r w' cs' ∧
    (length cs ≤ 2 * j + (if sent then 1 else 3) + length cs')%nat.
Proof.
  revert j sent w cs. induction n as [|n IH]; intros j sent w cs Hd Hl Hn; [lia|]. cbn [rounds]. unfold sbind at 1, sign_round at 1, issuerLinkState.
  destruct (want_run GetLinks 200 w cs) as (got & w1 & cs1 & E1 & Hc1 & Hw1); [destruct sent; lia|]. unfold sbind at 1, sbindE, sbind at 1. rewrite E1.
  destruct got as [r|e]; [|unfold yield; eexists _, _, _; split; [reflexivity|destruct sent; lia]].
  destruct (List.find _ (links r)) as [[to state]|]; [|unfold yield; eexists _, _, _; split; [reflexivity|destruct sent; lia]].
  unfold yield at 1. cbn [snd]. destruct (String.eqb state linkSignedOn); [unfold yield; eexists _, _, _; split; [reflexivity|destruct sent; lia]|].
  destruct (negb sent && String.eqb state "CONNECTED") eqn:Es.
  - apply andb_true_iff in Es as [Es _]. destruct sent; [done|]. unfold sbind at 1, signOn, sbindE, sbind at 1.
    destruct (want_run SignOn 200 w1 cs1) as (got2 & w2 & cs2 & E2 & Hc2 & Hw2); [lia|]. rewrite E2.
    destruct got2 as [r2|e]; [|unfold yield; eexists _, _, _; split; [reflexivity|lia]]. unfold yield at 1 2.
    destruct (IH j true w2 cs2) as (a & w3 & cs3 & E3 & Hc3); [lia|lia|lia|]. exists a, w3, cs3. split; [exact E3|lia].
  - unfold sbind at 1, Now, gets. destruct (Z.ltb_spec (now_ w1) deadline) as [Hlt|Hge]; cbn [negb];
      [|unfold yield; eexists _, _, _; split; [reflexivity|destruct sent; lia]].
    destruct j as [|j]; [lia|]. destruct cs1 as [|r2 cs2]; [cbn in Hc1; destruct sent; lia|]. unfold sbind at 1, wait, act.
    destruct (failed r2); [unfold yield; eexists _, _, _; split; [reflexivity|cbn in Hc1; destruct sent; lia]|]. unfold yield at 1.
    cbn [length] in Hc1.
    destruct (IH j sent (mkWorld (now_ w1 + Z.max PollInterval (took r2)) (calls w1 ++ [(Wait, r2)])) cs2) as (a & w3 & cs3 & E3 & Hc3);
      [cbn; lia|destruct sent; lia|lia|]. exists a, w3, cs3. split; [exact E3|destruct sent; lia].
Qed.

Lemma within_signed_on : within (2 * k + 3) (ensureSignedOn SettleTimeout PollInterval).
Proof.
  intros w cs Hl. unfold ensureSignedOn, sbind, Now, gets, forever.
  apply (sign_ends (now_ w + SettleTimeout) k (S (length cs)) false w cs); cbn; lia.
Qed.

Lemma within_prepare : within (2 * k + 6) (prepare fixture SettleTimeout PollInterval).
Proof.
  unfold prepare. eapply within_le; [|apply within_bindE; [apply within_stage, within_bind; [apply within_issue|intros r; apply within_yield]|];
    intros _; apply within_bindE; [apply within_stage, within_signed_on|]; intros _; apply within_stage; unfold setLimit].
  2: { destruct (Fixture_Card fixture limitCardToken) as [card|]; [|apply within_yield].
       apply (within_bindE _ _ 1 1); [apply within_want|]. intros r. apply (within_bindE _ _ 1 0); [apply within_want|]. intros; apply within_yield. }
  instantiate (1 := 0%nat). lia.
Qed.

Lemma within_purchaseAll plan done_ sum : within (length plan) (purchaseAll plan done_ sum).
Proof.
  revert done_ sum. induction plan as [|txn plan IH]; intros done_ sum; cbn [purchaseAll length]; [apply within_yield|].
  apply (within_bind _ _ 1); [apply (within_bindE _ _ 1 0); [apply within_want|intros; apply within_yield]|].
  intros [got|e]; [|apply within_yield]. cbn zeta. match goal with |- within _ (if ?b then _ else _) => destruct b end; [apply within_yield|apply IH].
Qed.

Lemma within_cancelPlanned done_ : within (length done_) (cancelPlanned done_).
Proof.
  induction done_ as [|s done_ IH]; cbn [cancelPlanned length]; [apply within_yield|].
  destruct (Cancel (s_txn s)); [|eapply within_le; [|exact IH]; lia].
  apply (within_bindE _ _ 1); [apply within_stage, within_want|done].
Qed.

Lemma within_backdateAll shift done_ : within (length done_) (backdateAll shift done_).
Proof.
  induction done_ as [|s done_ IH]; cbn [backdateAll length]; [apply within_yield|].
  apply (within_bind _ _ 1); [apply within_issue|]. intros r. destruct (failed r); [apply within_yield|done].
Qed.

Lemma dropReversed_run rrns pending w cs : (length rrns ≤ length cs)%nat →
  ∃ pending' w' cs', dropReversed rrns pending w cs = Finished pending' w' cs' ∧ length cs = (length rrns + length cs')%nat ∧
    now_ w ≤ now_ w' ∧ (size pending' ≤ size pending)%nat.
Proof.
  revert pending w cs. induction rrns as [|rrn rrns IH]; intros pending w cs Hl; cbn [dropReversed length] in *.
  { unfold yield. eexists _, _, _. split_and!; [reflexivity|done|lia|done]. }
  destruct cs as [|r cs]; [cbn in Hl; lia|]. cbn [length] in Hl.
  set (w1 := mkWorld (now_ w + Z.max 0 (took r)) (calls w ++ [(GetTransaction rrn, r)])).
  assert (E : ∃ res, do_ (GetTransaction rrn) w (r :: cs) = Finished res w1 cs).
  { unfold do_, issue, act, sbind, yield. destruct (failed r); [|destruct (_ <? _)]; by eexists. }
  destruct E as [res E]. unfold sbind. rewrite E. cbn zeta.
  set (pending1 := if (match res with Ok r => _ | Err _ => _ end : bool) then pending ∖ {[rrn]} else pending).
  assert (Hsz : (size pending1 ≤ size pending)%nat).
  { unfold pending1. match goal with |- context [if ?b then _ else _] => destruct b end; [|done]. apply subseteq_size. set_solver. }
  destruct (IH pending1 w1 cs ltac:(lia)) as (pending' & w' & cs' & E' & H1 & H2 & H3).
  eexists _, _, _. split_and!; [exact E'|cbn; lia| |lia]. cbn [now_ w1] in H2. unfold w1 in H2. cbn in H2. lia.
Qed.

Lemma await_ends deadline total m j n pending w cs :
  (size pending ≤ m)%nat → deadline - now_ w ≤ Z.of_nat j * PollInterval → (j * (m + 1) ≤ length cs)%nat → (length cs < n)%nat →
  ∃ r w' cs', rounds n (await_round PollInterval map_order deadline total) pending w cs = Finished r w' cs' ∧
    (length cs ≤ j * (m + 1) + length cs')%nat.
Proof.
  revert j pending w cs. induction n as [|n IH]; intros j pending w cs Hm Hd Hl Hn; [lia|]. cbn [rounds].
  unfold sbind at 1, await_round at 1, sbind at 1, Now, gets.
  destruct (bool_decide (pending = ∅) || negb (now_ w <? deadline)) eqn:Eb; [unfold yield; eexists _, _, _; split; [reflexivity|lia]|].
  apply orb_false_iff in Eb as [_ Eb]. apply negb_false_iff, Z.ltb_lt in Eb. destruct j as [|j]; [lia|].
  assert (Hlen : length (map_order pending) = size pending) by (by rewrite Horder).
  destruct (dropReversed_run (map_order pending) pending w cs) as (p1 & w1 & cs1 & E1 & H1 & H2 & H3); [lia|].
  unfold sbind at 1. rewrite E1. destruct (bool_decide (p1 = ∅)); [unfold yield; eexists _, _, _; split; [reflexivity|lia]|].
  destruct cs1 as [|r cs1]; [cbn in H1; lia|]. cbn [length] in H1. unfold sbind at 1, wait, act.
  destruct (failed r); [unfold yield; eexists _, _, _; split; [reflexivity|lia]|]. unfold yield at 1.
  destruct (IH j p1 (mkWorld (now_ w1 + Z.max PollInterval (took r)) (calls w1 ++ [(Wait, r)])) cs1) as (a & w2 & cs2 & E2 & Hc2);
    [lia|cbn; lia|lia|lia|]. eexists a, w2, cs2. split; [exact E2|lia].
Qed.

Lemma size_cancelled done_ : (size (cancelled_rrns done_) ≤ length done_)%nat.
Proof.
  unfold cancelled_rrns. induction done_ as [|s l IH]; cbn [List.filter]; [done|].
  destruct (Cancel (s_txn s)); cbn [map list_to_set length]; [|lia].
  rewrite size_union_alt, size_singleton. pose proof (subseteq_size (C := gset string)
    (list_to_set (map s_rrn (List.filter (λ s, Cancel (s_txn s)) l)) ∖ {[s_rrn s]}) _ (subseteq_difference_l _ _ _ (reflexivity _))). lia.
Qed.

Lemma within_awaitReversals m done_ : (length done_ ≤ m)%nat →
  within (k * (m + 1)) (awaitReversals SettleTimeout PollInterval map_order done_).
Proof.
  intros Hm w cs Hl. pose proof (size_cancelled done_). unfold awaitReversals, sbind, Now, gets, forever.
  apply (await_ends (now_ w + SettleTimeout) _ m k (S (length cs))); lia.
Qed.

Lemma made_length plan rs : (length (made plan rs) ≤ length plan)%nat.
Proof.
  unfold made. revert rs. induction plan as [|t plan IH]; intros [|r rs]; cbn; try lia. specialize (IH rs).
  destruct (negb _); cbn; lia.
Qed.

Context {R : Type} {G : Rand R} {L : RandLaws R} (rand : R).

(** A seed run ends, whatever the stack answers: with reads that take any time and waits that take
    their interval at least, it is over after a number of calls that only depends on how many poll
    intervals the settle time-out has. *)
Theorem seed_ends : within (744 + 249 * k) (Run fixture SettleTimeout PollInterval map_order rand).
Proof.
  apply (within_le _ (2 * k + 6 + (246 + (246 + (k * 247 + (246 + 0)))))); [lia|]. unfold Run. apply within_bind; [apply within_prepare|]. intros [u|e]; [|apply within_yield].
  intros w cs Hl. unfold sbind at 1, Now, gets. pose proof (plan_size _ _ (Build_ok (now_ w) rand)) as Hplan. set (plan := Build (now_ w) rand) in *.
  assert (Hbuy : ends_with 246 (purchaseAll plan [] (mkSummary (Z.of_nat (length plan)) ∅ 0 []))
            (λ r, ∀ d, r.2 = Ok d → (length d ≤ 246)%nat)).
  { apply within_ends; [rewrite <- Hplan; apply within_purchaseAll|]. intros w0. eapply always_mono; [|apply purchaseAll_logs].
    intros r w1 (l & _ & H) d Hd. destruct (H d Hd) as (rs & _ & _ & _ & -> & _). cbn [app]. rewrite <- Hplan. apply made_length. }
  apply (ends_bind _ _ _ _ _ Hbuy); [|exact Hl]. intros [sum [d|e]] Hd; [|apply within_yield]. specialize (Hd d eq_refl).
  apply within_bind; [eapply within_le; [exact Hd|apply within_cancelPlanned]|]. intros [u'|e]; [|apply within_yield].
  apply within_bind; [by apply (within_awaitReversals 246)|]. intros reversed. cbn zeta. clear Hl.
  intros w2 cs2 Hl2. unfold sbind at 1, gets. revert cs2 Hl2.
  assert (Hb : within (246 + 0) (backdated <~ backdateAll (now_ w2 - now_ w) d;
     yield (mkSummary (Planned sum) (Outcomes sum) reversed (Mismatches sum), match backdated with Ok _ => None | Err e => Some e end))).
  { apply within_bind; [eapply within_le; [exact Hd|apply within_backdateAll]|]. intros r. apply within_yield. }
  intros cs2 Hl2. exact (Hb w2 cs2 Hl2).
Qed.
End ends.

(** ** A run to evaluate *)

Definition demo_fixture : Fixture :=
  mkFixture [mkCard limitCardToken "crd_limit00005" "1234" "ACTIVE" 50000000]
    [mkTerminal "00000042" "GOCPHO000000001" "Ca phe Goc Pho" "5814"].

Definition answer_ (n : Z) (got : purchaseResponse) : reply := mkReply Millisecond false n "v1" [("issuer", "SIGNED_ON")] got.
Definition planned_answer (n : nat) (txn : Txn) : reply :=
  answer_ 201 (mkPurchase (Itoa (626407000000 + Z.of_nat n))
    (if String.eqb (Expect txn) ExpectApproved then ExpectApproved else "DECLINED") (Expect txn)).

(** Four calls, 246 purchases with the outcomes planned, 2 cancellations reversed at once, 246 backdates. *)
Definition demo_replies : list reply :=
  repeat (answer_ 200 no_purchase) 4 ++ imap planned_answer (Build (demo_now + 4 * Millisecond) 42) ++
  repeat (answer_ 202 no_purchase) 2 ++ repeat (answer_ 200 (mkPurchase "" "REVERSED" "")) 2 ++
  repeat (answer_ 200 no_purchase) 246.

Definition demo_start : World := mkWorld demo_now [].
Definition demo_seed (cs : list reply) : @ended World reply (Summary * option RunError) :=
  Run demo_fixture (60 * Second) Second elements 42 demo_start cs.
Definition good_end (e : @ended World reply (Summary * option RunError)) : bool :=
  match e with Finished (_, None) _ _ => true | _ => false end.
Definition summary_of (e : @ended World reply (Summary * option RunError)) : Summary :=
  match e with Finished r _ _ => r.1 | Stopped _ => no_summary end.

Lemma demo_ends : good_end (demo_seed demo_replies) = true.
Proof. vm_compute. reflexivity. Qed.

(** Five answers that all miss. *)
Definition refused : reply := answer_ 201 (mkPurchase "626407000001" "DECLINED" "91").

Lemma hopeless_stack_is_left_witness :
  let plan := Build demo_now 42 in
  (∃ sum w', purchaseAll plan [] (mkSummary 246 ∅ 0 []) demo_start (repeat refused 5 ++ []) = Finished (sum, Err AllMissed) w' [] ∧
     story w' = story demo_start ++ zip (map PostPurchase (take earlyAbortAfter plan)) (repeat refused 5)) ∧
  (∀ sum w' cs', Forall (λ r, RRN (body r) ≠ "") (@nil reply) →
   purchaseAll plan [] (mkSummary 246 ∅ 0 []) demo_start [] = Finished (sum, Err AllMissed) w' cs' →
   length (story w') = (length (story demo_start) + earlyAbortAfter)%nat ∧ length (Mismatches sum) = earlyAbortAfter).
Proof.
  cbv zeta. destruct (hopeless_stack_is_left (Build demo_now 42) demo_start (repeat refused 5) [] 246) as [H1 H2].
  split; [|exact H2]. apply H1; [reflexivity|].
  assert (Hall : forallb (missed_reply refused) (take earlyAbortAfter (Build demo_now 42)) = true) by (vm_compute; reflexivity).
  assert (Hlen : length (take earlyAbortAfter (Build demo_now 42)) = 5%nat) by (vm_compute; reflexivity).
  revert Hall Hlen. generalize (take earlyAbortAfter (Build demo_now 42)). intros l. unfold missed_reply.
  destruct l as [|t1 [|t2 [|t3 [|t4 [|t5 [|]]]]]]; try discriminate. cbn [forallb]. rewrite !andb_true_iff.
  intros (H3 & H4 & H5 & H6 & H7 & _) _. by repeat first [apply Forall2_nil_2|apply Forall2_cons_2].
Defined.

Lemma seed_ends_witness :
  ∃ r w' cs', demo_seed (repeat refused (744 + 249 * 60)) = Finished r w' cs' ∧
    (length (repeat refused (744 + 249 * 60)) ≤ 744 + 249 * 60 + length cs')%nat.
Proof.
  unfold demo_seed.
  refine (seed_ends demo_fixture (60 * Second) Second elements 60 _ _ _ 42 demo_start (repeat refused (744 + 249 * 60)) _);
    [reflexivity|discriminate|done|by rewrite repeat_length].
Defined.
