(* ===== verification/ChaosSuite.v ===== *)
(** * ChaosSuite: the nightly chaos suite

    [scripts/chaos]: main.go and report.go, the program CI runs every night against a gateway.  A run is
    a script whose calls are its HTTP requests, its sleeps and the files it writes; what the gateway
    answers to the toggles is the handler of Scenario.v. *)

From S2P Require Import Prelude Digits Float Net KeyStore Store Journey Api Script Scenario Saf Config.
Local Open Scope Z_scope.
Local Open Scope script_scope.

(** ** report.go *)

Record ScenarioResult := mkResult {
  ID : string; Requested : Z; Approved : Z; Declined : Z; Reversed : Z; LedgerDiscrepancy : Z; r_Status : string }.

Definition newline : string := String "010"%char "".

(** The [Fprintf] of one row. *)
Definition report_row (r : ScenarioResult) : string :=
  "| " +:+ ID r +:+ " | " +:+ Itoa (Requested r) +:+ " | " +:+ Itoa (Approved r) +:+ " | " +:+ Itoa (Declined r) +:+ " | "
  +:+ Itoa (Reversed r) +:+ " | " +:+ Itoa (LedgerDiscrepancy r) +:+ " | " +:+ r_Status r +:+ " |" +:+ newline.

Definition RenderReport (results : list ScenarioResult) (safDeadCount : Z) : string :=
  "# Chaos suite report" +:+ newline +:+ newline +:+ "SAF dead count: " +:+ Itoa safDeadCount +:+ newline +:+ newline
  +:+ "| Scenario | Requested | Approved | Declined | Reversed | LedgerDiscrepancy | Status |" +:+ newline
  +:+ "| --- | --- | --- | --- | --- | --- | --- |" +:+ newline
  +:+ fold_left (λ b r, b +:+ report_row r) results "".

Definition ReportFailed (results : list ScenarioResult) (safDeadCount : Z) : bool :=
  (0 <? safDeadCount) ||
  existsb (λ r, negb (LedgerDiscrepancy r =? 0) || negb (String.eqb (r_Status r) "PASSED")) results.

(** ** main.go *)

Definition scenarioIDs : list string :=
  ["SLOW_NETWORK"; "CONNECTION_CUT"; "DROP_RESPONSE"; "DUPLICATE_REQUEST"; "ISSUER_DOWN"; "LATE_RESPONSE"].

Definition defaultTxPerScenario : Z := 500.
Definition nightlyTxPerScenario : Z := 10000.
Definition pollInterval : duration := 2 * Second.
Definition runTimeoutSmall : duration := 90 * Second.
Definition runTimeoutLarge : duration := 20 * Minute.
Definition idempotencyKeyScenario : string := "chaos-cli-scenario".
Definition idempotencyKeyRunPrefix : string := "chaos-cli-run-".

Record chaosRun := mkRun {
  RunID : string; Status : string; run_Requested : Z; run_Approved : Z; run_Declined : Z; run_Reversed : Z;
  run_Discrepancy : Z }.

Inductive call :=
  | SetScenario (id : string) (enabled : bool)
  | StartRun (id : string) (requested : Z)
  | GetRun (runID : string)
  | SafStatus
  | Sleep
  | WriteReport (text : string).

(** A failure is the transport's or the file system's; a body that does not decode is [None]. *)
Record reply := mkReply { took : duration; failed : bool; status : Z; got_run : option chaosRun; got_dead : option Z }.

Record World := mkWorld { now_ : time; log : list (call * reply) }.
Definition calls (w : World) : list call := map fst (log w).

Inductive SuiteError :=
  | CallFailed (c : call) | BadStatus (c : call) (status : Z) | NoBody (c : call)
  | TimedOut (runID : string) | BadRunTimeout | InScenario (id : string) (e : SuiteError).

Abbreviation run_of A := (@script World reply A).
Abbreviation runE A := (@script World reply (result SuiteError A)).

Definition issue (c : call) : run_of reply :=
  act (λ r w, (r, mkWorld (now_ w + Z.max (match c with Sleep => pollInterval | _ => 0 end) (took r)) (log w ++ [(c, r)]))).

(** [out] is what the body decodes to; a nil [out] takes any. *)
Definition doExpectOK {A} (c : call) (out : reply → option A) : runE A :=
  r <~ issue c;
  yield (if failed r then Err (CallFailed c)
         else if 300 <=? status r then Err (BadStatus c (status r))
         else match out r with Some a => Ok a | None => Err (NoBody c) end).

Definition setScenario (id : string) (enabled : bool) : runE () := doExpectOK (SetScenario id enabled) (λ _, Some ()).
Definition startRun (id : string) (requested : Z) : runE chaosRun := doExpectOK (StartRun id requested) got_run.
Definition getRun (runID : string) : runE chaosRun := doExpectOK (GetRun runID) got_run.
Definition safDeadCount : runE Z := doExpectOK SafStatus got_dead.

Definition poll_round (deadline : time) (run : chaosRun) : run_of (chaosRun + result SuiteError chaosRun) :=
  if negb (String.eqb (Status run) "RUNNING") then yield (inr (Ok run))
  else
    now <~ gets now_;
    if deadline <? now then yield (inr (Err (TimedOut (RunID run))))
    else
      issue Sleep ;;~
      next <~ getRun (RunID run);
      yield (match next with Ok run => inl run | Err e => inr (Err e) end).

Definition result_of_run (id : string) (run : chaosRun) : ScenarioResult :=
  mkResult id (run_Requested run) (run_Approved run) (run_Declined run) (run_Reversed run) (run_Discrepancy run) (Status run).

(** Between enabling the scenario and the deferred disabling of it, whose error is dropped. *)
Definition driveRun (id : string) (requested : Z) (timeout : duration) : runE ScenarioResult :=
  run <~! startRun id requested;
  now <~ gets now_;
  run <~! forever (poll_round (now + timeout)) run;
  yield (Ok (result_of_run id run)).

Definition runScenario (id : string) (requested : Z) (timeout : duration) : runE ScenarioResult :=
  setScenario id true ;;~!
  out <~ driveRun id requested timeout;
  setScenario id false ;;~
  yield out.

Fixpoint runAll (ids : list string) (requested : Z) (timeout : duration) (results : list ScenarioResult) : runE (list ScenarioResult) :=
  match ids with
  | [] => yield (Ok results)
  | id :: ids =>
      r <~ runScenario id requested timeout;
      match r with
      | Err e => yield (Err (InScenario id e))
      | Ok r => runAll ids requested timeout (results ++ [r])
      end
  end.

Definition envIntOr (getenv : string → string) (key : string) (fallback : Z) : Z :=
  if String.eqb (getenv key) "" then fallback else default fallback (ParseInt (getenv key)).

Definition settings (getenv : string → string) : result SuiteError (Z * duration) :=
  let txPerScenario := envIntOr getenv "CHAOS_TX_PER_SCENARIO" defaultTxPerScenario in
  let runTimeout := if nightlyTxPerScenario <=? txPerScenario then runTimeoutLarge else runTimeoutSmall in
  let override := getenv "CHAOS_RUN_TIMEOUT" in
  if String.eqb override "" then Ok (txPerScenario, runTimeout)
  else match ParseDuration override with None => Err BadRunTimeout | Some d => Ok (txPerScenario, d) end.

(** [run]: whether the build fails, or its error. *)
Definition run (getenv : string → string) : runE bool :=
  match settings getenv with
  | Err e => yield (Err e)
  | Ok (requested, timeout) =>
      results <~! runAll scenarioIDs requested timeout [];
      dead <~! safDeadCount;
      let report := RenderReport results dead in
      r <~ issue (WriteReport report);
      yield (if failed r then Err (CallFailed (WriteReport report)) else Ok (ReportFailed results dead))
  end.

(** The exit code. *)
Definition main (getenv : string → string) : run_of Z :=
  r <~ run getenv; yield (match r with Ok false => 0 | _ => 1 end).

(** The request of a toggle, as the gateway sees it. *)
Definition FormatBool (b : bool) : string := if b then "true" else "false".
Definition scenario_key (id : string) (enabled : bool) : string :=
  idempotencyKeyScenario +:+ "-" +:+ id +:+ "-" +:+ FormatBool enabled.
Definition scenario_request (id : string) (enabled : bool) (trace : string) : http_request :=
  mkHTTP (scenario_key id enabled) ("/v1/chaos/scenarios/" +:+ id) (λ p, if String.eqb p "scenarioId" then id else "") (λ _, "")
    ("{" +:+ Quote "enabled" +:+ ":" +:+ FormatBool enabled +:+ "}") trace.

Definition answer_status {A} (a : answer A) : Z := match a with Answer s _ _ => s | Problem p => pb_Status p end.

(** ** What the exit code says *)

Definition is_toggle (c : call) : bool := match c with SetScenario _ _ => true | _ => false end.
Definition toggles (w : World) : list (call * reply) := List.filter (λ cr, is_toggle cr.1) (log w).

(** What [doExpectOK] takes for success. *)
Definition accepted (r : reply) : bool := negb (failed r) && (status r <? 300).

(** The two toggles of a scenario, with the replies to them. *)
Definition on_and_off (id : string) (rs : reply * reply) : list (call * reply) :=
  [(SetScenario id true, rs.1); (SetScenario id false, rs.2)].

(** Scenarios that were switched on, each switched off before the next toggle, then perhaps one whose
    switch was not accepted. *)
Definition cleaned_up (ids : list string) (l : list (call * reply)) : Prop :=
  ∃ rs tail, l = concat (zip_with on_and_off ids rs) ++ tail ∧ (length rs ≤ length ids)%nat ∧
    Forall (λ r, accepted r.1 = true) rs ∧
    (tail = [] ∨ ∃ id r, ids !! length rs = Some id ∧ tail = [(SetScenario id true, r)] ∧ accepted r = false).

Definition passes (r : ScenarioResult) : Prop := LedgerDiscrepancy r = 0 ∧ r_Status r = "PASSED".

Lemma ReportFailed_false results dead : ReportFailed results dead = false → dead ≤ 0 ∧ Forall passes results.
Proof.
  unfold ReportFailed. intros [H1%Z.ltb_ge H2]%orb_false_iff. split; [lia|]. clear H1.
  induction results as [|r results IH]; [constructor|]. cbn [existsb] in H2. apply orb_false_iff in H2 as [Hr H2].
  apply orb_false_iff in Hr as [Hd Hs]. constructor; [|by apply IH].
  apply negb_false_iff in Hd, Hs. split; [by apply Z.eqb_eq|by apply String.eqb_eq].
Qed.

(** Calls that are no toggles. *)
Definition keeps {A} (p : run_of A) : Prop := ∀ w, always any (λ _, True) p (λ _ w', toggles w' = toggles w) w.

Lemma skeeps_yield {A} (a : A) : keeps (yield a).
Proof. intros w. by apply always_yield. Qed.
Lemma keeps_gets {A} (f : World → A) : keeps (gets f).
Proof. intros w. by apply always_gets. Qed.
Lemma skeeps_bind {A B} (p : run_of A) (f : A → run_of B) : keeps p → (∀ a, keeps (f a)) → keeps (sbind p f).
Proof. intros Hp Hf w. apply always_bind. eapply always_mono; [|apply Hp]. intros a w' <-. apply Hf. Qed.
Lemma skeeps_bindE {A B} (p : runE A) (f : A → runE B) : keeps p → (∀ a, keeps (f a)) → keeps (sbindE p f).
Proof. intros Hp Hf. apply skeeps_bind; [done|]. intros [a|e]; [apply Hf|apply skeeps_yield]. Qed.

Lemma toggles_issue c r w n :
  toggles (mkWorld n (log w ++ [(c, r)])) = toggles w ++ (if is_toggle c then [(c, r)] else []).
Proof. unfold toggles. cbn [log]. rewrite List.filter_app. by destruct c. Qed.

Lemma keeps_issue c : is_toggle c = false → keeps (issue c).
Proof.
  intros Hc w. apply always_act; [done|]. intros r a w' _ [= <- <-]. by rewrite toggles_issue, Hc, app_nil_r.
Qed.
Lemma keeps_expect {A} c (out : reply → option A) : is_toggle c = false → keeps (doExpectOK c out).
Proof. intros Hc. apply skeeps_bind; [by apply keeps_issue|]. intros r. apply skeeps_yield. Qed.

Lemma keeps_poll deadline x : keeps (poll_round deadline x).
Proof.
  unfold poll_round. destruct (negb _); [apply skeeps_yield|]. apply skeeps_bind; [apply keeps_gets|]. intros t.
  destruct (_ <? t); [apply skeeps_yield|]. apply skeeps_bind; [by apply keeps_issue|]. intros _.
  apply skeeps_bind; [by apply keeps_expect|]. intros; apply skeeps_yield.
Qed.

Lemma drive_result id requested timeout w :
  always any (λ _, True) (driveRun id requested timeout)
    (λ r w', toggles w' = toggles w ∧ ∀ s, r = Ok s → ID s = id) w.
Proof.
  unfold driveRun. apply always_bindE. eapply always_mono; [|by apply keeps_expect].
  intros [run0|e] w1 Hw1; [|by split]. apply always_bind, always_gets, always_bindE.
  eapply always_mono; [|apply (always_forever _ _ (λ _ w', toggles w' = toggles w) _ (λ _ w', toggles w' = toggles w))]; try done.
  - intros [x|e] w2 Hw2; cbn in Hw2; [|by split]. apply always_yield. split; [done|]. by intros s [= <-].
  - intros x w' Hw. eapply always_mono; [|apply keeps_poll]. intros [y|y] w'' H; cbn in *; congruence.
Qed.

(** The toggles of a scenario: on and off, or an on that was not accepted. *)
Lemma runScenario_toggles id requested timeout w :
  always any (λ _, True) (runScenario id requested timeout)
    (λ r w', ∃ on, if accepted on then ∃ off, toggles w' = toggles w ++ on_and_off id (on, off) ∧ ∀ s, r = Ok s → ID s = id
                   else toggles w' = toggles w ++ [(SetScenario id true, on)] ∧ is_ok r = false) w.
Proof.
  unfold runScenario. apply always_bindE. unfold setScenario, doExpectOK. apply always_bind, always_act; [done|].
  intros r a w1 _ [= <- <-]. apply always_yield.
  set (w1 := mkWorld _ _). assert (Hw1 : toggles w1 = toggles w ++ [(SetScenario id true, r)]) by apply toggles_issue.
  assert (Ha : accepted r = match (if failed r then Err (CallFailed (SetScenario id true))
                                   else if 300 <=? status r then Err (BadStatus (SetScenario id true) (status r)) else Ok ())
                            with Ok _ => true | Err _ => false end).
  { unfold accepted. destruct (failed r); [done|]. cbn [negb andb].
    destruct (Z.leb_spec 300 (status r)), (Z.ltb_spec (status r) 300); lia || done. }
  destruct (if failed r then _ else _) as [[]|e]; [|exists r; rewrite Ha; by split]. apply always_bind.
  eapply always_mono; [|apply drive_result]. intros out w2 [Hw2 Hout]. apply always_bind, always_bind, always_act; [done|].
  intros off a w3 _ [= <- <-]. apply always_yield, always_yield. exists r. rewrite Ha. exists off. split; [|done].
  rewrite toggles_issue, Hw2, Hw1. cbn [is_toggle]. by rewrite <- app_assoc.
Qed.

Lemma runAll_toggles ids requested timeout results w :
  always any (λ _, True) (runAll ids requested timeout results)
    (λ r w', ∃ l, toggles w' = toggles w ++ l ∧ cleaned_up ids l ∧
       match r with
       | Ok out => map ID out = map ID results ++ ids ∧
                   ∃ rs, l = concat (zip_with on_and_off ids rs) ∧ length rs = length ids ∧ Forall (λ r, accepted r.1 = true) rs
       | Err _ => True
       end) w.
Proof.
  revert results w. induction ids as [|id ids IH]; intros results w; cbn [runAll].
  - apply always_yield. exists []. rewrite !app_nil_r. split_and!; [done| |done|by exists []].
    exists [], []. split_and!; [done|done|constructor|by left].
  - apply always_bind. eapply always_mono; [|apply runScenario_toggles]. intros r w1 (on & Hon).
    destruct (accepted on) eqn:Ea; [destruct Hon as (off & Hw1 & Hid)|destruct Hon as [Hw1 Hr]].
    + destruct r as [s|e].
      * eapply always_mono; [|apply IH]. intros res w2 (l & H1 & (rs & tail & -> & H3 & H4 & H5) & H6).
        exists (on_and_off id (on, off) ++ concat (zip_with on_and_off ids rs) ++ tail). split_and!.
        -- by rewrite H1, Hw1, <- app_assoc.
        -- exists ((on, off) :: rs), tail. cbn [zip_with concat length lookup list_lookup]. rewrite <- app_assoc.
           split_and!; [done|lia|by constructor|exact H5].
        -- destruct res as [out|]; [|done]. destruct H6 as (H6 & rs' & E & H7 & H8). split.
           ++ rewrite H6, map_app, <- app_assoc. cbn [map app]. by rewrite (Hid s eq_refl).
           ++ exists ((on, off) :: rs'). cbn [zip_with concat length]. rewrite E. split_and!; [done|lia|by constructor].
      * apply always_yield. exists (on_and_off id (on, off)). split_and!; [done| |done].
        exists [(on, off)], []. cbn [zip_with concat length]. rewrite !app_nil_r. destruct ids; cbn [zip_with concat]; rewrite ?app_nil_r;
          (split_and!; [done|lia|by constructor|by left]).
    + destruct r as [s|e]; [done|]. apply always_yield. exists [(SetScenario id true, on)]. split_and!; [done| |done].
      exists [], [(SetScenario id true, on)]. split_and!; [done|cbn; lia|constructor|right; by exists id, on].
Qed.


(** ** What the gateway answers *)

(** What the texts google/uuid accepts are made of: hexadecimal digits and hyphens, in braces or after
    "urn:uuid:". *)
Definition uuid_char (c : ascii) : bool := Mac.is_hex c || Url.one_of "urn:id{}-" c.

(** C16. The chaos suite can't run against this gateway.  Its first request carries the Idempotency-Key
    chaos-cli-scenario-SLOW_NETWORK-true, and the gateway refuses every key that is no UUID: whatever
    the state of the scenarios, the handler answers 400 and changes nothing, and the suite then
    exits 1 after that one request, without a report. *)
Theorem suite_is_refused {T} `{Tox : Toxiproxy T} uuid_Validate enabled_of trace c (t : T) getenv requested timeout w r cs :
  (∀ s, uuid_Validate s = true → str_forall uuid_char s = true) → settings getenv = Ok (requested, timeout) →
  let '(a, c', t') := handleSetChaosScenario uuid_Validate enabled_of (scenario_request "SLOW_NETWORK" true trace) c t in
  failed r = false → status r = answer_status a →
  answer_status a = 400 ∧ c' = c ∧ t' = t ∧
  ∃ w', main getenv w (r :: cs) = Finished 1 w' cs ∧ calls w' = calls w ++ [SetScenario "SLOW_NETWORK" true].
Proof.
  intros Hu Hs. unfold handleSetChaosScenario.
  assert (E : uuid_Validate (idem_header (scenario_request "SLOW_NETWORK" true trace)) = false).
  { destruct (uuid_Validate _) eqn:E; [|done]. apply Hu in E. by vm_compute in E. }
  rewrite E. cbn [negb answer_status]. unfold problem. cbn [pb_Status]. intros Hf Hst. split_and!; [done..|].
  unfold main, run. rewrite Hs. cbn [scenarioIDs runAll].
  unfold runScenario, setScenario, doExpectOK, issue, act, sbindE, sbind, yield. rewrite Hf, Hst. cbn.
  eexists. split; [reflexivity|]. unfold calls. cbn [log]. by rewrite map_app.
Qed.

(** ** Runs to evaluate *)

Definition ok_reply : reply := mkReply Millisecond false 200 None (Some 0).
Definition run_reply (st : string) : reply := mkReply Millisecond false 202 (Some (mkRun "run-1" st 500 480 20 0 0)) None.
Definition demo_replies : list reply :=
  concat (replicate 6 [ok_reply; run_reply "RUNNING"; ok_reply; run_reply "PASSED"; ok_reply]) ++ [ok_reply; ok_reply].
Definition demo_suite : @ended World reply Z := main (λ _, "") (mkWorld 0 []) demo_replies.


Definition demo_uuid (s : string) : bool := (slen s =? 36)%nat && str_forall uuid_char s.

Lemma suite_is_refused_witness :
  let '(a, c', t') := @handleSetChaosScenario _ demo_toxiproxy demo_uuid demo_enabled
                        (scenario_request "SLOW_NETWORK" true "") (demo_client "") (∅, "issuer:8000") in
  let r := mkReply Millisecond false 400 None None in
  answer_status a = 400 ∧ c' = demo_client "" ∧ t' = (∅, "issuer:8000") ∧
  ∃ w', main (λ _, "") (mkWorld 0 []) [r] = Finished 1 w' [] ∧ calls w' = [] ++ [SetScenario "SLOW_NETWORK" true].
Proof.
  pose proof (@suite_is_refused _ demo_toxiproxy demo_uuid demo_enabled "" (demo_client "") (∅, "issuer:8000") (λ _, "") 500
    runTimeoutSmall (mkWorld 0 []) (mkReply Millisecond false 400 None None) []
    ltac:(intros s Hs; unfold demo_uuid in Hs; by apply andb_true_iff in Hs as [_ Hs]) eq_refl) as H.
  assert (Ha : answer_status (@handleSetChaosScenario _ demo_toxiproxy demo_uuid demo_enabled
                 (scenario_request "SLOW_NETWORK" true "") (demo_client "") (∅, "issuer:8000")).1.1 = 400) by (vm_compute; reflexivity).
  destruct (@handleSetChaosScenario _ demo_toxiproxy demo_uuid demo_enabled _ _ _) as [[a c'] t']. cbn [fst] in Ha.
  exact (H eq_refl (eq_sym Ha)).
Defined.
