(* ===== verification/Views.v ===== *)
(** * Views: the read-only routes

    [gateway-go/internal/api]: keys.go, terminals.go, health.go, cors.go and the queue view of network.go,
    over the reads of Store.v and KeyStore.v. *)

From S2P Require Import Prelude Digits Float Net KeyStore Calendar Store Journey Saf Api.
Local Open Scope Z_scope.

(** ** keys.go *)

Definition defaultKeyLifetimeDays : Z := 365.

Record keyInfo := mkKeyInfo {
  ki_KeyType : string; Counterparty : option string; ki_KCV : string; ki_Status : string; ki_ActivatedAt : option time;
  DaysRemaining : Z; LifetimeDays : Z }.

Definition status_text (s : KeyStatus) : string :=
  match s with PENDING => "PENDING" | ACTIVE => "ACTIVE" | RETIRED => "RETIRED" end.

(** [Duration.Hours]: whole hours plus the rest as a fraction. *)
Definition Hours (d : duration) : float64 :=
  fadd (Float64 (Z.quot d Hour)) (fdiv (Float64 (Z.rem d Hour)) (Float64 (60 * 60 * 1000000000))).

Definition daysRemaining (now : time) (activatedAt : option time) (lifetimeDays : Z) : Z :=
  match activatedAt with
  | None => lifetimeDays
  | Some at_ =>
      let remaining := lifetimeDays - truncate (fdiv (Hours (Sub now at_)) (Float64 24)) in
      if remaining <? 0 then 0 else remaining
  end.

Definition toKeyInfo (now : time) (row : KeyRow) (lifetimeDays : Z) : keyInfo :=
  mkKeyInfo (KeyType row) (if String.eqb (OwnerRef row) "" then None else Some (OwnerRef row)) (KCV row)
    (status_text (k_status row)) (ActivatedAt row) (daysRemaining now (ActivatedAt row) lifetimeDays) lifetimeDays.

(** What [ListCurrent] answers is an argument; [now] is when a row is converted. *)
Definition handleListAcquirerKeys (listed : result error (list KeyRow)) (lifetimes : gmap string Z) (req : http_request) (now : time)
    : answer (list keyInfo) :=
  match listed with
  | Err _ => Problem (problem req 500 problemInternal "could not read the key inventory")
  | Ok rows =>
      writeJSONBody 200 (map (λ row, toKeyInfo now row (default defaultKeyLifetimeDays (lifetimes !! KeyType row))) rows)
  end.

(** ** terminals.go *)

Definition handleListTerminals (listed : result error (list FixtureTerminal)) (req : http_request) : answer (list FixtureTerminal) :=
  match listed with
  | Err _ => Problem (problem req 500 problemInternal "could not read terminals")
  | Ok rows => writeJSONBody 200 rows
  end.

(** ** network.go: the queue *)

(** [Format(time.RFC3339)] at an offset of the zone. *)
Definition zone_text (loc : duration) : string :=
  if loc =? 0 then "Z"
  else (if loc <? 0 then "-" else "+") +:+ dec 2 (Z.abs loc / Hour) +:+ ":" +:+ dec 2 (Z.abs loc mod Hour / Minute).
Definition FormatRFC3339 (loc : duration) (t : time) : string :=
  format_DateOnly loc t +:+ "T" +:+ dec 2 (Hour_of loc t) +:+ ":" +:+ dec 2 (Minute_of loc t) +:+ ":" +:+ dec 2 (Second_of loc t)
  +:+ zone_text loc.

Record safItemBody := mkSafBody {
  sb_ID : string; sb_MTI : string; sb_RRN : string; sb_Amount : Z; sb_Currency : string; sb_Attempts : Z; sb_Status : string;
  sb_NextRetryAt : string; sb_LastError : option string }.
Record safBody := mkSafView { sv_Depth : nat; sv_DeadCount : nat; sv_Items : list safItemBody }.

Definition toSafItemBodies (loc : duration) (items : list SafItemRow) : list safItemBody :=
  map (λ it, mkSafBody (Itoa (si_id it)) (si_mti it) (si_rrn it) (si_amount it) (si_currency it) (si_attempts it) (si_status it)
               (FormatRFC3339 loc (si_next it)) (if String.eqb (si_error it) "" then None else Some (si_error it))) items.

Definition handleGetSaf (loc : duration) (listed : result error SafSnapshot) (req : http_request) : answer safBody :=
  match listed with
  | Err _ => Problem (problem req 500 problemInternal "could not read the SAF queue")
  | Ok snap => writeJSONBody 200 (mkSafView (Depth snap) (DeadCount snap) (toSafItemBodies loc (Items snap)))
  end.

(** ** health.go *)

Definition Health : Type := bool.                 (* draining *)
Definition NewHealth : Health := false.
Definition StartDraining (_ : Health) : Health := true.

(** Status and body. *)
Definition health_live (_ : Health) : Z * string := (200, "{" +:+ Saf.Quote "status" +:+ ":" +:+ Saf.Quote "UP" +:+ "}").
Definition health_ready (h : Health) : Z * string :=
  if h then (503, "{" +:+ Saf.Quote "status" +:+ ":" +:+ Saf.Quote "DRAINING" +:+ "}") else health_live h.

(** ** cors.go *)

(** What a request gets: a 204 of the middleware's own, or the next handler, with the headers added. *)
Inductive cors_answer := Preflight (headers : list (string * string)) | Next (headers : list (string * string)).

Definition CORSMiddleware (allowedOrigin method : string) : cors_answer :=
  if String.eqb allowedOrigin "" then Next []
  else
    let headers := [("Access-Control-Allow-Origin", allowedOrigin);
                    ("Access-Control-Allow-Methods", "GET, POST, PUT, DELETE, OPTIONS");
                    ("Access-Control-Allow-Headers", "Content-Type, Idempotency-Key, If-Match")] in
    if String.eqb method "OPTIONS" then Preflight headers else Next headers.

(** ** Theorems *)

(** A key is never shown with a negative time left, and one activated at this instant has all of it. *)
Lemma daysRemaining_bounds now at_ lifetimeDays :
  0 ≤ lifetimeDays → 0 ≤ daysRemaining now at_ lifetimeDays ∧ daysRemaining now (Some now) lifetimeDays = lifetimeDays.
Proof.
  intros Hl. split.
  - unfold daysRemaining. destruct at_; [|done]. cbn zeta. destruct (Z.ltb_spec (lifetimeDays - truncate (fdiv (Hours (Sub now t)) (Float64 24))) 0); lia.
  - unfold daysRemaining. replace (Sub now now) with 0 by (unfold Sub; lia).
    change (truncate (fdiv (Hours 0) (Float64 24))) with 0. cbn zeta. rewrite Z.sub_0_r. by rewrite (proj2 (Z.ltb_ge _ _)).
Qed.

(** Draining is final, and the process stays alive. *)
Lemma draining_is_final h : (health_ready (StartDraining h)).1 = 503 ∧ (health_live (StartDraining h)).1 = 200.
Proof. done. Qed.

(** With no origin configured nothing is answered or added. *)
Lemma cors_off method : CORSMiddleware "" method = Next [].
Proof. done. Qed.

(** *** The fixture's terminals *)

Definition consistent (ts : list FixtureTerminal) : Prop :=
  ∀ t u, t ∈ ts → u ∈ ts → ft_MerchantID t = ft_MerchantID u → ft_MerchantName t = ft_MerchantName u ∧ ft_MCC t = ft_MCC u.

Definition row_of_fixture (t : FixtureTerminal) : MerchantRow := mkMerchantRow (ft_MerchantName t) (ft_MCC t).

Lemma upsert_terminal_Ok t db db' : upsert_terminal t db = Some db' →
  merchants db' = <[ft_MerchantID t := row_of_fixture t]> (merchants db) ∧
  terminals db' = <[ft_TerminalID t := ft_MerchantID t]> (terminals db) ∧
  tran db' = tran db ∧ history db' = history db ∧ saf db' = saf db ∧ idem db' = idem db.
Proof. unfold upsert_terminal. destruct (_ || _); [done|]. intros [= <-]. done. Qed.

(** The last terminal of a merchant and the last of an id win. *)
Lemma upsert_all_Ok ts db db' : consistent ts → NoDup (map ft_TerminalID ts) → upsert_all ts db = Some db' →
  (∀ t, t ∈ ts → terminals db' !! ft_TerminalID t = Some (ft_MerchantID t) ∧ merchants db' !! ft_MerchantID t = Some (row_of_fixture t)) ∧
  (∀ tid, tid ∉ map ft_TerminalID ts → terminals db' !! tid = terminals db !! tid) ∧
  (∀ mid, mid ∉ map ft_MerchantID ts → merchants db' !! mid = merchants db !! mid) ∧
  tran db' = tran db ∧ history db' = history db ∧ saf db' = saf db ∧ idem db' = idem db.
Proof.
  revert db. induction ts as [|t ts IH]; intros db Hc Hnd; cbn [upsert_all].
  { intros [= <-]. split_and!; try done. intros t Ht. by apply elem_of_nil in Ht. }
  destruct (upsert_terminal t db) as [db1|] eqn:E; cbn [mbind option_bind]; [|done]. intros Hrest.
  apply upsert_terminal_Ok in E as (Em & Et & E3 & E4 & E5 & E6). cbn [map] in Hnd. apply NoDup_cons in Hnd as [Hno Hnd].
  destruct (IH db1) as (H1 & H2 & H3 & H4 & H5 & H6 & H7); [|done|done|].
  { intros u v Hu Hv. apply Hc; by right. }
  split_and!; try congruence.
  - intros u [->|Hu]%elem_of_cons; [|by apply H1]. rewrite (H2 _ Hno), Et, lookup_insert_eq. split; [done|].
    destruct (decide (ft_MerchantID t ∈ map ft_MerchantID ts)) as [Hin|Hin].
    + apply list_elem_of_In, in_map_iff in Hin as (v & Ev & Hv). apply list_elem_of_In in Hv.
      destruct (Hc t v) as [Hn Hm]; [by left|by right|done|]. rewrite <- Ev. destruct (H1 v Hv) as [_ ->].
      unfold row_of_fixture. by rewrite Hn, Hm.
    + by rewrite (H3 _ Hin), Em, lookup_insert_eq.
  - intros tid Htid. cbn [map] in Htid. apply not_elem_of_cons in Htid as [Hne Htid]. by rewrite (H2 _ Htid), Et, lookup_insert_ne.
  - intros mid Hmid. cbn [map] in Hmid. apply not_elem_of_cons in Hmid as [Hne Hmid]. by rewrite (H3 _ Hmid), Em, lookup_insert_ne.
Qed.

Lemma insert_tid_Permutation t l : insert_tid t l ≡ₚ t :: l.
Proof.
  induction l as [|x l IH]; cbn [insert_tid]; [done|]. destruct (String.ltb _ _); [done|]. rewrite IH. apply Permutation_swap.
Qed.

Lemma ListTerminals_elem db t l : (ListTerminals db).1 = Ok l →
  t ∈ l ↔ terminals db !! ft_TerminalID t = Some (ft_MerchantID t) ∧ merchants db !! ft_MerchantID t = Some (row_of_fixture t).
Proof.
  cbn [ListTerminals fst]. intros [= <-].
  assert (H : ∀ l, foldr insert_tid [] l ≡ₚ l).
  { clear. induction l as [|x l IH]; cbn [foldr]; [done|]. by rewrite insert_tid_Permutation, IH. }
  rewrite H, list_elem_of_omap. split.
  - intros ([tid mid] & Hin & E). apply elem_of_map_to_list in Hin. cbn [fst snd] in E.
    destruct (merchants db !! mid) as [[name mcc]|] eqn:Em; cbn in E; [|done]. injection E as <-. cbn. by rewrite Hin, Em.
  - intros [Ht Hm]. exists (ft_TerminalID t, ft_MerchantID t). split; [by apply elem_of_map_to_list|].
    cbn [fst snd]. rewrite Hm. cbn. by destruct t.
Qed.

(** The fixture is the source of the terminals.  After the seed's upsert every terminal of the fixture
    is the one purchases resolve it to and the one GET /v1/terminals lists, with its merchant's name
    and code, whatever was there before; terminals the fixture does not name keep their merchant, and
    no transaction, history, queue entry or key changes.  An upsert that fails changes nothing. *)
Theorem fixture_terminals_resolve ts db r db' :
  consistent ts → NoDup (map ft_TerminalID ts) → UpsertFromFixture ts db = (r, db') →
  match r with
  | Ok _ =>
      (∀ t, t ∈ ts → GetMerchant (ft_TerminalID t) db' = (Ok (mkMerchant (ft_MerchantID t) (ft_MerchantName t)), db') ∧
         ∃ l, ListTerminals db' = (Ok l, db') ∧ t ∈ l) ∧
      (∀ tid, tid ∉ map ft_TerminalID ts → terminals db' !! tid = terminals db !! tid) ∧
      tran db' = tran db ∧ history db' = history db ∧ saf db' = saf db ∧ idem db' = idem db
  | Err _ => db' = db
  end.
Proof.
  intros Hc Hnd. unfold UpsertFromFixture. destruct (upsert_all ts db) as [db1|] eqn:E; intros [= <- <-]; [|done].
  destruct (upsert_all_Ok ts db db1 Hc Hnd E) as (H1 & H2 & _ & H4). split_and!; [|exact H2|apply H4..].
  intros t Ht. destruct (H1 t Ht) as [Htid Hmid]. split.
  - unfold GetMerchant. rewrite Htid. cbn [mbind option_bind]. rewrite Hmid. done.
  - eexists. split; [reflexivity|]. apply (ListTerminals_elem db1 t); [reflexivity|done].
Qed.

Definition demo_fixture : list FixtureTerminal :=
  [mkFixtureTerminal "00000042" "GOCPHO000000001" "Ca phe Goc Pho" "5814";
   mkFixtureTerminal "00000043" "ANHDUO000000001" "Nha sach Anh Duong" "5942"].
Definition demo_terminals : DB := mkDB ∅ 1 [] ∅ 1 ∅ 1 {[ "GOCPHO000000001" := mkMerchantRow "GOC PHO" "5812" ]} {[ "00000042" := "GOCPHO000000001" ]}.

Lemma fixture_terminals_resolve_witness :
  let '(r, db') := UpsertFromFixture demo_fixture demo_terminals in
  r = Ok () ∧ ∀ t, t ∈ demo_fixture → GetMerchant (ft_TerminalID t) db' = (Ok (mkMerchant (ft_MerchantID t) (ft_MerchantName t)), db').
Proof.
  assert (Er : (UpsertFromFixture demo_fixture demo_terminals).1 = Ok ()) by (vm_compute; reflexivity).
  destruct (UpsertFromFixture demo_fixture demo_terminals) as [r db'] eqn:E. cbn [fst] in Er. subst r. split; [done|].
  apply (fixture_terminals_resolve demo_fixture demo_terminals (Ok ()) db'); [| |exact E].
  - intros t u. unfold demo_fixture. rewrite !elem_of_cons, !elem_of_nil. intros [->|[->|[]]] [->|[->|[]]]; by vm_compute.
  - repeat constructor; set_solver.
Defined.
