(* ===== verification/Hooks.v ===== *)
(** * Hooks: what the gateway hangs on its link, its queue and its keys

    The functions of [gateway-go/cmd/gateway/main.go] that join two components: the handler of late
    responses (isonet/supervisor.go to purchase/service.go), and what the announcer of acknowledgements
    of Saf.v promises. *)

From S2P Require Import Prelude Digits Codec Net Mux KeyStore Mac Calendar Mask Store Journey Prog Idempotency Advice.
From S2P Require Import Purchase Stage Outcome Saf.
Local Open Scope Z_scope.
Local Open Scope prog_scope.

(** ** Late responses *)

(** The MTI of the message is not looked at; an error is logged. *)
Definition newLateResponseHandler (_ : string) (fields : fieldmap) : prog () :=
  pbind (λ _, Ret ()) (RecordLateResponse (get fields 37) (get fields 39)).

(** One frame of the connection: what the read loop does with it, and what the supervisor's hook then
    runs. *)
Definition read_frame {W} (payload : string) (m : Mux (W := W)) : option (Mux (W := W) * prog ()) :=
  m' ← dispatch payload m;
  Some (m', match drop (length (late m)) (late m') with
            | (mti, fields) :: _ => newLateResponseHandler mti fields
            | [] => Ret ()
            end).

Definition late_event (rrn rc : string) : broadcast :=
  BroadcastNetworkEvent "WARN" "A response arrived too late for a transaction"
    ("late 0210 for RRN " +:+ rrn +:+ ", RC " +:+ rc).

(** *** What a late answer may change *)

Definition no_late (r : TranLogRow) : TranLogRow := set_late r "" None.

(** Only the columns for late answers, of the rows with [rrn]. *)
Record only_late (rrn : string) (d d' : DB) : Prop := {
  ol_rest : set_tran d' (tran d) = d;
  ol_rows : no_late <$> tran d' = no_late <$> tran d;
  ol_others : ∀ id r, tran d !! id = Some r → RRN r ≠ rrn → tran d' !! id = Some r
}.

Lemma only_late_refl rrn d : only_late rrn d d.
Proof. split; [by destruct d|done|done]. Qed.

Lemma UpdateLateResponse_only n rrn rc d : only_late rrn d (UpdateLateResponse n rrn rc d).2.
Proof.
  unfold UpdateLateResponse. cbn [snd]. split; cbn [tran set_tran].
  - by destruct d.
  - rewrite <- map_fmap_compose. apply map_fmap_ext. intros id r _. unfold compose. by case_if.
  - intros id r Hr Hrrn. rewrite lookup_fmap, Hr. cbn. apply String.eqb_neq in Hrrn. by rewrite Hrrn.
Qed.

Lemma only_late_trans rrn d1 d2 d3 : only_late rrn d1 d2 → only_late rrn d2 d3 → only_late rrn d1 d3.
Proof.
  intros [H1 H2 H3] [H4 H5 H6]. split.
  - rewrite <- H1. rewrite <- H4 at 2. done.
  - congruence.
  - auto.
Qed.

Section late.
Context (w : World) (mti : string) (fields : fieldmap).

Definition noted (v : DB * list (string * fieldmap) * list (result error fieldmap)) : Prop :=
  only_late (get fields 37) (w_db w) v.1.1 ∧ v.1.2 = sends_of w ∧ v.2 = answers w.

Lemma noted_quietly w1 w2 : quietly w1 w2 → noted (visible w1) → noted (visible w2).
Proof. by intros [-> _ _]. Qed.

Lemma noted_read {A B} (q : query A) (k : result error A → prog B) Q w1 :
  (∀ n d, (exec_query q n d).2 = d) → noted (visible w1) →
  (∀ r w2, noted (visible w2) → runs noted (k r) Q w2) → runs noted (Vis (EDb q) k) Q w1.
Proof. intros Hq Hn Hk. apply runs_read; [done|done|]. intros r w2 Hq2. apply Hk. by eapply noted_quietly. Qed.

Lemma BroadcastUpdate_noted rrn w1 : noted (visible w1) → runs noted (BroadcastUpdate rrn) (λ _ w2, noted (visible w2)) w1.
Proof.
  intros Hn. unfold BroadcastUpdate. apply runs_bindE, noted_read; [|done|].
  { intros n d. cbn [exec_query]. unfold GetTran. by case_match. }
  intros [row|e] w2 Hn2; (apply runs_Ret; [done|]); [|done].
  apply runs_quiet; [done|done|]. intros u w3 Hq3. pose proof (noted_quietly _ _ Hq3 Hn2). by apply runs_Ret.
Qed.

(** Wherever the handler stops. *)
Lemma late_handler_noted : runs noted (newLateResponseHandler mti fields) (λ _ w', noted (visible w')) w.
Proof.
  assert (Hn : noted (visible w)) by (split_and!; [apply only_late_refl|done|done]).
  unfold newLateResponseHandler, RecordLateResponse. apply runs_pbind, runs_bindE, noted_read; [|done|].
  { intros n d. cbn [exec_query]. unfold GetTran. by case_match. }
  intros [row|e] w1 Hn1; (apply runs_Ret; [done|]); [|by apply runs_Ret].
  case_if; [by repeat (apply runs_Ret; [done|])|].
  apply runs_bindE, runs_db; [done|]. intros f n _.
  apply (exec_db_cases _ f n _ (λ r d, runs noted (Ret r) _ (later w1 n d))).
  { apply runs_Ret; [done|]. by apply runs_Ret. }
  intros r d He. destruct Hn1 as (Ho & Hs & Ha).
  assert (Hn2 : noted (d, sends_of w1, answers w1)).
  { split_and!; [|done|done]. eapply only_late_trans; [exact Ho|]. injection He as <- <-. apply UpdateLateResponse_only. }
  split; (apply runs_Ret; [exact Hn2|]); [destruct r as [u|e]; [|by apply runs_Ret]|by apply runs_Ret].
  apply runs_bindE, noted_read; [done|exact Hn2|].
  intros [u2|e] w3 Hn3; (apply runs_Ret; [done|]); [|by apply runs_Ret].
  apply runs_pbind, runs_quiet; [done|done|]. intros u3 w4 Hq4. pose proof (noted_quietly _ _ Hq4 Hn3).
  apply runs_Ret; [done|]. eapply runs_mono; [|by apply BroadcastUpdate_noted]. intros a w5 Hi _. by apply runs_Ret.
Qed.
End late.

(** Whatever arrives late, and wherever the handler stops: nothing is sent, no transaction changes its
    state, the queue and the reservations are as they were, and rows of another RRN are untouched. *)
Theorem late_answer_changes_no_outcome mti fields n cs w :
  let w' := crash n (newLateResponseHandler mti fields) cs w in
  only_late (get fields 37) (w_db w) (w_db w') ∧ sends_of w' = sends_of w ∧ answers w' = answers w.
Proof. exact (runs_crash _ _ _ _ n cs (late_handler_noted w mti fields)). Qed.

(** *** The row a late answer is booked on *)

Lemma set_name_late r rc at_ name : set_name (set_late r rc at_) name = set_late (set_name r name) rc at_.
Proof. done. Qed.

Definition book_late (rrn rc : string) (n : time) (r : TranLogRow) : TranLogRow :=
  if String.eqb (RRN r) rrn then set_late r rc (Some n) else r.

Lemma book_late_RRN rrn rc n r : RRN (book_late rrn rc n r) = RRN r.
Proof. unfold book_late. by case_if. Qed.

#[local] Instance id_le_total {A} : Total (@id_le A).
Proof. intros a b. unfold id_le. lia. Qed.
#[local] Instance id_le_trans {A} : Transitive (@id_le A).
Proof. intros a b c. unfold id_le. lia. Qed.

Lemma by_id_fmap {A} (f : A → A) (m : gmap Z A) : by_id (f <$> m) = prod_map id f <$> by_id m.
Proof.
  unfold by_id. assert (Hp : merge_sort id_le (map_to_list (f <$> m)) ≡ₚ prod_map id f <$> merge_sort id_le (map_to_list m)).
  { by rewrite !merge_sort_Permutation, map_to_list_fmap. }
  apply (StronglySorted_unique_strong id_le); [|apply (StronglySorted_merge_sort id_le)| |exact Hp].
  - intros [i x] [j y] Hx Hy Hij Hji. unfold id_le in Hij, Hji. cbn in Hij, Hji. assert (i = j) as -> by lia. f_equal.
    rewrite <- Hp in Hy. rewrite merge_sort_Permutation in Hx, Hy. apply elem_of_map_to_list in Hx, Hy. congruence.
  - apply (StronglySorted_fmap _ id_le); [done|apply (StronglySorted_merge_sort id_le)].
Qed.

Lemma joined_late rrn rc n d :
  joined (UpdateLateResponse n rrn rc d).2 = map (book_late rrn rc n) (joined d).
Proof.
  unfold UpdateLateResponse, joined. cbn [snd tran set_tran merchants]. rewrite by_id_fmap.
  induction (by_id (tran d)) as [|[i r] l IH]; [done|]. cbn [fmap list_fmap prod_map omap list_omap fst snd].
  fold (book_late rrn rc n r). rewrite IH.
  assert (MerchantID (book_late rrn rc n r) = MerchantID r) as -> by (unfold book_late; by case_if).
  destruct (merchants d !! MerchantID r) as [m|]; cbn [mbind option_bind map]; [|done]. f_equal.
  unfold book_late. cbn [set_name with_extra RRN]. by case_if.
Qed.

Lemma GetTran_late rrn rc n d t :
  GetTran rrn d = (Ok t, d) →
  let d' := (UpdateLateResponse n rrn rc d).2 in GetTran rrn d' = (Ok (set_late t rc (Some n)), d').
Proof.
  unfold GetTran. rewrite joined_late. intros Ht. cbv zeta. revert Ht. induction (joined d) as [|r l IH]; [done|].
  cbn [List.find map]. rewrite book_late_RRN. unfold book_late at 1. destruct (String.eqb (RRN r) rrn); [|exact IH].
  by intros [= ->].
Qed.

Lemma tick_quiet w : tick quiet w = w.
Proof. destruct w. unfold tick. cbn. f_equal. lia. Qed.

Lemma run_vis_quiet {R A} (e : event R) (k : R → prog A) w :
  run (Vis e k) [] w = (let '(r, w') := exec e quiet w in run (k r) [] w').
Proof. cbn [run]. by rewrite tick_quiet. Qed.

Lemma run_read_quiet {A B} (q : query A) (k : result error A → prog B) r w :
  exec_query q (now w) (w_db w) = (r, w_db w) → run (Vis (EDb q) k) [] w = run (k r) [] w.
Proof. intros Hq. rewrite run_vis_quiet. cbn [exec c_fate quiet exec_db]. rewrite Hq. by destruct w. Qed.

(** Undisturbed: the answer is booked on the transaction its DE 37 names, whatever message it was. *)
Lemma late_handler_books mti fields t w :
  GetTran (get fields 37) (w_db w) = (Ok t, w_db w) → Status t ≠ statusSent →
  let rrn := get fields 37 in let rc := get fields 39 in
  let w' := (run (newLateResponseHandler mti fields) [] w).2 in
  w_db w' = (UpdateLateResponse (now w) rrn rc (w_db w)).2 ∧
  told w' = told w ++ [late_event rrn rc;
                       BroadcastTransaction eventUpdated (transactionFromRow (set_late t rc (Some (now w))))].
Proof.
  intros Ht Hs. cbv zeta. unfold newLateResponseHandler, RecordLateResponse, bindE, db, trigger. cbn [pbind].
  rewrite (run_read_quiet (QGet (get fields 37)) _ _ w Ht). cbn [pbind]. apply String.eqb_neq in Hs. rewrite Hs. cbn [pbind].
  pose proof (GetTran_late _ (get fields 39) (now w) _ _ Ht) as Hl. cbv zeta in Hl.
  rewrite run_vis_quiet. cbn [exec c_fate quiet exec_db exec_query]. set (d := (UpdateLateResponse _ _ _ _).2) in *.
  change (UpdateLateResponse (now w) (get fields 37) (get fields 39) (w_db w)) with (Ok (E := error) (), d).
  cbn [pbind]. rewrite run_vis_quiet. cbn [exec c_fate quiet exec_db exec_query with_db w_db pbind].
  rewrite run_vis_quiet. cbn [exec pbind]. unfold BroadcastUpdate, bindE, db, trigger. cbn [pbind].
  erewrite (run_read_quiet (QGet (get fields 37))) by exact Hl. cbn [pbind]. rewrite run_vis_quiet. cbn [exec pbind run snd w_db told].
  by rewrite <- app_assoc.
Qed.

(** *** What the journey then shows *)

Lemma number_shows s n steps : s ∈ steps → ∃ k, with_seq s k ∈ number n steps.
Proof.
  revert n. induction steps as [|x steps IH]; intros n; [by intros ?%not_elem_of_nil|]. cbn [number].
  intros [->|Hin]%elem_of_cons; [exists n; by left|]. destruct (IH (n + 1) Hin) as [k Hk]. exists k. by right.
Qed.

Lemma lateResponse_shown t history r s :
  lateResponse (mkBuilder t history r) = Some s → ∃ k, with_seq s k ∈ Steps (BuildJourney t history r).
Proof.
  intros Hs. rewrite BuildJourney_steps. apply number_shows. unfold unnumbered. rewrite Hs.
  unfold insertAtOffset. apply elem_of_app. right. by left.
Qed.


(** ** Acknowledgements *)

(** The announcement leaves the database and always returns. *)
Lemma announced_run id cs w :
  let '(r, w') := run (u <-- announceAck id; retE ()) cs w in r = Ok () ∧ w_db w' = w_db w.
Proof.
  assert (Hr : runs (λ v, v.1.1 = w_db w) (u <-- announceAck id; retE ()) (λ r w', r = Ok () ∧ w_db w' = w_db w) w).
  { apply announceAck_runs; [done|]. intros w' [Hv _ _]. injection Hv as Hd _ _. by apply runs_Ret. }
  apply (runs_run _ _ _ _ cs) in Hr. by destruct (run _ cs w).
Qed.

Lemma announced_quietly id rrn t w :
  TranRRN id (w_db w) = (Ok rrn, w_db w) → GetTran rrn (w_db w) = (Ok t, w_db w) →
  told (run (u <-- announceAck id; retE ()) [] w).2 =
  told w ++ [BroadcastTransaction eventUpdated (transactionFromRow t)].
Proof.
  intros Hid Ht. unfold announceAck, BroadcastUpdate, bindE, db, trigger. cbn [pbind].
  erewrite (run_read_quiet (QTranRRN id)) by exact Hid. cbn [pbind].
  erewrite (run_read_quiet (QGet rrn)) by exact Ht. cbn [pbind]. rewrite run_vis_quiet. done.
Qed.

(** The announcement never undoes the acknowledgement: whatever happens to it, the worker gets the
    result of the commit and the database is as the commit left it; undisturbed, the hub is told of the
    transaction as it is after the commit. *)
Theorem ack_survives_its_announcement id c cs w :
  let '(r, d) := exec_db (QMarkAcked id) (c_fate c) (now (tick c w)) (w_db w) in
  let '(r', w') := run (MarkAckedAnnounced id) (c :: cs) w in
  r' = r ∧ w_db w' = d ∧
  ∀ u rrn t, r = Ok u → cs = [] → TranRRN id d = (Ok rrn, d) → GetTran rrn d = (Ok t, d) →
    told w' = told w ++ [BroadcastTransaction eventUpdated (transactionFromRow t)].
Proof.
  unfold MarkAckedAnnounced, bindE, db, trigger. cbn [pbind run].
  change (exec (EDb (QMarkAcked id)) c (tick c w)) with
    (let '(r, d) := exec_db (QMarkAcked id) (c_fate c) (now (tick c w)) (w_db w) in (r, with_db (tick c w) d)).
  destruct (exec_db _ _ _ (w_db w)) as [[[]|e] d]; [|by split_and!].
  pose proof (announced_run id cs (with_db (tick c w) d)) as Hr.
  pose proof (λ rrn t, announced_quietly id rrn t (with_db (tick c w) d)) as Hq.
  destruct (run _ cs _) as [r' w'] eqn:E. destruct Hr as [-> Hd]. split_and!; [done|done|].
  intros _ rrn t _ -> Hid Ht. specialize (Hq rrn t Hid Ht). by rewrite E in Hq.
Qed.

(** ** Witnesses *)

(** The 0430 of Saf's demo comes after the worker gave up. *)
Definition demo_late : fieldmap := {[ 7 := "0921000000"; 11 := "000124"; 37 := RRN (default no_tran (tran (w_db demo_unanswered) !! 1)); 39 := "00" ]}.
Definition demo_payload : string := match Pack "0430" demo_late with Ok s => s | Err _ => "" end.
Definition demo_row_late : TranLogRow :=
  match GetTran (get demo_late 37) (w_db demo_unanswered) with (Ok t, _) => t | _ => no_tran end.
Definition demo_advice : advice := match reversalAdvice demo_row_late "68" with Ok a => a | Err _ => no_advice end.

