(* ===== verification/Process.v ===== *)
(** * Process: the gateway from its start to its exit

    [gateway-go/cmd/gateway/main.go]: [main], [run] with what it calls before it serves, and the group of
    tasks that serve.  The start is a script of calls; the tasks are a step relation whose steps come in
    any order, as those of goroutines do: a server returns once its Shutdown has begun, every other task
    once its loop has seen the context done, and the tasks that can fail may fail before that.  The group
    itself, golang.org/x/sync/errgroup, is a parameter with its documented contract. *)

From S2P Require Import Prelude Digits KeyStore Mac Calendar Store Prog Saf Script Rotation Config Views.
Local Open Scope Z_scope.
Local Open Scope script_scope.

(** ** The tasks of the group *)

Inductive task :=
  | ApiServer | MetricsServer | LinkSupervisor | SafWorker | SafSweeper | ChaosRunner | RotationRunner | FakeIssuer | Drain.

#[export] Instance task_eq_dec : EqDecision task.
Proof. solve_decision. Defined.

(** What the draining task does once the context is done; [Shutdown] closes its listener first, then waits
    for the requests in flight. *)
Inductive drain_op := MarkDraining | BeginShutdown (server : task) | EndShutdown (server : task) | StopTracing.

Definition drain_ops : list drain_op :=
  [MarkDraining; BeginShutdown ApiServer; EndShutdown ApiServer; BeginShutdown MetricsServer; EndShutdown MetricsServer;
   StopTracing].

(** [golang.org/x/sync/errgroup], by its documentation: the first non-nil error cancels the derived context
    and is what [Wait] returns. *)
Class ErrGroup := {
  EG : Type;
  WithContext : EG;
  Go_returned : option string → EG → EG;       (* a function given to [Go] returned *)
  cancelled : EG → bool;                       (* whether the derived context was cancelled by the group *)
  Wait : EG → option string;                   (* what [Wait] returns when all have returned *)
  WithContext_fresh : cancelled WithContext = false ∧ Wait WithContext = None;
  Go_nil g : cancelled (Go_returned None g) = cancelled g ∧ Wait (Go_returned None g) = Wait g;
  Go_error e g : cancelled (Go_returned (Some e) g) = true ∧ Wait (Go_returned (Some e) g) = Some (default e (Wait g))
}.

Definition tasks (fake : bool) : list task :=
  [ApiServer; MetricsServer; LinkSupervisor; SafWorker; SafSweeper; ChaosRunner; RotationRunner]
  ++ (if fake then [FakeIssuer] else []) ++ [Drain].

Definition is_server (t : task) : bool := match t with ApiServer | MetricsServer => true | _ => false end.

(** The tasks that stop when they see the context done. *)
Definition watches (t : task) : bool := negb (is_server t) && negb (bool_decide (t = Drain)).

(** When the function of a task can return [e]: [closed] says whether the server's Shutdown has begun,
    [seen] whether the loop has seen the context done. *)

(** [serve]: [http.ErrServerClosed], which [Serve] returns from a [Shutdown] on, is no error. *)
Definition serve_returns (closed : bool) (e : option string) : bool := match e with None => closed | Some _ => true end.

(** [Supervisor.Run] can fail on the last STAN only, before its loop. *)
Definition supervisor_returns (seen : bool) (e : option string) : bool := match e with None => seen | Some _ => negb seen end.

(** [Worker.Run] and [Sweeper.Run]: what fails in a tick is logged. *)
Definition worker_returns (seen : bool) (e : option string) : bool := match e with None => seen | Some _ => false end.
Definition sweeper_returns (seen : bool) (e : option string) : bool := match e with None => seen | Some _ => false end.

(** [Runner.Serve] of chaos, and of rotation, which can fail in [recoverInterrupted]. *)
Definition chaos_returns (seen : bool) (e : option string) : bool := match e with None => seen | Some _ => false end.
Definition rotation_returns (seen : bool) (e : option string) : bool := match e with None => seen | Some _ => negb seen end.

(** [Listener.Serve]: an error of [Accept] is none once the context is done, which closes the listener. *)
Definition fakeissuer_returns (seen : bool) (e : option string) : bool := match e with None => seen | Some _ => negb seen end.

Section with_errgroup.
Context {E : ErrGroup}.

Record Group := mkGroup {
  live : list task;                       (* not yet returned *)
  errs : EG; signalled : bool;
  unaware : list task;                    (* whose loop has not yet seen the context done *)
  health : Health; closed : list task;
  drain_left : list drain_op; drain_errors : list string }.

(** The context of the group, derived from the one the signal ends. *)
Definition ctx_done (g : Group) : bool := signalled g || cancelled (errs g).

Definition group (fake : bool) : Group :=
  mkGroup (tasks fake) WithContext false (filter watches (tasks fake)) NewHealth [] drain_ops [].

Definition returned (t : task) (e : option string) (g : Group) : Group :=
  mkGroup (filter (.≠ t) (live g)) (Go_returned e (errs g)) (signalled g) (filter (.≠ t) (unaware g)) (health g) (closed g)
    (drain_left g) (drain_errors g).

Definition may_return (t : task) (e : option string) (g : Group) : bool :=
  let seen := negb (bool_decide (t ∈ unaware g)) in
  bool_decide (t ∈ live g) &&
  match t with
  | ApiServer | MetricsServer => serve_returns (bool_decide (t ∈ closed g)) e
  | LinkSupervisor => supervisor_returns seen e
  | SafWorker => worker_returns seen e
  | SafSweeper => sweeper_returns seen e
  | ChaosRunner => chaos_returns seen e
  | RotationRunner => rotation_returns seen e
  | FakeIssuer => fakeissuer_returns seen e
  | Drain => false                        (* returns with its last operation *)
  end.

Definition Join (errs : list string) : option string :=
  match errs with [] => None | e :: errs => Some (fold_left (λ a b, a +:+ String "010"%char b) errs e) end.

Definition drain_one (op : drain_op) (e : option string) (ops : list drain_op) (g : Group) : Group :=
  let failed := match e with Some e => [e] | None => [] end in
  let next h c errors := mkGroup (live g) (errs g) (signalled g) (unaware g) h c ops errors in
  match op with
  | MarkDraining => next (StartDraining (health g)) (closed g) (drain_errors g)
  | BeginShutdown s => next (health g) (s :: closed g) (drain_errors g)
  | EndShutdown _ | StopTracing => next (health g) (closed g) (drain_errors g ++ failed)
  end.

Inductive label :=
  | Signal                                    (* SIGTERM or SIGINT *)
  | Observes (t : task)                       (* its loop sees the context done *)
  | Returns (t : task) (e : option string)
  | Drains (e : option string).               (* the next operation of the draining task *)

Definition step (l : label) (g : Group) : option Group :=
  match l with
  | Signal => Some (mkGroup (live g) (errs g) true (unaware g) (health g) (closed g) (drain_left g) (drain_errors g))
  | Observes t =>
      if ctx_done g && bool_decide (t ∈ unaware g)
      then Some (mkGroup (live g) (errs g) (signalled g) (filter (.≠ t) (unaware g)) (health g) (closed g) (drain_left g)
                   (drain_errors g))
      else None
  | Returns t e => if may_return t e g then Some (returned t e g) else None
  | Drains e =>
      if negb (ctx_done g) then None
      else match drain_left g with
           | [] => None
           | op :: ops =>
               let g := drain_one op e ops g in
               Some (match ops with [] => returned Drain (Join (drain_errors g)) g | _ => g end)
           end
  end.

Fixpoint steps (ls : list label) (g : Group) : option Group :=
  match ls with [] => Some g | l :: ls => g ← step l g; steps ls g end.

(** ** What the process is *)

Inductive process := Exited (code : Z) | Serving (g : Group).

(** [g.Wait] and the end of [main]. *)
Definition status_of (g : Group) : process :=
  match live g with
  | [] => Exited (match Wait (errs g) with None => 0 | Some _ => 1 end)
  | _ => Serving g
  end.

(** ** The start *)

Inductive boot_call :=
  | SetupTracing (service : string) (enabled : bool)
  | Migrate (url : string) | OpenPool (url : string)
  | Listen (addr : string) | CloseListener (addr : string)
  | DisableAllToxics.

Inductive StartError :=
  | InitHSM | Tracing | MigrateDatabase | OpenDB | RegisterInitialKeys (e : error)
  | ListenFakeIssuer (addr : string) | ListenAPI (addr : string) | ListenMetrics (addr : string).

(** What the environment does at one call: whether it fails, and a move for the calls of the key_store. *)
Record turn := mkTurn { t_fails : bool; t_move : move }.

Record Boot := mkBoot { vault : Vault; bound : list string; boot_calls : list boot_call }.

Abbreviation startup_of A := (@script Boot turn A).
Abbreviation startE A := (@script Boot turn (result StartError A)).

Definition focus {A} (p : flow A) : startup_of A :=
  zoom vault (λ v b, mkBoot v (bound b) (boot_calls b)) t_move p.

Definition calling (c : boot_call) (e : StartError) (ports : list string → list string) : startE () :=
  act (λ t b, if t_fails t then (Err e, mkBoot (vault b) (bound b) (boot_calls b ++ [c]))
              else (Ok (), mkBoot (vault b) (ports (bound b)) (boot_calls b ++ [c]))).

Definition listen (addr : string) (e : StartError) : startE () := calling (Listen addr) e (λ ports, ports ++ [addr]).

(** The error of [Close] is dropped. *)
Definition closing (addr : string) : startup_of () :=
  act (λ _ b, ((), mkBoot (vault b) (filter (.≠ addr) (bound b)) (boot_calls b ++ [CloseListener addr]))).

Section boot.
Context {Location : Type} (LoadLocation : string → option Location) (bracketHost : string → option string).
Local Abbreviation Config := (Config (Location := Location)).

Definition openDatabase (url : string) : startE () :=
  calling (Migrate url) MigrateDatabase id ;;~! calling (OpenPool url) OpenDB id.

Definition setupFakeIssuer (cfg : Config) : startE bool :=
  if String.eqb (ChaosFakeIssuerAddr cfg) "" then yield (Ok false)
  else listen (ChaosFakeIssuerAddr cfg) (ListenFakeIssuer (ChaosFakeIssuerAddr cfg)) ;;~! yield (Ok true).

(** The ports of the API and the metrics; a failure of the second closes the first. *)
Definition listenAll (cfg : Config) : startE () :=
  listen (HTTPAddr cfg) (ListenAPI (HTTPAddr cfg)) ;;~!
  metrics <~ listen (MetricsAddr cfg) (ListenMetrics (MetricsAddr cfg));
  match metrics with
  | Ok _ => yield (Ok ())
  | Err e =>
      closing (HTTPAddr cfg) ;;~ yield (Err e)
  end.

(** [run] up to its goroutines.  A failed [DisableAll] is only logged. *)
Definition startup (cfg : Config) : startE Group :=
  match NewJCEModule (LMKTestValueHex cfg) with
  | Err _ => yield (Err InitHSM)
  | Ok lmk =>
      calling (SetupTracing (ServiceName cfg) (TracingEnabled cfg)) Tracing id ;;~!
      openDatabase (DatabaseURL cfg) ;;~!
      keys <~ focus (@loadActiveZAK Location (JCEModule lmk) cfg);
      match keys with
      | Err e => yield (Err (RegisterInitialKeys e))
      | Ok _ =>
          fake <~! setupFakeIssuer cfg;
          calling DisableAllToxics Tracing id ;;~
          listenAll cfg ;;~!
          yield (Ok (group fake))
      end
  end.

Definition main (getenv : string → string) : startup_of process :=
  match Load LoadLocation bracketHost getenv with
  | Err _ => yield (Exited 2)
  | Ok cfg => r <~ startup cfg; yield (match r with Err _ => Exited 1 | Ok g => Serving g end)
  end.
End boot.

(** ** Every run of the group *)

Definition erred (l : label) : Prop := match l with Returns _ (Some _) => True | _ => False end.

(** What the labels so far and the state have to do with each other. *)
Record group_ok (ls : list label) (g : Group) : Prop := {
  gk_signal : signalled g = true → Signal ∈ ls;
  gk_failed : cancelled (errs g) = true ↔ Wait (errs g) ≠ None;
  gk_clean : Wait (errs g) = None → Forall (λ l, ¬ erred l) ls;
  gk_ops : ∃ done_, drain_ops = done_ ++ drain_left g ∧ (done_ ≠ [] → ctx_done g = true ∧ health g = true) ∧
             ∀ s, s ∈ closed g ↔ BeginShutdown s ∈ done_;
  gk_drain : Drain ∈ live g ↔ drain_left g ≠ []
}.

Lemma group_start fake : group_ok [] (group fake).
Proof.
  destruct WithContext_fresh as [Hc Hw]. split; cbn [group signalled errs drain_left closed live].
  - done.
  - rewrite Hc, Hw. done.
  - constructor.
  - exists []. split_and!; [done|done|]. set_solver.
  - split; [done|]. intros _. destruct fake; set_solver.
Qed.

Lemma live_returned t e g t' : t' ∈ live (returned t e g) ↔ t' ∈ live g ∧ t' ≠ t.
Proof. cbn [returned live]. rewrite list_elem_of_filter. tauto. Qed.

(** A return keeps the context done, and the group's error is the first one. *)
Lemma returned_done t e g : ctx_done g = true → ctx_done (returned t e g) = true.
Proof.
  unfold ctx_done. cbn [returned signalled errs]. destruct e as [e|].
  - destruct (Go_error e (errs g)) as [-> _]. intros _. apply orb_true_r.
  - by destruct (Go_nil (errs g)) as [-> _].
Qed.

Lemma returned_wait t e g : Wait (errs (returned t e g)) = None → Wait (errs g) = None ∧ e = None.
Proof.
  cbn [returned errs]. destruct e as [e|]; [by destruct (Go_error e (errs g)) as [_ ->]|].
  by destruct (Go_nil (errs g)) as [_ ->].
Qed.

Lemma returned_failed t e g :
  (cancelled (errs g) = true ↔ Wait (errs g) ≠ None) →
  cancelled (errs (returned t e g)) = true ↔ Wait (errs (returned t e g)) ≠ None.
Proof.
  cbn [returned errs]. destruct e as [e|]; [by destruct (Go_error e (errs g)) as [-> ->]|].
  by destruct (Go_nil (errs g)) as [-> ->].
Qed.

Lemma drain_one_fields op e ops g :
  let g' := drain_one op e ops g in
  live g' = live g ∧ errs g' = errs g ∧ signalled g' = signalled g ∧ unaware g' = unaware g ∧ drain_left g' = ops ∧
  health g' = match op with MarkDraining => true | _ => health g end ∧
  closed g' = match op with BeginShutdown s => s :: closed g | _ => closed g end.
Proof. by destruct op. Qed.

(** One more operation of the draining task. *)
Lemma drain_one_ops op e ops g done_ :
  drain_ops = done_ ++ op :: ops → (done_ ≠ [] → health g = true) → (∀ s, s ∈ closed g ↔ BeginShutdown s ∈ done_) →
  health (drain_one op e ops g) = true ∧
  ∀ s, s ∈ closed (drain_one op e ops g) ↔ BeginShutdown s ∈ done_ ++ [op].
Proof.
  intros Hops Hh Hc. destruct (drain_one_fields op e ops g) as (_ & _ & _ & _ & _ & -> & ->). split.
  - destruct op; try done; apply Hh; by intros ->.
  - intros s. rewrite elem_of_app, list_elem_of_singleton, <- Hc. destruct op; rewrite ?elem_of_cons; naive_solver.
Qed.

Lemma may_return_live t e g : may_return t e g = true → t ∈ live g ∧ t ≠ Drain.
Proof.
  unfold may_return. intros [Hl%bool_decide_eq_true Ht]%andb_true_iff. split; [done|]. by intros ->.
Qed.

Lemma clean_snoc ls l : Forall (λ l, ¬ erred l) ls → ¬ erred l → Forall (λ l, ¬ erred l) (ls ++ [l]).
Proof. intros H1 H2. apply Forall_app. split; [done|]. by constructor. Qed.

(** The state after one operation of the draining task, before its return. *)
Lemma group_drained ls e op ops g :
  group_ok ls g → ctx_done g = true → drain_left g = op :: ops →
  let g1 := drain_one op e ops g in
  (signalled g1 = true → Signal ∈ ls ++ [Drains e]) ∧
  (cancelled (errs g1) = true ↔ Wait (errs g1) ≠ None) ∧
  (Wait (errs g1) = None → Forall (λ l, ¬ erred l) (ls ++ [Drains e])) ∧
  (∃ done_, drain_ops = done_ ++ drain_left g1 ∧ (done_ ≠ [] → ctx_done g1 = true ∧ health g1 = true) ∧
             ∀ s, s ∈ closed g1 ↔ BeginShutdown s ∈ done_) ∧
  Drain ∈ live g1.
Proof.
  intros [Hs Hf Hc (done_ & Hops & Hdone & Hcl) Hdr] Hd El g1. rewrite El in Hops.
  destruct (drain_one_fields op e ops g) as (E1 & E2 & E3 & _ & E5 & _ & _).
  destruct (drain_one_ops op e ops g done_ Hops (λ H, proj2 (Hdone H)) Hcl) as [Hh Hcl']. subst g1.
  rewrite E1, E2, E3, E5. split_and!.
  - intros H. apply elem_of_app. left. by apply Hs.
  - done.
  - intros H. apply clean_snoc; [by apply Hc|]. by intros [].
  - exists (done_ ++ [op]). split_and!; [by rewrite <- app_assoc| |done].
    intros _. unfold ctx_done. by rewrite E2, E3.
  - apply Hdr. by rewrite El.
Qed.

Lemma group_step ls l g g' : group_ok ls g → step l g = Some g' → group_ok (ls ++ [l]) g'.
Proof.
  intros Hok Hs. pose proof Hok as [Hsig Hf Hc (done_ & Hops & Hdone & Hcl) Hdr].
  assert (Hold : ∀ x, x ∈ ls → x ∈ ls ++ [l]) by (intros x Hx; apply elem_of_app; by left).
  destruct l as [|t|t e|e]; cbn [step] in Hs.
  - injection Hs as <-. split; cbn [signalled errs drain_left closed live ctx_done health]; [set_solver|done| | |done].
    + intros Hn. apply clean_snoc; [by apply Hc|]. by intros [].
    + exists done_. naive_solver.
  - destruct (ctx_done g && _) eqn:Hb; [|done]. injection Hs as <-.
    split; cbn [signalled errs drain_left closed live]; [auto|done| |by exists done_|done].
    intros Hn. apply clean_snoc; [by apply Hc|]. by intros [].
  - destruct (may_return t e g) eqn:Hm; [|done]. injection Hs as <-. apply may_return_live in Hm as [Hl Ht]. split.
    + cbn [returned signalled]. auto.
    + by apply returned_failed.
    + intros [Hw ->]%returned_wait. apply clean_snoc; [by apply Hc|]. by intros [].
    + exists done_. split_and!; [done| |done]. intros H. destruct (Hdone H). split; [by apply returned_done|done].
    + rewrite live_returned. cbn [returned drain_left]. rewrite <- Hdr. naive_solver.
  - destruct (ctx_done g) eqn:Ed; cbn [negb] in Hs; [|done]. destruct (drain_left g) as [|op ops] eqn:El; [done|].
    injection Hs as <-. destruct (group_drained ls e op ops g Hok Ed El) as (H1 & H2 & H3 & (d & H4 & H5 & H6) & H7).
    set (g1 := drain_one op e ops g) in *.
    assert (E4 : drain_left g1 = ops) by apply drain_one_fields. destruct ops as [|op' ops'].
    + split; [done|by apply returned_failed| | |].
      * intros [Hw _]%returned_wait. auto.
      * exists d. split_and!; [done| |done]. intros H. destruct (H5 H). split; [by apply returned_done|done].
      * rewrite live_returned. cbn [returned drain_left]. rewrite E4. naive_solver.
    + split; [done|done|done|by exists d|]. rewrite E4. naive_solver.
Qed.

Lemma steps_app ls1 ls2 g : steps (ls1 ++ ls2) g = steps ls1 g ≫= steps ls2.
Proof.
  revert g. induction ls1 as [|l ls1 IH]; intros g; [done|]. cbn [app steps]. destruct (step l g); [apply IH|done].
Qed.

Lemma group_run fake ls g : steps ls (group fake) = Some g → group_ok ls g.
Proof.
  revert g. induction ls as [|l ls IH] using rev_ind; intros g; [intros [= <-]; apply group_start|].
  rewrite steps_app. destruct (steps ls (group fake)) as [g1|]; [|done]. cbn [mbind option_bind steps].
  destruct (step l g1) as [g2|] eqn:E1; [|done]. intros [= <-]. eapply group_step; [by apply IH|done].
Qed.

(** ** The end of the process *)

Lemma filter_shorter (t : task) l : t ∈ l → (length (filter (.≠ t) l) < length l)%nat.
Proof. intros Ht. apply length_filter_lt with t; [done|]. naive_solver. Qed.

Definition todo (g : Group) : nat := (length (live g) + length (unaware g) + length (drain_left g))%nat.

Lemma returned_todo t e g : t ∈ live g → (todo (returned t e g) < todo g)%nat.
Proof. intros Ht%filter_shorter. pose proof (length_filter (.≠ t) (unaware g)). unfold todo. cbn [returned live unaware drain_left]. lia. Qed.

Lemma step_todo ls l g g' : group_ok ls g → l ≠ Signal → step l g = Some g' → (todo g' < todo g)%nat.
Proof.
  intros Hok Hl Hs. destruct l as [|t|t e|e]; cbn [step] in Hs; [done| | |].
  - destruct (ctx_done g && _) eqn:Hb; [|done]. injection Hs as <-.
    apply andb_true_iff in Hb as [_ Ht%bool_decide_eq_true%filter_shorter]. unfold todo. cbn [live unaware drain_left]. lia.
  - destruct (may_return t e g) eqn:Hm; [|done]. injection Hs as <-. by apply returned_todo, (may_return_live t e).
  - destruct (ctx_done g); [|done]. destruct (drain_left g) as [|op ops] eqn:El; [done|]. injection Hs as <-.
    destruct (drain_one_fields op e ops g) as (E1 & _ & _ & E3 & E4 & _ & _).
    assert (Hlt : (todo (drain_one op e ops g) < todo g)%nat) by (unfold todo; rewrite E1, E3, E4, El; cbn; lia).
    destruct ops; [|done]. etransitivity; [|exact Hlt]. apply returned_todo. rewrite E1. apply (gk_drain _ _ Hok). by rewrite El.
Qed.

(** When nothing is left to drain, both servers are being shut down. *)
Lemma drained_closed ls g t : group_ok ls g → drain_left g = [] → is_server t = true → t ∈ closed g.
Proof.
  intros [_ _ _ (done_ & Hops & _ & Hcl) _] El Ht. rewrite El, app_nil_r in Hops. subst done_. rewrite Hcl.
  unfold drain_ops. destruct t; try done; set_solver.
Qed.

(** A task that watches the context returns once it has seen it done; no error is needed. *)
Lemma watcher_returns t g : watches t = true → t ∈ live g → t ∉ unaware g → may_return t None g = true.
Proof.
  intros Hw Hl Hu. unfold may_return. rewrite (bool_decide_true _ Hl), (bool_decide_false _ Hu). by destruct t.
Qed.

(** Once the context is done the next step of some task that has not returned is enabled, and it is no failure. *)
Lemma step_enabled ls g :
  group_ok ls g → ctx_done g = true → live g ≠ [] → ∃ l g', l ≠ Signal ∧ ¬ erred l ∧ step l g = Some g'.
Proof.
  intros Hok Hd Hl. destruct (drain_left g) as [|op ops] eqn:El.
  2: { exists (Drains None). cbn [step]. rewrite Hd, El. eexists. split_and!; [done|by intros []|reflexivity]. }
  destruct (live g) as [|t l] eqn:Et; [done|]. assert (Hin : t ∈ live g) by (rewrite Et; by left).
  assert (Hne : t ≠ Drain) by (intros ->; by apply (gk_drain _ _ Hok) in Hin).
  destruct (is_server t) eqn:Es; [|destruct (decide (t ∈ unaware g)) as [Hu|Hu]].
  - exists (Returns t None), (returned t None g). split_and!; [done|by intros []|]. cbn [step].
    assert (may_return t None g = true) as ->; [|done]. unfold may_return. rewrite (bool_decide_true _ Hin).
    pose proof (drained_closed ls g t Hok El Es) as Hc. destruct t; try done; by apply bool_decide_eq_true.
  - exists (Observes t). cbn [step]. rewrite Hd, (bool_decide_true _ Hu). eexists. split_and!; [done|by intros []|reflexivity].
  - exists (Returns t None), (returned t None g). split_and!; [done|by intros []|]. cbn [step].
    rewrite watcher_returns; [done| |done|done]. unfold watches. by rewrite Es, (bool_decide_false _ Hne).
Qed.

Lemma steps_todo ls ls' g g' :
  group_ok ls g → Signal ∉ ls' → steps ls' g = Some g' → (length ls' + todo g' ≤ todo g)%nat.
Proof.
  revert ls g. induction ls' as [|l ls' IH]; intros ls g Hok Hns; [by intros [= ->]|]. cbn [steps].
  destruct (step l g) as [g1|] eqn:E1; [|done]. cbn [mbind option_bind length]. intros Hs.
  apply not_elem_of_cons in Hns as [Hl Hns]. pose proof (step_todo ls l g g1 Hok ltac:(congruence) E1).
  pose proof (IH (ls ++ [l]) g1 (group_step _ _ _ _ Hok E1) Hns Hs). lia.
Qed.

Lemma steps_done ls g g' : steps ls g = Some g' → ctx_done g = true → ctx_done g' = true.
Proof.
  revert g. induction ls as [|l ls IH]; intros g; [by intros [= ->]|]. cbn [steps].
  destruct (step l g) as [g1|] eqn:E1; [|done]. cbn [mbind option_bind]. intros Hs Hd. apply (IH g1 Hs). clear IH Hs.
  destruct l as [|t|t e|e]; cbn [step] in E1; [by injection E1 as <-| | |].
  - destruct (ctx_done g && _); [|done]. by injection E1 as <-.
  - destruct (may_return t e g); [|done]. injection E1 as <-. by apply returned_done.
  - rewrite Hd in E1. destruct (drain_left g) as [|op ops]; [done|]. injection E1 as <-.
    assert (Hd1 : ctx_done (drain_one op e ops g) = true).
    { destruct (drain_one_fields op e ops g) as (_ & E2 & E3 & _). unfold ctx_done. by rewrite E2, E3. }
    destruct ops; [by apply returned_done|done].
Qed.

(** C15. Once told to stop, or once a task has failed, the gateway ends without any further failure: in
    whatever order its tasks see the context done and return and its servers drain, no more than [todo g]
    steps are left, and as long as a task has not returned some task's next step is enabled and is not an
    error.  The servers return because the draining task shuts both of them down, the others because the
    context is done. *)
Theorem shutdown_ends fake ls g :
  steps ls (group fake) = Some g → ctx_done g = true →
  (∀ ls' g', Signal ∉ ls' → steps ls' g = Some g' → (length ls' + todo g' ≤ todo g)%nat) ∧
  (∀ ls' g', steps ls' g = Some g' → live g' ≠ [] → ∃ l g'', l ≠ Signal ∧ ¬ erred l ∧ step l g' = Some g'').
Proof.
  intros Hg Hd. split.
  - intros ls' g' Hns Hs. by eapply steps_todo; [apply (group_run fake ls g)| |].
  - intros ls' g' Hs Hl. apply (step_enabled (ls ++ ls')); [|by eapply steps_done|done].
    apply (group_run fake). by rewrite steps_app, Hg.
Qed.

(** C19. What the exit code tells.  The process ends with 0 only after a signal, with no task having failed;
    when a task has failed it ends with 1.  The readiness probe answers 503 before either server stops
    listening. *)
Theorem exit_is_orderly fake ls g :
  steps ls (group fake) = Some g →
  (∀ s, s ∈ closed g → (health_ready (health g)).1 = 503) ∧
  ∀ code, status_of g = Exited code →
    (code = 0 ∧ Signal ∈ ls ∧ Forall (λ l, ¬ erred l) ls ∨ code = 1) ∧ (Exists erred ls → code = 1) ∧
    ∀ s, is_server s = true → s ∈ closed g.
Proof.
  intros Hg. pose proof (group_run fake ls g Hg) as Hok. pose proof Hok as [Hsig Hf Hc (done_ & Hops & Hdone & Hcl) Hdr]. split.
  { intros s Hs%Hcl. assert (Hne : done_ ≠ []) by (intros E1; rewrite E1 in Hs; by apply not_elem_of_nil in Hs).
    destruct (Hdone Hne) as [_ ->]. done. }
  unfold status_of. destruct (live g) as [|t l] eqn:El; [|done]. intros code [= <-].
  assert (El2 : drain_left g = []).
  { destruct (drain_left g) as [|op ops]; [done|]. assert (Hin : Drain ∈ @nil task) by (by apply Hdr). by apply not_elem_of_nil in Hin. }
  split_and!.
  - destruct (Wait (errs g)) eqn:Ef; [by right|]. left. split_and!; [done| |by apply Hc]. apply Hsig.
    rewrite El2, app_nil_r in Hops. subst done_. destruct (Hdone ltac:(done)) as [Hctx _]. unfold ctx_done in Hctx.
    destruct (cancelled (errs g)); [by destruct (proj1 Hf eq_refl)|]. by rewrite orb_false_r in Hctx.
  - intros He. destruct (Wait (errs g)) eqn:Ef; [done|]. exfalso. specialize (Hc eq_refl).
    apply Exists_exists in He as (x & Hx & He). by apply (proj1 (Forall_forall _ _) Hc x Hx).
  - intros s. by apply (drained_closed ls).
Qed.

(** ** Every start *)

Section start.
Context {Location : Type} (LoadLocation : string → option Location) (bracketHost : string → option string).

Definition fakes (cfg : Config (Location := Location)) : list string :=
  if String.eqb (ChaosFakeIssuerAddr cfg) "" then [] else [ChaosFakeIssuerAddr cfg].

(** The calls of a start, in order, and those of one whose second port is taken. *)
Definition boot_order (cfg : Config (Location := Location)) : list boot_call :=
  [SetupTracing (ServiceName cfg) (TracingEnabled cfg); Migrate (DatabaseURL cfg); OpenPool (DatabaseURL cfg)]
  ++ map Listen (fakes cfg) ++ [DisableAllToxics; Listen (HTTPAddr cfg); Listen (MetricsAddr cfg)].

Lemma always_calling P I c e ports (Q : result StartError () → Boot → Prop) b :
  I b → Q (Err e) (mkBoot (vault b) (bound b) (boot_calls b ++ [c])) →
  Q (Ok ()) (mkBoot (vault b) (ports (bound b)) (boot_calls b ++ [c])) →
  always P I (calling c e ports) Q b.
Proof. intros Hi He Hok. apply always_act; [done|]. intros t a b' _. by destruct (t_fails t); intros [= <- <-]. Qed.

Lemma always_focus I {A} (p : flow A) (Q : A → Boot → Prop) b :
  (∀ v, I (mkBoot v (bound b) (boot_calls b))) → (∀ a v, Q a (mkBoot v (bound b) (boot_calls b))) →
  always any I (focus p) Q b.
Proof. intros Hi HQ ts _. unfold focus, zoom. destruct (p _ _); [apply Hi|]. split; [apply any_all|apply HQ]. Qed.

(** The calls made are the first so many of the order, and no port is bound by the first three. *)
Definition so_far (cfg : Config (Location := Location)) (b : Boot) : Prop :=
  ∃ n, boot_calls b = take n (boot_order cfg ++ [CloseListener (HTTPAddr cfg)]) ∧ ((n ≤ 3)%nat → bound b = []).

(** What a failed start leaves bound. *)
Definition still_bound (cfg : Config (Location := Location)) (e : StartError) : list string :=
  match e with ListenAPI _ => fakes cfg | ListenMetrics _ => filter (.≠ HTTPAddr cfg) (fakes cfg ++ [HTTPAddr cfg]) | _ => [] end.

Definition started (cfg : Config (Location := Location)) (r : result StartError Group) (b : Boot) : Prop :=
  so_far cfg b ∧
  match r with
  | Ok g => boot_calls b = boot_order cfg ∧ bound b = fakes cfg ++ [HTTPAddr cfg; MetricsAddr cfg] ∧
            g = group (negb (String.eqb (ChaosFakeIssuerAddr cfg) ""))
  | Err e => bound b = still_bound cfg e
  end.

Ltac so_far n := exists n; (split; [reflexivity|try done; cbn [length]; lia]).

(** From the listeners of the gateway on. *)
Lemma listenAll_starts cfg fake v f calls :
  fakes cfg = f → fake = negb (String.eqb (ChaosFakeIssuerAddr cfg) "") →
  calls = take (4 + length f) (boot_order cfg) →
  always any (so_far cfg) (listenAll cfg ;;~! yield (Ok (group fake))) (started cfg) (mkBoot v f calls).
Proof.
  intros Hf -> Hc.
  assert (Ho : boot_order cfg = calls ++ [Listen (HTTPAddr cfg); Listen (MetricsAddr cfg)]).
  { subst calls. unfold boot_order. rewrite Hf. destruct f as [|x [|y f]]; cbn; try done.
    unfold fakes in Hf. destruct (String.eqb _ ""); discriminate Hf. }
  assert (Hn : length calls = (4 + length f)%nat) 
    by (subst calls; rewrite length_take; unfold boot_order; rewrite Hf, !length_app, length_map; cbn [length]; lia).
  assert (Hsf : ∀ k v' p, so_far cfg (mkBoot v' p (calls ++ take k [Listen (HTTPAddr cfg); Listen (MetricsAddr cfg); CloseListener (HTTPAddr cfg)]))).
  { intros k v' p. exists (length calls + k)%nat. cbn [boot_calls bound]. split; [|lia].
    rewrite Ho, <- app_assoc, take_app_add. done. }
  unfold listenAll. apply always_bindE, always_bindE, always_calling; cbn [boot_calls bound vault].
  - rewrite <- (app_nil_r calls). exact (Hsf 0%nat v f).
  - split; [exact (Hsf 1%nat v f)|]. cbn. by rewrite Hf.
  - apply always_bind, always_calling; cbn [boot_calls bound vault]; rewrite <- ?app_assoc.
    + exact (Hsf 1%nat v (f ++ [HTTPAddr cfg])).
    + apply always_bind, always_act; [exact (Hsf 2%nat v (f ++ [HTTPAddr cfg]))|]. intros t [] b' _ [= <-].
      apply always_yield. cbn [boot_calls bound vault]. rewrite <- app_assoc.
      split; [exact (Hsf 3%nat v (filter (.≠ HTTPAddr cfg) (f ++ [HTTPAddr cfg])))|]. cbn. by rewrite Hf.
    + apply always_yield, always_yield. split; [exact (Hsf 2%nat v (f ++ [HTTPAddr cfg] ++ [MetricsAddr cfg]))|].
      cbn [boot_calls bound]. by rewrite Ho, Hf.
Qed.

Lemma startup_starts cfg v :
  always any (so_far cfg) (startup cfg) (started cfg) (mkBoot v [] []).
Proof.
  unfold startup. destruct (NewJCEModule _) as [lmk|e]; [|apply always_yield; split; [so_far 0%nat|done]].
  apply always_bindE, always_calling; cbn [boot_calls bound vault app]; [so_far 0%nat|split; [so_far 1%nat|done]|].
  unfold openDatabase. apply always_bindE, always_bindE, always_calling; cbn [boot_calls bound vault app];
    [so_far 1%nat|split; [so_far 2%nat|done]|].
  apply always_calling; cbn [boot_calls bound vault app]; [so_far 2%nat|split; [so_far 3%nat|done]|].
  apply always_bind, always_focus; cbn [boot_calls bound vault]; [intros v'; so_far 3%nat|].
  intros [u|e] v'; [|apply always_yield; split; [so_far 3%nat|done]].
  assert (Hrest : ∀ f fake calls v, fakes cfg = f → fake = negb (String.eqb (ChaosFakeIssuerAddr cfg) "") →
    calls = take (3 + length f) (boot_order cfg) →
    always any (so_far cfg) (calling DisableAllToxics Tracing id ;;~ listenAll cfg ;;~! yield (Ok (group fake)))
      (started cfg) (mkBoot v f calls)).
  { clear. intros f fake calls v Hf Hk ->.
    assert (Hc : take (3 + length f) (boot_order cfg) ++ [DisableAllToxics] = take (4 + length f) (boot_order cfg)).
    { unfold boot_order. rewrite Hf. destruct f as [|x [|y f]]; cbn; try done.
      unfold fakes in Hf. destruct (String.eqb _ ""); discriminate Hf. }
    apply always_bind, always_calling; cbn [boot_calls bound vault]; rewrite ?Hc; [|by apply listenAll_starts..].
    exists (3 + length f)%nat. cbn [boot_calls bound]. split; [|intros; destruct f; [done|cbn in *; lia]].
    rewrite take_app_le; [done|]. unfold boot_order. rewrite Hf, !length_app, length_map. cbn [length]. lia. }
  apply always_bindE. unfold setupFakeIssuer.
  assert (Hfk : fakes cfg = if String.eqb (ChaosFakeIssuerAddr cfg) "" then [] else [ChaosFakeIssuerAddr cfg]) by done.
  destruct (String.eqb (ChaosFakeIssuerAddr cfg) "") eqn:Ea.
  - apply always_yield, Hrest; [done|done|]. reflexivity.
  - apply always_bindE, always_calling; cbn [boot_calls bound vault app].
    + so_far 3%nat.
    + split; [|done]. exists 4%nat. split; [|lia]. unfold boot_order. by rewrite Hfk.
    + apply always_yield, Hrest; [done|done|]. unfold boot_order. by rewrite Hfk.
Qed.

Lemma still_bound_fakes cfg e port : port ∈ still_bound cfg e → port ∈ fakes cfg.
Proof.
  destruct e; cbn [still_bound]; try (by intros ?%not_elem_of_nil); [done|].
  rewrite list_elem_of_filter, elem_of_app, list_elem_of_singleton. tauto.
Qed.

(** Every start.  An invalid configuration ends with 2 before anything is called, and a bad LMK with 1.
    Otherwise the calls are made in the order of [boot_order], as far as the start gets: the database is
    migrated and opened and the working keys registered before any port is bound.  A start that fails ends
    with 1 and leaves no port bound but the fake issuer's; one that succeeds has bound all of them
    and serves with every task live. *)
Theorem ports_are_bound_last getenv v ts :
  let b := mkBoot v [] [] in
  match Load LoadLocation bracketHost getenv with
  | Err _ => main LoadLocation bracketHost getenv b ts = Finished (Exited 2) b ts
  | Ok cfg =>
      match main LoadLocation bracketHost getenv b ts with
      | Stopped b' => so_far cfg b'
      | Finished (Exited code) b' _ =>
          code = 1 ∧ so_far cfg b' ∧ ∀ port, port ∈ bound b' → port ∈ fakes cfg
      | Finished (Serving g) b' _ =>
          boot_calls b' = boot_order cfg ∧ bound b' = fakes cfg ++ [HTTPAddr cfg; MetricsAddr cfg] ∧
          g = group (negb (String.eqb (ChaosFakeIssuerAddr cfg) ""))
      end ∧
      ∀ e, NewJCEModule (LMKTestValueHex cfg) = Err e → main LoadLocation bracketHost getenv b ts = Finished (Exited 1) b ts
  end.
Proof.
  cbv zeta. unfold main. destruct (Load _ _ getenv) as [cfg|e] eqn:El; [|done]. split.
  - pose proof (startup_starts cfg v ts (any_all ts)) as Hs. unfold sbind, yield.
    destruct (startup cfg _ ts) as [b'|[g|e] b' ts']; [done| |].
    + destruct Hs as (_ & _ & Hs). exact Hs.
    + destruct Hs as (_ & Hsf & Hb). split_and!; [done|done|]. rewrite Hb. apply still_bound_fakes.
  - intros e Hj. unfold sbind, startup. by rewrite Hj.
Qed.
End start.

End with_errgroup.

(** ** Witnesses *)

(** A group as errgroup documents it: its first error. *)
Definition demo_errgroup : ErrGroup.
Proof.
  refine {| EG := option string; WithContext := None;
            Go_returned e g := match g with None => e | Some _ => g end;
            cancelled g := bool_decide (is_Some g); Wait g := g |}; [done|by intros []|by intros e []].
Defined.

Definition demo_stop : list label :=
  [Signal; Observes SafWorker; Drains None; Observes LinkSupervisor; Returns LinkSupervisor None; Drains None;
   Returns ApiServer None; Drains None; Returns SafWorker None; Observes SafSweeper; Observes ChaosRunner;
   Returns SafSweeper None; Returns ChaosRunner None; Drains None; Drains None; Drains None;
   Observes RotationRunner; Returns RotationRunner None; Returns MetricsServer None].
Definition demo_group (ls : list label) : @Group demo_errgroup :=
  default (@group demo_errgroup true) (steps ls (@group demo_errgroup false)).

Lemma exit_is_orderly_witness :
  status_of (demo_group demo_stop) = Exited 0 ∧
  (∀ s, s ∈ closed (demo_group demo_stop) → (health_ready (health (demo_group demo_stop))).1 = 503) ∧
  ∀ code, status_of (demo_group demo_stop) = Exited code →
    (code = 0 ∧ Signal ∈ demo_stop ∧ Forall (λ l, ¬ erred l) demo_stop ∨ code = 1) ∧ (Exists erred demo_stop → code = 1) ∧
    ∀ s, is_server s = true → s ∈ closed (demo_group demo_stop).
Proof.
  split; [vm_compute; reflexivity|]. apply (@exit_is_orderly demo_errgroup false demo_stop). vm_compute. reflexivity.
Defined.

(** A task fails: nothing but the end is left. *)
Definition demo_failed : list label := [Returns RotationRunner (Some "recover interrupted rotations")].

Lemma shutdown_ends_witness :
  todo (demo_group demo_failed) = 17%nat ∧
  (∀ ls' g', Signal ∉ ls' → steps ls' (demo_group demo_failed) = Some g' → (length ls' + todo g' ≤ todo (demo_group demo_failed))%nat) ∧
  (∀ ls' g', steps ls' (demo_group demo_failed) = Some g' → live g' ≠ [] →
     ∃ l g'', l ≠ Signal ∧ ¬ erred l ∧ step l g' = Some g'').
Proof.
  split; [vm_compute; reflexivity|]. apply (@shutdown_ends demo_errgroup false demo_failed); vm_compute; reflexivity.
Defined.
