(* ===== verification/Logger.v ===== *)
(** * Logger: what a log line may show

    [gateway-go/internal/obs/logger.go] over [log/slog]'s JSON handler: the attributes of a line, with the
    replacement that masks card numbers.  The text of the JSON is not modelled. *)

From S2P Require Import Prelude Digits Mask.

(** [slog.Value] by kind; an error is of the kind "any", whatever its text. *)
Inductive Value :=
  | StringValue (s : string)
  | IntValue (n : Z)
  | TimeValue (t : Z)
  | AnyValue (text : string)
  | GroupValue (attrs : list (string * Value)).

(** [ReplaceAttr], which the handler calls on every attribute that is no group. *)
Definition ReplaceAttr (groups : list string) (key : string) (v : Value) : string * Value :=
  let key := if match groups with [] => true | _ => false end && String.eqb key "time" then "ts" else key in
  match v with
  | StringValue s => (key, StringValue (MaskPAN s))
  | _ => (key, v)
  end.

Fixpoint replaced (groups : list string) (key : string) (v : Value) : string * Value :=
  match v with
  | GroupValue attrs => (key, GroupValue (map (λ kv, replaced (groups ++ [key]) kv.1 kv.2) attrs))
  | _ => ReplaceAttr groups key v
  end.

Record span := mkSpan { trace_id : string; span_id : string }.

(** [traceHandler.Handle], for a valid span. *)
Definition Handle (ctx : option span) (attrs : list (string * Value)) : list (string * Value) :=
  attrs ++ match ctx with
           | Some sp => [("trace_id", StringValue (trace_id sp)); ("span_id", StringValue (span_id sp))]
           | None => []
           end.

(** One line of [NewLogger(w, service, level)]. *)
Definition log_line (service : string) (ctx : option span) (now : Z) (level msg : string) (attrs : list (string * Value))
    : list (string * Value) :=
  map (λ kv, replaced [] kv.1 kv.2)
    ([("time", TimeValue now); ("level", AnyValue level); ("msg", StringValue msg); ("service", StringValue service)]
     ++ Handle ctx attrs).

(** The strings, and the texts of other values, at any depth. *)
Fixpoint strings_of (v : Value) : list string :=
  match v with
  | StringValue s => [s]
  | GroupValue attrs => flat_map (λ kv, strings_of kv.2) attrs
  | _ => []
  end.
Fixpoint texts_of (v : Value) : list string :=
  match v with
  | AnyValue s => [s]
  | GroupValue attrs => flat_map (λ kv, texts_of kv.2) attrs
  | _ => []
  end.

Definition no_pan (s : string) : Prop := has_pan false s = false.

(** Induction over the values in groups. *)
Lemma Value_rect_nested (P : Value → Prop) :
  (∀ s, P (StringValue s)) → (∀ n, P (IntValue n)) → (∀ t, P (TimeValue t)) → (∀ s, P (AnyValue s)) →
  (∀ attrs, Forall (λ kv, P kv.2) attrs → P (GroupValue attrs)) → ∀ v, P v.
Proof.
  intros H1 H2 H3 H4 H5. fix IH 1. intros [s|n|t|s|attrs]; [apply H1|apply H2|apply H3|apply H4|].
  apply H5. induction attrs as [|kv attrs IHl]; constructor; [apply IH|apply IHl].
Qed.

Lemma replaced_masks groups key v : Forall no_pan (strings_of (replaced groups key v).2).
Proof.
  revert groups key. induction v as [s|n|t|s|attrs IH] using Value_rect_nested; intros groups key; cbn; try constructor; [|constructor|].
  - apply MaskPAN_no_pan.
  - generalize (groups ++ [key]) as gs. intros gs. induction IH as [|kv l Hkv _ IHl]; [constructor|].
    cbn. apply Forall_app. by split.
Qed.

Lemma replaced_texts groups key v : texts_of (replaced groups key v).2 = texts_of v.
Proof.
  revert groups key. induction v as [s|n|t|s|attrs IH] using Value_rect_nested; intros groups key; cbn; try done.
  generalize (groups ++ [key]) as gs. intros gs. induction IH as [|kv l Hkv _ IHl]; [done|]. cbn. by rewrite Hkv, IHl.
Qed.

(** Nothing that looks like a card number is in the message or in a string of a line, at any depth of its
    groups; the texts of other values, errors among them, go out as they are. *)
Theorem log_strings_masked service ctx now level msg attrs :
  Forall (λ kv, Forall no_pan (strings_of kv.2)) (log_line service ctx now level msg attrs) ∧
  flat_map (λ kv, texts_of kv.2) (log_line service ctx now level msg attrs)
    = level :: flat_map (λ kv, texts_of kv.2) (Handle ctx attrs).
Proof.
  unfold log_line. split.
  - apply Forall_map, Forall_forall. intros kv _. apply replaced_masks.
  - cbn [app map flat_map]. change (texts_of (replaced [] "level" (AnyValue level)).2) with [level].
    cbn [replaced ReplaceAttr texts_of app fst snd andb]. f_equal. induction (Handle ctx attrs) as [|kv l IH]; [done|].
    cbn [map flat_map]. by rewrite replaced_texts, IH.
Qed.
