(* ===== verification/Admin.v ===== *)
(** * Admin: reading a balance from the issuer

    [gateway-go/internal/chaos/issuer_admin_client.go]: the request of a card's ledger balance and what its
    answer means.  The JSON of the body is decoded by the caller of [LedgerBalance]. *)

From S2P Require Import Prelude Digits Net Codec Mux KeyStore Mac Calendar Store Journey Prog Advice Purchase Rotation Config.
Import Url.
Local Open Scope Z_scope.

Definition issuerAdminTimeout : duration := 5 * Second.

(** ** [url.PathEscape] *)

(** [shouldEscape] of a path segment. *)
Definition should_escape (c : ascii) : bool := negb (is_alnum c || one_of "-_.~$&+:=@" c).

Definition escaped (c : ascii) : string := String "%" (ToUpper (EncodeToString (String c ""))).

Fixpoint PathEscape (s : string) : string :=
  match s with
  | "" => ""
  | String c rest => (if should_escape c then escaped c else String c "") +:+ PathEscape rest
  end.

(** ** The client *)

(** An answer: its status and the [ledgerBalance] of its body, [None] when the body does not decode and
    [Some None] when it has none. *)
Record admin_answer := mkAnswer { a_status : Z; a_body : option (option (Z * string)) }.

Definition card_url (baseURL cardRef : string) : string := baseURL +:+ "/v1/cards/" +:+ PathEscape cardRef.

Definition LedgerBalance (Get : string → option admin_answer) (baseURL cardRef : string) : result string (Z * string) :=
  match Get (card_url baseURL cardRef) with
  | None => Err ("issuer admin GET card " +:+ cardRef)
  | Some a =>
      if negb (a_status a =? 200) then Err ("issuer admin GET card " +:+ cardRef +:+ ": status " +:+ Itoa (a_status a))
      else match a_body a with
           | None => Err ("issuer admin card " +:+ cardRef +:+ ": decode")
           | Some None => Err ("issuer admin card " +:+ cardRef +:+ ": no ledgerBalance")
           | Some (Some balance) => Ok balance
           end
  end.

(** ** A reference names one path *)

Lemma escaped_hex c : ∃ a b, escaped c = String "%" (String a (String b "")) ∧ is_hex a && is_hex b = true ∧
  ascii_of_Z (16 * digit_val (upper_char a) + digit_val (upper_char b)) = c.
Proof. destruct c as [[] [] [] [] [] [] [] []]; eexists _, _; (split; [reflexivity|split; reflexivity]). Qed.

Lemma escaped_back c rest t : unescape encodePath rest = Some t → unescape encodePath (escaped c +:+ rest) = Some (String c t).
Proof.
  intros Ht. destruct (escaped_hex c) as (a & b & -> & Hhex & Hc).
  change (String "%" (String a (String b "")) +:+ rest) with (String "%" (String a (String b rest))).
  cbn [unescape]. change (char_is "%" "%") with true. cbn iota. rewrite Hhex, Ht, Hc. done.
Qed.

Lemma plain_back c rest t : should_escape c = false → unescape encodePath rest = Some t →
  unescape encodePath (String c rest) = Some (String c t).
Proof.
  intros Hc Ht. assert (Hp : char_is c "%" = false) by (destruct c as [[] [] [] [] [] [] [] []]; done).
  cbn [unescape]. rewrite Hp. cbn [andb]. by rewrite Ht.
Qed.

Lemma PathEscape_back s : unescape encodePath (PathEscape s) = Some s.
Proof.
  induction s as [|c s IH]; [done|]. cbn [PathEscape]. destruct (should_escape c) eqn:Hc; [by apply escaped_back|].
  by apply plain_back.
Qed.

Lemma PathEscape_plain s : str_forall (λ c, negb (one_of "/?#" c)) (PathEscape s) = true.
Proof.
  assert (Hc : ∀ c, str_forall (λ c, negb (one_of "/?#" c)) (if should_escape c then escaped c else String c "") = true)
    by (intros [[] [] [] [] [] [] [] []]; reflexivity).
  induction s as [|c s IH]; [done|]. cbn [PathEscape]. by rewrite str_forall_app, Hc, IH.
Qed.

(** Whatever the reference, the request is for one segment under /v1/cards, which the issuer reads back as
    the reference; so two references are never asked for at one address. *)
Theorem card_url_names_one_card baseURL ref :
  ∃ segment, card_url baseURL ref = baseURL +:+ "/v1/cards/" +:+ segment ∧
    str_forall (λ c, negb (one_of "/?#" c)) segment = true ∧ unescape encodePath segment = Some ref.
Proof. exists (PathEscape ref). split; [done|]. split; [apply PathEscape_plain|apply PathEscape_back]. Qed.
