(* ===== verification/Database.v ===== *)
(** * Database: waiting for the database and migrating it

    [store/db.go].  The pool, [database/sql] and goose are the environment: a call fails with a message or
    succeeds, as its choice says.  Process.v takes all of [Migrate] as one call, this file is what that call
    does. *)

From S2P Require Import Prelude KeyStore Script.
Local Open Scope Z_scope.
Local Open Scope script_scope.

Inductive db_call :=
  | PoolNew (dsn : string)
  | SqlOpen (dsn : string) | Ping | Sleep (d : duration) | SetDialect (dialect : string) | Up (dir : string) | SqlClose.

Inductive DBError :=
  | OpenPoolError (e : string)
  | OpenMigrationConnection (e : string) | WaitForDatabase (e : string) | SetGooseDialect (e : string)
  | RunMigrations (e : string).

(** The state is the calls made, a choice the error a call ends with. *)
Abbreviation db_of A := (@script (list db_call) (option string) A).
Abbreviation dbE A := (@script (list db_call) (option string) (result DBError A)).

Definition call (c : db_call) : db_of (option string) := act (λ e log, (e, log ++ [c])).

Definition wrapped (e : option string) (wrap : string → DBError) : result DBError () :=
  match e with None => Ok () | Some e => Err (wrap e) end.

Definition Open (dsn : string) : dbE () := e <~ call (PoolNew dsn); yield (wrapped e OpenPoolError).

Definition pingAttempts : nat := 10.
Definition pingPause : duration := 300 * Millisecond.

(** [n] attempts are left; [err] is that of the last one. *)
Fixpoint ping_loop (n : nat) (err : option string) : db_of (option string) :=
  match n with
  | O => yield err
  | S n =>
      e <~ call Ping;
      match e with
      | None => yield None
      | Some e => call (Sleep pingPause) ;;~ ping_loop n (Some e)
      end
  end.

Definition pingWithRetry : db_of (option string) := ping_loop pingAttempts None.

(** [Migrate] between the opening of its connection and the deferred closing. *)
Definition migrate : dbE () :=
  (pinged <~ pingWithRetry; yield (wrapped pinged WaitForDatabase)) ;;~!
  (e <~ call (SetDialect "postgres"); yield (wrapped e SetGooseDialect)) ;;~!
  (e <~ call (Up "."); yield (wrapped e RunMigrations)).

Definition Migrate (dsn : string) : dbE () :=
  opened <~ call (SqlOpen dsn);
  match opened with
  | Some e => yield (Err (OpenMigrationConnection e))
  | None => r <~ migrate; call SqlClose ;;~ yield r
  end.

(** ** What it does *)

(** [n] pings that fail, each with its pause, the last one too. *)
Definition attempts (n : nat) : list db_call := concat (repeat [Ping; Sleep pingPause] n).

Definition refusals (es : list string) : list (option string) := concat (map (λ e, [Some e; None]) es).

Lemma ping_loop_fails es n err log cs :
  ping_loop (length es + n) err log (refusals es ++ cs)
  = ping_loop n (match last es with Some e => Some e | None => err end) (log ++ attempts (length es)) cs.
Proof.
  revert err log. induction es as [|e es IH]; intros err log.
  { unfold attempts. cbn. by rewrite app_nil_r. }
  cbn [length Nat.add ping_loop]. unfold refusals in *. cbn [map concat app]. unfold sbind at 1, call at 1, act at 1.
  unfold sbind at 1, call at 1, act at 1. rewrite IH. f_equal.
  - rewrite last_cons. by destruct (last es).
  - unfold attempts. cbn [repeat concat app]. by rewrite <- !(assoc_L (++)).
Qed.

(** A database that answers any of the ten pings is found at its first answer. *)
Lemma ping_finds es log cs :
  (length es < pingAttempts)%nat →
  pingWithRetry log (refusals es ++ None :: cs) = Finished None (log ++ attempts (length es) ++ [Ping]) cs.
Proof.
  intros Hn. unfold pingWithRetry. replace pingAttempts with (length es + S (pingAttempts - length es - 1))%nat by lia.
  rewrite ping_loop_fails. cbn [ping_loop]. unfold sbind, call, act, yield. by rewrite (assoc_L (++)).
Qed.

(** One that answers none of them is given up with the last error, after ten pauses. *)
Lemma ping_gives_up es log cs :
  length es = pingAttempts →
  pingWithRetry log (refusals es ++ cs) = Finished (last es) (log ++ attempts pingAttempts) cs.
Proof.
  intros Hn. unfold pingWithRetry. replace pingAttempts with (length es + 0)%nat at 1 by lia.
  rewrite ping_loop_fails, Hn. cbn [ping_loop]. unfold yield. by destruct (last es).
Qed.

Lemma ping_story n err log0 log :
  log = log0 ++ attempts (pingAttempts - n) → (n ≤ pingAttempts)%nat → (n = pingAttempts ∨ is_Some err) →
  always any (λ _, True) (ping_loop n err) (λ r log', match r with
    | None => ∃ k, (k < pingAttempts)%nat ∧ log' = log0 ++ attempts k ++ [Ping]
    | Some _ => log' = log0 ++ attempts pingAttempts end) log.
Proof.
  revert err log. induction n as [|n IH]; intros err log -> Hn Herr; cbn [ping_loop].
  { destruct Herr as [Hz|[e ->]]; [discriminate Hz|]. apply always_yield. by rewrite Nat.sub_0_r. }
  apply always_bind, always_act; [done|]. intros e a log' _ [= <- <-]. destruct e as [e|].
  - apply always_bind, always_act; [done|]. intros e' a log' _ [= <- <-]. apply IH; [|lia|by right].
    replace (pingAttempts - n)%nat with (pingAttempts - S n + 1)%nat by lia.
    unfold attempts. rewrite repeat_app, concat_app. cbn [repeat concat app]. by rewrite <- !(assoc_L (++)).
  - apply always_yield. exists (pingAttempts - S n)%nat. split; [lia|]. by rewrite <- (assoc_L (++)).
Qed.

(** What a run of [Migrate] called, by its result: nothing is migrated before a ping was answered, and
    the connection is closed however it ends. *)
Definition migrate_calls (dsn : string) (k : nat) (r : result DBError ()) : list db_call :=
  match r with
  | Err (OpenMigrationConnection _) => [SqlOpen dsn]
  | Err (OpenPoolError _) => []
  | Err (WaitForDatabase _) => SqlOpen dsn :: attempts pingAttempts ++ [SqlClose]
  | Err (SetGooseDialect _) => SqlOpen dsn :: attempts k ++ [Ping; SetDialect "postgres"; SqlClose]
  | Err (RunMigrations _) | Ok _ => SqlOpen dsn :: attempts k ++ [Ping; SetDialect "postgres"; Up "."; SqlClose]
  end.

Lemma migrate_story log0 :
  always any (λ _, True) migrate (λ r log, ∃ k, (k < pingAttempts)%nat ∧ (∀ e, r ≠ Err (OpenPoolError e)) ∧
    (∀ e, r ≠ Err (OpenMigrationConnection e)) ∧
    ∀ dsn pre, log0 = pre ++ [SqlOpen dsn] → log ++ [SqlClose] = pre ++ migrate_calls dsn k r) log0.
Proof.
  unfold migrate. apply always_bindE, always_bind. unfold pingWithRetry.
  eapply always_mono; [|apply (ping_story _ _ log0); [|lia|by left]].
  2: { rewrite Nat.sub_diag. unfold attempts. cbn [repeat concat]. by rewrite app_nil_r. }
  intros [e|] log; cbn [wrapped].
  { intros ->. apply always_yield. exists O. split_and!; [cbv; lia|done|done|]. intros dsn pre ->.
    cbn [migrate_calls]. by rewrite <- !(assoc_L (++)). }
  intros (k & Hk & ->). apply always_yield.
  apply always_bindE, always_bind, always_act; [done|]. intros e a log' _ [= <- <-]. apply always_yield.
  destruct e as [e|]; cbn [wrapped].
  { exists k. split_and!; [done|done|done|]. intros dsn pre ->. cbn [migrate_calls]. by rewrite <- !(assoc_L (++)). }
  apply always_bind, always_act; [done|]. intros e a log' _ [= <- <-]. apply always_yield.
  exists k. destruct e as [e|]; cbn [wrapped]; split_and!; try done; intros dsn pre ->; cbn [migrate_calls];
    by rewrite <- !(assoc_L (++)).
Qed.

Theorem Migrate_story dsn log cs r log' cs' :
  Migrate dsn log cs = Finished r log' cs' → ∃ k, (k < pingAttempts)%nat ∧ log' = log ++ migrate_calls dsn k r.
Proof.
  intros E.
  assert (H : always any (λ _, True) (Migrate dsn) (λ r log', ∃ k, (k < pingAttempts)%nat ∧ log' = log ++ migrate_calls dsn k r) log).
  { unfold Migrate. apply always_bind, always_act; [done|]. intros e a log1 _ [= <- <-]. destruct e as [e|].
    { apply always_yield. exists O. split; [cbv; lia|done]. }
    apply always_bind. eapply always_mono; [|apply migrate_story]. intros r1 log1 (k & Hk & _ & _ & Hlog).
    apply always_bind, always_act; [done|]. intros e a log2 _ [= <- <-]. apply always_yield.
    exists k. split; [done|]. by apply Hlog. }
  specialize (H cs (any_all cs)). rewrite E in H. exact (proj2 H).
Qed.

(** It ends: ten pings, ten pauses and four calls at most. *)
Lemma within_db_call c : within 1 (call c).
Proof. apply within_act. Qed.

Lemma within_ping_loop n err : within (2 * n) (ping_loop n err).
Proof.
  revert err. induction n as [|n IH]; intros err; cbn [ping_loop]; [apply within_yield|].
  replace (2 * S n)%nat with (1 + (1 + 2 * n))%nat by lia. apply within_bind; [apply within_db_call|].
  intros [e|]; [|apply within_yield]. apply within_bind; [apply within_db_call|]. intros _. apply IH.
Qed.

Theorem Migrate_ends dsn : within 24 (Migrate dsn).
Proof.
  unfold Migrate. apply (within_bind _ _ 1 23); [apply within_db_call|]. intros [e|]; [apply within_yield|].
  apply (within_bind _ _ 22 1); [|intros r; apply (within_bind _ _ 1 0); [apply within_db_call|intros e; apply within_yield]].
  unfold migrate. apply (within_bindE _ _ 20 2).
  { apply (within_bind _ _ 20 0); [apply (within_ping_loop 10)|]. intros e. apply within_yield. }
  intros _. apply (within_bindE _ _ 1 1); [apply (within_bind _ _ 1 0); [apply within_db_call|intros e; apply within_yield]|].
  intros _. apply (within_bind _ _ 1 0); [apply within_db_call|intros e; apply within_yield].
Qed.

(** Two refusals, then an answer. *)
Example migrates_after_two_refusals :
  Migrate "dsn" [] [None; Some "refused"; None; Some "refused"; None; None; None; None; None]
  = Finished (Ok ()) ([SqlOpen "dsn"; Ping; Sleep pingPause; Ping; Sleep pingPause; Ping; SetDialect "postgres"; Up "."; SqlClose]) [].
Proof. vm_compute. reflexivity. Qed.
