(* ===== verification/SeedCmd.v ===== *)
(** * SeedCmd: the seed command

    [gateway-go/cmd/seed/main.go] and [LoadFixture] of seed/fixture.go around the run of SeedRun.v: the
    environment, the random seed, the fixture, the pool of Database.v, the report and the exit code. *)

From S2P Require Import Prelude Digits Net KeyStore Store Script Seed SeedRun Config Database.
Local Open Scope Z_scope.
Local Open Scope script_scope.

Definition httpTimeout : duration := 40 * Second.
Definition settleTimeout : duration := 60 * Second.
Definition pollInterval : duration := Second.

Inductive SeedError :=
  | NoDatabaseURL
  | BadSeed (raw : string)
  | ReadFixture (path : string) | ParseFixture (path : string)
  | OpenAcquirer (e : DBError)
  | RunFailed (e : RunError).

(** What the process has: the run's clock and calls, the pool, what it printed, and the line on its
    standard error. *)
Record Shell := mkShell {
  sh_run : World; sh_db : list db_call; sh_open : bool; sh_out : list string; sh_err : option SeedError }.

(** What happens at one call: the run's reply, the text of a file, or the error of the pool. *)
Record turn := mkTurn { t_reply : reply; t_file : option string; t_db : option string }.

Abbreviation cmd_of A := (@script Shell turn A).
Abbreviation cmdE A := (@script Shell turn (result SeedError A)).

Definition running {A} (p : run_of A) : cmd_of A :=
  zoom sh_run (λ w sh, mkShell w (sh_db sh) (sh_open sh) (sh_out sh) (sh_err sh)) t_reply p.
Definition on_db {A} (p : db_of A) : cmd_of A :=
  zoom sh_db (λ d sh, mkShell (sh_run sh) d (sh_open sh) (sh_out sh) (sh_err sh)) t_db p.

Definition set_pool (b : bool) (sh : Shell) : Shell := mkShell (sh_run sh) (sh_db sh) b (sh_out sh) (sh_err sh).
Definition print_lines (ls : list string) (sh : Shell) : Shell :=
  mkShell (sh_run sh) (sh_db sh) (sh_open sh) (sh_out sh ++ ls) (sh_err sh).
Definition complain (e : SeedError) (sh : Shell) : Shell :=
  mkShell (sh_run sh) (sh_db sh) (sh_open sh) (sh_out sh) (Some e).

Definition envOr (getenv : string → string) (key fallback : string) : string :=
  if negb (String.eqb (getenv key) "") then getenv key else fallback.

(** The clock in nanoseconds when SEED is not set. *)
Definition randomSeed (raw : string) : cmdE Z :=
  if String.eqb raw "" then now <~ gets (λ sh, now_ (sh_run sh)); yield (Ok now)
  else yield (match ParseInt raw with Some v => Ok v | None => Err (BadSeed raw) end).

(** [%v] of a map, which [fmt] prints in the order of its keys. *)
Definition by_key (m : gmap string Z) : list (string * Z) :=
  merge_sort (λ a b : string * Z, Is_true (String.leb a.1 b.1)) (map_to_list m).
Definition map_text (m : gmap string Z) : string :=
  "map[" +:+ String.concat " " (map (λ kv : string * Z, kv.1 +:+ ":" +:+ Itoa kv.2) (by_key m)) +:+ "]".

Definition report (sum : Summary) (randSeed : Z) : list string :=
  ("seeded " +:+ Itoa (Planned sum) +:+ " transactions (SEED=" +:+ Itoa randSeed +:+ "): " +:+ map_text (Outcomes sum)
   +:+ ", " +:+ Itoa (Reversed sum) +:+ " reversed")
  :: map (λ m, "  unexpected outcome: " +:+ m) (Mismatches sum).

Section command.
(** [rand.NewSource], the reading of the JSON, and the order of a Go map. *)
Context {R : Type} {G : Rand R} (NewSource : Z → R) (Unmarshal : string → option Fixture).
Context (map_order : gset string → list string).

Definition LoadFixture (path : string) : cmdE Fixture :=
  text <~ act (λ t sh, (t_file t, sh));
  yield (match text with
         | None => Err (ReadFixture path)
         | Some text => match Unmarshal text with None => Err (ParseFixture path) | Some f => Ok f end
         end).

Definition openAcquirer (dsn : string) : cmdE () :=
  opened <~ on_db (Open dsn);
  match opened with Err e => yield (Err (OpenAcquirer e)) | Ok _ => modify (set_pool true) ;;~ yield (Ok ()) end.

Definition cmd_run (getenv : string → string) : cmdE () :=
  let dsn := getenv "DATABASE_URL" in
  if String.eqb dsn "" then yield (Err NoDatabaseURL)
  else
    randSeed <~! randomSeed (getenv "SEED");
    fixture <~! LoadFixture (envOr getenv "FIXTURE" "../contracts/fixtures/cards.json");
    openAcquirer dsn ;;~!
    r <~ running (Run fixture settleTimeout pollInterval map_order (NewSource randSeed));
    let '(sum, err) := r in
    modify (print_lines (report sum randSeed)) ;;~
    modify (set_pool false) ;;~                            (* the deferred [pool.Close] *)
    yield (match err with None => Ok () | Some e => Err (RunFailed e) end).

Definition cmd_main (getenv : string → string) : cmd_of Z :=
  r <~ cmd_run getenv;
  match r with Ok _ => yield 0 | Err e => modify (complain e) ;;~ yield 1 end.

(** ** What its end says *)

(** The seed a run may have used. *)
Definition seed_used (getenv : string → string) (n : Z) : Prop :=
  getenv "SEED" ≠ "" → ParseInt (getenv "SEED") = Some n.

Definition cmd_ended (getenv : string → string) (sh : Shell) (r : result SeedError ()) (sh' : Shell) : Prop :=
  sh_open sh' = false ∧ sh_err sh' = sh_err sh ∧
  match r with
  | Ok _ => ∃ n sum text fixture, seed_used getenv n ∧ Unmarshal text = Some fixture ∧
      did_its_plan fixture (NewSource n) (sh_run sh) (sh_run sh') sum ∧
      sh_out sh' = sh_out sh ++ report sum n
  | Err (RunFailed _) => ∃ n sum, seed_used getenv n ∧ sh_out sh' = sh_out sh ++ report sum n
  | Err _ => sh_run sh' = sh_run sh ∧ sh_out sh' = sh_out sh
  end.

Lemma randomSeed_spec getenv (I : Shell → Prop) sh :
  always any I (randomSeed (getenv "SEED"))
    (λ r sh', sh' = sh ∧ match r with Ok n => seed_used getenv n | Err e => e = BadSeed (getenv "SEED") end) sh.
Proof.
  unfold randomSeed, seed_used. destruct (String.eqb_spec (getenv "SEED") "") as [E|E].
  - apply always_bind, always_gets, always_yield. done.
  - apply always_yield. split; [done|]. by destruct (ParseInt _).
Qed.

Lemma cmd_run_spec getenv sh :
  sh_open sh = false → always any (λ _, True) (cmd_run getenv) (cmd_ended getenv sh) sh.
Proof.
  intros Hsh. unfold cmd_run, cmd_ended. destruct (String.eqb _ ""); [by apply always_yield|].
  apply always_bindE. eapply always_mono; [|apply randomSeed_spec]. intros [n|e] ? [-> Hn]; [|by subst e].
  apply always_bindE. unfold LoadFixture. apply always_bind, always_act; [done|]. intros t text ? _ [= <- <-].
  apply always_yield. destruct (t_file t) as [text|]; [|done]. destruct (Unmarshal text) as [fixture|] eqn:Efix; [|done].
  apply always_bindE. unfold openAcquirer, on_db. apply always_bind.
  eapply (always_zoom _ _ _ _ any _ any (λ _, True) _ (λ _ _, True)); [|done|done|].
  { unfold Open, call. apply always_bind, always_act; [done|]. intros ? ? ? _ _. by apply always_yield. }
  intros [u|e] d _; [|by apply always_yield].
  apply always_bind, always_modify, always_yield. apply always_bind. unfold running.
  eapply (always_zoom _ _ _ _ any _ any (λ _, True) _ _); [apply Run_did|done|done|].
  intros [sum err] w Hrun. cbn [snd fst] in Hrun.
  apply always_bind, always_modify, always_bind, always_modify, always_yield.
  cbn [sh_open sh_err sh_run sh_out set_pool print_lines] in *.
  destruct err as [e|]; split_and!; try done; exists n, sum; [done|]. exists text, fixture. split_and!; try done. by apply Hrun.
Qed.

(** C24. The exit code of the seed command.  It is 0 only when the report was printed and the run did all it
    had to with the fixture read, every call answered as expected: the stack was prepared (link signed on,
    limit set), every purchase of the plan drawn from SEED (or the clock) answered 201, every planned
    cancellation accepted with 202, the reversals polled, and every purchase made backdated.  Otherwise it
    is 1, with an error on the standard error; the pool is closed either way, and a command that fails
    before its run has asked the stack nothing.  Purchases that miss their outcome and reversals that are
    not seen in time are no failure: they are in the report. *)
Theorem seed_exit_code getenv sh cs code sh' cs' :
  sh_open sh = false → sh_err sh = None → cmd_main getenv sh cs = Finished code sh' cs' →
  sh_open sh' = false ∧
  match sh_err sh' with
  | None => code = 0 ∧ ∃ n sum text fixture, seed_used getenv n ∧ Unmarshal text = Some fixture ∧
      did_its_plan fixture (NewSource n) (sh_run sh) (sh_run sh') sum ∧
      sh_out sh' = sh_out sh ++ report sum n
  | Some (RunFailed _) => code = 1 ∧ ∃ n sum, seed_used getenv n ∧ sh_out sh' = sh_out sh ++ report sum n
  | Some _ => code = 1 ∧ sh_run sh' = sh_run sh ∧ sh_out sh' = sh_out sh
  end.
Proof.
  intros Ho He E. unfold cmd_main, sbind in E. pose proof (cmd_run_spec getenv sh Ho cs (any_all cs)) as H.
  destruct (cmd_run getenv sh cs) as [|[u|e] sh1 cs1]; [discriminate E|..]; destruct H as (_ & Hc & Hn & H).
  - injection E as <- <- _. rewrite Hn, He. done.
  - injection E as <- <- _. cbn [sh_err sh_open sh_run sh_out complain] in *. by destruct e.
Qed.

(** ** It ends *)

Context {L : RandLaws R} (Horder : ∀ X, map_order X ≡ₚ elements X).

Theorem seed_command_ends getenv : within 15686 (cmd_main getenv).
Proof.
  unfold cmd_main. apply (within_bind _ _ 15686 0).
  2: { intros [u|e]; [apply within_yield|]. apply (within_bind _ _ 0 0); [apply within_modify|intros ?; apply within_yield]. }
  unfold cmd_run. destruct (String.eqb _ ""); [apply within_yield|]. apply (within_bindE _ _ 0 15686).
  { unfold randomSeed. destruct (String.eqb _ ""); [|apply within_yield].
    apply (within_bind _ _ 0 0); [apply within_gets|intros ?; apply within_yield]. }
  intros n. apply (within_bindE _ _ 1 15685).
  { unfold LoadFixture. apply (within_bind _ _ 1 0); [apply within_act|intros ?; apply within_yield]. }
  intros f. apply (within_bindE _ _ 1 15684).
  { unfold openAcquirer. apply (within_bind _ _ 1 0).
    - apply within_zoom. unfold Open. apply (within_bind _ _ 1 0); [apply within_act|intros ?; apply within_yield].
    - intros [u|e]; [|apply within_yield]. apply (within_bind _ _ 0 0); [apply within_modify|intros ?; apply within_yield]. }
  intros _. apply (within_bind _ _ 15684 0).
  { apply within_zoom. exact (@seed_ends f settleTimeout pollInterval map_order 60 ltac:(done) ltac:(done) Horder R G L (NewSource n)). }
  intros [sum err]. apply (within_bind _ _ 0 0); [apply within_modify|]. intros ?.
  apply (within_bind _ _ 0 0); [apply within_modify|intros ?; apply within_yield].
Qed.
End command.

(** ** A run to evaluate *)

Definition demo_env (key : string) : string :=
  if String.eqb key "DATABASE_URL" then "postgres://acquirer" else if String.eqb key "SEED" then "42" else "".
Definition demo_shell : Shell := mkShell demo_start [] false [] None.
Definition demo_turns : list turn :=
  map (λ r, mkTurn r (Some "{}") None) (repeat (answer_ 200 no_purchase) 2 ++ demo_replies).

Definition demo_command : @ended Shell turn Z :=
  cmd_main id (λ _, Some demo_fixture) elements demo_env demo_shell demo_turns.

Definition is_finished (e : @ended Shell turn Z) : bool := match e with Finished _ _ _ => true | Stopped _ => false end.

(** A seed that is no number stops the command before it reads its fixture. *)
Example bad_seed :
  cmd_main id (λ _, Some demo_fixture) elements (λ key, if String.eqb key "SEED" then "x" else demo_env key) demo_shell []
  = Finished 1 (complain (BadSeed "x") demo_shell) [].
Proof. vm_compute. reflexivity. Qed.

Lemma seed_exit_code_witness :
  sh_out (left_by demo_command) =
    ["seeded 246 transactions (SEED=42): map[51:7 54:2 61:4 62:2 APPROVED:231], 2 reversed"] ∧
  sh_open (left_by demo_command) = false ∧ result_of demo_command = Some 0 ∧
  ∃ n sum text fixture, seed_used demo_env n ∧ (λ _ : string, Some demo_fixture) text = Some fixture ∧
    did_its_plan fixture n (sh_run demo_shell) (sh_run (left_by demo_command)) sum ∧
    sh_out (left_by demo_command) = sh_out demo_shell ++ report sum n.
Proof.
  split; [vm_compute; reflexivity|].
  assert (Hf : is_finished demo_command = true) by (vm_compute; reflexivity).
  assert (Hn : sh_err (left_by demo_command) = None) by (vm_compute; reflexivity).
  assert (H : ∀ e, cmd_main id (λ _, Some demo_fixture) elements demo_env demo_shell demo_turns = e → is_finished e = true →
    sh_err (left_by e) = None → sh_open (left_by e) = false ∧ result_of e = Some 0 ∧
    ∃ n sum text fixture, seed_used demo_env n ∧ (λ _ : string, Some demo_fixture) text = Some fixture ∧
      did_its_plan fixture n (sh_run demo_shell) (sh_run (left_by e)) sum ∧
      sh_out (left_by e) = sh_out demo_shell ++ report sum n).
  { clear. intros [sh|code sh' cs'] E Hf Hn; [discriminate Hf|]. cbn [left_by result_of] in *.
    destruct (seed_exit_code id (λ _, Some demo_fixture) elements demo_env demo_shell demo_turns code sh' cs'
                eq_refl eq_refl E) as [Ho H].
    rewrite Hn in H. destruct H as [-> H]. exact (conj Ho (conj eq_refl H)). }
  exact (H demo_command eq_refl Hf Hn).
Defined.
