(* ===== verification/FakeIssuer.v ===== *)
(** * FakeIssuer: the issuer that never answers

    [chaos/fakeissuer/listener.go], which the scenario DROP_RESPONSE connects the gateway to: the loop that
    accepts and the goroutine of each connection, as a step relation over both and the end of their context. *)

From S2P Require Import Prelude Digits CodecBounds Net.
Local Open Scope Z_scope.

(** A connection: what it received of its frame, then the wait for the context, then its [Close]. *)
Inductive handler := Reading (received : string) | Parked | Closed.

Record Listener := mkListener {
  listening : bool;
  ctx_done : bool;
  handlers : gmap nat handler;
  served : option (option string) }.      (* what [Serve] returned, [Some None] being nil *)

Definition NewListener : Listener := mkListener true false ∅ None.

(** [handle]: [ReadFrame] blocks until the frame is there or can't be; its result is dropped. *)
Definition handle (received : string) : handler :=
  match ReadFrame received with
  | Ok _ | Err (FrameTooLarge _) => Parked
  | Err _ => Reading received
  end.

Definition set_handler (c : nat) (h : handler) (l : Listener) : Listener :=
  mkListener (listening l) (ctx_done l) (<[c := h]> (handlers l)) (served l).

Inductive step (l : Listener) : Listener → Prop :=
  | st_cancel : step l (mkListener (listening l) true (handlers l) (served l))
  | st_close : ctx_done l = true → step l (mkListener false (ctx_done l) (handlers l) (served l))
  | st_accept c : served l = None → listening l = true → handlers l !! c = None → step l (set_handler c (handle "") l)
  | st_accept_fails e : served l = None →
      step l (mkListener (listening l) (ctx_done l) (handlers l) (Some (if ctx_done l then None else Some e)))
  | st_receive c s chunk : handlers l !! c = Some (Reading s) → step l (set_handler c (handle (s +:+ chunk)) l)
  | st_peer_gone c s : handlers l !! c = Some (Reading s) → step l (set_handler c Parked l)
  | st_leave c : handlers l !! c = Some Parked → ctx_done l = true → step l (set_handler c Closed l).

(** ** What a connection sees *)

Record listener_ok (l : Listener) : Prop := {
  lo_closed c : handlers l !! c = Some Closed → ctx_done l = true;
  lo_nil : served l = Some None → ctx_done l = true;
  lo_listening : listening l = false → ctx_done l = true
}.

Lemma handle_open s : handle s ≠ Closed.
Proof. unfold handle. by destruct (ReadFrame s) as [|[]]. Qed.

Lemma listener_step_ok l l' : step l l' → listener_ok l → listener_ok l'.
Proof.
  intros Hs [Hc Hn Hl].
  assert (Hset : ∀ c h, (h = Closed → ctx_done l = true) → listener_ok (set_handler c h l)).
  { intros c h Hh. split; cbn; [|done|done]. intros c' [[_ Hx]|[_ Hx]]%lookup_insert_Some; [by apply Hh|by eapply Hc]. }
  destruct Hs as [|Hd|c|e Hs|c s chunk|c s|c _ Hd]; try (apply Hset; intros Hx; (done || by apply handle_open in Hx)).
  - by split.
  - split; cbn; [done|done|by intros _].
  - split; cbn; [done| |done]. by destruct (ctx_done l).
Qed.

(** However long it waits, a connection is not closed from this side, and [Serve] does not return nil,
    before the context is done. *)
Theorem held_until_done l :
  rtc step NewListener l →
  (∀ c, handlers l !! c = Some Closed → ctx_done l = true) ∧ (served l = Some None → ctx_done l = true).
Proof.
  intros Hr. cut (listener_ok l); [intros []; split; assumption|].
  assert (H0 : listener_ok NewListener) by (split; cbn; [intros c; by rewrite lookup_empty|done|done]).
  revert H0. induction Hr as [|l1 l2 l3 H12 _ IH]; intros H; [done|]. by apply IH, (listener_step_ok l1).
Qed.

(** ** One frame is read, however it is cut *)

Lemma ReadFrame_short p t u :
  Z.of_nat (slen p) ≤ maxFrameSize → t +:+ u = frame p → u ≠ "" →
  match ReadFrame t with Err (ReadHeader _) | Err (ReadPayload _) => True | _ => False end.
Proof.
  intros Hp E Hu. unfold ReadFrame. destruct t as [|x [|y t]]; [exact I..|].
  unfold frame, PutUint16 in E. cbn [String.append] in E. injection E as Hx Hy Ht. change (t +:+ u = p) in Ht.
  assert (HF : ReadFull 2 (String x (String y t)) = Ok (String x (String y ""), t)) by reflexivity.
  rewrite HF. assert (HU : Uint16 (String x (String y "")) = Z.of_nat (slen p)).
  { rewrite Hx, Hy. assert (H := Uint16_PutUint16 (Z.of_nat (slen p)) ""). unfold PutUint16 in H. cbn [String.append] in H.
    apply H. unfold maxFrameSize in Hp. lia. }
  rewrite HU, (proj2 (Z.ltb_ge _ _)), Nat2Z.id by done. unfold ReadFull.
  rewrite (proj2 (Nat.leb_gt _ _)); [done|]. rewrite <- Ht, slen_app. destruct u as [|z u]; [done|]. cbn [slen]. lia.
Qed.

Lemma handle_short p s u :
  Z.of_nat (slen p) ≤ maxFrameSize → s +:+ u = frame p → u ≠ "" → handle s = Reading s.
Proof.
  intros Hp E Hu. pose proof (ReadFrame_short p s u Hp E Hu) as H. unfold handle. by destruct (ReadFrame s) as [|[]].
Qed.

Lemma handle_frame p : Z.of_nat (slen p) ≤ maxFrameSize → handle (frame p) = Parked.
Proof. intros Hp. unfold handle. rewrite <- (app_nil_str (frame p)). by rewrite ReadFrame_frame. Qed.

(** What the bytes of a frame, in any chunks, make of a connection. *)
Definition received_all (chunks : list string) (h : handler) : handler :=
  fold_left (λ h chunk, match h with Reading s => handle (s +:+ chunk) | h => h end) chunks h.

Lemma received_parked chunks : received_all chunks Parked = Parked.
Proof. by induction chunks. Qed.

Lemma concat_cons_str c (cs : list string) : String.concat "" (c :: cs) = c +:+ String.concat "" cs.
Proof. destruct cs; cbn [String.concat]; [by rewrite app_nil_str|done]. Qed.

Lemma concat_drop_nil n (cs : list string) : String.concat "" cs = "" → String.concat "" (drop n cs) = "".
Proof.
  revert n. induction cs as [|c cs IH]; intros [|n] E; try done. cbn [drop]. apply IH.
  rewrite concat_cons_str in E. by destruct c.
Qed.

(** A connection waits until the frame is complete and for nothing after it. *)
Theorem handler_reads_one_frame p s chunks :
  Z.of_nat (slen p) ≤ maxFrameSize → s +:+ String.concat "" chunks = frame p →
  received_all chunks (handle s) = Parked ∧
  ∀ n, String.concat "" (drop n chunks) ≠ "" →
    received_all (take n chunks) (handle s) = Reading (s +:+ String.concat "" (take n chunks)).
Proof.
  intros Hp. revert s. induction chunks as [|chunk chunks IH]; intros s E.
  { cbn [String.concat] in E. rewrite app_nil_str in E. rewrite E, handle_frame by done. split; [done|]. by intros []. }
  destruct (decide (String.concat "" (chunk :: chunks) = "")) as [Hz|Hz].
  - rewrite Hz, app_nil_str in E. rewrite E, handle_frame, received_parked by done. split; [done|].
    intros n Hn. by apply (concat_drop_nil n) in Hz.
  - rewrite (handle_short p s _ Hp E Hz). rewrite concat_cons_str, <- app_assoc_str in E.
    destruct (IH (s +:+ chunk) E) as [IH1 IH2]. split; [exact IH1|]. intros [|n] Hn.
    + cbn. by rewrite app_nil_str.
    + cbn [take drop] in *. rewrite concat_cons_str, <- app_assoc_str. by apply IH2.
Qed.

(** The frame of an echo in three chunks. *)
Example reads_in_chunks :
  received_all [String "000"%char ""; String "004"%char "08"; "00"; "more"] (handle "") = Parked ∧
  received_all [String "000"%char ""; String "004"%char "08"] (handle "")
  = Reading (String "000"%char (String "004"%char "08")).
Proof. split; vm_compute; reflexivity. Qed.
