(* ===== verification/Generate.v ===== *)
(** * Generate: the two programs that write Go tables

    [iso8583/gen/main.go] and [purchase/gen/main.go], which write spec_gen.go and cards_gen.go.  The YAML and
    JSON readers and [go/format] are arguments; a Go map is a [gmap] with the order it is iterated in. *)

From Stdlib Require Import Sorting.Sorted.
From S2P Require Import Prelude Digits Saf.
Local Open Scope Z_scope.

Definition tab : string := String "009"%char "".
Definition eol : string := String "010"%char "".

(** How [main] ends: with the file written, or in [log.Fatal]. *)
Inductive generated := Wrote (path text : string) | Fatal.

(** What both do with what they rendered. *)
Definition format_and_write (Source : string → option string) (write_fails : bool) (path text : string) : generated :=
  match Source text with
  | None => Fatal
  | Some formatted => if write_fails then Fatal else Wrote path formatted
  end.

(** ** The field table *)

Record rawField := mkRawField { f_name : string; f_type : string; f_length : Z; f_prefix : string; f_sensitive : string }.
Definition no_field : rawField := mkRawField "" "" 0 "" "".

(** [%q] of the plain texts the specification has. *)
Definition field_line (n : Z) (f : rawField) : string :=
  tab +:+ Itoa n +:+ ": {Number: " +:+ Itoa n +:+ ", Type: " +:+ Quote (f_type f) +:+ ", Length: " +:+ Itoa (f_length f)
  +:+ ", Prefix: " +:+ Quote (f_prefix f) +:+ ", Name: " +:+ Quote (f_name f) +:+ ", Sensitive: " +:+ Quote (f_sensitive f)
  +:+ "}, // " +:+ f_name f +:+ eol.

(** [sort.Ints]. *)
Definition sort_Ints (l : list Z) : list Z := merge_sort Z.le l.

Section spec.
Context (map_order : gmap Z rawField → list Z).

Definition spec_numbers (fields : gmap Z rawField) : list Z := sort_Ints (map_order fields).

Definition spec_text (fields : gmap Z rawField) : string :=
  "// Code generated from contracts/iso8583/packager-spec.yaml by internal/iso8583/gen. DO NOT EDIT." +:+ eol
  +:+ "package iso8583" +:+ eol +:+ eol
  +:+ "// Fields is the MCN-87A field table (docs/03 §3)." +:+ eol
  +:+ "var Fields = map[int]FieldSpec{" +:+ eol
  +:+ String.concat "" (map (λ n, field_line n (default no_field (fields !! n))) (spec_numbers fields))
  +:+ "}" +:+ eol.

Definition spec_main (file : option string) (Unmarshal : string → option (gmap Z rawField))
    (Source : string → option string) (write_fails : bool) : generated :=
  match file with
  | None => Fatal
  | Some data =>
      match Unmarshal data with
      | None => Fatal
      | Some fields => format_and_write Source write_fails "spec_gen.go" (spec_text fields)
      end
  end.
End spec.

(** ** The cards *)

Record rawCard := mkRawCard {
  c_token : string; c_ref : string; c_pan : string; c_expiry : string; c_balance : Z; c_currency : string }.

Definition card_line (c : rawCard) : string :=
  tab +:+ Quote (c_token c) +:+ ": {PAN: " +:+ Quote (c_pan c) +:+ ", ExpiryYYMM: " +:+ Quote (c_expiry c) +:+ ", Balance: "
  +:+ Itoa (c_balance c) +:+ ", Currency: " +:+ Quote (c_currency c) +:+ ", CardRef: " +:+ Quote (c_ref c) +:+ "}," +:+ eol.

Definition cards_text (cards : list rawCard) : string :=
  "// Code generated from contracts/fixtures/cards.json by internal/purchase/gen. DO NOT EDIT." +:+ eol
  +:+ "package purchase" +:+ eol +:+ eol
  +:+ "// defaultCards maps a simulator cardToken to its fixture PAN, expiry, balance, currency and issuer cardRef (see cardtokens.go's Ruling)."
  +:+ eol +:+ "var defaultCards = map[string]CardFixture{" +:+ eol
  +:+ String.concat "" (map card_line cards) +:+ "}" +:+ eol.

Definition cards_main (file : option string) (Unmarshal : string → option (list rawCard))
    (Source : string → option string) (write_fails : bool) : generated :=
  match file with
  | None => Fatal
  | Some data =>
      match Unmarshal data with
      | None => Fatal
      | Some cards => format_and_write Source write_fails "cards_gen.go" (cards_text cards)
      end
  end.

(** ** The table does not depend on Go's map order *)

Lemma sort_Ints_sorted l : StronglySorted Z.le (sort_Ints l).
Proof. apply (StronglySorted_merge_sort Z.le). Qed.

Lemma spec_numbers_once map_order fields :
  (∀ m, map_order m ≡ₚ map fst (map_to_list m)) →
  NoDup (spec_numbers map_order fields) ∧ ∀ n, n ∈ spec_numbers map_order fields ↔ is_Some (fields !! n).
Proof.
  intros Ho. assert (Hp : spec_numbers map_order fields ≡ₚ map fst (map_to_list fields)).
  { unfold spec_numbers, sort_Ints. by rewrite merge_sort_Permutation. }
  split.
  - rewrite Hp. exact (NoDup_fst_map_to_list fields).
  - intros n. rewrite Hp, list_elem_of_fmap. split.
    + intros ((n' & f) & -> & Hf%elem_of_map_to_list). by exists f.
    + intros [f Hf]. exists (n, f). split; [done|by apply elem_of_map_to_list].
Qed.

(** Every run on one specification writes the same file: each field once, in the order of the numbers. *)
Theorem spec_is_reproducible order1 order2 file Unmarshal Source write_fails :
  (∀ m, order1 m ≡ₚ map fst (map_to_list m)) → (∀ m, order2 m ≡ₚ map fst (map_to_list m)) →
  spec_main order1 file Unmarshal Source write_fails = spec_main order2 file Unmarshal Source write_fails ∧
  ∀ fields, StronglySorted Z.le (spec_numbers order1 fields) ∧ NoDup (spec_numbers order1 fields) ∧
    ∀ n, n ∈ spec_numbers order1 fields ↔ is_Some (fields !! n).
Proof.
  intros H1 H2. assert (Hn : ∀ fields, spec_numbers order1 fields = spec_numbers order2 fields).
  { intros fields. unfold spec_numbers. apply (StronglySorted_unique Z.le); try apply sort_Ints_sorted.
    unfold sort_Ints. by rewrite !merge_sort_Permutation, H1, H2. }
  split.
  - unfold spec_main. destruct file as [data|]; [|done]. destruct (Unmarshal data) as [fields|]; [|done].
    unfold spec_text. by rewrite Hn.
  - intros fields. split; [apply sort_Ints_sorted|by apply spec_numbers_once].
Qed.

(** Three fields of the specification, whatever order the map gives. *)
Definition demo_spec : gmap Z rawField :=
  {[ 39 := mkRawField "Response code" "an" 2 "" ""; 2 := mkRawField "PAN" "n" 19 "LL" "pan";
     128 := mkRawField "MAC 2" "b" 8 "" "mac" ]}.

Example fields_in_order :
  spec_numbers (λ _, [39; 128; 2]) demo_spec = [2; 39; 128] ∧ spec_numbers (λ _, [128; 2; 39]) demo_spec = [2; 39; 128].
Proof. split; vm_compute; reflexivity. Qed.
