(* ===== verification/Settle.v ===== *)
(** * Settle: once things work again, one sweep and one delivery make good what an outage left

    The other half of what the sweeper and the SAF worker are for: Saf.v shows that nothing is lost or
    acknowledged wrongly whatever fails, this file that everything is settled when nothing fails.  An
    environment is now a function that decides every event; it works when no call of the database is
    lost, the link is signed on and the issuer acknowledges advices. *)

From S2P Require Import Prelude Digits Fields Codec CodecSort Net Mux Aes KeyStore Mac Calendar Store Journey Prog Idempotency Advice.
From S2P Require Import Purchase Stage Outcome Saf Feed Api Accept.
Local Open Scope Z_scope.
Local Open Scope prog_scope.

(** ** Running against an environment *)

Definition environment := ∀ R : Type, event R → World → choice.

Fixpoint run_env {A} (env : environment) (p : prog A) (w : World) : A * World :=
  match p with
  | Ret a => (a, w)
  | Vis e k => let c := env _ e w in let '(r, w') := exec e c (tick c w) in run_env env (k r) w'
  end.

(** It is one of the runs of Prog.v. *)
Lemma run_env_run {A} env (p : prog A) w : ∃ cs, run p cs w = run_env env p w.
Proof.
  revert w. induction p as [a|R e k IH]; intros w; [by exists []|]. cbn [run_env].
  destruct (exec e (env R e w) (tick (env R e w) w)) as [r w'] eqn:E. destruct (IH r w') as [cs Hcs].
  exists (env R e w :: cs). cbn [run]. by rewrite E.
Qed.

Definition good (c : choice) : Prop :=
  c_fate c = Done ∧ c_flag c = true ∧ ∃ n, c_nonce c = Some n ∧ slen n = 12%nat.

(** The response [resp] carries a MAC under [zak]. *)
Definition signed {H : Module_} (zak mti : string) (resp : fieldmap) : Prop :=
  ∃ mac field packed, macFieldOf resp = Some (mac, field) ∧ Pack mti (delete field resp) = Ok packed ∧
    macMatches packed mac zak = true.

Record working {H : Module_} (zak : string) (env : environment) : Prop := {
  wk_good R e w : good (env R e w);
  wk_acknowledges mti f w : mti ∈ ["0420"; "0421"] → w_zak w = zak →
    ∃ resp, c_resp (env _ (ESend mti f) w) = Ok resp ∧ get resp 39 = acknowledged ∧ signed zak (responseMTI mti) resp
}.

Section env.
Context (env : environment).

Definition reaches {A} (p : prog A) (Q : A → World → Prop) (w : World) : Prop :=
  Q (run_env env p w).1 (run_env env p w).2.

Lemma reaches_Ret {A} (a : A) (Q : A → World → Prop) w : Q a w → reaches (Ret a) Q w.
Proof. done. Qed.

Lemma reaches_mono {A} (p : prog A) (Q Q' : A → World → Prop) w :
  (∀ a w, Q a w → Q' a w) → reaches p Q w → reaches p Q' w.
Proof. intros HQ. apply HQ. Qed.

Lemma reaches_pbind {A B} (f : A → prog B) (p : prog A) (Q : B → World → Prop) w :
  reaches p (λ a, reaches (f a) Q) w → reaches (pbind f p) Q w.
Proof.
  revert w. unfold reaches. induction p as [a|R e k IH]; intros w; cbn [run_env pbind]; [done|].
  destruct (exec e (env R e w) (tick (env R e w) w)) as [r w']. apply IH.
Qed.

Lemma reaches_bindE {A B} (p : progE A) (f : A → progE B) (Q : result error B → World → Prop) w :
  reaches p (λ r w, match r with Ok a => reaches (f a) Q w | Err e => Q (Err e) w end) w → reaches (bindE p f) Q w.
Proof. intros Hp. apply reaches_pbind. eapply reaches_mono; [|exact Hp]. by intros [a|e]. Qed.

(** Whatever every run does, this one does. *)
Lemma reaches_runs {A} I (p : prog A) (Q : A → World → Prop) w : runs I p Q w → reaches p Q w.
Proof. intros Hr. destruct (run_env_run env p w) as [cs Hcs]. unfold reaches. rewrite <- Hcs. by eapply runs_run. Qed.

Context (Hgood : ∀ R e w, good (env R e w)).

Lemma reaches_vis {R A} (e : event R) (k : R → prog A) Q w :
  (∀ c, c = env R e w → good c →
     let '(r, w') := exec e c (later w (now w + Z.max 0 (c_tick c)) (w_db w)) in reaches (k r) Q w') →
  reaches (Vis e k) Q w.
Proof.
  intros Hk. unfold reaches. cbn [run_env]. specialize (Hk _ eq_refl (Hgood R e w)).
  change (later w _ (w_db w)) with (tick (env R e w) w) in Hk.
  by destruct (exec e (env R e w) (tick (env R e w) w)) as [r w'].
Qed.

Lemma reaches_db {A B} (q : query A) (k : result error A → prog B) Q w :
  (∀ n, now w ≤ n → let '(r, d) := exec_query q n (w_db w) in reaches (k r) Q (later w n d)) →
  reaches (Vis (EDb q) k) Q w.
Proof.
  intros Hk. apply reaches_vis. intros c _ (Hf & _). cbn [exec w_db later now]. rewrite Hf. cbn [exec_db].
  specialize (Hk (now w + Z.max 0 (c_tick c)) ltac:(lia)). by destruct (exec_query q _ (w_db w)) as [r d].
Qed.

Lemma reaches_now {A} (k : time → prog A) Q w :
  (∀ n, now w ≤ n → reaches (k n) Q (later w n (w_db w))) → reaches (Vis ENow k) Q w.
Proof. intros Hk. apply reaches_vis. intros c _ _. cbn [exec later now]. apply Hk. lia. Qed.
End env.

(** ** Advices that can be sent *)

Section settle.
Context (lmk : string) {J : AdviceJSON} (encKey : string) (cards : CardTokenRegistry) (backoff : Backoff).
Context (zak : string) (env : environment).
#[local] Instance settle_hsm : Module_ := JCEModule lmk.
#[local] Instance settle_queuer : SAFQueuer := saf_queuer encKey.
Hypotheses (Hwork : working zak env) (Hzak : slen zak = 16%nat) (Hkey : encKey = "" ∨ is_ok (newGCM encKey) = true).

Definition known_card (token : string) : Prop := ∃ c, cards !! token = Some c ∧ card_ok c = true.

(** What the gateway knows of a row it once sent, enough to reverse it. *)
Record advisable (t : TranLogRow) : Prop := {
  av_sent : is_Some (SentAt t);
  av_stan : numeral 6 (NetworkSTAN t);
  av_mti : MTI t = "" ∨ numeral 4 (MTI t);
  av_code : numeral 6 (ProcessingCode t);
  av_amount : 0 ≤ tAmount t ≤ maxAmount;
  av_mode : numeral 3 (POSEntryMode t);
  av_rrn : slen (RRN t) = 12%nat ∧ ascii_text (RRN t) = true;
  av_terminal : slen (TerminalID t) = 8%nat ∧ ascii_text (TerminalID t) = true;
  av_merchant : slen (MerchantID t) = 15%nat ∧ ascii_text (MerchantID t) = true;
  av_currency : numeral 3 (tCurrency t);
  av_card : known_card (CardToken t) ∧ ascii_text (CardToken t) = true
}.

Record sendable (adv : advice) : Prop := {
  sd_fits : fits_all (Fields adv);
  sd_ascii : ascii_advice adv;
  sd_long : is_Some (Fields adv !! 90);
  sd_card : known_card (CardToken_ adv)
}.

Lemma numeral_ascii w s : numeral w s → ascii_text s = true.
Proof. intros [_ Hd]. by apply str_forall_digit_ascii. Qed.

Lemma DE15_numeral t : numeral 4 (originalDE15 t).
Proof. unfold originalDE15, MMDD. case_match; apply MMDD_numeral. Qed.

(** The 0420 of such a row, for a timeout or a bad MAC. *)
Lemma advice_sendable t reason :
  advisable t → numeral 2 reason → ∃ adv, reversalAdvice t reason = Ok adv ∧ sendable adv ∧ Fields adv !! 11 = None.
Proof.
  intros [[sent Hs] Hstan Hmti Hcode Hamount Hmode [Hr Hra] [Ht Hta] [Hm Hma] Hcur [Hcard Htok]] Hreason.
  unfold reversalAdvice. rewrite Hs. destruct (String.eqb_spec (NetworkSTAN t) "") as [E|_].
  { rewrite E in Hstan. by destruct Hstan. }
  eexists. split; [done|].
  pose proof (proj1 Hreason). pose proof (amount_numeral _ Hamount). pose proof (hhmmss_numeral terminalLocation sent).
  pose proof (MMDD_numeral terminalLocation sent). pose proof (DE15_numeral t). pose proof (DE7_numeral UTC sent).
  assert (H90 : numeral 42 (originalData (if String.eqb (MTI t) "" then mtiPurchase else MTI t) (NetworkSTAN t) (format_DE7 UTC sent))).
  { unfold originalData. apply (numeral_app 4 38).
    { destruct (String.eqb_spec (MTI t) ""); [by vm_compute|]. by destruct Hmti. }
    apply (numeral_app 6 32); [done|]. apply (numeral_app 10 22); [done|]. by vm_compute. }
  split; [split|]; cbn [Fields CardToken_].
  - apply fits_list. repeat (apply Forall_cons; split; [fit_field|]). by apply Forall_nil.
  - split; [done|]. cbn [Fields list_to_map foldr fst snd].
    repeat (apply map_Forall_insert_2; [first [by eapply numeral_ascii|done]|]). apply map_Forall_empty.
  - by eexists.
  - exact Hcard.
  - reflexivity.
Qed.

(** What it is framed as. *)
Lemma advice_frames mti adv :
  mti ∈ ["0420"; "0421"] → sendable adv → ∃ f, frameWith cards zak mti adv = Ok f.
Proof.
  intros Hmti [Hf _ _ (c & Hc & Hok)]. unfold frameWith.
  assert (Hm : HasPrefix mti "022" = false ∧ is_mti mti = true).
  { apply elem_of_cons in Hmti as [->|[->|[]%elem_of_nil]%elem_of_cons]; split; reflexivity. }
  destruct Hm as [-> [Hl Hd]%andb_true_iff]. unfold PAN_of. rewrite Hc. cbn [fmap option_fmap option_map mbind option_bind].
  apply Nat.eqb_eq in Hl. destruct (card_parts c Hok) as (H1 & H2 & _).
  assert (Hfit : fits_all (<[2 := PAN c]> (Fields adv))).
  { apply fits_insert; [done| |done]. by eapply fits_upto; [reflexivity|..]. }
  pose proof (Pack_fits mti _ Hl Hd Hfit) as Hp. destruct (Pack mti _) as [packed|] eqn:Ep; [|done].
  pose proof (jce_ComputeMAC_cases lmk packed zak) as Hmac. change (JCEModule lmk) with settle_hsm in Hmac.
  destruct (ComputeMAC packed zak) as [mac|e]; [by eexists|].
  apply Pack_nonempty in Ep; [|done]. by destruct Hmac as [[? _]|(_ & ? & _)].
Qed.

(** ** Queueing *)

Notation reaches p := (reaches env p).

Lemma seal_reaches adv w (Q : result error string → World → Prop) :
  sendable adv →
  (∀ n payload, now w ≤ n → decodePayload encKey payload = Ok adv → Q (Ok payload) (later w n (w_db w))) →
  reaches (seal encKey adv) Q w.
Proof.
  intros Hadv HQ. unfold seal. destruct (String.eqb_spec encKey "") as [Ek|Ek].
  - assert (He : encodePayload None encKey adv = Ok (Marshal adv)) by (by rewrite Ek). rewrite He. apply reaches_Ret.
    destruct w. apply (HQ now); [cbn; lia|]. by apply (payload_roundtrip _ _ None); [apply Hadv| |].
  - destruct Hkey as [?|Hgcm]; [done|]. apply reaches_vis; [apply Hwork|]. intros c _ (_ & _ & nonce & Hn & Hl).
    cbn [exec later w_db]. rewrite Hn, Hl. cbn [Nat.eqb]. apply reaches_Ret.
    assert (He : ∃ payload, encodePayload (Some nonce) encKey adv = Ok payload).
    { unfold encodePayload. apply String.eqb_neq in Ek. rewrite Ek. unfold EncryptBytes.
      destruct (newGCM encKey); [|done]. bind_step. by eexists. }
    destruct He as [payload He]. rewrite He. apply HQ; [lia|].
    apply (payload_roundtrip _ _ (Some nonce)); [apply Hadv|by intros ? [= <-]|exact He].
Qed.

(** The reversal of [row], of which [t] is what was read. *)
Lemma Queue_reaches t reason row w (Q : result error () → World → Prop) :
  tran (w_db w) !! ID t = Some row → Status row = Status t → advisable t → numeral 2 reason →
  (∀ n payload d adv, now w ≤ n → decodePayload encKey payload = Ok adv → sendable adv →
     reversal_queued n t row reason payload (w_db w) d → merchants d = merchants (w_db w) →
     Q (Ok ()) (later w n d)) →
  reaches (q_Queue t reason) Q w.
Proof.
  intros Hrow Hst Hadv Hreason HQ. cbn [q_Queue settle_queuer saf_queuer]. unfold Queue, liftE.
  destruct (advice_sendable t reason Hadv Hreason) as (adv & Ha & Hsend & _). rewrite Ha.
  apply reaches_bindE, reaches_Ret, reaches_bindE, seal_reaches; [done|]. intros n payload Hn Hdec.
  apply reaches_db; [apply Hwork|]. intros n' Hn'. cbn [later now w_db] in *. cbn [exec_query].
  destruct (queue_reversal n' t reason payload (w_db w)) as [r d] eqn:Eq.
  assert (Hmer : merchants d = merchants (w_db w)).
  { revert Eq. unfold queue_reversal, update_tran. rewrite Hrow, Hst, String.eqb_refl. unfold insert_saf.
    cbn [tran add_history set_tran]. rewrite lookup_insert_eq. cbn. by intros [= <- <-]. }
  destruct (queue_reversal_spec _ _ _ _ _ _ _ Eq) as [(-> & row' & Hd)|(_ & _ & Hno)]; [|by apply Hno in Hrow].
  assert (row' = row) as -> by (pose proof (rq_row _ _ _ _ _ _ _ Hd); congruence).
  apply reaches_Ret. apply (HQ n' payload d adv); [lia|done|done|exact Hd|exact Hmer].
Qed.

(** A queued 0420 that can be delivered. *)
Record deliverable (d : DB) (q : SafRow) : Prop := {
  dl_mti : s_mti q = mtiReversalAdvice;
  dl_advice : ∃ adv, decodePayload encKey (Payload q) = Ok adv ∧ sendable adv;
  dl_row : ∃ r, tran d !! TranID q = Some r ∧ Status r = statusReversalPending
}.

(** What following up the orphan [t] does, besides recording its history. *)
Record made_up (t : TranLogRow) (w w' : World) : Prop := {
  mu_tran : ∃ r, tran (w_db w') = <[ID t := r]> (tran (w_db w)) ∧ Status r = statusReversalPending;
  mu_saf : ∃ q, saf (w_db w') = <[next_saf (w_db w) := q]> (saf (w_db w)) ∧ s_id q = next_saf (w_db w) ∧
    TranID q = ID t ∧ s_status q = sPending ∧ NextRetryAt q ≤ now w' ∧ deliverable (w_db w') q;
  mu_next : next_saf (w_db w') = next_saf (w_db w) + 1;
  mu_sends : sends_of w' = sends_of w; mu_zak : w_zak w' = w_zak w; mu_stan : stan_counter w' = stan_counter w
}.

Definition due_reversal (st : string) : Prop := st ∈ [statusSent; statusTimedOut; statusDeclined].

Lemma queued_made_up t t' row reason n payload d adv w d0 w0 :
  ID t' = ID t → w = later w0 (now w) d0 → decodePayload encKey payload = Ok adv → sendable adv →
  reversal_queued n t' row reason payload d0 d →
  (∃ r, tran d0 = tran (w_db w0) ∨ tran d0 = <[ID t := r]> (tran (w_db w0))) →
  saf d0 = saf (w_db w0) → next_saf d0 = next_saf (w_db w0) → made_up t w0 (later w n d).
Proof.
  intros Hid Hw Hdec Hsend [Hrow _ Htran _ Hsaf Hnext _] Ht Hs Hn. rewrite Hw, Hid in *.
  split; cbn [later w_db sends_of w_zak stan_counter now]; try done.
  - exists (set_reason (set_state row statusReversalPending) reason). split; [|done]. rewrite Htran. destruct Ht as [r [-> | ->]]; [done|by rewrite insert_insert_eq].
  - eexists. rewrite Hsaf, Hs, Hn. split_and!; [done|done|done|done|cbn; lia|].
    split; cbn [s_mti TranID Payload queued_row]; [done|by exists adv|].
    rewrite Htran, lookup_insert_eq. by eexists.
  - by rewrite Hnext, Hn.
Qed.

Lemma followUp_reaches t row w :
  tran (w_db w) !! ID t = Some row → Status row = Status t → due_reversal (Status t) → advisable t →
  Type_ t ≠ "BALANCE" → Type_ t ≠ "COMPLETION" →
  reaches (followUp t) (λ r w', r = Ok () ∧ now w ≤ now w' ∧ made_up t w w') w.
Proof.
  intros Hrow Hst Hdue Hadv Hb%String.eqb_neq Hc%String.eqb_neq. unfold followUp, owe.
  destruct (String.eqb_spec (Status t) statusDeclined) as [Ed|Hd].
  { apply (Queue_reaches _ _ row); [done|done|done|by vm_compute|]. intros n payload d adv Hn Hdec Hsend Hq _.
    split; [done|]. split; [done|]. eapply (queued_made_up t t row _ _ _ _ adv w (w_db w) w); try done; [by destruct w|].
    exists row. by left. }
  destruct (String.eqb_spec (Status t) statusTimedOut) as [Et|Ht]; cbn [negb].
  { rewrite Hb, Hc. apply (Queue_reaches _ _ row); [done|done|done|by vm_compute|]. intros n payload d adv Hn Hdec Hsend Hq _.
    split; [done|]. split; [done|]. eapply (queued_made_up t t row _ _ _ _ adv w (w_db w) w); try done; [by destruct w|].
    exists row. by left. }
  assert (Es : Status t = statusSent).
  { unfold due_reversal in Hdue. apply elem_of_cons in Hdue as [?|Hdue]; [done|].
    by apply elem_of_cons in Hdue as [?|[?|[]%elem_of_nil]%elem_of_cons]. }
  apply reaches_bindE, reaches_db; [apply Hwork|]. intros n Hn. cbn [exec_query]. unfold MarkTimedOut, update_tran.
  rewrite Hrow, Hst, Es, String.eqb_refl. apply reaches_Ret.
  change (Type_ (set_state t statusTimedOut)) with (Type_ t). rewrite Hb, Hc.
  apply (Queue_reaches _ _ (set_state row statusTimedOut)); [by cbn; rewrite lookup_insert_eq|done| |by vm_compute|].
  { by destruct Hadv. }
  intros n' payload d adv Hn' Hdec Hsend Hq _. split; [done|]. cbn [later now] in *. split; [lia|].
  eapply (queued_made_up t _ _ _ _ _ _ adv _ _ w); try exact Hdec; try exact Hsend; try exact Hq; try done.
  eexists. by right.
Qed.

(** ** A sweep *)

(** A row the sweep queued the 0420 of. *)
Record owed_row (done : list TranLogRow) (w0 w : World) (sid : Z) (q : SafRow) : Prop := {
  ow_new : next_saf (w_db w0) ≤ sid < next_saf (w_db w);
  ow_id : s_id q = sid;
  ow_pending : s_status q = sPending;
  ow_due : NextRetryAt q ≤ now w;
  ow_deliverable : deliverable (w_db w) q;
  ow_for : TranID q ∈ map ID done
}.

Record swept_up (done : list TranLogRow) (w0 w : World) : Prop := {
  su_new sid q : saf (w_db w) !! sid = Some q → saf (w_db w0) !! sid = Some q ∨ owed_row done w0 w sid q;
  su_old sid : sid < next_saf (w_db w0) → saf (w_db w) !! sid = saf (w_db w0) !! sid;
  su_done t : t ∈ done → ∃ sid q, next_saf (w_db w0) ≤ sid ∧ saf (w_db w) !! sid = Some q ∧ TranID q = ID t;
  su_once sid1 sid2 q1 q2 : next_saf (w_db w0) ≤ sid1 → next_saf (w_db w0) ≤ sid2 →
    saf (w_db w) !! sid1 = Some q1 → saf (w_db w) !! sid2 = Some q2 → TranID q1 = TranID q2 → sid1 = sid2;
  su_next : next_saf (w_db w) = next_saf (w_db w0) + Z.of_nat (length done);
  su_tran id : id ∉ map ID done → tran (w_db w) !! id = tran (w_db w0) !! id;
  su_time : now w0 ≤ now w;
  su_sends : sends_of w = sends_of w0; su_zak : w_zak w = w_zak w0; su_stan : stan_counter w = stan_counter w0
}.

Definition fresh_saf_ids (d : DB) : Prop := ∀ sid, next_saf d ≤ sid → saf d !! sid = None.

Lemma swept_up_nil w : fresh_saf_ids (w_db w) → swept_up [] w w.
Proof.
  intros Hf. split; try done; try (by intros; left).
  - by intros t ?%elem_of_nil.
  - intros sid1 sid2 q1 q2 H1 _ Hq. by rewrite Hf in Hq.
  - cbn. lia.
Qed.

Lemma deliverable_insert d d' id r q :
  deliverable d q → tran d' = <[id := r]> (tran d) → TranID q ≠ id → deliverable d' q.
Proof.
  intros [Hm Ha (r0 & Hr & Hs)] Ht Hne. split; [done|done|]. exists r0. by rewrite Ht, lookup_insert_ne.
Qed.

Lemma swept_up_snoc done t w0 w w' :
  fresh_saf_ids (w_db w0) → swept_up done w0 w → ID t ∉ map ID done → now w ≤ now w' → made_up t w w' →
  swept_up (done ++ [t]) w0 w'.
Proof.
  intros Hf [Hnew Hold Hdone Honce Hnext Htran Htime Hsends Hzk Hstan] Ht Hn
    [(r & Hr & Hrs) (q & Hq & Hid & Hfor & Hpend & Hdue & Hdl) Hnext' Hs' Hz' Hc'].
  assert (Hsnoc : map ID (done ++ [t]) = map ID done ++ [ID t]) by apply map_app.
  assert (Hlen : Z.of_nat (length (done ++ [t])) = Z.of_nat (length done) + 1) by (rewrite length_app; cbn; lia).
  assert (Hkeep : ∀ sid q', owed_row done w0 w sid q' → owed_row (done ++ [t]) w0 w' sid q').
  { intros sid q' [H1 H2 H3 H4 H5 H6]. split; try done; try lia.
    - eapply deliverable_insert; [exact H5|exact Hr|]. intros E. by rewrite E in H6.
    - rewrite Hsnoc. apply elem_of_app. by left. }
  split; rewrite ?Hs', ?Hz', ?Hc'; try done; try lia.
  - intros sid q'. rewrite Hq. intros [[<- <-]|[_ Hx]]%lookup_insert_Some.
    + right. split; try done; try lia. rewrite Hsnoc, Hfor. apply elem_of_app. right. by apply list_elem_of_singleton.
    + apply Hnew in Hx as [Hx|Hx]; [by left|right; by apply Hkeep].
  - intros sid Hlt. rewrite Hq, lookup_insert_ne by lia. by apply Hold.
  - intros t' [Hin| ->%list_elem_of_singleton]%elem_of_app.
    + destruct (Hdone t' Hin) as (sid & q' & H1 & H2 & H3). exists sid, q'. split_and!; [done| |done].
      rewrite Hq, lookup_insert_ne; [done|]. intros <-. apply Hnew in H2 as [H2|[H2 _ _ _ _ _]]; [by rewrite Hf in H2 by lia|lia].
    + exists (next_saf (w_db w)), q. rewrite Hq, lookup_insert_eq. split_and!; [lia|done|done].
  - assert (Hother : ∀ sid q', next_saf (w_db w0) ≤ sid → saf (w_db w) !! sid = Some q' → TranID q' ≠ TranID q).
    { intros sid q' Hle Hx E. apply Hnew in Hx as [Hx|[_ _ _ _ _ Hx]]; [by rewrite Hf in Hx|].
      apply Ht. by rewrite <- Hfor, <- E. }
    intros sid1 sid2 q1 q2 H1 H2. rewrite Hq.
    intros [[<- <-]|[_ Hx1]]%lookup_insert_Some [[<- <-]|[_ Hx2]]%lookup_insert_Some E; [done|..].
    + by apply Hother in Hx2.
    + by apply Hother in Hx1.
    + by apply (Honce sid1 sid2 q1 q2).
  - intros id. rewrite Hsnoc, not_elem_of_app, list_elem_of_singleton. intros [Hid' Hne]. rewrite Hr, lookup_insert_ne by done.
    by apply Htran.
Qed.

(** What a sweep can make good: the rows it reads are those of the table, and each can be reversed. *)
Definition can_be_reversed (d : DB) (t : TranLogRow) : Prop :=
  (∃ row, tran d !! ID t = Some row ∧ Status row = Status t) ∧ due_reversal (Status t) ∧ advisable t ∧
  Type_ t ≠ "BALANCE" ∧ Type_ t ≠ "COMPLETION".

Lemma followAll_reaches rows done w0 w :
  fresh_saf_ids (w_db w0) → NoDup (map ID (done ++ rows)) → Forall (can_be_reversed (w_db w0)) rows → swept_up done w0 w →
  reaches (followAll rows []) (λ r w', r = Ok () ∧ swept_up (done ++ rows) w0 w') w.
Proof.
  intros Hf. revert done w. induction rows as [|t rows IH]; intros done w Hnd Hrows Hsu.
  { cbn [followAll]. apply reaches_Ret. by rewrite app_nil_r. }
  apply Forall_cons in Hrows as [((row & Hrow & Hst) & Hdue & Hadv & Hb & Hc) Hrows].
  assert (Ht : ID t ∉ map ID done).
  { rewrite map_app in Hnd. apply NoDup_app in Hnd as (_ & Hnd & _). intros Hin. apply (Hnd _ Hin). cbn. by left. }
  cbn [followAll]. apply reaches_pbind. eapply reaches_mono.
  2: { apply (followUp_reaches t row); try done. by rewrite (su_tran _ _ _ Hsu _ Ht). }
  intros r w' (-> & Hn & Hmu). rewrite (cons_middle t done rows) in *.
  replace (done ++ [t] ++ rows) with ((done ++ [t]) ++ rows) in * by (by rewrite <- (assoc_L (++))).
  apply IH; [done|done|]. by eapply swept_up_snoc.
Qed.

Definition rows_keyed (d : DB) : Prop := ∀ id r, tran d !! id = Some r → ID r = id.

Lemma joined_NoDup d : rows_keyed d → NoDup (map ID (joined d)).
Proof.
  intros Hk. unfold joined.
  assert (Hl : ∀ kv, kv ∈ by_id (tran d) → ID kv.2 = kv.1).
  { intros [id r] Hin. unfold by_id in Hin. rewrite merge_sort_Permutation in Hin. apply elem_of_map_to_list in Hin. by apply Hk. }
  assert (Hn : NoDup (map fst (by_id (tran d)))).
  { unfold by_id. rewrite merge_sort_Permutation. apply NoDup_fst_map_to_list. }
  revert Hl Hn. induction (by_id (tran d)) as [|[id r] l IH]; [constructor|]. cbn [map fst]. intros Hl [Hid Hn]%NoDup_cons.
  cbn [omap list_omap snd]. destruct (merchants d !! MerchantID r) as [m|]; cbn [mbind option_bind]; [|apply IH; [|done]; intros; apply Hl; by right].
  cbn [map]. apply NoDup_cons. split; [|apply IH; [|done]; intros; apply Hl; by right].
  intros Hin. apply Hid. apply list_elem_of_In, in_map_iff in Hin as (x & Hx & Hin%list_elem_of_In).
  apply list_elem_of_omap in Hin as ([id' r'] & Hin & E). cbn in E. destruct (merchants d !! MerchantID r'); [|done].
  injection E as <-. change (ID r' = ID r) in Hx. pose proof (Hl (id, r) ltac:(by left)) as H1. cbn in H1.
  pose proof (Hl (id', r') ltac:(by right)) as H2. cbn in H2. rewrite <- H1, <- Hx, H2.
  apply list_elem_of_In, in_map_iff. exists (id', r'). split; [done|]. by apply list_elem_of_In.
Qed.

(** The rows one sweep takes, when it reads the clock at [n]. *)
Definition orphans (age : duration) (n : time) (d : DB) : list TranLogRow :=
  take sweepBatch (List.filter (is_orphan d (n - age)) (joined d)).

Definition reversible_orphans (d : DB) : Prop :=
  ∀ before t, t ∈ joined d → is_orphan d before t = true → advisable t ∧ Type_ t ≠ "BALANCE" ∧ Type_ t ≠ "COMPLETION".

Lemma is_orphan_due d before t : is_orphan d before t = true → due_reversal (Status t).
Proof.
  unfold is_orphan, due_reversal. intros [_ H]%andb_true_iff. rewrite !orb_true_iff, !andb_true_iff in H.
  destruct H as [[H|H]|H]; [|destruct H as [[H _] _]|destruct H as [[[[H _] _] _] _]]; apply String.eqb_eq in H; rewrite H;
    [left|right; left|right; right; left].
Qed.

Lemma orphans_reversible age n d :
  rows_keyed d → reversible_orphans d → NoDup (map ID (orphans age n d)) ∧ Forall (can_be_reversed d) (orphans age n d).
Proof.
  intros Hk Hrev. unfold orphans. split.
  - eapply sublist_NoDup; [apply (joined_NoDup d Hk)|]. apply (fmap_sublist ID). etrans; [apply sublist_take|].
    induction (joined d) as [|t l IH]; cbn; [constructor|]. case_match; by constructor.
  - apply Forall_forall. intros t Hin%elem_of_take. destruct Hin as (i & Hin & _). apply list_elem_of_lookup_2 in Hin.
    apply list_elem_of_In, filter_In in Hin as [Hin Ho]. apply list_elem_of_In in Hin.
    destruct (Hrev _ t Hin Ho) as (Hadv & Hb & Hc). split; [|split_and!; [by eapply is_orphan_due|done..]].
    apply joined_row in Hin as (id & r & name & Hr & ->). exists r. split; [|done].
    change (ID (set_name r name)) with (ID r). by rewrite (Hk id r Hr).
Qed.

Lemma SweepOnce_reaches age w :
  fresh_saf_ids (w_db w) → rows_keyed (w_db w) → reversible_orphans (w_db w) →
  reaches (SweepOnce age) (λ r w', r = Ok () ∧ ∃ n, now w ≤ n ∧ swept_up (orphans age n (w_db w)) w w') w.
Proof.
  intros Hf Hk Hrev. unfold SweepOnce. apply reaches_pbind, reaches_now; [apply Hwork|]. intros n Hn. apply reaches_Ret.
  apply reaches_bindE, reaches_db; [apply Hwork|]. intros n' Hn'. cbn [exec_query later w_db now] in *. unfold FindOrphans.
  apply reaches_Ret. fold (orphans age n (w_db w)). destruct (orphans_reversible age n (w_db w) Hk Hrev) as [Hnd Hall].
  eapply reaches_mono; [|apply (followAll_reaches _ [] (later w n' (w_db w))); [exact Hf|exact Hnd|exact Hall|by apply swept_up_nil]].
  cbn [app]. intros r w' [-> Hsu]. split; [done|]. exists n. split; [done|].
  destruct Hsu as [Hnew Hold Hdone Honce Hnext Htran Htime Hs Hz Hc]. cbn [later w_db now sends_of w_zak stan_counter] in *.
  split; try done; [|lia]. intros sid q Hq. destruct (Hnew sid q Hq) as [?|[]]; [by left|by right].
Qed.

(** ** A delivery *)

Record delivered (q : SafRow) (w w' : World) : Prop := {
  de_tran : ∃ r, tran (w_db w') = <[TranID q := r]> (tran (w_db w)) ∧ Status r = statusReversed;
  de_saf : ∃ q', saf (w_db w') = <[s_id q := q']> (saf (w_db w)) ∧ s_status q' = sAcked ∧ TranID q' = TranID q;
  de_sends : ∃ mti f, sends_of w' = sends_of w ++ [(mti, f)] ∧ mti ∈ ["0420"; "0421"];
  de_zak : w_zak w' = w_zak w;
  de_stan : stan_counter w ≤ stan_counter w' ≤ stan_counter w + 1
}.

Lemma identified_fits adv stan n :
  sendable adv → numeral 6 stan → sendable (with_fields adv (<[7 := format_DE7 UTC n]> (<[11 := stan]> (Fields adv)))).
Proof.
  intros [Hf [Ht Ha] Hl Hc] Hs. pose proof (DE7_numeral UTC n) as Hn. split; cbn [with_fields Fields CardToken_]; [| | |exact Hc].
  - apply fits_insert; [done|by eapply fits_numeral; [reflexivity|]|]. apply fits_insert; [done|by eapply fits_numeral; [reflexivity|]|done].
  - split; [exact Ht|]. cbn [Fields]. apply map_Forall_insert_2; [by eapply numeral_ascii|]. apply map_Forall_insert_2; [by eapply numeral_ascii|done].
  - by rewrite !lookup_insert_ne.
Qed.

Lemma identity_reaches q adv w :
  saf (w_db w) !! s_id q = Some q → sendable adv → 0 ≤ stan_counter w → stan_counter w + 1 < 2 ^ 63 →
  reaches (assignNetworkIdentity encKey (s_id q) adv) (λ r w', ∃ adv' p, r = Ok adv' ∧ sendable adv' ∧
    tran (w_db w') = tran (w_db w) ∧ saf (w_db w') = <[s_id q := set_payload p q]> (saf (w_db w)) ∧
    sends_of w' = sends_of w ∧ w_zak w' = w_zak w ∧ stan_counter w ≤ stan_counter w' ≤ stan_counter w + 1) w.
Proof.
  intros Hq Hadv H0 H1. unfold assignNetworkIdentity. destruct (negb _).
  { apply reaches_Ret. exists adv, (Payload q). split_and!; try done; try lia. rewrite insert_id; [done|]. by destruct q. }
  apply reaches_pbind, reaches_vis; [apply Hwork|]. intros c _ (_ & Hflag & _). cbn [exec later stan_counter]. rewrite Hflag.
  rewrite NextSTAN_eq by lia. apply reaches_Ret. apply reaches_pbind, reaches_now; [apply Hwork|]. intros n Hn. apply reaches_Ret.
  assert (Hstan : numeral 6 (dec 6 ((stan_counter w + 1) mod 1000000))) by (split; [apply slen_dec|apply dec_digits]).
  pose proof (identified_fits adv _ n Hadv Hstan) as Hid. cbn [later now w_db w_keys w_zak stan_counter sends_of answers told] in *.
  apply reaches_bindE, seal_reaches; [exact Hid|]. intros n' payload Hn' _.
  apply reaches_bindE, reaches_db; [apply Hwork|]. intros n'' Hn''. cbn [exec_query]. apply reaches_Ret, reaches_Ret.
  eexists _, payload. split; [done|]. split; [exact Hid|]. cbn [later w_db w_zak stan_counter sends_of].
  unfold update_saf. rewrite Hq. cbn [set_saf tran saf]. split_and!; try done; lia.
Qed.

Lemma verify_reaches mti resp w (Q : bool → World → Prop) :
  w_zak w = zak → signed zak mti resp → (∀ n, now w ≤ n → Q true (later w n (w_db w))) → reaches (verify mti resp) Q w.
Proof.
  intros Hz (mac & field & packed & Hm & Hp & Hmac) HQ. unfold verify. rewrite Hm, Hp.
  apply reaches_pbind, reaches_vis; [apply Hwork|]. intros c _ _. cbn [exec later w_zak]. apply reaches_Ret. rewrite Hz, Hmac.
  apply reaches_Ret. apply HQ. lia.
Qed.

(** What [MarkAcked] does to a reversal whose row waits for it. *)
Lemma MarkAcked_reverses n id q r d :
  saf d !! id = Some q → s_mti q = mtiReversalAdvice → tran d !! TranID q = Some r → Status r = statusReversalPending →
  ∃ d', MarkAcked n id d = (Ok (), d') ∧ tran d' = <[TranID q := set_state r statusReversed]> (tran d) ∧
        saf d' = <[id := ack n q]> (saf d).
Proof.
  intros Hq Hm Hr Hs. unfold MarkAcked. rewrite Hq, Hm. cbn [String.eqb]. rewrite String.eqb_refl.
  unfold finishOnAck, update_tran, update_saf. rewrite Hq. cbn [set_saf tran]. rewrite Hr, Hs, String.eqb_refl.
  eexists. split; [done|]. done.
Qed.

(** The announcement of an acknowledgement: the hub is told or not, nothing else. *)
Lemma announce_reaches id w :
  reaches (announceAck id) (λ _ w', w_db w' = w_db w ∧ sends_of w' = sends_of w ∧ w_zak w' = w_zak w ∧
    stan_counter w' = stan_counter w) w.
Proof.
  unfold announceAck. apply reaches_pbind, reaches_bindE, reaches_db; [apply Hwork|]. intros n _. cbn [exec_query].
  assert (HT : (TranRRN id (w_db w)).2 = w_db w) by (unfold TranRRN; by repeat case_match).
  destruct (TranRRN id (w_db w)) as [[rrn|e] d]; cbn [snd] in HT; subst d; apply reaches_Ret; [|by apply reaches_Ret].
  unfold BroadcastUpdate. apply reaches_bindE, reaches_db; [apply Hwork|]. intros n' _. cbn [exec_query later w_db].
  assert (HG : (GetTran rrn (w_db w)).2 = w_db w) by (unfold GetTran; by case_match).
  destruct (GetTran rrn (w_db w)) as [[row|e] d]; cbn [snd] in HG; subst d; apply reaches_Ret; [|by apply reaches_Ret].
  apply reaches_pbind, reaches_vis; [apply Hwork|]. intros c _ _. cbn [exec]. by apply reaches_Ret, reaches_Ret, reaches_Ret.
Qed.

Lemma deliverRow_reaches q w :
  saf (w_db w) !! s_id q = Some q → deliverable (w_db w) q → w_zak w = zak →
  0 ≤ stan_counter w → stan_counter w + 1 < 2 ^ 63 →
  reaches (deliverRow cards encKey backoff q) (λ _ w', delivered q w w') w.
Proof.
  intros Hq [Hmti (adv & Hdec & Hadv) (r & Hr & Hst)] Hz H0 H1. unfold deliverRow. rewrite Hdec.
  set (mti := attemptMTI q adv). assert (Hm : mti ∈ ["0420"; "0421"]).
  { unfold mti, attemptMTI. rewrite Hmti. destruct (negb _); [right; left|left]. }
  apply reaches_pbind. eapply reaches_mono; [|by apply identity_reaches].
  intros id w1 (adv' & p & -> & Hadv' & Ht1 & Hs1 & Hsend1 & Hz1 & Hc1).
  destruct (advice_frames mti adv' Hm Hadv') as [f Hf].
  apply reaches_pbind. unfold frame. apply reaches_pbind, reaches_vis; [apply Hwork|]. intros c _ _. cbn [exec later w_zak].
  apply reaches_Ret, reaches_Ret. rewrite Hz1, Hz, Hf. unfold sendFrame.
  apply reaches_pbind, reaches_vis; [apply Hwork|]. intros c' -> _. cbn [exec later w_db w_zak w_keys now stan_counter sends_of answers told].
  match goal with |- context [c_resp (env _ _ ?w2)] => destruct (wk_acknowledges zak env Hwork mti f w2 Hm ltac:(cbn; congruence)) as (resp & Hresp & Hrc & Hsig) end.
  rewrite Hresp. apply reaches_Ret. unfold settle. rewrite Hrc. cbn [String.eqb Ascii.eqb Bool.eqb acknowledged issuerNotSignedOn negb].
  apply reaches_pbind, verify_reaches; [cbn; congruence|exact Hsig|]. intros n Hn. cbn [later now w_db w_zak w_keys stan_counter sends_of answers told] in *.
  unfold MarkAckedAnnounced. apply reaches_bindE, reaches_db; [apply Hwork|]. intros n' Hn'. cbn [exec_query w_db later now] in *.
  destruct (MarkAcked_reverses n' (s_id q) (set_payload p q) r (w_db w1)) as (d' & Hack & Ht' & Hs');
    [by rewrite Hs1, lookup_insert_eq|exact Hmti|by rewrite Ht1|exact Hst|].
  rewrite Hack. apply reaches_Ret, reaches_pbind. eapply reaches_mono; [|apply announce_reaches].
  intros _ w2 (Hd2 & Hs2 & Hz2 & Hc2). apply reaches_Ret. cbn [later w_db w_zak stan_counter sends_of] in *.
  split; rewrite ?Hd2, ?Hs2, ?Hz2, ?Hc2, ?Ht', ?Hs', ?Ht1, ?Hs1, ?Hsend1; try done.
  - by exists (set_state r statusReversed).
  - exists (ack n' (set_payload p q)). by rewrite insert_insert_eq.
  - by exists mti, f.
Qed.

Record all_delivered (rows : list SafRow) (w w' : World) : Prop := {
  ad_rows q : q ∈ rows →
    (∃ r, tran (w_db w') !! TranID q = Some r ∧ Status r = statusReversed) ∧
    ∃ q', saf (w_db w') !! s_id q = Some q' ∧ s_status q' = sAcked ∧ TranID q' = TranID q;
  ad_tran id : id ∉ map TranID rows → tran (w_db w') !! id = tran (w_db w) !! id;
  ad_saf sid : sid ∉ map s_id rows → saf (w_db w') !! sid = saf (w_db w) !! sid;
  ad_sends : ∃ msgs, sends_of w' = sends_of w ++ msgs ∧ length msgs = length rows ∧
    Forall (λ m : string * fieldmap, m.1 ∈ ["0420"; "0421"]) msgs
}.

Definition to_deliver (d : DB) (q : SafRow) : Prop := saf d !! s_id q = Some q ∧ deliverable d q.

Lemma to_deliver_after q q' w w' :
  delivered q w w' → s_id q' ≠ s_id q → TranID q' ≠ TranID q → to_deliver (w_db w) q' → to_deliver (w_db w') q'.
Proof.
  intros [(r & Ht & _) (q1 & Hs & _) _ _ _] Hne Hnt [Hq Hd]. split; [by rewrite Hs, lookup_insert_ne|].
  by eapply deliverable_insert.
Qed.

Lemma deliverAll_reaches rows w :
  Forall (to_deliver (w_db w)) rows → NoDup (map s_id rows) → NoDup (map TranID rows) → w_zak w = zak →
  0 ≤ stan_counter w → stan_counter w + Z.of_nat (length rows) < 2 ^ 63 →
  reaches (deliverAll cards encKey backoff rows) (λ _ w', all_delivered rows w w') w.
Proof.
  revert w. induction rows as [|q rows IH]; intros w Hall Hs Ht Hz H0 H1; cbn [deliverAll].
  { apply reaches_Ret. split; try done; [by intros q ?%elem_of_nil|]. exists []. by rewrite app_nil_r. }
  apply Forall_cons in Hall as [[Hq Hd] Hall]. cbn [map length] in *. apply NoDup_cons in Hs as [Hs1 Hs2].
  apply NoDup_cons in Ht as [Ht1 Ht2]. apply reaches_pbind.
  eapply reaches_mono; [|by apply deliverRow_reaches; try done; lia]. intros u w1 Hde.
  assert (Hall1 : Forall (to_deliver (w_db w1)) rows).
  { apply Forall_forall. intros q' Hin. eapply to_deliver_after; [exact Hde| | |by eapply Forall_forall].
    - intros E. apply Hs1. rewrite <- E. by apply list_elem_of_In, in_map, list_elem_of_In.
    - intros E. apply Ht1. rewrite <- E. by apply list_elem_of_In, in_map, list_elem_of_In. }
  destruct Hde as [(r & Hr & Hrs) (q1 & Hq1 & Hst & Htid) (m & f & Hsend & Hm) Hz1 Hc].
  eapply reaches_mono; [|apply IH; [exact Hall1|done|done|congruence|lia|lia]].
  intros u' w2 [Hrows Htr Hsf (msgs & Hmsgs & Hlen & Hf)]. split.
  - intros q' [-> |Hin]%elem_of_cons; [|by apply Hrows]. split.
    + exists r. by rewrite Htr, Hr, lookup_insert_eq.
    + exists q1. by rewrite Hsf, Hq1, lookup_insert_eq.
  - intros id [Hne Hni]%not_elem_of_cons. by rewrite Htr, Hr, lookup_insert_ne by done.
  - intros sid [Hne Hni]%not_elem_of_cons. by rewrite Hsf, Hq1, lookup_insert_ne by done.
  - exists ((m, f) :: msgs). rewrite Hmsgs, Hsend, <- (assoc_L (++)). split_and!; [done|cbn; lia|by constructor].
Qed.

(** The rows the worker claims at [n]. *)
Definition due_rows (n : time) (d : DB) : list (Z * SafRow) := List.filter (λ kv : Z * SafRow, due n kv.2) (by_id (saf d)).

Lemma due_rows_in n d kv : kv ∈ due_rows n d ↔ saf d !! kv.1 = Some kv.2 ∧ due n kv.2 = true.
Proof.
  unfold due_rows. rewrite list_elem_of_In, filter_In, <- list_elem_of_In. unfold by_id. rewrite merge_sort_Permutation.
  destruct kv as [sid q]. by rewrite elem_of_map_to_list.
Qed.

Lemma due_rows_NoDup n d : NoDup (map fst (due_rows n d)).
Proof.
  unfold due_rows. assert (H : NoDup (map fst (by_id (saf d)))) by (unfold by_id; rewrite merge_sort_Permutation; apply NoDup_fst_map_to_list).
  eapply sublist_NoDup; [exact H|]. apply (fmap_sublist fst).
  induction (by_id (saf d)) as [|kv l IH]; cbn; [constructor|]. inversion H; subst. case_match; constructor; by apply IH.
Qed.

(** An idle queue: everything in it is done with. *)
Definition drained (d : DB) : Prop := ∀ sid q, saf d !! sid = Some q → s_status q ≠ sPending ∧ s_status q ≠ sInFlight.

Lemma drained_not_due d sid q n : drained d → saf d !! sid = Some q → due n q = false.
Proof. intros Hd [H1%String.eqb_neq H2%String.eqb_neq]%Hd. unfold due. by rewrite H1, H2. Qed.

(** After a sweep over a drained queue, what is due are the advices it queued. *)
Lemma due_after_sweep done w w1 n :
  drained (w_db w) → fresh_saf_ids (w_db w) → NoDup (map ID done) → swept_up done w w1 → now w1 ≤ n →
  (∀ kv, kv ∈ due_rows n (w_db w1) → owed_row done w w1 kv.1 kv.2) ∧
  map TranID (map snd (due_rows n (w_db w1))) ≡ₚ map ID done.
Proof.
  intros Hdr Hfr Hnd [Hnew Hold Hdone Honce Hnext Htran Htime _ _ _] Hn.
  assert (Hin : ∀ kv, kv ∈ due_rows n (w_db w1) → owed_row done w w1 kv.1 kv.2).
  { intros [sid q] [Hq Hdue]%due_rows_in. cbn in *. apply Hnew in Hq as [Hq|Hq]; [|done].
    by rewrite (drained_not_due _ _ _ _ Hdr Hq) in Hdue. }
  split; [exact Hin|]. apply NoDup_Permutation; [|done|].
  - pose proof (due_rows_NoDup n (w_db w1)) as Hfst. rewrite map_map.
    assert (Hall : ∀ kv, kv ∈ due_rows n (w_db w1) → next_saf (w_db w) ≤ kv.1 ∧ saf (w_db w1) !! kv.1 = Some kv.2).
    { intros kv Hkv. pose proof (ow_new _ _ _ _ _ (Hin kv Hkv)). apply due_rows_in in Hkv as [? _]. split; [lia|done]. }
    revert Hall Hfst. clear - Honce. induction (due_rows n (w_db w1)) as [|kv l IH]; intros Hall Hfst; [constructor|]. cbn [map] in *.
    apply NoDup_cons in Hfst as [Hni Hfst]. apply NoDup_cons. split; [|apply IH; [|done]; intros; apply Hall; by right].
    intros (kv' & E & Hin')%list_elem_of_In%in_map_iff. apply Hni. destruct (Hall kv ltac:(by left)) as [H1 H2].
    destruct (Hall kv' ltac:(right; by apply list_elem_of_In)) as [H3 H4].
    rewrite (Honce kv.1 kv'.1 kv.2 kv'.2 H1 H3 H2 H4 (eq_sym E)). by apply list_elem_of_In, in_map.
  - intros id. split.
    + intros (q & <- & (kv & <- & Hkv)%in_map_iff)%list_elem_of_In%in_map_iff. apply (ow_for _ _ _ _ _ (Hin kv ltac:(by apply list_elem_of_In))).
    + intros (t & <- & Ht)%list_elem_of_In%in_map_iff. destruct (Hdone t ltac:(by apply list_elem_of_In)) as (sid & q & Hle & Hq & <-).
      apply list_elem_of_In, in_map, in_map_iff. exists (sid, q). split; [done|]. apply list_elem_of_In, due_rows_in. split; [done|]. cbn.
      destruct (Hnew sid q Hq) as [Hq'|[? ? Hp Hd _ _]]; [|].
      * by rewrite Hfr in Hq'.
      * unfold due. rewrite Hp, String.eqb_refl. cbn. apply Z.leb_le. lia.
Qed.

Lemma deliverOnce_reaches done w0 w :
  drained (w_db w0) → fresh_saf_ids (w_db w0) → NoDup (map ID done) → (length done ≤ claimBatchSize)%nat → swept_up done w0 w →
  w_zak w = zak → 0 ≤ stan_counter w → stan_counter w + Z.of_nat (length done) < 2 ^ 63 →
  reaches (deliverOnce cards encKey backoff) (λ _ w',
    (∀ t, t ∈ done → (∃ r, tran (w_db w') !! ID t = Some r ∧ Status r = statusReversed) ∧
       ∃ sid q, saf (w_db w') !! sid = Some q ∧ TranID q = ID t ∧ s_status q = sAcked) ∧
    ∃ msgs, sends_of w' = sends_of w ++ msgs ∧ length msgs = length done ∧
      Forall (λ m : string * fieldmap, m.1 ∈ ["0420"; "0421"]) msgs) w.
Proof.
  intros Hdr Hfr Hnd Hle Hsu Hz H0 H1. unfold deliverOnce. apply reaches_pbind, reaches_db; [apply Hwork|]. intros n Hn.
  cbn [exec_query]. unfold ClaimDue. fold (due_rows n (w_db w)).
  destruct (due_after_sweep done w0 w n Hdr Hfr Hnd Hsu Hn) as [Hnew Hperm]. set (l := due_rows n (w_db w)) in *.
  assert (Hlen : length l = length done) by (apply Permutation_length in Hperm; by rewrite !length_map in Hperm).
  rewrite take_ge by lia. set (claimed := map _ l). apply reaches_Ret.
  assert (Hrows : ∀ q, q ∈ map snd claimed → ∃ kv, kv ∈ l ∧ q = claim n claimLease kv.2 ∧ s_id q = kv.1).
  { intros q (kv & <- & (kv' & <- & Hin)%in_map_iff)%list_elem_of_In%in_map_iff. apply list_elem_of_In in Hin.
    exists kv'. split_and!; [done|done|]. cbn. apply (ow_id _ _ _ _ _ (Hnew kv' Hin)). }
  assert (Hfst : map fst claimed = map fst l) by (unfold claimed; by rewrite map_map).
  assert (Hids : map s_id (map snd claimed) = map fst l).
  { unfold claimed. rewrite !map_map. apply map_ext_in. intros kv Hin%list_elem_of_In. cbn. apply (ow_id _ _ _ _ _ (Hnew kv Hin)). }
  assert (Htids : map TranID (map snd claimed) = map TranID (map snd l)) by (unfold claimed; by rewrite !map_map).
  eapply reaches_mono; [|apply deliverAll_reaches].
  - intros u w' [Hdone _ _ (msgs & Hs & Hl & Hm)]. split.
    + intros t Ht. assert (Hin : ID t ∈ map TranID (map snd claimed)).
      { rewrite Htids, Hperm. by apply list_elem_of_In, in_map, list_elem_of_In. }
      apply list_elem_of_In, in_map_iff in Hin as (q & <- & Hq%list_elem_of_In).
      destruct (Hdone q Hq) as [Hr (q' & Hq' & Hst & Htid)]. split; [exact Hr|]. by exists (s_id q), q'.
    + exists msgs. split_and!; [exact Hs| |exact Hm]. rewrite Hl. unfold claimed. by rewrite !length_map.
  - cbn [later w_db]. apply Forall_forall. intros q Hq. destruct (Hrows q Hq) as (kv & Hkv & -> & Hid). split.
    + cbn [saf set_saf]. rewrite Hid. apply lookup_union_Some_l, elem_of_list_to_map.
      * change (NoDup (map fst claimed)). rewrite Hfst. apply due_rows_NoDup.
      * apply list_elem_of_In, in_map_iff. exists kv. split; [done|by apply list_elem_of_In].
    + destruct (ow_deliverable _ _ _ _ _ (Hnew kv Hkv)) as [Hm Ha Hr]. by split.
  - rewrite Hids. apply due_rows_NoDup.
  - rewrite Htids, Hperm. exact Hnd.
  - exact Hz.
  - exact H0.
  - cbn [later stan_counter]. unfold claimed. rewrite !length_map, Hlen. exact H1.
Qed.

(** The one round, from a drained queue. *)
Definition one_round (age : duration) (w : World) : World :=
  (run_env env (deliverOnce cards encKey backoff) (run_env env (SweepOnce age) w).2).2.

Lemma one_round_spec age w :
  fresh_saf_ids (w_db w) → rows_keyed (w_db w) → drained (w_db w) → reversible_orphans (w_db w) →
  w_zak w = zak → 0 ≤ stan_counter w → stan_counter w + 50 < 2 ^ 63 →
  ∃ n, now w ≤ n ∧
    (∀ t, t ∈ orphans age n (w_db w) →
       (∃ r, tran (w_db (one_round age w)) !! ID t = Some r ∧ Status r = statusReversed) ∧
       ∃ sid q, saf (w_db (one_round age w)) !! sid = Some q ∧ TranID q = ID t ∧ s_status q = sAcked) ∧
    ∃ msgs, sends_of (one_round age w) = sends_of w ++ msgs ∧ length msgs = length (orphans age n (w_db w)) ∧
      Forall (λ m : string * fieldmap, m.1 ∈ ["0420"; "0421"]) msgs.
Proof.
  intros Hf Hk Hdr Hrev Hz H0 H1. destruct (SweepOnce_reaches age w Hf Hk Hrev) as (_ & n & Hn & Hsu).
  exists n. split; [exact Hn|]. unfold one_round. set (w1 := (run_env env (SweepOnce age) w).2) in *.
  pose proof (su_stan _ _ _ Hsu) as Hc. destruct (orphans_reversible age n (w_db w) Hk Hrev) as [Hnd _].
  assert (Hl : (length (orphans age n (w_db w)) ≤ 50)%nat) by (unfold orphans; rewrite length_take; unfold sweepBatch; lia).
  rewrite <- (su_sends _ _ _ Hsu).
  apply (deliverOnce_reaches _ w w1 Hdr Hf Hnd Hl Hsu); [rewrite (su_zak _ _ _ Hsu); exact Hz|rewrite Hc; exact H0|rewrite Hc; lia].
Qed.
End settle.

(** C3. The gateway makes good what an outage left.  When the database, the link and the issuer work
    again, one sweep and one delivery over a drained queue settle every purchase, pre-authorization and
    refund whose fate was unknown (up to the fifty a sweep takes): each is REVERSED with its 0420
    acknowledged, and the issuer was sent one advice for each of them and nothing else. *)
Theorem outage_is_made_good lmk {J : AdviceJSON} encKey cards backoff zak env age w :
  @working (JCEModule lmk) zak env → slen zak = 16%nat → encKey = "" ∨ is_ok (newGCM encKey) = true →
  fresh_saf_ids (w_db w) → rows_keyed (w_db w) → drained (w_db w) → reversible_orphans cards (w_db w) →
  w_zak w = zak → 0 ≤ stan_counter w → stan_counter w + 50 < 2 ^ 63 →
  let w' := one_round lmk encKey cards backoff env age w in
  ∃ n, now w ≤ n ∧
    (∀ t, t ∈ orphans age n (w_db w) →
       (∃ r, tran (w_db w') !! ID t = Some r ∧ Status r = statusReversed) ∧
       ∃ sid q, saf (w_db w') !! sid = Some q ∧ TranID q = ID t ∧ s_status q = sAcked) ∧
    ∃ msgs, sends_of w' = sends_of w ++ msgs ∧ length msgs = length (orphans age n (w_db w)) ∧
      Forall (λ m : string * fieldmap, m.1 ∈ ["0420"; "0421"]) msgs.
Proof. intros Hw Hz Hk. by apply one_round_spec. Qed.

(** ** A purchase whose request died with the gateway *)

Definition signedb (lmk zak mti : string) (resp : fieldmap) : bool :=
  match macFieldOf resp with
  | Some (mac, field) =>
      match Pack mti (delete field resp) with Ok packed => @macMatches (JCEModule lmk) packed mac zak | Err _ => false end
  | None => false
  end.

Lemma signedb_signed lmk zak mti resp : signedb lmk zak mti resp = true → @signed (JCEModule lmk) zak mti resp.
Proof.
  unfold signedb, signed. destruct (macFieldOf resp) as [[mac field]|]; [|done].
  destruct (Pack mti (delete field resp)) as [packed|] eqn:E; [|done]. intros Hm. by exists mac, field, packed.
Qed.

(** Every call succeeds in a millisecond, and the issuer acknowledges. *)
Definition kind_env : environment := λ R e w, mkChoice Done (Ok demo_0430) true Millisecond 0 (c_nonce quiet).

Lemma kind_env_works : @working (JCEModule demo_lmk) vector_zak kind_env.
Proof.
  split.
  - intros R e w. split_and!; [done|done|]. by exists "000000000000".
  - intros mti f w Hm _. exists demo_0430. split_and!; [done|vm_compute; reflexivity|].
    apply signedb_signed. apply elem_of_cons in Hm as [->|[->|[]%elem_of_nil]%elem_of_cons]; vm_compute; reflexivity.
Qed.

(** Two minutes after the gateway stopped between its send and the answer. *)
Definition demo_after : World := later demo_stopped (now demo_stopped + 2 * Minute) (w_db demo_stopped).
Definition demo_settled : World := one_round demo_lmk (J := demo_json) "" demo_cards demo_backoff kind_env Minute demo_after.

Definition demo_joined : TranLogRow := default no_tran (head (joined (w_db demo_after))).

Lemma demo_joined_only t : t ∈ joined (w_db demo_after) → t = demo_joined.
Proof.
  assert (E : joined (w_db demo_after) = [demo_joined]) by (vm_compute; reflexivity). rewrite E.
  by intros ?%list_elem_of_singleton.
Qed.

Lemma demo_advisable : advisable demo_cards demo_joined.
Proof.
  split; try (split; vm_compute; reflexivity); try (vm_compute; by eexists).
  - right. split; vm_compute; reflexivity.
  - split; [|vm_compute; reflexivity]. eexists. split; [vm_compute; reflexivity|vm_compute; reflexivity].
Qed.

Lemma outage_is_made_good_witness :
  length (orphans Minute (now demo_after) (w_db demo_after)) = 1%nat ∧
  map fst (sends_of demo_settled) = map fst (sends_of demo_stopped) ++ ["0420"] ∧
  ∃ n, now demo_after ≤ n ∧
    (∀ t, t ∈ orphans Minute n (w_db demo_after) →
       (∃ r, tran (w_db demo_settled) !! ID t = Some r ∧ Status r = statusReversed) ∧
       ∃ sid q, saf (w_db demo_settled) !! sid = Some q ∧ TranID q = ID t ∧ s_status q = sAcked) ∧
    ∃ msgs, sends_of demo_settled = sends_of demo_after ++ msgs ∧
      length msgs = length (orphans Minute n (w_db demo_after)) ∧
      Forall (λ m : string * fieldmap, m.1 ∈ ["0420"; "0421"]) msgs.
Proof.
  split; [vm_compute; reflexivity|]. split; [vm_compute; reflexivity|]. unfold demo_settled.
  apply (outage_is_made_good demo_lmk "" demo_cards demo_backoff vector_zak kind_env Minute demo_after kind_env_works).
  - reflexivity.
  - by left.
  - assert (E : saf (w_db demo_after) = ∅) by (vm_compute; reflexivity). intros sid _. rewrite E. apply lookup_empty.
  - assert (E : forallb (λ kv : Z * TranLogRow, ID kv.2 =? kv.1) (map_to_list (tran (w_db demo_after))) = true)
      by (vm_compute; reflexivity).
    intros id r Hr%elem_of_map_to_list%list_elem_of_In. apply (proj1 (forallb_forall _ _) E) in Hr. by apply Z.eqb_eq in Hr.
  - assert (E : saf (w_db demo_after) = ∅) by (vm_compute; reflexivity). intros sid q Hq. rewrite E in Hq. by rewrite lookup_empty in Hq.
  - intros before t Ht _. rewrite (demo_joined_only t Ht). split; [exact demo_advisable|]. split; vm_compute; discriminate.
  - vm_compute. reflexivity.
  - vm_compute. discriminate.
  - vm_compute. reflexivity.
Defined.
