(* ===== verification/Lifecycle.v ===== *)
(** * Lifecycle: what the gateway promises of a transaction, and that it keeps the promise

    The specification is a ledger of accounts, one per row of tran_log, which only opens accounts and
    moves them along the states the design allows (docs/03 and the statuses of purchase/service.go,
    advtxn/service.go, saf/reversal.go, store/safqueue.go).  The gateway of Gateway.v - any number of
    requests, deliveries and sweeps, interleaved call by call, every call with any outcome - refines it. *)

From S2P Require Import Prelude Digits Codec Net Mux KeyStore Mac Calendar Mask Store Journey Prog Idempotency Advice.
From S2P Require Import Purchase Stage Outcome AdvTxn AdvOutcome Saf Gateway.
Local Open Scope Z_scope.
Local Open Scope prog_scope.

(** ** The specification *)

Definition reversible (kind : string) : bool :=
  negb (String.eqb kind tranTypeBalance) && negb (String.eqb kind tranTypeCompletion).

(** How the state of an account of one kind may move; the flag says that a reversal is queued with it. *)
Inductive moves (kind : string) : string → string → bool → Prop :=
  | mv_sent : moves kind statusCreated statusSent false
  | mv_answered st : st ∈ [statusApproved; statusDeclined; statusTimedOut] → moves kind statusSent st false
  | mv_owed st : reversible kind = true → st ∈ [statusSent; statusTimedOut; statusDeclined] →
      moves kind st statusReversalPending true
  | mv_cancelled : kind = tranTypePurchase → moves kind statusApproved statusReversalPending true
  | mv_reversed : reversible kind = true → moves kind statusReversalPending statusReversed false
  | mv_captured : kind = tranTypeCompletion → moves kind statusTimedOut statusApproved false.

(** What never changes of a row, its state, and how many reversals were ever queued for it. *)
Record account := mkAccount {
  a_kind : string; a_rrn : string; a_money : Z * string; a_where : string * string; a_card : string * string;
  a_original : string; a_state : string; a_reversals : nat }.

Definition with_state (a : account) (st : string) (n : nat) : account :=
  mkAccount (a_kind a) (a_rrn a) (a_money a) (a_where a) (a_card a) (a_original a) st n.

Abbreviation Ledger := (gmap Z account).

Inductive ledger_step (L : Ledger) : Ledger → Prop :=
  | ls_opened id a : L !! id = None → a_state a ∈ [statusCreated; statusDeclined] → a_reversals a = O →
      ledger_step L (<[id := a]> L)
  | ls_moved id a st queues : L !! id = Some a → moves (a_kind a) (a_state a) st queues →
      ledger_step L (<[id := with_state a st (a_reversals a + if (queues : bool) then 1 else 0)]> L).

(** *** What the specification implies *)

Definition being_reversed (st : string) : bool := String.eqb st statusReversalPending || String.eqb st statusReversed.

(** One reversal for what is being reversed, none for the rest. *)
Definition account_ok (a : account) : Prop := a_reversals a = if being_reversed (a_state a) then 1%nat else O.

Definition ledger_ok (L : Ledger) : Prop := map_Forall (λ _, account_ok) L.

Lemma moves_reversals kind from to queues :
  moves kind from to queues →
  ((if being_reversed from then 1 else 0) + (if queues then 1 else 0) = if being_reversed to then 1 else 0)%nat.
Proof.
  assert (Hin : ∀ st x y z : string, st ∈ [x; y; z] → st = x ∨ st = y ∨ st = z).
  { intros st x y z. rewrite !elem_of_cons, elem_of_nil. tauto. }
  intros Hm. destruct Hm as [|st Hst|st _ Hst| |_|]; try done; apply Hin in Hst as [->|[->| ->]]; done.
Qed.

Lemma ledger_step_ok L L' : ledger_step L L' → ledger_ok L → ledger_ok L'.
Proof.
  intros [id a Hf Hs Hn|id a st queues Ha Hm] Hok; apply map_Forall_insert_2; try exact Hok.
  - unfold account_ok. rewrite Hn. by apply elem_of_cons in Hs as [->|[->|[]%elem_of_nil]%elem_of_cons].
  - specialize (Hok id a Ha). unfold account_ok in *. cbn [a_reversals a_state with_state]. rewrite Hok.
    by apply moves_reversals with (kind := a_kind a).
Qed.

(** What an account may become. *)
Definition state_step (kind from to : string) : Prop := ∃ queues, moves kind from to queues.

Record evolves (a a' : account) : Prop := {
  ev_fixed : a' = with_state a (a_state a') (a_reversals a');
  ev_path : rtc (state_step (a_kind a)) (a_state a) (a_state a')
}.

#[export] Instance evolves_preorder : PreOrder evolves.
Proof.
  split.
  - intros a. split; [by destruct a|reflexivity].
  - intros a b c [H1 H2] [H3 H4]. split; [rewrite H3, H1; done|]. etransitivity; [exact H2|].
    replace (a_kind a) with (a_kind b) by (by rewrite H1). exact H4.
Qed.

Lemma ledger_step_evolves L L' id a : ledger_step L L' → L !! id = Some a → ∃ a', L' !! id = Some a' ∧ evolves a a'.
Proof.
  intros [id' a' Hf _ _|id' a' st queues Ha Hm] Hid.
  - rewrite lookup_insert_ne by congruence. by exists a.
  - destruct (decide (id' = id)) as [->|?]; [|rewrite lookup_insert_ne by done; by exists a].
    rewrite lookup_insert_eq. assert (a' = a) as -> by congruence. eexists. split; [done|].
    split; [done|]. apply rtc_once. by exists queues.
Qed.

Lemma ledger_evolves L L' id a : rtc ledger_step L L' → L !! id = Some a → ∃ a', L' !! id = Some a' ∧ evolves a a'.
Proof.
  intros H. revert a. induction H as [|L1 L2 L3 H12 _ IH]; intros a Ha; [by exists a|].
  destruct (ledger_step_evolves _ _ _ _ H12 Ha) as (b & Hb & Hab). destruct (IH b Hb) as (c & Hc & Hbc).
  exists c. split; [done|]. by etransitivity.
Qed.

Lemma ledger_ok_steps L L' : rtc ledger_step L L' → ledger_ok L → ledger_ok L'.
Proof. induction 1; eauto using ledger_step_ok. Qed.

(** Nothing leaves REVERSED. *)
Lemma moves_from_reversed kind to queues : ¬ moves kind statusReversed to queues.
Proof.
  intros Hm. inversion Hm as [|st Hst|st _ Hst| | |]; subst.
  repeat apply elem_of_cons in Hst as [Hst|Hst]; [discriminate Hst..|by apply elem_of_nil in Hst].
Qed.

Lemma reversed_for_good kind to : rtc (state_step kind) statusReversed to → to = statusReversed.
Proof. intros H. inversion H as [|? ? ? [q Hm] _]; [done|]. by apply moves_from_reversed in Hm. Qed.

(** ** What the database says of the ledger *)

Definition account_of (r : TranLogRow) : account :=
  mkAccount (Type_ r) (RRN r) (tAmount r, tCurrency r) (TerminalID r, MerchantID r) (MaskedPAN r, CardToken r)
    (OriginalRRN r) (Status r) O.

(** The columns that matter here; everything below depends on the database through them. *)
Record skeleton := mkSkeleton {
  k_rows : gmap Z (Z * account); k_next : Z; k_saf : gmap Z (Z * string); k_next_saf : Z;
  k_history : list (Z * StateTransition) }.

Definition skeleton_of (d : DB) : skeleton :=
  mkSkeleton ((λ r, (ID r, account_of r)) <$> tran d) (next_tran d) ((λ s, (TranID s, s_mti s)) <$> saf d) (next_saf d)
    (history d).

(** The reversal advices of a row, whatever became of them. *)
Definition reversals (q : gmap Z (Z * string)) (id : Z) : nat :=
  size (filter (λ kv : Z * (Z * string), kv.2 = (id, mtiReversalAdvice)) q).

Definition ledger_of (k : skeleton) : Ledger :=
  map_imap (λ id x, Some (with_state x.2 (a_state x.2) (reversals (k_saf k) id))) (k_rows k).

Definition ledger (d : DB) : Ledger := ledger_of (skeleton_of d).

Record skeleton_ok (k : skeleton) : Prop := {
  ko_rows id x : k_rows k !! id = Some x → x.1 = id ∧ id < k_next k;
  ko_saf sid tid m : k_saf k !! sid = Some (tid, m) → sid < k_next_saf k ∧
    ∃ x, k_rows k !! tid = Some x ∧ (m = mtiReversalAdvice → reversible (a_kind x.2) = true) ∧
         (m = mtiCompletionAdvice → a_kind x.2 = tranTypeCompletion);
  ko_ledger : ledger_ok (ledger_of k);
  ko_history id st : (id, st) ∈ k_history k →
    ∃ x, k_rows k !! id = Some x ∧ state_step (a_kind x.2) (FromStatus st) (ToStatus st)
}.

Lemma reversals_insert q sid x id :
  q !! sid = None → reversals (<[sid := x]> q) id = ((if decide (x = (id, mtiReversalAdvice)) then 1 else 0) + reversals q id)%nat.
Proof.
  intros Hf. unfold reversals. case_decide as Hx.
  - rewrite map_filter_insert_True by done. rewrite map_size_insert_None; [done|]. by apply map_lookup_filter_None_2; left.
  - rewrite map_filter_insert_False by done. by rewrite delete_id.
Qed.

Lemma ledger_of_lookup k id :
  ledger_of k !! id = (λ x, with_state x.2 (a_state x.2) (reversals (k_saf k) id)) <$> k_rows k !! id.
Proof. unfold ledger_of. rewrite map_lookup_imap. by destruct (k_rows k !! id). Qed.

(** ** What one call may do to it *)

Definition moved_row (x : Z * account) (st : string) : Z * account := (x.1, with_state x.2 st (a_reversals x.2)).

(** [own]: the row of the request, if it is still CREATED. *)
Inductive change (own : option Z) (k : skeleton) : skeleton → Prop :=
  | ch_none : change own k k
  | ch_opened a : a_state a ∈ [statusCreated; statusDeclined] → a_reversals a = O →
      change own k (mkSkeleton (<[k_next k := (k_next k, a)]> (k_rows k)) (k_next k + 1) (k_saf k) (k_next_saf k) (k_history k))
  | ch_moved id x st hs : k_rows k !! id = Some x → moves (a_kind x.2) (a_state x.2) st false →
      (a_state x.2 = statusCreated → own = Some id) →
      Forall (λ h : Z * StateTransition, h.1 = id ∧ state_step (a_kind x.2) (FromStatus h.2) (ToStatus h.2)) hs →
      change own k (mkSkeleton (<[id := moved_row x st]> (k_rows k)) (k_next k) (k_saf k) (k_next_saf k) (k_history k ++ hs))
  | ch_reversal id x st n : k_rows k !! id = Some x → reversible (a_kind x.2) = true → moves (a_kind x.2) (a_state x.2) st true →
      change own k (mkSkeleton (<[id := moved_row x st]> (k_rows k)) (k_next k)
                      (<[k_next_saf k := (id, mtiReversalAdvice)]> (k_saf k)) (k_next_saf k + 1)
                      (k_history k ++ [(id, mkTransition (a_state x.2) st n)]))
  | ch_advice id x : k_rows k !! id = Some x → a_kind x.2 = tranTypeCompletion →
      change own k (mkSkeleton (k_rows k) (k_next k) (<[k_next_saf k := (id, mtiCompletionAdvice)]> (k_saf k))
                      (k_next_saf k + 1) (k_history k))
  | ch_noted id x st : k_rows k !! id = Some x → state_step (a_kind x.2) (FromStatus st) (ToStatus st) →
      change own k (mkSkeleton (k_rows k) (k_next k) (k_saf k) (k_next_saf k) (k_history k ++ [(id, st)])).

Lemma moves_queues_pending kind from to : moves kind from to true → to = statusReversalPending.
Proof. by inversion 1. Qed.

Lemma from_created kind to queues : moves kind statusCreated to queues → queues = false.
Proof.
  intros Hm. inversion Hm as [|st Hst|st _ Hst| | |]; subst; try done.
  repeat apply elem_of_cons in Hst as [Hst|Hst]; [discriminate Hst..|by apply elem_of_nil in Hst].
Qed.

(** Rows stay, of their kind; a CREATED row moves only by the request it belongs to. *)
Lemma change_keeps own k k' id x :
  skeleton_ok k → change own k k' → k_rows k !! id = Some x →
  ∃ x', k_rows k' !! id = Some x' ∧ x'.1 = x.1 ∧ a_kind x'.2 = a_kind x.2 ∧
        (a_state x.2 = statusCreated → own ≠ Some id → a_state x'.2 = statusCreated).
Proof.
  intros Hok Hc Hx.
  destruct Hc as [|a _ _|id' y st hs Hy _ Hown _|id' y st n Hy _ Hm|id' y _ _|id' y st _ _]; cbn [k_rows]; try (by exists x).
  - rewrite lookup_insert_ne; [by exists x|]. intros <-. apply (ko_rows _ Hok) in Hx as [_ ?]. lia.
  - destruct (decide (id' = id)) as [->|?]; [|rewrite lookup_insert_ne by done; by exists x].
    rewrite lookup_insert_eq. assert (y = x) as -> by congruence. exists (moved_row x st). naive_solver.
  - destruct (decide (id' = id)) as [->|?]; [|rewrite lookup_insert_ne by done; by exists x].
    rewrite lookup_insert_eq. assert (y = x) as -> by congruence. exists (moved_row x st). split_and!; try done.
    intros Hcr. rewrite Hcr in Hm. by apply from_created in Hm.
Qed.

Lemma no_reversals k id : skeleton_ok k → k_rows k !! id = None → reversals (k_saf k) id = O.
Proof.
  intros Hok Hf. unfold reversals. apply map_size_empty_iff, map_empty. intros sid.
  apply map_lookup_filter_None_2. right. intros [tid m] Hs [= -> ->].
  apply (ko_saf _ Hok) in Hs as (_ & x & Hx & _). congruence.
Qed.

Lemma fresh_row k : skeleton_ok k → k_rows k !! k_next k = None.
Proof. intros Hok. destruct (k_rows k !! k_next k) eqn:E; [|done]. apply (ko_rows _ Hok) in E as [_ ?]. lia. Qed.

Lemma fresh_saf k : skeleton_ok k → k_saf k !! k_next_saf k = None.
Proof.
  intros Hok. destruct (k_saf k !! k_next_saf k) as [[tid m]|] eqn:E; [|done]. apply (ko_saf _ Hok) in E as [? _]. lia.
Qed.

(** The simulation: one call is one step of the ledger or none. *)
Lemma change_refines own k k' :
  skeleton_ok k → change own k k' → ledger_of k' = ledger_of k ∨ ledger_step (ledger_of k) (ledger_of k').
Proof.
  intros Hok Hc.
  destruct Hc as [|a Ha Hn|id x st hs Hx Hm _ _|id x st n Hx _ Hm|id x _ _|id x st _ _]; try by left.
  - right. assert (Hl : ledger_of k !! k_next k = None) by (rewrite ledger_of_lookup; by rewrite fresh_row).
    match goal with |- ledger_step _ (ledger_of ?k') => assert (ledger_of k' = <[k_next k := a]> (ledger_of k)) as -> end.
    { apply map_eq. intros i. rewrite ledger_of_lookup. cbn [k_rows k_saf]. destruct (decide (i = k_next k)) as [->|?].
      - rewrite !lookup_insert_eq. cbn. rewrite no_reversals by (done || by apply fresh_row). rewrite <- Hn. by destruct a.
      - by rewrite !lookup_insert_ne, ledger_of_lookup by done. }
    by apply ls_opened.
  - right. match goal with |- ledger_step _ (ledger_of ?k') =>
      assert (ledger_of k' = <[id := with_state x.2 st (reversals (k_saf k) id + 0)]> (ledger_of k)) as -> end.
    { apply map_eq. intros i. rewrite ledger_of_lookup. cbn [k_rows k_saf]. destruct (decide (i = id)) as [->|?].
      - rewrite !lookup_insert_eq. cbn. by rewrite Nat.add_0_r.
      - by rewrite !lookup_insert_ne, ledger_of_lookup by done. }
    apply (ls_moved _ id (with_state x.2 (a_state x.2) (reversals (k_saf k) id)) st false); [|exact Hm].
    by rewrite ledger_of_lookup, Hx.
  - right. match goal with |- ledger_step _ (ledger_of ?k') =>
      assert (ledger_of k' = <[id := with_state x.2 st (reversals (k_saf k) id + 1)]> (ledger_of k)) as -> end.
    { apply map_eq. intros i. rewrite ledger_of_lookup. cbn [k_rows k_saf].
      rewrite reversals_insert by by apply fresh_saf. destruct (decide (i = id)) as [->|?].
      - rewrite !lookup_insert_eq, decide_True by done. cbn. by rewrite Nat.add_1_r.
      - rewrite !lookup_insert_ne, ledger_of_lookup by done. by rewrite decide_False by congruence. }
    apply (ls_moved _ id (with_state x.2 (a_state x.2) (reversals (k_saf k) id)) st true); [|exact Hm].
    by rewrite ledger_of_lookup, Hx.
  - left. apply map_eq. intros i. rewrite !ledger_of_lookup. cbn [k_rows k_saf].
    rewrite reversals_insert by by apply fresh_saf. by rewrite decide_False.
Qed.

Lemma change_ok own k k' : skeleton_ok k → change own k k' → skeleton_ok k'.
Proof.
  intros Hok Hc. assert (HL : ledger_ok (ledger_of k')).
  { destruct (change_refines own k k' Hok Hc) as [->|Hs]; [apply Hok|]. by eapply ledger_step_ok, Hok. }
  pose proof (λ id x, change_keeps own k k' id x Hok Hc) as Hkeep.
  assert (Hlive : ∀ id (P : string → Prop), (∃ x, k_rows k !! id = Some x ∧ P (a_kind x.2)) → ∃ x, k_rows k' !! id = Some x ∧ P (a_kind x.2)).
  { intros id P (x & Hx & HP). destruct (Hkeep id x Hx) as (x' & Hx' & _ & Hk & _). exists x'. by rewrite Hk. }
  assert (Hsaf : ∀ sid tid m, k_saf k !! sid = Some (tid, m) → sid < k_next_saf k ∧
    ∃ x, k_rows k' !! tid = Some x ∧ (m = mtiReversalAdvice → reversible (a_kind x.2) = true) ∧
         (m = mtiCompletionAdvice → a_kind x.2 = tranTypeCompletion)).
  { intros sid tid m [Hn Hx]%(ko_saf _ Hok). split; [done|].
    apply (Hlive tid (λ kind, (m = mtiReversalAdvice → reversible kind = true) ∧
                              (m = mtiCompletionAdvice → kind = tranTypeCompletion))). exact Hx. }
  assert (Hhist : ∀ id st, (id, st) ∈ k_history k →
    ∃ x, k_rows k' !! id = Some x ∧ state_step (a_kind x.2) (FromStatus st) (ToStatus st)).
  { intros id st Hin%(ko_history _ Hok). by apply (Hlive id (λ kind, state_step kind (FromStatus st) (ToStatus st))). }
  assert (Hrow : ∀ id x, k_rows k !! id = Some x → x.1 = id ∧ id < k_next k) by apply Hok.
  destruct Hc as [|a Ha Hn|id x st hs Hx Hm Ho Hh|id x st n Hx Hr Hm|id x Hx Hk|id x st Hx Hst]; [done|..];
    (split; cbn [k_rows k_next k_saf k_next_saf k_history] in *; [|try exact Hsaf|exact HL|try exact Hhist]).
  - intros id x [[<- <-]|[_ [? ?]%Hrow]]%lookup_insert_Some; cbn; lia.
  - intros i y [[<- <-]|[_ Hy]]%lookup_insert_Some; [by apply (Hrow id x)|by apply Hrow].
  - intros i h [Hin|Hin]%elem_of_app; [by apply Hhist|]. apply (proj1 (Forall_forall _ _) Hh) in Hin as [<- Hs].
    cbn [fst snd] in *. exists (moved_row x st). by rewrite lookup_insert_eq.
  - intros i y [[<- <-]|[_ Hy]]%lookup_insert_Some; [by apply (Hrow id x)|by apply Hrow].
  - intros sid tid m [[<- [= <- <-]]|[_ Hs]]%lookup_insert_Some.
    + split; [lia|]. exists (moved_row x st). by rewrite lookup_insert_eq.
    + apply Hsaf in Hs as [? ?]. split; [lia|done].
  - intros i h [Hin|[= -> ->]%list_elem_of_singleton]%elem_of_app; [by apply Hhist|].
    exists (moved_row x st). rewrite lookup_insert_eq. split; [done|]. by exists true.
  - exact Hrow.
  - intros sid tid m [[<- [= <- <-]]|[_ Hs]]%lookup_insert_Some.
    + split; [lia|]. by exists x.
    + apply Hsaf in Hs as [? ?]. split; [lia|done].
  - exact Hrow.
  - intros i h [Hin|[= -> ->]%list_elem_of_singleton]%elem_of_app; [by apply Hhist|]. by exists x.
Qed.

(** ** What a request may call, by what it knows *)

(** The CREATED row that is the request's own, and the kinds of the rows it has seen. *)
Record ghost := mkGhost { g_open : option Z; g_known : list (Z * string) }.

Definition learn (rows : list TranLogRow) (g : ghost) : ghost :=
  mkGhost (g_open g) (map (λ r, (ID r, Type_ r)) rows ++ g_known g).

Definition opens (row : TranLogRow) (id : Z) (g : ghost) : ghost :=
  mkGhost (if String.eqb (Status row) statusCreated then Some id else g_open g) ((id, Type_ row) :: g_known g).

(** What [is_orphan] says of a row's kind. *)
Definition orphaned (r : TranLogRow) : Prop :=
  Status r = statusSent ∨ Status r = statusTimedOut ∨ (Status r = statusDeclined ∧ reversible (Type_ r) = true).

Definition may_insert (row : TranLogRow) : Prop := Status row ∈ [statusCreated; statusDeclined].

Definition permitted_db {A} (q : query A) (g : ghost) : Prop :=
  match q with
  | QInsert row | QInsertCompletion row _ => may_insert row
  | QUpdateStatus id st _ _ => g_open g = Some id ∧ st = statusSent
  | QUpdateStatusFrom _ from st _ _ => from = statusSent ∧ st ∈ [statusApproved; statusDeclined; statusTimedOut]
  | QQueueReversal t _ _ => (ID t, Type_ t) ∈ g_known g ∧ reversible (Type_ t) = true ∧
      moves (Type_ t) (Status t) statusReversalPending true
  | QInsertSaf id m _ => m = mtiCompletionAdvice ∧ (id, tranTypeCompletion) ∈ g_known g
  | QRecordStateTransition id from to => ∃ kind, (id, kind) ∈ g_known g ∧ state_step kind from to
  | _ => True
  end.

Definition permitted (R : Type) (e : event R) (g : ghost) : Prop :=
  match e with EDb q => permitted_db q g | _ => True end.

Definition learns_db {A} (q : query A) (g g' : ghost) : result error A → Prop :=
  match q in query A return result error A → Prop with
  | QInsert row | QInsertCompletion row _ => λ r, g' = match r with Ok id => opens row id g | Err _ => g end
  | QUpdateStatus _ _ _ _ => λ _, g' = mkGhost None (g_known g)
  | QGet _ => λ r, g' = match r with Ok row => learn [row] g | Err _ => g end
  | QFindOrphans _ _ => λ r,
      match r with Ok rows => g' = learn rows g ∧ Forall orphaned rows | Err _ => g' = g end
  | _ => λ _, g' = g
  end.

Definition learns (R : Type) (e : event R) (g : ghost) (r : R) (g' : ghost) : Prop :=
  match e in event R return R → Prop with EDb q => learns_db q g g' | _ => λ _, g' = g end r.

(** What it knows is so. *)
Record holds (g : ghost) (k : skeleton) : Prop := {
  h_open id : g_open g = Some id → ∃ x, k_rows k !! id = Some x ∧ a_state x.2 = statusCreated;
  h_known id kind : (id, kind) ∈ g_known g → ∃ x, k_rows k !! id = Some x ∧ a_kind x.2 = kind
}.

(** ** Calls as changes of the skeleton *)

Lemma skeleton_row d id r : tran d !! id = Some r → k_rows (skeleton_of d) !! id = Some (ID r, account_of r).
Proof. intros Hr. unfold skeleton_of. cbn [k_rows]. by rewrite lookup_fmap, Hr. Qed.

Lemma skeleton_row_inv d id x : k_rows (skeleton_of d) !! id = Some x → ∃ r, tran d !! id = Some r ∧ x = (ID r, account_of r).
Proof.
  unfold skeleton_of. cbn [k_rows]. rewrite lookup_fmap. destruct (tran d !! id) as [r|]; [|done]. intros [= <-]. by exists r.
Qed.

(** The statements rewrite the state and columns that do not matter here. *)
Definition keeps_account (f : TranLogRow → TranLogRow) : Prop :=
  ∀ r, ID (f r) = ID r ∧ account_of (f r) = with_state (account_of r) (Status (f r)) O.

Definition with_row (d : DB) (id : Z) (r : TranLogRow) (st : string) (hs : list (Z * StateTransition)) : skeleton :=
  mkSkeleton (<[id := moved_row (ID r, account_of r) st]> (k_rows (skeleton_of d))) (next_tran d)
    (k_saf (skeleton_of d)) (next_saf d) (history d ++ hs).

Lemma update_tran_cases id wh f d :
  keeps_account f →
  update_tran id wh f d = (O, d) ∨
  ∃ r d', tran d !! id = Some r ∧ wh r = true ∧ update_tran id wh f d = (1%nat, d') ∧
    skeleton_of d' = with_row d id r (Status (f r)) [].
Proof.
  intros Hf. unfold update_tran. destruct (tran d !! id) as [r|]; [|by left]. destruct (wh r) eqn:Hw; [|by left]. right.
  eexists r, _. split_and!; [done|done|done|]. unfold skeleton_of, with_row. cbn [tran set_tran k_rows k_saf].
  rewrite fmap_insert, app_nil_r. destruct (Hf r) as [-> ->]. done.
Qed.

Lemma same_rows_skeleton d m :
  (λ r, (ID r, account_of r)) <$> m = (λ r, (ID r, account_of r)) <$> tran d → skeleton_of (set_tran d m) = skeleton_of d.
Proof. intros Hm. unfold skeleton_of. cbn [tran set_tran saf]. by rewrite Hm. Qed.

Lemma fmap_rows_skeleton d (f : TranLogRow → TranLogRow) :
  (∀ r, ID (f r) = ID r ∧ account_of (f r) = account_of r) → skeleton_of (set_tran d (f <$> tran d)) = skeleton_of d.
Proof.
  intros Hf. apply same_rows_skeleton. rewrite <- map_fmap_compose. apply map_fmap_ext. intros i r _.
  unfold compose. by destruct (Hf r) as [-> ->].
Qed.

(** Rows of the queue keep their transaction and MTI. *)
Lemma update_saf_skeleton id f d :
  (∀ s, TranID (f s) = TranID s ∧ s_mti (f s) = s_mti s) → skeleton_of (update_saf id f d) = skeleton_of d.
Proof.
  intros Hf. unfold update_saf. destruct (saf d !! id) as [s|] eqn:E; [|done].
  unfold skeleton_of. cbn [tran set_saf saf next_tran next_saf history]. f_equal. rewrite fmap_insert.
  destruct (Hf s) as [-> ->]. apply insert_id. by rewrite lookup_fmap, E.
Qed.

Definition opened (d : DB) (row : TranLogRow) : skeleton :=
  mkSkeleton (<[next_tran d := (next_tran d, account_of row)]> (k_rows (skeleton_of d))) (next_tran d + 1)
    (k_saf (skeleton_of d)) (next_saf d) (history d).

Lemma insertTranLog_skeleton now row d :
  let '(r, d') := insertTranLog now row d in
  (r = Ok (next_tran d) ∧ skeleton_of d' = opened d row) ∨ ((∃ e, r = Err e) ∧ d' = d).
Proof.
  unfold insertTranLog. destruct (terminals d !! TerminalID row); [|right; eauto].
  destruct (valid_state (Status row)); [|right; eauto]. left. split; [done|].
  unfold skeleton_of, opened. cbn [tran next_tran saf next_saf history k_rows k_saf]. by rewrite fmap_insert.
Qed.

Lemma InsertCompletion_skeleton now row rrn d :
  let '(r, d') := InsertCompletion now row rrn d in
  (r = Ok (next_tran d) ∧ skeleton_of d' = opened d row) ∨ ((∃ e, r = Err e) ∧ d' = d).
Proof.
  unfold InsertCompletion. destruct (existsb _ _); [|right; eauto].
  set (d1 := set_tran d _). assert (Hs : skeleton_of d1 = skeleton_of d).
  { apply fmap_rows_skeleton. intros r. by case_if. }
  pose proof (insertTranLog_skeleton now row d1) as Hi. destruct (insertTranLog now row d1) as [[id|e] d'].
  - destruct Hi as [[Hr Hd]|[[e ?] _]]; [|done]. left. split; [exact Hr|].
    rewrite Hd. unfold opened. by rewrite Hs.
  - right. eauto.
Qed.

Lemma opened_change own d row : may_insert row → change own (skeleton_of d) (opened d row).
Proof. intros Hs. by apply (ch_opened own (skeleton_of d) (account_of row)). Qed.

Lemma opened_holds d row g : skeleton_ok (skeleton_of d) → holds g (skeleton_of d) → holds (opens row (next_tran d) g) (opened d row).
Proof.
  intros Hok [Ho Hk].
  assert (Hold : ∀ id x, k_rows (skeleton_of d) !! id = Some x → k_rows (opened d row) !! id = Some x).
  { intros id x Hx. pose proof (ko_rows _ Hok id x Hx) as [_ ?]. unfold opened. cbn [k_rows k_next skeleton_of] in *.
    rewrite lookup_insert_ne; [exact Hx|lia]. }
  split.
  - unfold opens. cbn [g_open]. destruct (String.eqb (Status row) statusCreated) eqn:E; intros id.
    + intros [= <-]. apply String.eqb_eq in E. eexists. split; [apply lookup_insert_eq|done].
    + intros (x & Hx & Hs)%Ho. eauto.
  - unfold opens. cbn [g_known]. intros id kind [[= -> ->]|Hin]%elem_of_cons.
    + eexists. split; [apply lookup_insert_eq|done].
    + destruct (Hk id kind Hin) as (x & Hx & Hs). eauto.
Qed.

(** A row that moves by one of the guarded updates. *)
Lemma guarded_move own d id r st hs :
  tran d !! id = Some r → moves (Type_ r) (Status r) st false → (Status r = statusCreated → own = Some id) →
  Forall (λ h : Z * StateTransition, h.1 = id ∧ state_step (Type_ r) (FromStatus h.2) (ToStatus h.2)) hs →
  change own (skeleton_of d) (with_row d id r st hs).
Proof. intros Hr Hm Ho Hh. apply skeleton_row in Hr. by apply (ch_moved own (skeleton_of d) id _ st hs Hr). Qed.

Lemma guarded_move_noted own d id r from to n :
  tran d !! id = Some r → Status r = from → moves (Type_ r) from to false → from ≠ statusCreated →
  change own (skeleton_of d) (with_row d id r to [(id, mkTransition from to n)]).
Proof.
  intros Hr <- Hm Hc. apply guarded_move; [done|done|done|]. constructor; [|constructor]. split; [done|]. by exists false.
Qed.

Lemma add_history_with_row d d0 id id0 r st0 hs st :
  skeleton_of d = with_row d0 id0 r st0 hs → skeleton_of (add_history d id st) = with_row d0 id0 r st0 (hs ++ [(id, st)]).
Proof.
  intros Hs. transitivity (let k := skeleton_of d in
    mkSkeleton (k_rows k) (k_next k) (k_saf k) (k_next_saf k) (k_history k ++ [(id, st)])); [done|].
  cbv zeta. rewrite Hs. unfold with_row. cbn [k_rows k_next k_saf k_next_saf k_history]. by rewrite app_assoc.
Qed.

Lemma keeps_rewrite st rc ac at_ : keeps_account (λ r, rewrite_row r st rc ac at_).
Proof. done. Qed.
Lemma keeps_set_state st : keeps_account (λ r, set_state r st).
Proof. done. Qed.
#[local] Hint Resolve keeps_rewrite keeps_set_state : core.

(** Where a list of states is concrete. *)
Ltac pick_state := by repeat (first [apply list_elem_of_here|apply list_elem_of_further]).

Lemma UpdateStatusFrom_change own now id st rc ac d :
  st ∈ [statusApproved; statusDeclined; statusTimedOut] →
  change own (skeleton_of d) (skeleton_of (UpdateStatusFrom now id statusSent st rc ac d).2).
Proof.
  intros Hst. unfold UpdateStatusFrom. destruct (valid_state st); [|repeat case_match; apply ch_none].
  destruct (update_tran_cases id (λ r, String.eqb (Status r) statusSent) (λ r, rewrite_row r st rc ac (Some now)) d)
    as [-> |(r & d' & Hr & Hs%String.eqb_eq & -> & Hd)]; [done|apply ch_none|].
  cbn [snd]. rewrite Hd. apply guarded_move; [done| |by rewrite Hs|constructor]. rewrite Hs. by apply mv_answered.
Qed.

Lemma MarkTimedOut_change own now id d : change own (skeleton_of d) (skeleton_of (MarkTimedOut now id d).2).
Proof.
  unfold MarkTimedOut.
  destruct (update_tran_cases id (λ r, String.eqb (Status r) statusSent) (λ r, set_state r statusTimedOut) d)
    as [-> |(r & d' & Hr & Hs%String.eqb_eq & -> & Hd)]; [done|apply ch_none|].
  cbn [snd]. rewrite (add_history_with_row _ _ _ _ _ _ _ _ Hd). apply guarded_move_noted; [done|done| |done].
  apply mv_answered. pick_state.
Qed.

Lemma UpdateStatus_change now id rc ac d :
  (∃ x, k_rows (skeleton_of d) !! id = Some x ∧ a_state x.2 = statusCreated) →
  change (Some id) (skeleton_of d) (skeleton_of (UpdateStatus now id statusSent rc ac d).2).
Proof.
  intros (x & (r & Hr & ->)%skeleton_row_inv & Hs). unfold UpdateStatus. change (valid_state statusSent) with true. cbn iota.
  destruct (update_tran_cases id (λ _, true) (λ r, rewrite_row r statusSent rc ac (Some now)) d)
    as [-> |(r' & d' & Hr' & _ & -> & Hd)]; [done|apply ch_none|].
  cbn [snd]. rewrite Hd. assert (r' = r) as -> by congruence. cbn in Hs.
  apply guarded_move; [done| |done|constructor]. rewrite Hs. apply mv_sent.
Qed.

(** The acknowledgement of a reversal or of a completion's advice. *)
Lemma finishOnAck_change own now id from to f d r :
  keeps_account f → (∀ r, Status (f r) = to) → tran d !! id = Some r → from ≠ statusCreated →
  moves (Type_ r) from to false → change own (skeleton_of d) (skeleton_of (finishOnAck now id from to f d)).
Proof.
  intros Hf Hto Hr Hc Hm. unfold finishOnAck.
  destruct (update_tran_cases id (λ r, String.eqb (Status r) from) f d)
    as [-> |(r' & d' & Hr' & Hs%String.eqb_eq & -> & Hd)]; [done|apply ch_none|].
  rewrite (add_history_with_row _ _ _ _ _ _ _ _ Hd), Hto. assert (r' = r) as -> by congruence.
  by apply guarded_move_noted.
Qed.

Lemma MarkAcked_change own now id d :
  skeleton_ok (skeleton_of d) → change own (skeleton_of d) (skeleton_of (MarkAcked now id d).2).
Proof.
  intros Hok. unfold MarkAcked. destruct (saf d !! id) as [s|] eqn:Es; [|apply ch_none]. cbn [snd].
  pose proof (update_saf_skeleton id (ack now) d (λ _, conj eq_refl eq_refl)) as Hsk.
  destruct (ko_saf _ Hok id (TranID s) (s_mti s)) as (_ & x & Hx & Hrev & Hcap).
  { unfold skeleton_of. cbn [k_saf]. by rewrite lookup_fmap, Es. }
  rewrite <- Hsk in Hx |- *. apply skeleton_row_inv in Hx as (r & Hr & ->).
  destruct (String.eqb (s_mti s) mtiReversalAdvice) eqn:E1.
  - apply String.eqb_eq in E1. apply (finishOnAck_change own now _ _ _ _ _ r); [done|done|done|done|]. by apply mv_reversed, Hrev.
  - destruct (String.eqb (s_mti s) mtiCompletionAdvice) eqn:E2; [|apply ch_none].
    apply String.eqb_eq in E2. apply (finishOnAck_change own now _ _ _ _ _ r); [done|done|done|done|]. by apply mv_captured, Hcap.
Qed.

Lemma insert_saf_skeleton now tid m payload d :
  let '(r, d') := insert_saf now tid m payload d in
  (∃ row, tran d !! tid = Some row ∧ is_ok r = true ∧
     skeleton_of d' = mkSkeleton (k_rows (skeleton_of d)) (next_tran d)
       (<[next_saf d := (tid, m)]> (k_saf (skeleton_of d))) (next_saf d + 1) (history d)) ∨
  (is_ok r = false ∧ d' = d).
Proof.
  unfold insert_saf. destruct (tran d !! tid) as [row|]; [|by right].
  destruct (existsb _ _); [|by right]. left. exists row. split_and!; [done|done|].
  unfold skeleton_of. cbn [tran saf next_tran next_saf history k_rows k_saf]. by rewrite fmap_insert.
Qed.

Lemma insert_saf_change own now tid payload d :
  (∃ x, k_rows (skeleton_of d) !! tid = Some x ∧ a_kind x.2 = tranTypeCompletion) →
  change own (skeleton_of d) (skeleton_of (insert_saf now tid mtiCompletionAdvice payload d).2).
Proof.
  intros (x & Hx & Hk). pose proof (insert_saf_skeleton now tid mtiCompletionAdvice payload d) as Hi.
  destruct (insert_saf now tid mtiCompletionAdvice payload d) as [r d']. cbn [snd].
  destruct Hi as [(row & _ & _ & ->)|[_ ->]]; [|apply ch_none]. by apply (ch_advice own (skeleton_of d) tid x).
Qed.

Lemma queue_reversal_change own now t reason payload d :
  reversible (Type_ t) = true → moves (Type_ t) (Status t) statusReversalPending true →
  (∃ x, k_rows (skeleton_of d) !! ID t = Some x ∧ a_kind x.2 = Type_ t) →
  change own (skeleton_of d) (skeleton_of (queue_reversal now t reason payload d).2).
Proof.
  intros Hrev Hm (x & (r & Hr & ->)%skeleton_row_inv & Hk). cbn in Hk. unfold queue_reversal.
  destruct (update_tran_cases (ID t) (λ r, String.eqb (Status r) (Status t))
              (λ r, set_reason (set_state r statusReversalPending) reason) d)
    as [-> |(r' & d1 & Hr' & Hs%String.eqb_eq & -> & Hd)]; [done|apply ch_none|].
  assert (r' = r) as -> by congruence. cbv zeta.
  pose proof (add_history_with_row _ _ (ID t) _ _ _ _ (mkTransition (Status t) statusReversalPending now) Hd) as Hd2.
  set (d2 := add_history d1 _ _) in *. pose proof (insert_saf_skeleton now (ID t) mtiReversalAdvice payload d2) as Hi.
  destruct (insert_saf now (ID t) mtiReversalAdvice payload d2) as [[sid|e] d']; [|apply ch_none]. cbn [snd].
  destruct Hi as [(row & _ & _ & ->)|[? _]]; [|done].
  change (next_tran d2) with (k_next (skeleton_of d2)). change (next_saf d2) with (k_next_saf (skeleton_of d2)).
  change (history d2) with (k_history (skeleton_of d2)). rewrite Hd2. rewrite <- Hs in Hm |- *. rewrite <- Hk in Hrev, Hm.
  apply skeleton_row in Hr. exact (ch_reversal own (skeleton_of d) (ID t) _ statusReversalPending now Hr Hrev Hm).
Qed.

Lemma ClaimDue_skeleton now limit lease d : skeleton_of (ClaimDue now limit lease d).2 = skeleton_of d.
Proof.
  unfold ClaimDue. cbn [snd]. set (claimed := map _ _). unfold skeleton_of. cbn [tran set_saf saf next_tran next_saf history].
  f_equal. apply map_eq. intros i. rewrite !lookup_fmap, lookup_union.
  destruct (list_to_map claimed !! i) as [s|] eqn:E; [|by destruct (saf d !! i)].
  apply elem_of_list_to_map_2 in E. unfold claimed in E. apply list_elem_of_In, in_map_iff in E as ([j s0] & [= <- <-] & Hin).
  apply list_elem_of_In, elem_of_take in Hin as (n & Hn%list_elem_of_lookup_2 & _).
  assert (Hs : (j, s0) ∈ by_id (saf d)) by by apply list_elem_of_In, filter_In, proj1, list_elem_of_In in Hn.
  unfold by_id in Hs. rewrite merge_sort_Permutation in Hs. apply elem_of_map_to_list in Hs. rewrite Hs.
  by destruct (saf d !! j).
Qed.

(** *** What reads tell *)

Lemma joined_kept d r : r ∈ joined d → ∃ id r0, tran d !! id = Some r0 ∧ ID r = ID r0 ∧ Type_ r = Type_ r0 ∧ Status r = Status r0.
Proof.
  unfold joined. intros Hin. apply list_elem_of_omap in Hin as ([id r0] & Hin & Hr). unfold by_id in Hin.
  rewrite merge_sort_Permutation in Hin. apply elem_of_map_to_list in Hin. cbn in Hr.
  destruct (merchants d !! MerchantID r0); [|done]. injection Hr as <-. by exists id, r0.
Qed.

Lemma learn_holds d g rows :
  skeleton_ok (skeleton_of d) → holds g (skeleton_of d) → (∀ r, r ∈ rows → r ∈ joined d) → holds (learn rows g) (skeleton_of d).
Proof.
  intros Hok [Ho Hk] Hrows. split; [exact Ho|]. intros id kind [Hin|Hin]%elem_of_app; [|by apply Hk].
  apply list_elem_of_In, in_map_iff in Hin as (r & [= <- <-] & Hin%list_elem_of_In).
  destruct (joined_kept d r (Hrows r Hin)) as (id & r0 & Hr0%skeleton_row & -> & -> & _).
  pose proof (ko_rows _ Hok _ _ Hr0) as [Heq _]. cbn in Heq. rewrite Heq. eauto.
Qed.

Lemma find_elem {A} (f : A → bool) l x : List.find f l = Some x → x ∈ l.
Proof. intros Hf. by apply list_elem_of_In, (find_some f). Qed.

Lemma is_orphan_orphaned d before r : is_orphan d before r = true → orphaned r.
Proof.
  unfold is_orphan, orphaned, reversible. intros [_ H]%andb_true_iff.
  apply orb_true_iff in H as [[H|H]%orb_true_iff|H]; [left; by apply String.eqb_eq| |].
  - right. left. apply andb_true_iff in H as [[H _]%andb_true_iff _]. by apply String.eqb_eq.
  - right. right. apply andb_true_iff in H as [[[[H _]%andb_true_iff Hb]%andb_true_iff Hc]%andb_true_iff _].
    split; [by apply String.eqb_eq|]. change tranTypeBalance with "BALANCE". change tranTypeCompletion with "COMPLETION".
    by rewrite Hb, Hc.
Qed.

(** *** Every call *)

(** The row a call may take out of CREATED. *)
Definition takes {A} (q : query A) : option Z := match q with QUpdateStatus id _ _ _ => Some id | _ => None end.

Lemma query_change {A} (q : query A) now d g :
  skeleton_ok (skeleton_of d) → holds g (skeleton_of d) → permitted_db q g →
  change (takes q) (skeleton_of d) (skeleton_of (exec_query q now d).2).
Proof.
  intros Hok Hg Hp.
  assert (Hquiet : ∀ own d', skeleton_of d' = skeleton_of d → change own (skeleton_of d) (skeleton_of d')).
  { intros own d' ->. apply ch_none. }
  destruct q; cbn [exec_query takes]; cbn [permitted_db] in Hp; try by apply Hquiet.
  - pose proof (insertTranLog_skeleton now row d) as Hi. destruct (insertTranLog now row d) as [r d']. cbn [snd].
    destruct Hi as [[_ ->]|[_ ->]]; [by apply opened_change|apply ch_none].
  - pose proof (InsertCompletion_skeleton now row preAuthRRN d) as Hi. destruct (InsertCompletion now row preAuthRRN d) as [r d'].
    cbn [snd]. destruct Hi as [[_ ->]|[_ ->]]; [by apply opened_change|apply ch_none].
  - destruct Hp as [Ho ->]. apply UpdateStatus_change. by apply (h_open _ _ Hg).
  - destruct Hp as [-> Hst]. by apply UpdateStatusFrom_change.
  - apply Hquiet. unfold UpdateAmounts. cbn [snd].
    destruct (update_tran_cases id (λ _, true) (λ r, set_amounts r approved balance) d)
      as [-> |(r & d' & Hr & _ & -> & Hd)]; [done|done|]. cbn [snd]. rewrite Hd.
    unfold with_row. rewrite app_nil_r. unfold skeleton_of. cbn [k_rows k_saf]. f_equal.
    apply insert_id. rewrite lookup_fmap, Hr. done.
  - apply Hquiet. unfold UpdateLateResponse. cbn [snd]. apply fmap_rows_skeleton. intros r. by case_if.
  - destruct Hp as (kind & Hin & Hst). destruct (h_known _ _ Hg id kind Hin) as (x & Hx & Hk).
    unfold RecordStateTransition. case_match; [|apply ch_none]. cbn [snd]. rewrite <- Hk in Hst.
    exact (ch_noted None (skeleton_of d) id x (mkTransition from to now) Hx Hst).
  - apply Hquiet. unfold GetTran. by case_match.
  - apply Hquiet. unfold ReleaseCompletion. cbn [snd]. apply fmap_rows_skeleton. intros r. by case_if.
  - apply MarkTimedOut_change.
  - apply Hquiet. unfold Reserve. by repeat case_match.
  - apply Hquiet. unfold AttachRRN. by repeat case_match.
  - apply Hquiet. unfold Reclaim. by repeat case_match.
  - apply Hquiet. unfold StoreResponse. by repeat case_match.
  - apply Hquiet. unfold Release. by repeat case_match.
  - destruct Hp as (Hin & Hrev & Hm). apply queue_reversal_change; [done|done|]. by apply (h_known _ _ Hg).
  - destruct Hp as [-> Hin]. apply insert_saf_change. by apply (h_known _ _ Hg).
  - apply Hquiet, ClaimDue_skeleton.
  - apply Hquiet. by apply update_saf_skeleton.
  - by apply MarkAcked_change.
  - apply Hquiet. by apply update_saf_skeleton.
  - apply Hquiet. by apply update_saf_skeleton.
  - apply Hquiet. unfold FindReversal. by case_match.
  - apply Hquiet. unfold TranRRN. by repeat case_match.
  - apply Hquiet. unfold GetMerchant. by case_match.
Qed.

(** What a request knows outlives a call that does not take its open row. *)
Lemma holds_kept own g k k' :
  skeleton_ok k → change own k k' → holds g k → (∀ id, g_open g = Some id → own ≠ Some id) → holds g k'.
Proof.
  intros Hok Hc [Ho Hk] Hown. split.
  - intros id Hid. destruct (Ho id Hid) as (x & Hx & Hs).
    destruct (change_keeps own k k' id x Hok Hc Hx) as (x' & Hx' & _ & _ & Hst). exists x'. split; [done|]. apply Hst; [done|by apply Hown].
  - intros id kind (x & Hx & <-)%Hk. destruct (change_keeps own k k' id x Hok Hc Hx) as (x' & Hx' & _ & Hkd & _). eauto.
Qed.

(** The new row is nobody's yet. *)
Definition opens_new (g g' : ghost) (k : skeleton) : Prop :=
  ∀ id, g_open g' = Some id → g_open g = Some id ∨ k_rows k !! id = None.

Lemma opens_opens_new row d g :
  skeleton_ok (skeleton_of d) → opens_new g (opens row (next_tran d) g) (skeleton_of d).
Proof.
  intros Hok id. unfold opens. cbn [g_open]. case_if; [|by left]. intros [= <-]. right. by apply fresh_row in Hok.
Qed.

Lemma query_learns {A} (q : query A) f now d g r d' :
  skeleton_ok (skeleton_of d) → holds g (skeleton_of d) → permitted_db q g → exec_db q f now d = (r, d') →
  ∃ g', learns_db q g g' r ∧ holds g' (skeleton_of d') ∧ opens_new g g' (skeleton_of d).
Proof.
  intros Hok Hg Hp He.
  assert (Hc : change (takes q) (skeleton_of d) (skeleton_of d')).
  { destruct f; cbn [exec_db] in He; [|injection He as _ <-; apply ch_none|injection He as _ <-; by eapply query_change].
    replace d' with (exec_query q now d).2 by by rewrite He. by eapply query_change. }
  assert (Hsame : takes q = None → holds g (skeleton_of d')) by (intros Ht; eapply holds_kept; eauto; by rewrite Ht).
  assert (Hstay : ∀ id, g_open g = Some id → g_open g = Some id ∨ k_rows (skeleton_of d) !! id = None) by by left.
  destruct q; cbn [learns_db takes] in *; try (exists g; split_and!; by auto).
  - destruct f; cbn [exec_db exec_query] in He; [|exists g; injection He as <- <-; by auto..].
    pose proof (insertTranLog_skeleton now row d) as Hi. rewrite He in Hi. destruct Hi as [[-> ->]|[[e ->] _]]; [|exists g; by auto].
    exists (opens row (next_tran d) g). split_and!; [done|by apply opened_holds|by apply opens_opens_new].
  - destruct f; cbn [exec_db exec_query] in He; [|exists g; injection He as <- <-; by auto..].
    pose proof (InsertCompletion_skeleton now row preAuthRRN d) as Hi. rewrite He in Hi.
    destruct Hi as [[-> ->]|[[e ->] _]]; [|exists g; by auto].
    exists (opens row (next_tran d) g). split_and!; [done|by apply opened_holds|by apply opens_opens_new].
  - exists (mkGhost None (g_known g)). split_and!; [done| |done]. eapply holds_kept; [exact Hok|exact Hc| |done].
    split; [done|]. apply Hg.
  - destruct r as [row|e]; [|exists g; by auto]. exists (learn [row] g). split_and!; [done| |done].
    destruct f; cbn [exec_db exec_query] in He; try discriminate He. unfold GetTran in He.
    destruct (List.find _ (joined d)) as [r|] eqn:Ef; [|discriminate He]. injection He as -> <-.
    apply learn_holds; [done|done|]. intros r ->%list_elem_of_singleton. by apply find_elem in Ef.
  - destruct r as [rows|e]; [|exists g; by auto]. exists (learn rows g).
    destruct f; cbn [exec_db exec_query] in He; try discriminate He. unfold FindOrphans in He. injection He as <- <-.
    assert (Hr : ∀ r, r ∈ take limit (List.filter (is_orphan d sentBefore) (joined d)) → r ∈ joined d ∧ is_orphan d sentBefore r = true).
    { intros r (n & Hn%list_elem_of_lookup_2 & _)%elem_of_take. apply list_elem_of_In, filter_In in Hn as [Hn ?].
      by apply list_elem_of_In in Hn. }
    split_and!; [done| | |done].
    + apply Forall_forall. intros r [_ Ho]%Hr. by apply is_orphan_orphaned in Ho.
    + apply learn_holds; [done|done|]. by intros r [? _]%Hr.
Qed.

Lemma exec_other {R} (e : event R) c w g r w' :
  match e with EDb _ => False | _ => True end → exec e c (tick c w) = (r, w') →
  w_db w' = w_db w ∧ (∀ g', learns R e g r g' ↔ g' = g).
Proof.
  destruct e; intros He Hx; try done; cbn [exec] in Hx;
    repeat (case_match; try discriminate Hx); by injection Hx as <- <-.
Qed.

(** One call of a request. *)
Lemma exec_sound {R} (e : event R) c w g r w' :
  skeleton_ok (skeleton_of (w_db w)) → holds g (skeleton_of (w_db w)) → permitted R e g → exec e c (tick c w) = (r, w') →
  ∃ own g', change own (skeleton_of (w_db w)) (skeleton_of (w_db w')) ∧ (∀ id, own = Some id → g_open g = Some id) ∧
    learns R e g r g' ∧ holds g' (skeleton_of (w_db w')) ∧ opens_new g g' (skeleton_of (w_db w)).
Proof.
  intros Hok Hg Hp Hx.
  destruct (match e with EDb _ => true | _ => false end) eqn:He.
  - destruct e as [A q| | | | | | | | | |]; try discriminate He. cbn [exec] in Hx.
    change (w_db (tick c w)) with (w_db w) in Hx. destruct (exec_db q (c_fate c) (now (tick c w)) (w_db w)) as [r' d] eqn:Ed.
    injection Hx as <- <-. cbn [w_db with_db]. destruct (query_learns q _ _ _ g _ _ Hok Hg Hp Ed) as (g' & Hl & Hh & Ho).
    assert (Hc : change (takes q) (skeleton_of (w_db w)) (skeleton_of d)).
    { destruct (c_fate c); cbn [exec_db] in Ed; [|injection Ed as _ <-; apply ch_none|injection Ed as _ <-; by eapply query_change].
      replace d with (exec_query q (now (tick c w)) (w_db w)).2 by by rewrite Ed. by eapply query_change. }
    exists (takes q), g'. split_and!; try done. intros id Hid. destruct q; try discriminate Hid. injection Hid as <-. apply Hp.
  - destruct (exec_other e c w g r w') as [-> Hl]; [by destruct e|done|].
    exists None, g. split_and!; [apply ch_none|done|by apply Hl|done|by left].
Qed.

(** ** Any number of requests *)

Definition follows {A} (p : prog A) (Q : A → ghost → Prop) (g : ghost) : Prop := wp permitted learns p Q g.

Record pool_ok (p : Pool) (gs : nat → ghost) : Prop := {
  po_db : skeleton_ok (skeleton_of (w_db (world p)));
  po_threads i t : threads p !! i = Some t →
    follows (t_prog t) (λ _ _, True) (gs i) ∧ holds (gs i) (skeleton_of (w_db (world p)));
  po_apart i j ti tj id : threads p !! i = Some ti → threads p !! j = Some tj → i ≠ j →
    g_open (gs i) = Some id → g_open (gs j) ≠ Some id
}.

Lemma pool_step_ok p gs ic :
  pool_ok p gs → ∃ gs', pool_ok (pool_step p ic) gs' ∧
    ∃ own, change own (skeleton_of (w_db (world p))) (skeleton_of (w_db (world (pool_step p ic)))).
Proof.
  intros [Hok Hth Hap]. destruct ic as [i c]. unfold pool_step. destruct (threads p !! i) as [[A [a|R e k] key s]|] eqn:Ei;
    [exists gs; split; [done|]; exists None; apply ch_none| |exists gs; split; [done|]; exists None; apply ch_none].
  destruct (exec e c (tick c (world p))) as [r w'] eqn:Ex. cbn [world].
  destruct (Hth i _ Ei) as [[Hp Hk] Hh]. cbn [t_prog] in *.
  destruct (exec_sound e c _ (gs i) r w' Hok Hh Hp Ex) as (own & g' & Hc & Hown & Hl & Hh' & Hnew).
  exists (λ j, if decide (j = i) then g' else gs j). split; [|by exists own]. split; cbn [world threads].
  - by eapply change_ok.
  - intros j t Hj. case_decide as Hji.
    + subst j. rewrite lookup_insert_eq in Hj. injection Hj as <-. cbn [t_prog]. split; [by apply Hk|done].
    + rewrite lookup_insert_ne in Hj by done. destruct (Hth j t Hj) as [Hf Hhj]. split; [done|].
      eapply holds_kept; [exact Hok|exact Hc|done|]. intros id Hid Ho%Hown. by apply (Hap i j _ _ id Ei Hj (not_eq_sym Hji) Ho).
  - assert (Hsplit : ∀ j tj id, threads p !! j = Some tj → j ≠ i → g_open g' = Some id → g_open (gs j) ≠ Some id).
    { intros j tj id Hj Hji [Hid|Hid]%Hnew Hid'; [by apply (Hap i j _ _ id Ei Hj (not_eq_sym Hji) Hid)|].
      destruct (Hth j tj Hj) as [_ Hhj]. destruct (h_open _ _ Hhj id Hid') as (x & Hx & _). congruence. }
    intros j1 j2 t1 t2 id [[<- _]|[Hn1 H1]]%lookup_insert_Some [[<- _]|[Hn2 H2]]%lookup_insert_Some Hne; [done|..].
    + rewrite decide_True, decide_False by congruence. by eapply Hsplit.
    + rewrite decide_False, decide_True by congruence. intros Ho1 Ho2. by apply (Hsplit j1 t1 id H1 (not_eq_sym Hn1) Ho2).
    + rewrite !decide_False by congruence. by apply (Hap j1 j2 t1 t2).
Qed.

Lemma pool_run_refines sched p gs :
  pool_ok p gs → rtc ledger_step (ledger (w_db (world p))) (ledger (w_db (world (pool_run sched p)))) ∧
    skeleton_ok (skeleton_of (w_db (world (pool_run sched p)))).
Proof.
  revert p gs. induction sched as [|ic sched IH]; intros p gs Hok; cbn [pool_run fold_left].
  - split; [reflexivity|apply Hok].
  - destruct (pool_step_ok p gs ic Hok) as (gs' & Hok' & own & Hc). destruct (IH _ _ Hok') as [Hr Hs].
    split; [|exact Hs]. etransitivity; [|exact Hr]. unfold ledger.
    destruct (change_refines own _ _ (po_db _ _ Hok) Hc) as [->|?]; [reflexivity|by apply rtc_once].
Qed.

(** ** Programs that follow the protocol *)

(** Nothing is forgotten, nothing new is open. *)
Record grown (g g' : ghost) : Prop := { gr_open : g_open g' = g_open g; gr_known : g_known g ⊆ g_known g' }.

#[export] Instance grown_preorder : PreOrder grown.
Proof. split; [done|]. intros a b c [H1 H2] [H3 H4]. split; [congruence|set_solver]. Qed.

Definition fine {A} (p : prog A) (g : ghost) : Prop := follows p (λ _ _, True) g.

(** From any ghost with [P] on. *)
Definition steady_if {A} (P : ghost → Prop) (p : prog A) : Prop := ∀ g, P g → follows p (λ _ g', grown g g') g.
Abbreviation steady p := (steady_if (λ _, True) p).

Lemma follows_mono {A} (p : prog A) (Q Q' : A → ghost → Prop) g :
  (∀ a g', Q a g' → Q' a g') → follows p Q g → follows p Q' g.
Proof. apply wp_mono. Qed.

Lemma steady_fine {A} P (p : prog A) g : steady_if P p → P g → fine p g.
Proof. intros Hp HP. by eapply follows_mono, Hp. Qed.

Lemma follows_pbind {A B} (f : A → prog B) (p : prog A) Q g :
  follows p (λ a g', follows (f a) Q g') g → follows (pbind f p) Q g.
Proof. apply wp_pbind. Qed.

(** After a steady part, from where it left. *)
Lemma follows_after {A B} P (f : A → prog B) (p : prog A) Q g :
  steady_if P p → P g → (∀ a g', grown g g' → follows (f a) Q g') → follows (pbind f p) Q g.
Proof. intros Hp HP Hf. apply follows_pbind. eapply follows_mono; [|by apply Hp]. auto. Qed.

(** Conditions that outlive growth. *)
Definition lasting (P : ghost → Prop) : Prop := ∀ g g', grown g g' → P g → P g'.

Lemma lasting_True : lasting (λ _, True).
Proof. done. Qed.
Definition knows (id : Z) (kind : string) (g : ghost) : Prop := (id, kind) ∈ g_known g.
Lemma lasting_knows id kind : lasting (knows id kind).
Proof. intros g g' [_ Hk] H. by apply Hk. Qed.

Lemma follows_stay {A} (a : A) g g' : grown g g' → follows (Ret a) (λ _ g', grown g g') g'.
Proof. done. Qed.

Lemma steady_Ret {A} P (a : A) : steady_if P (Ret a).
Proof. intros g _. cbn. reflexivity. Qed.

Lemma steady_pbind {A B} P (f : A → prog B) (p : prog A) :
  lasting P → steady_if P p → (∀ a, steady_if P (f a)) → steady_if P (pbind f p).
Proof.
  intros HL Hp Hf g HP. apply (follows_after P); [done|done|]. intros a g' Hg.
  eapply follows_mono; [|apply Hf, (HL g g' Hg HP)]. intros b g'' ?. by etransitivity.
Qed.

Lemma steady_bindE {A B} P (f : A → progE B) (p : progE A) :
  lasting P → steady_if P p → (∀ a, steady_if P (f a)) → steady_if P (bindE p f).
Proof. intros HL Hp Hf. apply steady_pbind; [done|done|]. intros [a|e]; [apply Hf|apply steady_Ret]. Qed.

Lemma steady_trigger {R} P (e : event R) : no_phase e = true → steady_if P (trigger e).
Proof. intros He g HP. destruct e; try discriminate He; (split; [done|]); intros r g' ->; by apply follows_stay. Qed.

Lemma steady_send P m f : steady_if P (trigger (ESend m f)).
Proof. intros g HP. split; [done|]. intros r g' ->. by apply follows_stay. Qed.

(** The queries anybody may make. *)
Definition harmless {A} (q : query A) : bool :=
  match q with
  | QInsert _ | QInsertCompletion _ _ | QUpdateStatus _ _ _ _ | QUpdateStatusFrom _ _ _ _ _ | QQueueReversal _ _ _
  | QInsertSaf _ _ _ | QRecordStateTransition _ _ _ => false
  | _ => true
  end.

Lemma grown_learn rows g : grown g (learn rows g).
Proof. split; [done|]. cbn. set_solver. Qed.

Lemma steady_db {A} P (q : query A) : harmless q = true → steady_if P (db q).
Proof.
  intros Hq g HP. destruct q; try discriminate Hq; (split; [done|]); intros r g'; cbn [learns learns_db];
    try (intros ->; by apply follows_stay).
  - intros ->. apply follows_stay. destruct r; [apply grown_learn|done].
  - destruct r as [rows|e]; [intros [-> _]; apply follows_stay, grown_learn|intros ->; by apply follows_stay].
Qed.

Create HintDb steady.
#[export] Hint Resolve steady_Ret steady_pbind steady_bindE lasting_True lasting_knows steady_send : steady.
#[export] Hint Extern 1 (steady_if _ (trigger _)) => apply steady_trigger; reflexivity : steady.
#[export] Hint Extern 1 (steady_if _ (db _)) => apply steady_db; reflexivity : steady.
#[export] Hint Extern 2 (steady_if _ (match ?x with _ => _ end)) => destruct x : steady.
#[export] Hint Extern 3 (steady_if _ (retE _)) => apply steady_Ret : steady.
#[export] Hint Extern 3 (steady_if _ (failE _)) => apply steady_Ret : steady.

Lemma steady_weaken {A} (P P' : ghost → Prop) (p : prog A) : (∀ g, P' g → P g) → steady_if P p → steady_if P' p.
Proof. intros HP Hp g Hg. by apply Hp, HP. Qed.

(** *** The guarded queries *)

Lemma steady_status id st rc ac P :
  st ∈ [statusApproved; statusDeclined; statusTimedOut] → steady_if P (db (QUpdateStatusFrom id statusSent st rc ac)).
Proof. intros Hst g _. split; [done|]. intros r g' ->. by apply follows_stay. Qed.

Lemma steady_note id kind from to : state_step kind from to → steady_if (knows id kind) (db (QRecordStateTransition id from to)).
Proof. intros Hs g Hk. split; [by exists kind|]. intros r g' ->. by apply follows_stay. Qed.

Section queue.
Context {J : AdviceJSON} (encKey : string).

Lemma steady_seal P adv : steady_if P (seal encKey adv).
Proof. unfold seal. destruct (String.eqb encKey ""); [apply steady_Ret|]. intros g _. split; [done|]. intros r g' ->. by apply follows_stay. Qed.

Lemma steady_Queue t reason :
  reversible (Type_ t) = true → moves (Type_ t) (Status t) statusReversalPending true →
  steady_if (knows (ID t) (Type_ t)) (Queue encKey t reason).
Proof.
  intros Hr Hm. unfold Queue, liftE. apply steady_bindE; [apply lasting_knows|apply steady_Ret|]. intros adv.
  apply steady_bindE; [apply lasting_knows|apply steady_seal|]. intros payload g Hk. split; [done|]. intros r g' ->. by apply follows_stay.
Qed.

Lemma steady_QueueAdvice id sent : steady_if (knows id tranTypeCompletion) (QueueAdvice encKey id mtiCompletionAdvice sent).
Proof.
  unfold QueueAdvice. apply steady_bindE; [apply lasting_knows|apply steady_seal|]. intros payload.
  apply steady_bindE; [apply lasting_knows| |intros; apply steady_Ret]. intros g Hk. split; [done|]. intros r g' ->. by apply follows_stay.
Qed.
End queue.

(** *** In a create call *)

Lemma fine_pbind {A B} (f : A → prog B) (p : prog A) g : follows p (λ a g', fine (f a) g') g → fine (pbind f p) g.
Proof. apply follows_pbind. Qed.

Lemma fine_after {A B} P (f : A → prog B) (p : prog A) g :
  steady_if P p → P g → (∀ a g', grown g g' → fine (f a) g') → fine (pbind f p) g.
Proof. apply follows_after. Qed.

Lemma fine_hbind {A B} (p : hprog A) (f : A → hprog B) rrn g :
  follows (p rrn) (λ r g', match r with (Ok a, rrn) => fine (f a rrn) g' | _ => True end) g → fine (hbind p f rrn) g.
Proof. intros Hp. apply fine_pbind. eapply follows_mono; [|exact Hp]. intros [[a|e] rrn'] g' H; [exact H|done]. Qed.

Lemma fine_hlift_follows {A B} (p : progE A) (f : A → hprog B) rrn g :
  follows p (λ r g', match r with Ok a => fine (f a rrn) g' | Err _ => True end) g → fine (hbind (hlift p) f rrn) g.
Proof.
  intros Hp. apply fine_hbind. unfold hlift. apply follows_pbind. eapply follows_mono; [|exact Hp].
  intros [a|e] g' H; exact H.
Qed.

Lemma fine_hlift {A B} P (p : progE A) (f : A → hprog B) rrn g :
  steady_if P p → P g → (∀ a g', grown g g' → fine (f a rrn) g') → fine (hbind (hlift p) f rrn) g.
Proof.
  intros Hp HP Hf. apply fine_hlift_follows. eapply follows_mono; [|by apply Hp]. intros [a|e] g' Hg; [by apply Hf|done].
Qed.

Lemma fine_lift {A} P (p : progE A) rrn g : steady_if P p → P g → fine (hlift p rrn) g.
Proof. intros Hp HP. by apply (fine_after P). Qed.

Lemma fine_heff {A R} (e : event R) (f : R → hprog A) rrn g :
  no_phase e = true → (∀ r, fine (f r rrn) g) → fine (hbind (heff e) f rrn) g.
Proof. intros He Hf. destruct e; try discriminate He; (split; [done|]); intros r g' ->; apply Hf. Qed.

Lemma fine_heff_send {A} m fields (f : result error fieldmap → hprog A) rrn g :
  (∀ r, fine (f r rrn) g) → fine (hbind (heff (ESend m fields)) f rrn) g.
Proof. intros Hf. split; [done|]. intros r g' ->. apply Hf. Qed.

Lemma follows_attach held rrn attached g : follows (attach_rrn held rrn attached) (λ _ g', grown g g') g.
Proof.
  unfold attach_rrn. destruct held as [h|]; [|by apply follows_stay]. apply (follows_after (λ _, True)); [by apply steady_db|done|].
  intros [?|?] g' Hg; exact Hg.
Qed.

Lemma fine_attach {A} held rrn (f : () → hprog A) attached g :
  (∀ rrn g', grown g g' → fine (f () rrn) g') → fine (hbind (attach_rrn held rrn) f attached) g.
Proof.
  intros Hf. apply fine_hbind. eapply follows_mono; [|apply follows_attach]. intros [[[]|e] rrn'] g' Hg; [by apply Hf|done].
Qed.

Section idempotent.
Context {T : Type} (Marshal : T → string) (Unmarshal : string → option T).

Lemma steady_answerFromLog k rrn (f : Recover) : (∀ rrn, steady (f rrn)) → steady (answerFromLog Marshal k rrn f).
Proof.
  intros Hf. unfold answerFromLog, storeResponse. apply steady_bindE; [apply lasting_True|apply Hf|]. intros [txn []]; eauto with steady.
Qed.

Lemma fine_Idempotent k create (fromLog : option Recover) g :
  (∀ held g, fine (create held "") g) → (∀ f rrn, fromLog = Some f → steady (f rrn)) →
  fine (Idempotent Marshal Unmarshal k create fromLog) g.
Proof.
  intros Hc Hf. assert (Hlog : ∀ f rrn, fromLog = Some f → steady (answerFromLog Marshal k rrn f)).
  { intros f rrn Hl. apply steady_answerFromLog. intros r. by apply Hf. }
  unfold Idempotent. apply fine_after with (λ _, True); [|done|].
  - unfold begin_, takeOverStale. apply steady_bindE; [apply lasting_True|by apply steady_db|].
    intros [token|stored|rrn at_]; [by eauto with steady..|].
    apply steady_pbind; [apply lasting_True|by apply steady_trigger|]. intros now. case_if; [|apply steady_Ret].
    case_if; [|apply steady_bindE; [apply lasting_True|by apply steady_db|intros []; apply steady_Ret]].
    destruct fromLog as [f|]; [|apply steady_Ret]. apply steady_bindE; [apply lasting_True|by apply Hlog|]. intros; apply steady_Ret.
  - intros [[t|token]|e] g' _; [done| |done]. apply fine_pbind. eapply follows_mono; [|apply Hc].
    intros [[res|e] rrn] g1 _.
    + apply (fine_after (λ _, True)); [unfold storeResponse; by apply steady_db|done|]. intros r g2 _. by destruct (afterSend r).
    + apply (steady_fine (λ _, True)); [|done]. unfold failed. case_if; [apply steady_Ret|]. case_if.
      * apply steady_pbind; [apply lasting_True|by apply steady_db|]. intros []; apply steady_Ret.
      * destruct fromLog as [f|]; [|apply steady_Ret]. case_if; [apply steady_Ret|].
        apply steady_pbind; [apply lasting_True|by apply Hlog|]. intros []; apply steady_Ret.
Qed.
End idempotent.

(** *** Purchases *)

Definition answered (st : string) : Prop := st ∈ [statusApproved; statusDeclined; statusTimedOut].

Lemma answered_cases st : answered st → st = statusApproved ∨ st = statusDeclined ∨ st = statusTimedOut.
Proof. unfold answered. rewrite !elem_of_cons, elem_of_nil. tauto. Qed.

Lemma answered_if (b : bool) : answered (if b then statusApproved else statusDeclined).
Proof. unfold answered. destruct b; pick_state. Qed.

Lemma SendFailureStatus_answered e : answered (SendFailureStatus e).1.
Proof. unfold SendFailureStatus, answered. case_if; cbn [fst]; pick_state. Qed.

(** What a status and a bad MAC owe: a reversal, from the state the row was left in. *)
Lemma owed_moves kind st macFailed current :
  reversible kind = true → (macFailed = true → st = statusDeclined) → reversalReasonFor st macFailed ≠ "" →
  current = statusSent ∨ current = st → moves kind current statusReversalPending true.
Proof.
  intros Hr Hmac Hreason Hcur. apply mv_owed; [done|]. unfold reversalReasonFor in Hreason.
  destruct (String.eqb st statusTimedOut) eqn:E.
  - apply String.eqb_eq in E as ->. destruct Hcur as [-> | ->]; pick_state.
  - destruct macFailed; [|done]. rewrite Hmac in Hcur by done. destruct Hcur as [-> | ->]; pick_state.
Qed.

Lemma answered_note kind st : answered st → state_step kind statusSent st.
Proof. intros Hst. exists false. by apply mv_answered. Qed.

Section purchases.
Context {H : Module_} {C : Calendar} {J : AdviceJSON} (encKey : string).
#[local] Instance sealed_queue : SAFQueuer := saf_queuer encKey.

Lemma steady_verify P m resp : lasting P → steady_if P (verify m resp).
Proof. intros HL. unfold verify. eauto 10 with steady. Qed.

Lemma steady_attach P m fields : lasting P → steady_if P (attach m fields).
Proof. intros HL. unfold attach. eauto 10 with steady. Qed.

Lemma follows_mapSendOutcome txn sent g :
  follows (mapSendOutcome txn sent)
    (λ r g', grown g g' ∧ answered (x_Status r.1) ∧ (r.2 = true → x_Status r.1 = statusDeclined)) g.
Proof.
  unfold mapSendOutcome. destruct sent as [resp|e].
  - apply (follows_after (λ _, True)); [apply steady_verify, lasting_True|done|]. intros [] g' Hg; cbn.
    + split_and!; [done|apply answered_if|done].
    + split_and!; [done|exact (answered_if false)|done].
  - pose proof (SendFailureStatus_answered e) as Hs. destruct (SendFailureStatus e) as [st rc]. cbn. by split_and!.
Qed.

Lemma follows_recordStatus id txn g :
  answered (x_Status txn) → knows id tranTypePurchase g →
  follows (Purchase.recordStatus id txn) (λ r g', grown g g' ∧ (r.1 = statusSent ∨ r.1 = x_Status txn)) g.
Proof.
  intros Hst Hk. unfold Purchase.recordStatus. apply (follows_after (λ _, True)); [by apply steady_status|done|]. intros [u|e] g' Hg; cbn.
  - split; [by exists tranTypePurchase; split; [by apply Hg|by apply answered_note]|]. intros [u2|e] g2 ->; cbn; by split; [|right].
  - split; [done|by left].
Qed.

Lemma steady_answer_with {A} P (a : A) e : steady_if P (answer_with a e).
Proof. unfold answer_with. eauto with steady. Qed.

Lemma fine_answer_with {A} (a : A) e g : fine (answer_with a e) g.
Proof. apply (steady_fine (λ _, True)); [apply steady_answer_with|done]. Qed.

Lemma fine_finalize row txn macFailed g :
  answered (x_Status txn) → (macFailed = true → x_Status txn = statusDeclined) → Type_ row = tranTypePurchase →
  knows (ID row) tranTypePurchase g → fine (finalizeSendResult row txn macFailed) g.
Proof.
  intros Hst Hmac Hty Hk. unfold finalizeSendResult. apply fine_pbind.
  eapply follows_mono; [|by apply follows_recordStatus]. intros [current e] g' [Hg Hcur]. cbn [fst] in Hcur.
  destruct (is_moved e); [done|]. destruct (String.eqb (reversalReasonFor _ _) "") eqn:Er.
  - apply fine_answer_with.
  - apply String.eqb_neq in Er. assert (Hr : reversible (Type_ (set_state row current)) = true).
    { change (Type_ (set_state row current)) with (Type_ row). by rewrite Hty. }
    apply (fine_after (knows (ID (set_state row current)) (Type_ (set_state row current)))).
    + apply (steady_Queue encKey); [done|]. by apply (owed_moves _ (x_Status txn) macFailed).
    + cbn [ID Type_ set_state rewrite_row]. rewrite Hty. by apply Hg.
    + intros [u|e'] g2 _; [|done]. apply fine_answer_with.
Qed.

Lemma fine_settleSend txn row latency sent attached g :
  Type_ row = tranTypePurchase → knows (ID row) tranTypePurchase g → fine (hlift (Purchase.settleSend txn row latency sent) attached) g.
Proof.
  intros Hty Hk. unfold hlift, Purchase.settleSend. do 2 apply fine_pbind.
  apply (follows_mono _ (λ _ _, True)); [by intros r g' _|]. unfold settleOutcome. apply fine_pbind.
  eapply follows_mono; [|apply follows_mapSendOutcome]. intros [txn' macFailed] g' (Hg & Hst & Hmac). cbn [fst snd] in *.
  apply fine_finalize; [exact Hst|exact Hmac|exact Hty|by apply Hg].
Qed.

(** The only unconditional update: the request's own row, from CREATED. *)
Lemma follows_mark id rc ac g :
  g_open g = Some id → follows (db (QUpdateStatus id statusSent rc ac)) (λ _ g', g_known g' = g_known g) g.
Proof. intros Ho. split; [done|]. by intros r g' ->. Qed.

Lemma fine_markAndSend id fields (settle : Z → result error fieldmap → progE Transaction) attached g :
  g_open g = Some id → knows id tranTypePurchase g →
  (∀ latency sent attached g, knows id tranTypePurchase g → fine (hlift (settle latency sent) attached) g) →
  fine (markAndSend id fields settle attached) g.
Proof.
  intros Ho Hk Hs. unfold markAndSend. apply fine_hlift_follows. eapply follows_mono; [|by apply follows_mark].
  intros [u|e] g1 Hg1; [|done]. assert (Hk1 : knows id tranTypePurchase g1) by by unfold knows; rewrite Hg1.
  apply (fine_hlift (knows id tranTypePurchase)); [|done|].
  { apply steady_note. exists false. apply mv_sent. }
  intros [] g2 Hg2. apply (fine_hlift (knows id tranTypePurchase)); [|by apply Hg2|].
  { unfold sendDuplicateIfActive. apply steady_pbind; [apply lasting_knows| |intros; apply steady_Ret].
    apply steady_pbind; [apply lasting_knows|by apply steady_trigger|]. intros []; eauto with steady. }
  intros [] g3 Hg3. apply fine_heff; [done|]. intros start. apply fine_heff_send. intros sent.
  apply fine_heff; [done|]. intros stop. apply Hs. by apply Hg3, Hg2.
Qed.

(** A row inserted as CREATED is the request's. *)
Lemma follows_insert (q : query Z) row g :
  (q = QInsert row ∨ ∃ rrn, q = QInsertCompletion row rrn) → may_insert row →
  follows (db q) (λ r g', match r with Ok id => g' = opens row id g | Err _ => True end) g.
Proof. intros [-> |[rrn ->]] Hs; (split; [done|]); by intros [id|e] g' ->. Qed.

Lemma opens_created row id g :
  Status row = statusCreated → g_open (opens row id g) = Some id ∧ knows id (Type_ row) (opens row id g).
Proof. intros Hs. unfold opens, knows. rewrite Hs. split; [done|]. by left. Qed.

Section requests.
Context (cards : CardTokenRegistry) (marshal_txn : Transaction → string) (unmarshal_txn : string → option Transaction)
        (marshal_req : PurchaseRequest → string) (sha256Hex : string → string) (traceID : string).

Lemma fine_sendPurchase held req card merchant masked stan attached g :
  fine (sendPurchase traceID held req card merchant masked stan attached) g.
Proof.
  unfold sendPurchase. apply fine_heff; [done|]. intros now. cbv zeta.
  match goal with |- context [QInsert ?r] => set (row := r) end.
  apply fine_hlift_follows. eapply follows_mono; [|apply (follows_insert (QInsert row) row); [by left|by unfold may_insert; pick_state]].
  intros [id|e] g1; [|done]. intros ->. destruct (opens_created row id g eq_refl) as [Ho Hk].
  apply (fine_hlift (λ _, True)); [apply steady_attach, lasting_True|done|]. intros fields g2 Hg2.
  apply fine_attach. intros rrn g3 Hg3. apply fine_markAndSend.
  - rewrite (gr_open _ _ Hg3), (gr_open _ _ Hg2). exact Ho.
  - apply Hg3, Hg2, Hk.
  - intros latency sent attached' g4 Hk4. by apply fine_settleSend.
Qed.

Lemma fine_createPurchase req held attached g : fine (createPurchase cards traceID req held attached) g.
Proof.
  unfold createPurchase. apply (fine_hlift (λ _, True)); [unfold resolveCardAndMerchant; eauto 8 with steady|done|].
  intros [card merchant] g1 _. apply fine_heff; [done|]. intros stan. apply fine_heff; [done|]. intros up.
  assert (Htell : ∀ (txn : Transaction) rrn g,
    fine (hbind (heff (EBroadcast (BroadcastTransaction eventCreated txn))) (λ _, hret txn) rrn) g) by by intros; apply fine_heff.
  assert (Hdown : ∀ g rrn, fine (hbind (heff ENow) (λ now,
      let txn := declinedTransaction traceID req merchant (MaskPAN (PAN card)) rcLinkDown now in
      hbind (hlift (Purchase.recordLinkDown txn req merchant)) (λ _,
      hbind (heff (EBroadcast (BroadcastTransaction eventCreated txn))) (λ _, hret txn))) rrn) g).
  { intros g2 rrn. apply fine_heff; [done|]. intros now. cbv zeta. apply fine_hlift_follows. unfold Purchase.recordLinkDown.
    apply wp_bindE. eapply follows_mono; [|apply (follows_insert (QInsert _)); [by left|by unfold may_insert; pick_state]].
    intros [id|e] g' _; [|done]. apply Htell. }
  destruct up; [|apply Hdown]. destruct stan as [stan|]; [|apply Hdown].
  apply fine_hbind. eapply follows_mono; [|apply fine_sendPurchase]. intros [[txn|e] rrn] g' _; [apply Htell|done].
Qed.

Lemma steady_fromLog rrn : steady (Purchase.fromLog rrn).
Proof. unfold Purchase.fromLog. eauto with steady. Qed.

Lemma fine_CreatePurchase req key g :
  fine (CreatePurchase cards marshal_txn unmarshal_txn marshal_req sha256Hex traceID req key) g.
Proof.
  apply fine_Idempotent; [intros; apply fine_createPurchase|]. intros f rrn [= <-]. apply steady_fromLog.
Qed.

(** A read tells the kind of the row. *)
Lemma follows_get rrn g :
  follows (db (QGet rrn)) (λ r g', match r with Ok row => knows (ID row) (Type_ row) g' | Err _ => True end) g.
Proof. split; [done|]. intros [row|e] g' ->; cbn; [by left|done]. Qed.

Lemma fine_cancelPurchase rrn attached g : fine (hlift (cancelPurchase rrn) attached) g.
Proof.
  unfold hlift, cancelPurchase. apply fine_pbind, (follows_mono _ (λ _ _, True)); [by intros r g' _|].
  apply wp_bindE. eapply follows_mono; [|apply follows_get]. intros [row|e] g1 Hk; [|done].
  destruct (String.eqb (Type_ row) tranTypePurchase) eqn:Et; cbn [negb orb]; [|done].
  destruct (String.eqb (Status row) statusApproved) eqn:Es; cbn [negb]; [|done].
  apply String.eqb_eq in Et. apply String.eqb_eq in Es. apply wp_bindE.
  eapply follows_mono; [|apply (steady_Queue encKey row reasonCancellation); [by rewrite Et|rewrite Es; by apply mv_cancelled|exact Hk]].
  intros [u|e] g2 _; [|done]. apply (steady_fine (λ _, True)); [|done]. eauto with steady.
Qed.

Lemma fine_CancelPurchase rrn key g : fine (CancelPurchase marshal_txn unmarshal_txn sha256Hex rrn key) g.
Proof. apply fine_Idempotent; [intros; apply fine_cancelPurchase|done]. Qed.
End requests.

(** *** Advanced transactions *)

Section advanced.
Context (cards : CardTokenRegistry) (marshal_adv : AdvTransaction → string) (unmarshal_adv : string → option AdvTransaction)
        (hash_adv : hashed → string) (traceID : string).

Lemma mapResponse_answered ty amount resp : answered (y_Status (mapResponseToTransaction ty amount resp)).
Proof. unfold mapResponseToTransaction. repeat case_match; cbn; unfold answered; pick_state. Qed.

Lemma follows_outcome p sent g :
  follows (outcome p sent)
    (λ r g', grown g g' ∧ answered (y_Status r.1) ∧
             (r.2 = true → y_Status r.1 = if String.eqb (txnType p) tranTypeCompletion then statusTimedOut else statusDeclined)) g.
Proof.
  unfold outcome. destruct sent as [resp|e].
  - apply (follows_after (λ _, True)); [apply steady_verify, lasting_True|done|]. intros [] g' Hg.
    + cbn [follows wp fst snd]. split_and!; [done|apply mapResponse_answered|done].
    + case_if; cbn; (split_and!; [done|unfold answered; pick_state|done]).
  - pose proof (SendFailureStatus_answered e) as Hs. destruct (SendFailureStatus e) as [st rc]. cbn. by split_and!.
Qed.

Lemma follows_adv_recordStatus id kind txn g :
  answered (y_Status txn) → knows id kind g →
  follows (recordStatus id txn) (λ r g', grown g g' ∧ (r.1 = statusSent ∨ r.1 = y_Status txn)) g.
Proof.
  intros Hst Hk. unfold recordStatus. apply (follows_after (λ _, True)); [by apply steady_status|done|]. intros [u|e] g' Hg; cbn.
  - split; [by exists kind; split; [by apply Hg|by apply answered_note]|]. intros r g2 ->. cbn. by split; [|right].
  - split; [done|by left].
Qed.

Lemma fine_deliverOwed p row current txn macFailed e g :
  (txnType p = tranTypeCompletion → mti p = mtiCompletionAdvice) → Type_ row = txnType p → knows (ID row) (txnType p) g →
  (macFailed = true → y_Status txn = if String.eqb (txnType p) tranTypeCompletion then statusTimedOut else statusDeclined) →
  current = statusSent ∨ current = y_Status txn → fine (deliverOwed p row current txn macFailed e) g.
Proof.
  intros Hmti Hty Hk Hmac Hcur. unfold deliverOwed.
  destruct (String.eqb (txnType p) tranTypeBalance) eqn:Eb; [apply fine_answer_with|].
  case_if.
  { apply (fine_after (λ _, True)); [unfold releaseClaim; eauto with steady|done|]. intros r g' _.
    apply fine_answer_with. }
  destruct (String.eqb (txnType p) tranTypeCompletion) eqn:Ec; cbn [andb].
  - apply String.eqb_eq in Ec. destruct (String.eqb (y_Status txn) statusTimedOut) eqn:Et.
    + rewrite Hmti by done. apply (fine_after (knows (ID row) tranTypeCompletion)); [apply (steady_QueueAdvice encKey)|by rewrite <- Ec|].
      intros [u|e'] g' _; [|done]. apply fine_answer_with.
    + unfold reverseIfOwed, reversalReason. rewrite Et. destruct macFailed; [by rewrite Hmac in Et|].
      apply fine_answer_with.
  - unfold reverseIfOwed. destruct (String.eqb (reversalReason _ _) "") eqn:Er.
    + apply fine_answer_with.
    + apply String.eqb_neq in Er. assert (Hr : reversible (txnType p) = true) by by unfold reversible; rewrite Eb, Ec.
      apply (fine_after (knows (ID (set_state row current)) (Type_ (set_state row current)))).
      * apply (steady_Queue encKey (set_state row current)); cbn [Type_ Status set_state rewrite_row]; rewrite Hty; [done|].
        by apply (owed_moves _ (y_Status txn) macFailed).
      * cbn [ID Type_ set_state rewrite_row]. by rewrite Hty.
      * intros [u|e'] g' _; [|done]. apply fine_answer_with.
Qed.

Lemma fine_adv_settleSend p merchant row latency sent attached g :
  (txnType p = tranTypeCompletion → mti p = mtiCompletionAdvice) → Type_ row = txnType p → knows (ID row) (txnType p) g →
  fine (hlift (settleSend traceID p merchant row latency sent) attached) g.
Proof.
  intros Hmti Hty Hk. unfold hlift, settleSend. do 2 apply fine_pbind.
  eapply follows_mono; [|apply follows_outcome]. intros [txn macFailed] g1 (Hg1 & Hst & Hmac). cbn [fst snd] in *.
  apply follows_pbind. unfold describe. apply (follows_after (λ _, True)); [by apply steady_trigger|done|]. intros now g2 Hg2.
  cbn [follows wp]. apply follows_pbind. apply (follows_mono _ (λ _ _, True)); [by intros r g' _|].
  unfold finalize. cbn [y_Status set_latency]. apply fine_pbind.
  eapply follows_mono; [|apply (follows_adv_recordStatus (ID row) (txnType p)); [exact Hst|by apply Hg2, Hg1]].
  intros [current e] g3 [Hg3 Hcur]. destruct (is_moved e); [done|].
  apply (fine_after (λ _, True)); [unfold recordAmounts; repeat case_match; eauto with steady|done|]. intros r g4 Hg4.
  apply fine_deliverOwed; [exact Hmti|exact Hty|by apply Hg4, Hg3, Hg2, Hg1|exact Hmac|exact Hcur].
Qed.

(** A completion goes out as 0220. *)
Definition mti_fits (p : sendParams) : Prop := txnType p = tranTypeCompletion → mti p = mtiCompletionAdvice.

(** What marking a row as sent leaves behind, whether its failure is handled or not. *)
Definition marked (id : Z) (kind : string) {A} (r : result error A * string) (g : ghost) : Prop :=
  match r.1 with Ok _ => knows id kind g | Err _ => True end.

Lemma follows_markSending held id p attached g :
  g_open g = Some id → knows id (txnType p) g →
  follows (markSending held id p attached) (marked id (txnType p)) g.
Proof.
  intros Ho Hk. unfold markSending, hbind. apply follows_pbind. eapply follows_mono; [|apply follows_attach].
  intros [[u|e] rrn1] g1 Hg1; [|done]. unfold hlift, transition. apply follows_pbind, wp_bindE.
  eapply follows_mono; [|apply (follows_mark id); rewrite (gr_open _ _ Hg1); exact Ho]. intros [u2|e] g2 Hg2; [|done].
  assert (Hk2 : knows id (txnType p) g2) by (unfold knows; rewrite Hg2; by apply Hg1).
  eapply follows_mono; [|apply (steady_note id (txnType p)); [exists false; apply mv_sent|exact Hk2]].
  intros [u3|e] g3 Hg3; [|done]. unfold marked. cbn. by apply Hg3.
Qed.

Lemma fine_sendAndRecord held p merchant attached g : mti_fits p → fine (sendAndRecord traceID held p merchant attached) g.
Proof.
  intros Hmti. unfold sendAndRecord. set (row := sentRow traceID p merchant). apply fine_hlift_follows.
  assert (Hins : follows (insert_ p row) (λ r g', match r with Ok id => g' = opens row id g | Err _ => True end) g).
  { unfold insert_. case_if; (apply follows_insert; [eauto|unfold may_insert; pick_state]). }
  eapply follows_mono; [|exact Hins]. clear Hins. intros [id|e] g1; [|done]. intros ->.
  destruct (opens_created row id g eq_refl) as [Ho Hk]. apply fine_hbind.
  eapply (follows_mono _ (marked id (txnType p))).
  - intros [[u|e] rrn1] g2 Hk2; [|done]. unfold marked in Hk2. cbn in Hk2. apply fine_heff; [done|]. intros start.
    apply fine_heff_send. intros sent. apply fine_heff; [done|]. intros stop. by apply fine_adv_settleSend.
  - unfold hcatch. apply follows_pbind. eapply follows_mono; [|by apply follows_markSending].
    intros [[u|e] rrn1] g2 Hm; [exact Hm|]. unfold hlift. apply follows_pbind, follows_pbind.
    apply (follows_mono _ (λ _ _, True)); [done|]. apply (steady_fine (λ _, True)); [unfold releaseClaim; eauto with steady|done].
Qed.

Lemma fine_send held p attached g : mti_fits p → fine (send traceID held p attached) g.
Proof.
  intros Hmti. unfold send. cbv zeta. apply (fine_hlift (λ _, True)); [|done|].
  { unfold finalizeFields. apply steady_bindE; [apply lasting_True|by apply steady_db|]. intros merchant.
    apply steady_bindE; [apply lasting_True|apply steady_attach, lasting_True|]. intros f. apply steady_Ret. }
  intros [merchant f] g1 _.
  assert (Htell : ∀ (txn : AdvTransaction) rrn g,
    fine (hbind (heff (EBroadcast (BroadcastAdvTransaction eventCreated txn))) (λ _, hret txn) rrn) g) by by intros; apply fine_heff.
  apply fine_hbind. cbn [linkUp with_params]. case_if.
  - unfold hlift. apply follows_pbind. unfold recordLinkDown, describe. apply follows_pbind.
    apply (follows_after (λ _, True)); [by apply steady_trigger|done|]. intros now g2 _. cbn [follows wp]. apply wp_bindE.
    eapply follows_mono; [|apply (follows_insert (QInsert _)); [by left|by unfold may_insert; pick_state]].
    intros [id|e] g' _; [|done]. apply Htell.
  - eapply follows_mono; [|apply fine_sendAndRecord; exact Hmti]. intros [[txn|e] rrn] g' _; [apply Htell|done].
Qed.

Lemma fine_withCard card k attached g :
  (∀ c masked stan up now rrn attached g, fine (k c masked stan up now rrn attached) g) →
  fine (withCard cards card k attached) g.
Proof.
  intros Hk. unfold withCard. destruct (Resolve cards (a_CardToken card)) as [c|]; [|done].
  apply (fine_hlift (λ _, True)); [unfold nextSTAN; eauto 8 with steady|done|]. intros [stan up] g1 _.
  apply fine_heff; [done|]. intros now. apply Hk.
Qed.

Lemma fine_createCompletion original req held attached g : fine (createCompletion traceID original req held attached) g.
Proof.
  unfold createCompletion. apply (fine_hlift (λ _, True)); [by apply steady_db|done|]. intros preAuth g1 _.
  case_if; [done|]. case_if; [done|]. apply (fine_hlift (λ _, True)); [unfold nextSTAN; eauto 8 with steady|done|].
  intros [stan up] g2 _. apply fine_heff; [done|]. intros now. by apply fine_send.
Qed.

Lemma fine_Create req key g : fine (Create cards marshal_adv unmarshal_adv hash_adv traceID req key) g.
Proof.
  destruct req; unfold Create, CreatePreAuth, CreateRefund, CreateBalanceInquiry, CreateCompletion, idempotent;
    (apply fine_Idempotent; [|intros f rrn [= <-]; unfold fromLog; eauto with steady]); intros held g';
    first [apply fine_createCompletion|apply fine_withCard; intros; by apply fine_send].
Qed.
End advanced.

(** *** Background work *)

Section background.
Context (cards : CardTokenRegistry) (backoff : Backoff).

Lemma steady_MarkAckedAnnounced P id : lasting P → steady_if P (MarkAckedAnnounced id).
Proof. intros HL. unfold MarkAckedAnnounced, announceAck, BroadcastUpdate. eauto 15 with steady. Qed.

Lemma steady_delay P n : steady_if P (delay backoff n).
Proof. unfold delay. case_if; [apply steady_Ret|by apply steady_trigger]. Qed.

Lemma steady_reschedule row why : steady (waitForLink backoff row why) ∧ steady (retryLater backoff row why).
Proof.
  split; unfold waitForLink, retryLater; [|case_if; [by apply steady_db|]];
    (apply steady_pbind; [apply lasting_True|by apply steady_trigger|]; intros now;
     apply steady_pbind; [apply lasting_True|apply steady_delay|]; intros d; by apply steady_db).
Qed.

Lemma steady_deliverRow row : steady (deliverRow cards encKey backoff row).
Proof.
  pose proof lasting_True as HL. pose proof (λ why, proj1 (steady_reschedule row why)) as Hw.
  pose proof (λ why, proj2 (steady_reschedule row why)) as Hr.
  unfold deliverRow. destruct (decodePayload encKey (Payload row)) as [adv|e]; [|apply steady_Ret].
  apply steady_pbind; [done| |intros [adv'|e]; [|case_if; [apply Hw|apply steady_Ret]]].
  { unfold assignNetworkIdentity. case_if; [apply steady_Ret|]. apply steady_pbind; [done|by apply steady_trigger|].
    intros [stan|]; [|apply steady_Ret]. apply steady_pbind; [done|by apply steady_trigger|]. intros now.
    apply steady_bindE; [done|apply steady_seal|]. intros payload. eauto with steady. }
  apply steady_pbind; [done|unfold frame; eauto with steady|]. intros [f|e]; [|by apply steady_db].
  unfold sendFrame. apply steady_pbind; [done|apply steady_send|]. intros [resp|e]; [|case_if; [apply Hw|apply Hr]].
  unfold settle. case_if; [apply Hw|]. case_if; [apply Hr|]. apply steady_pbind; [done|by apply steady_verify|].
  intros []; [by apply steady_MarkAckedAnnounced|apply Hr].
Qed.

Lemma fine_deliverOnce g : fine (deliverOnce cards encKey backoff) g.
Proof.
  apply (steady_fine (λ _, True)); [|done]. unfold deliverOnce. apply steady_pbind; [apply lasting_True|by apply steady_db|].
  intros [due|e]; [|apply steady_Ret]. induction due as [|row due IH]; [apply steady_Ret|].
  cbn [deliverAll]. apply steady_pbind; [apply lasting_True|apply steady_deliverRow|]. intros _. exact IH.
Qed.

(** The sweeper acts on rows in the states [FindOrphans] selects. *)
Lemma steady_owe row : Status row = statusTimedOut → steady_if (knows (ID row) (Type_ row)) (owe row).
Proof.
  intros Hs. unfold owe. change "BALANCE" with tranTypeBalance. change "COMPLETION" with tranTypeCompletion.
  destruct (String.eqb (Type_ row) tranTypeBalance) eqn:Eb; [apply steady_Ret|].
  destruct (String.eqb (Type_ row) tranTypeCompletion) eqn:Ec.
  - apply String.eqb_eq in Ec. rewrite Ec. case_if; [apply steady_Ret|]. apply (steady_QueueAdvice encKey).
  - assert (Hr : reversible (Type_ row) = true) by by unfold reversible; rewrite Eb, Ec.
    apply (steady_Queue encKey); [done|]. apply mv_owed; [done|]. rewrite Hs. pick_state.
Qed.

Lemma steady_followUp row : orphaned row → steady_if (knows (ID row) (Type_ row)) (followUp row).
Proof.
  intros Ho. unfold followUp. destruct (String.eqb (Status row) statusDeclined) eqn:Ed.
  - apply String.eqb_eq in Ed. assert (Hr : reversible (Type_ row) = true).
    { destruct Ho as [Ho|[Ho|[_ Ho]]]; [by rewrite Ho in Ed..|done]. }
    apply (steady_Queue encKey); [done|]. apply mv_owed; [done|]. rewrite Ed. pick_state.
  - case_if; [|apply steady_owe; destruct Ho as [Ho|[Ho|[Ho _]]]; by rewrite Ho in *].
    apply steady_bindE; [apply lasting_knows|by apply steady_db|]. intros []; [|apply steady_Ret].
    by apply (steady_owe (set_state row statusTimedOut)).
Qed.

Lemma fine_followAll rows errs g :
  Forall orphaned rows → (∀ r, r ∈ rows → knows (ID r) (Type_ r) g) → fine (followAll rows errs) g.
Proof.
  revert errs g. induction rows as [|row rows IH]; intros errs g Ho Hk; cbn [followAll]; [by destruct errs|].
  apply Forall_cons in Ho as [Hrow Ho]. apply (fine_after (knows (ID row) (Type_ row))).
  - by apply steady_followUp.
  - apply Hk. by left.
  - intros r g' Hg. apply IH; [done|]. intros r' Hr'. apply Hg, Hk. by right.
Qed.

Lemma fine_SweepOnce age g : fine (SweepOnce age) g.
Proof.
  unfold SweepOnce. apply (fine_after (λ _, True)); [by apply steady_trigger|done|]. intros now g1 _. apply wp_bindE.
  split; [done|]. intros [rows|e] g2; cbn [learns learns_db]; [|done]. intros [-> Ho]. apply fine_followAll; [done|].
  intros r Hr. unfold knows, learn. cbn [g_known]. apply elem_of_app. left.
  apply list_elem_of_In, (in_map (λ r, (ID r, Type_ r))), list_elem_of_In, Hr.
Qed.
End background.
End purchases.

(** ** The gateway refines the ledger *)

Section gateway.
Context {H : Module_} {C : Calendar} {J : AdviceJSON} (cards : CardTokenRegistry).
Context (marshal_txn : Transaction → string) (unmarshal_txn : string → option Transaction)
        (marshal_req : PurchaseRequest → string) (sha256Hex : string → string)
        (marshal_adv : AdvTransaction → string) (unmarshal_adv : string → option AdvTransaction)
        (hash_adv : hashed → string) (encKey : string) (backoff : Backoff) (age : duration).
#[local] Instance gateway_queue : SAFQueuer := saf_queuer encKey.

Local Abbreviation start :=
  (pool_of cards marshal_txn unmarshal_txn marshal_req sha256Hex marshal_adv unmarshal_adv hash_adv encKey backoff age).

Lemma start_ok jobs w : skeleton_ok (skeleton_of (w_db w)) → pool_ok (start jobs w) (λ _, mkGhost None []).
Proof.
  intros Hok. split; [exact Hok| |by intros]. intros i t. cbn [threads pool_of]. rewrite lookup_fmap.
  destruct (jobs !! i) as [j|]; [|done]. intros [= <-]. split.
  - destruct j; cbn [start_job t_prog].
    + apply fine_CreatePurchase.
    + apply fine_CancelPurchase.
    + apply fine_Create.
    + apply fine_deliverOnce.
    + apply fine_SweepOnce.
  - split; [done|]. intros id kind []%elem_of_nil.
Qed.

Definition final_world (jobs : gmap nat job) (w : World) (sched : list (nat * choice)) : World :=
  world (pool_run sched (start jobs w)).
Definition final_db (jobs : gmap nat job) (w : World) (sched : list (nat * choice)) : DB := w_db (final_world jobs w sched).

Lemma final_ok jobs w sched :
  skeleton_ok (skeleton_of (w_db w)) →
  rtc ledger_step (ledger (w_db w)) (ledger (final_db jobs w sched)) ∧ skeleton_ok (skeleton_of (final_db jobs w sched)).
Proof. intros Hok. exact (pool_run_refines sched _ _ (start_ok jobs w Hok)). Qed.

Lemma final_world_ok jobs w sched :
  skeleton_ok (skeleton_of (w_db w)) → skeleton_ok (skeleton_of (w_db (final_world jobs w sched))).
Proof. intros Hok. exact (proj2 (final_ok jobs w sched Hok)). Qed.

(** C2. The refinement.  From a database that meets its invariant, run any purchases, cancellations,
    pre-authorizations, completions, refunds, balance inquiries, deliveries and sweeps at once, call by
    call in any order, every call with any outcome, lost answers included, and stop anywhere: what was
    done to tran_log and saf_queue is a run of the ledger.  Accounts are opened CREATED or DECLINED and
    move one allowed step at a time; what identifies them and their amount never changes; a reversal is
    queued exactly when an account moves to REVERSAL_PENDING.  The invariant holds again at the end. *)
Theorem gateway_refines_ledger jobs w sched :
  skeleton_ok (skeleton_of (w_db w)) →
  rtc ledger_step (ledger (w_db w)) (ledger (final_db jobs w sched)) ∧ skeleton_ok (skeleton_of (final_db jobs w sched)).
Proof. apply final_ok. Qed.

Lemma saf_kind_lookup d sid s : saf d !! sid = Some s → k_saf (skeleton_of d) !! sid = Some (TranID s, s_mti s).
Proof. intros Hs. unfold skeleton_of. cbn [k_saf]. by rewrite lookup_fmap, Hs. Qed.

(** The reversal advices of a row, counted. *)
Lemma reversals_elem d sid s :
  saf d !! sid = Some s → s_mti s = mtiReversalAdvice →
  sid ∈ dom (filter (λ kv : Z * (Z * string), kv.2 = (TranID s, mtiReversalAdvice)) (k_saf (skeleton_of d))).
Proof.
  intros Hs%saf_kind_lookup Hm. apply elem_of_dom. exists (TranID s, s_mti s).
  apply map_lookup_filter_Some. split; [done|]. cbn. by rewrite Hm.
Qed.

Lemma reversals_row d id r :
  skeleton_ok (skeleton_of d) → tran d !! id = Some r →
  reversals (k_saf (skeleton_of d)) id = if being_reversed (Status r) then 1%nat else O.
Proof.
  intros Hok Hr%skeleton_row. pose proof (ko_ledger _ Hok id) as Ha. rewrite ledger_of_lookup, Hr in Ha. exact (Ha _ eq_refl).
Qed.

(** C1. No money is given back twice.  However purchases, cancellations, the SAF worker and the sweeper
    race, and whichever of their calls fail or lose their answer, a transaction never has two 0420
    advices in the queue, and has one exactly when it is REVERSAL_PENDING or REVERSED. *)
Theorem reversed_at_most_once jobs w sched :
  skeleton_ok (skeleton_of (w_db w)) →
  let d := final_db jobs w sched in
  (∀ sid1 sid2 s1 s2, saf d !! sid1 = Some s1 → saf d !! sid2 = Some s2 → s_mti s1 = mtiReversalAdvice →
     s_mti s2 = mtiReversalAdvice → TranID s1 = TranID s2 → sid1 = sid2) ∧
  ∀ id r, tran d !! id = Some r →
    ((∃ sid s, saf d !! sid = Some s ∧ s_mti s = mtiReversalAdvice ∧ TranID s = id) ↔
     Status r = statusReversalPending ∨ Status r = statusReversed).
Proof.
  intros Hok d. destruct (final_ok jobs w sched Hok) as [_ Hd]. fold d in Hd. split.
  - intros sid1 sid2 s1 s2 H1 H2 Hm1 Hm2 Ht.
    destruct (ko_saf _ Hd sid1 _ _ (saf_kind_lookup _ _ _ H1)) as (_ & x & (r & Hr & _)%skeleton_row_inv & _).
    pose proof (reversals_row d _ r Hd Hr) as Hn. unfold reversals in Hn.
    pose proof (reversals_elem d sid1 s1 H1 Hm1) as E1. pose proof (reversals_elem d sid2 s2 H2 Hm2) as E2. rewrite <- Ht in E2.
    set (m := filter _ _) in *. destruct (being_reversed (Status r)).
    + apply (size_singleton_inv (dom m)); [by rewrite size_dom|done|done].
    + apply map_size_empty_iff in Hn. rewrite Hn in E1. set_solver.
  - intros id r Hr. pose proof (reversals_row d id r Hd Hr) as Hn. unfold being_reversed in Hn. split.
    + intros (sid & s & Hs & Hm & <-). pose proof (reversals_elem d sid s Hs Hm) as He. unfold reversals in Hn.
      destruct (_ || _) eqn:E; [apply orb_true_iff in E as [E%String.eqb_eq|E%String.eqb_eq]; tauto|].
      apply map_size_empty_iff in Hn. rewrite Hn in He. set_solver.
    + intros Hst. assert (Hb : String.eqb (Status r) statusReversalPending || String.eqb (Status r) statusReversed = true).
      { apply orb_true_iff. destruct Hst as [-> | ->]; [by left|by right]. }
      rewrite Hb in Hn. unfold reversals in Hn. set (m := filter _ _) in *.
      destruct (map_choose m) as (sid & [tid mt] & Hin); [intros Hm; by rewrite Hm, map_size_empty in Hn|].
      apply map_lookup_filter_Some in Hin as [Hin [= -> ->]]. unfold skeleton_of in Hin. cbn [k_saf] in Hin.
      apply lookup_fmap_Some in Hin as (s & [= <- <-] & Hs). by exists sid, s.
Qed.

(** C10. What a row becomes.  A row there at the start is there at the end with its kind, RRN, amount,
    currency, terminal, merchant and card; its state has followed the allowed moves of its kind, REVERSED
    being final; and every transition ever recorded in tran_state_history is an allowed move. *)
Theorem rows_follow_lifecycle jobs w sched id r :
  skeleton_ok (skeleton_of (w_db w)) → tran (w_db w) !! id = Some r →
  let d := final_db jobs w sched in
  (∃ r', tran d !! id = Some r' ∧ account_of r' = with_state (account_of r) (Status r') O ∧
     rtc (state_step (Type_ r)) (Status r) (Status r') ∧ (Status r = statusReversed → Status r' = statusReversed)) ∧
  ∀ i st, (i, st) ∈ history d → ∃ r', tran d !! i = Some r' ∧ state_step (Type_ r') (FromStatus st) (ToStatus st).
Proof.
  intros Hok Hr d. destruct (final_ok jobs w sched Hok) as [Hrun Hd]. fold d in Hrun, Hd. split.
  - destruct (ledger_evolves _ _ id (with_state (account_of r) (Status r) (reversals (k_saf (skeleton_of (w_db w))) id)) Hrun)
      as (a & Ha & [Hfix Hpath]).
    { unfold ledger. rewrite ledger_of_lookup. by rewrite (skeleton_row _ _ _ Hr). }
    unfold ledger in Ha. rewrite ledger_of_lookup in Ha. destruct (k_rows (skeleton_of d) !! id) as [x|] eqn:Ex; [|done].
    apply skeleton_row_inv in Ex as (r' & Hr' & ->). injection Ha as <-. exists r'. split_and!; [done| |exact Hpath|].
    + injection Hfix as E1 E2 E3 E4 E5 E6. unfold account_of, with_state. cbn. congruence.
    + intros Hrev. cbn in Hpath. rewrite Hrev in Hpath. by apply reversed_for_good in Hpath.
  - intros i st (x & (r' & Hr' & ->)%skeleton_row_inv & Hs)%(ko_history _ Hd). by exists r'.
Qed.
End gateway.

(** ** Two purchases without an answer, the worker and the sweeper *)

Lemma demo_world_ok : skeleton_ok (skeleton_of (w_db demo_world)).
Proof.
  assert (skeleton_of (w_db demo_world) = mkSkeleton ∅ 1 ∅ 1 []) as ->.
  { unfold skeleton_of. cbn [w_db demo_world tran saf next_tran next_saf history demo_db]. by rewrite !fmap_empty. }
  split; cbn [k_rows k_saf k_history].
  - intros id x Hx. by rewrite lookup_empty in Hx.
  - intros sid tid m Hx. by rewrite lookup_empty in Hx.
  - intros id a. by rewrite ledger_of_lookup.
  - by intros id st []%elem_of_nil.
Qed.

Definition demo_rivals : gmap nat job :=
  {[ 0%nat := JPurchase "trace-0" demo_request "key-1"; 1%nat := JPurchase "trace-1" demo_request "key-2";
     2%nat := JDeliver; 3%nat := JSweep; 4%nat := JSweep ]}.

(** Calls in turn, nobody answering. *)
Definition demo_turns (n : nat) : list (nat * choice) :=
  concat (repeat [(0%nat, quiet); (1%nat, quiet); (2%nat, quiet); (3%nat, quiet); (4%nat, quiet)] n).

Definition demo_final (jobs : gmap nat job) (w : World) (sched : list (nat * choice)) : DB :=
  @final_db demo_module demo_calendar demo_json demo_cards x_RRN (λ _, None) p_CardToken id y_RRN (λ _, None) (λ _, "")
    "" demo_backoff Minute jobs w sched.

(** The gateway stops while the purchases wait; after two minutes another one sweeps. *)
Definition demo_midway : World :=
  @final_world demo_module demo_calendar demo_json demo_cards x_RRN (λ _, None) p_CardToken id y_RRN (λ _, None) (λ _, "")
    "" demo_backoff Minute demo_rivals demo_world (demo_turns 12).
Definition demo_sweeper : gmap nat job := {[ 0%nat := JSweep ]}.
Definition demo_sweep : list (nat * choice) :=
  (0%nat, mkChoice Done (c_resp quiet) true (2 * Minute) 0 (c_nonce quiet)) :: repeat (0%nat, quiet) 12.

Lemma demo_midway_ok : skeleton_ok (skeleton_of (w_db demo_midway)).
Proof.
  exact (@final_world_ok demo_module demo_calendar demo_json demo_cards x_RRN (λ _, None) p_CardToken id y_RRN (λ _, None)
    (λ _, "") "" demo_backoff Minute demo_rivals demo_world (demo_turns 12) demo_world_ok).
Qed.

Definition states_of (d : DB) : list (Z * string) := map (λ kv : Z * TranLogRow, (kv.1, Status kv.2)) (by_id (tran d)).

Lemma gateway_refines_ledger_witness :
  states_of (demo_final demo_rivals demo_world (demo_turns 20)) = [(1, statusReversalPending); (2, statusReversalPending)] ∧
  rtc ledger_step (ledger (w_db demo_world)) (ledger (demo_final demo_rivals demo_world (demo_turns 20))).
Proof.
  split; [vm_compute; reflexivity|].
  unfold demo_final. exact (proj1 (@gateway_refines_ledger demo_module demo_calendar demo_json demo_cards x_RRN (λ _, None) p_CardToken id y_RRN
    (λ _, None) (λ _, "") "" demo_backoff Minute demo_rivals demo_world (demo_turns 20) demo_world_ok)).
Defined.

Lemma reversed_at_most_once_witness :
  let d := demo_final demo_sweeper demo_midway demo_sweep in
  states_of d = [(1, statusReversalPending); (2, statusReversalPending)] ∧
  ∀ id r, tran d !! id = Some r →
    ((∃ sid s, saf d !! sid = Some s ∧ s_mti s = mtiReversalAdvice ∧ TranID s = id) ↔
     Status r = statusReversalPending ∨ Status r = statusReversed).
Proof.
  split; [vm_compute; reflexivity|]. unfold demo_final.
  exact (proj2 (@reversed_at_most_once demo_module demo_calendar demo_json demo_cards x_RRN (λ _, None) p_CardToken id y_RRN
    (λ _, None) (λ _, "") "" demo_backoff Minute demo_sweeper demo_midway demo_sweep demo_midway_ok)).
Defined.

Definition demo_sent_row : TranLogRow := default demo_orphan (tran (w_db demo_midway) !! 1).

Lemma rows_follow_lifecycle_witness :
  Status demo_sent_row = statusSent ∧
  ∃ r', tran (demo_final demo_sweeper demo_midway demo_sweep) !! 1 = Some r' ∧
    account_of r' = with_state (account_of demo_sent_row) (Status r') O ∧
    rtc (state_step (Type_ demo_sent_row)) (Status demo_sent_row) (Status r').
Proof.
  split; [vm_compute; reflexivity|].
  assert (Hr : tran (w_db demo_midway) !! 1 = Some demo_sent_row) by (vm_compute; reflexivity).
  unfold demo_final. destruct (@rows_follow_lifecycle demo_module demo_calendar demo_json demo_cards x_RRN (λ _, None) p_CardToken id y_RRN
    (λ _, None) (λ _, "") "" demo_backoff Minute demo_sweeper demo_midway demo_sweep 1 demo_sent_row demo_midway_ok Hr)
    as [(r' & Hr' & Ha & Hp & _) _].
  exists r'. exact (conj Hr' (conj Ha Hp)).
Defined.
